(** * Art-grid generators: seeded procedural rendering

    A shallow embedding of the two art-grid generators of the repository,

    - [ComfyUI_PNGArtGridGeneratorNode.py], the raster generator built on
      Pillow (module [Raster] below), and
    - [SVG_ArtGrid.py], the vector generator built on svgwrite (module
      [Vector] below),

    with the properties of the specification stated over it.

    Modelling conventions.

    - Python [int] is [Z]; Python [float] is modelled by the exact
      rationals [Q] (no rounding); [int(x)] truncates toward zero.
    - Python [str] is [string], restricted to ASCII.
    - The module-level generator of [random] is an explicit state that is
      threaded through every call; exceptions are an error result.
    - Pillow and svgwrite are not part of the repository; the drawing
      calls made on them are recorded, in order and with their arguments,
      as the artifact under construction. *)

From Stdlib Require Import ZArith QArith Qround Qminmax Lqa List String Ascii Bool Lia.
Import ListNotations.

Local Open Scope Z_scope.

(* ===================================================================== *)
(** * Python values and exceptions *)
(* ===================================================================== *)

Inductive exn : Type :=
| ValueError
| IndexError
| TypeError
| AttributeError
| ZeroDivisionError.

Inductive result (A : Type) : Type :=
| Ok (a : A)
| Raise (e : exn).

Arguments Ok {A} a.
Arguments Raise {A} e.

Definition rbind {A B : Type} (r : result A) (f : A -> result B) : result B :=
  match r with
  | Ok a => f a
  | Raise e => Raise e
  end.

Definition is_ok {A : Type} (r : result A) : bool :=
  match r with Ok _ => true | Raise _ => false end.

(** A palette entry as it can come out of a JSON file: a string, or some
    other value ([isinstance(c, str)] is false on it). *)
Inductive entry : Type :=
| Str (s : string)
| NonStr.

Definition palette := list entry.

Definition rgba : Type := Z * Z * Z * Z.

(* ===================================================================== *)
(** * String helpers *)
(* ===================================================================== *)

Module PyStr.

Local Open Scope string_scope.

Definition len (s : string) : Z := Z.of_nat (String.length s).

(** [s.startswith("#")] *)
Definition startswith_hash (s : string) : bool :=
  match s with
  | String c _ => Ascii.eqb c "#"
  | EmptyString => false
  end.

(** [s.lstrip('#')]: every leading ['#'] is removed. *)
Fixpoint lstrip_hash (s : string) : string :=
  match s with
  | String c rest => if Ascii.eqb c "#" then lstrip_hash rest else s
  | EmptyString => EmptyString
  end.

(** ["".join([c*2 for c in s])] *)
Fixpoint double_chars (s : string) : string :=
  match s with
  | String c rest => String c (String c (double_chars rest))
  | EmptyString => EmptyString
  end.

(** The slice [s[i:j]] for [0 <= i <= j]. *)
Definition slice (i j : nat) (s : string) : string :=
  String.substring i (j - i) s.

(** The ASCII characters [str.strip()] treats as white space, and those
    [int()] skips around an ASCII literal. *)
Definition is_space (c : ascii) : bool :=
  let n := nat_of_ascii c in
  ((9 <=? n) && (n <=? 13) || (28 <=? n) && (n <=? 32))%nat.

Definition is_literal_space (c : ascii) : bool :=
  let n := nat_of_ascii c in
  ((9 <=? n) && (n <=? 13) || (n =? 32))%nat.

Fixpoint lstrip_with (space : ascii -> bool) (s : string) : string :=
  match s with
  | String c rest => if space c then lstrip_with space rest else s
  | EmptyString => EmptyString
  end.

Fixpoint rev_string (s : string) (acc : string) : string :=
  match s with
  | String c rest => rev_string rest (String c acc)
  | EmptyString => acc
  end.

Definition strip_with (space : ascii -> bool) (s : string) : string :=
  rev_string (lstrip_with space (rev_string (lstrip_with space s) "")) "".

(** [s.strip()] *)
Definition strip (s : string) : string := strip_with is_space s.

(** [s.split(',')]: never empty, the pieces between the commas. *)
Fixpoint split_comma_aux (s : string) (cur : string) : list string :=
  match s with
  | String c rest =>
      if Ascii.eqb c ","
      then rev_string cur "" :: split_comma_aux rest ""
      else split_comma_aux rest (String c cur)
  | EmptyString => [rev_string cur ""]
  end.

Definition split_comma (s : string) : list string := split_comma_aux s "".

(** [s.isdigit()], on ASCII: non-empty and only decimal digits.  Beyond
    ASCII Python also accepts digits that are not decimal, which [int]
    rejects. *)
Definition is_decimal (c : ascii) : bool :=
  let n := nat_of_ascii c in ((48 <=? n) && (n <=? 57))%nat.

Fixpoint all_decimal (s : string) : bool :=
  match s with
  | String c rest => is_decimal c && all_decimal rest
  | EmptyString => true
  end.

Definition isdigit (s : string) : bool :=
  match s with
  | EmptyString => false
  | _ => all_decimal s
  end.

(** The value of a hexadecimal digit, either case. *)
Definition hex_value (c : ascii) : option Z :=
  let n := Z.of_nat (nat_of_ascii c) in
  if ((48 <=? n) && (n <=? 57))%Z then Some (n - 48)
  else if ((65 <=? n) && (n <=? 70))%Z then Some (n - 55)
  else if ((97 <=? n) && (n <=? 102))%Z then Some (n - 87)
  else None.

(** The digits of [int(s, base)] once white space, sign and prefix are
    gone: digits of the base, single underscores allowed between two
    digits only.  [prev_us] tells whether the previous character was an
    underscore, [seen] whether a digit has been read. *)
Fixpoint digits (base : Z) (s : string) (acc : Z) (prev_us seen : bool)
  : option Z :=
  match s with
  | EmptyString => if prev_us || negb seen then None else Some acc
  | String c rest =>
      if Ascii.eqb c "_" then
        if prev_us || negb seen then None
        else digits base rest acc true seen
      else
        match hex_value c with
        | Some d =>
            if (d <? base)%Z then digits base rest (acc * base + d) false true
            else None
        | None => None
        end
  end.

Definition strip_sign (s : string) : bool * string :=
  match s with
  | String c rest =>
      if Ascii.eqb c "-" then (true, rest)
      else if Ascii.eqb c "+" then (false, rest)
      else (false, s)
  | EmptyString => (false, s)
  end.

(** After the prefix [0x] one underscore may come before the digits. *)
Definition strip_0x (s : string) : string :=
  match s with
  | String c0 (String c1 rest) =>
      if Ascii.eqb c0 "0" && (Ascii.eqb c1 "x" || Ascii.eqb c1 "X")
      then match rest with
           | String c2 rest' => if Ascii.eqb c2 "_" then rest' else rest
           | EmptyString => rest
           end
      else s
  | _ => s
  end.

(** [int(s, 16)]; [ValueError] when [s] is not a hexadecimal literal. *)
Definition int16 (s : string) : result Z :=
  let '(neg, body) := strip_sign (strip_with is_literal_space s) in
  match digits 16 (strip_0x body) 0 false false with
  | Some v => Ok (if neg then - v else v)
  | None => Raise ValueError
  end.

(** [int(s)] in base ten, on ASCII text of no more digits than the
    interpreter converts (4300 unless configured otherwise); beyond that
    Python raises [ValueError]. *)
Definition int10 (s : string) : result Z :=
  let '(neg, body) := strip_sign (strip_with is_literal_space s) in
  match digits 10 body 0 false false with
  | Some v => Ok (if neg then - v else v)
  | None => Raise ValueError
  end.

Definition hex_upper (d : Z) : ascii :=
  nth (Z.to_nat d)
    ["0"; "1"; "2"; "3"; "4"; "5"; "6"; "7";
     "8"; "9"; "A"; "B"; "C"; "D"; "E"; "F"]%char "0"%char.

Definition hex_lower (d : Z) : ascii :=
  nth (Z.to_nat d)
    ["0"; "1"; "2"; "3"; "4"; "5"; "6"; "7";
     "8"; "9"; "a"; "b"; "c"; "d"; "e"; "f"]%char "0"%char.

(** The hexadecimal digits of [n >= 0], most significant first. *)
Fixpoint hex_digits (digit : Z -> ascii) (fuel : nat) (n : Z) (acc : string)
  : string :=
  let acc' := String (digit (n mod 16)) acc in
  match fuel with
  | O => acc'
  | S fuel' =>
      if (n / 16 =? 0)%Z then acc' else hex_digits digit fuel' (n / 16) acc'
  end.

(** [format(n, "02X")] and [format(n, "02x")]: sign, then the digits,
    padded with a zero to two characters in all. *)
Definition fmt_02 (digit : Z -> ascii) (n : Z) : string :=
  let ds := hex_digits digit (Z.to_nat (Z.log2 (Z.abs n))) (Z.abs n) "" in
  if (n <? 0)%Z then String "-" ds
  else if (String.length ds <? 2)%nat then String "0" ds
  else ds.

Definition fmt_02X : Z -> string := fmt_02 hex_upper.
Definition fmt_02x : Z -> string := fmt_02 hex_lower.

(** [f"#{r:02X}{g:02X}{b:02X}"] *)
Definition hex_color_upper (r g b : Z) : string :=
  "#" ++ fmt_02X r ++ fmt_02X g ++ fmt_02X b.

Definition hex_color_lower (r g b : Z) : string :=
  "#" ++ fmt_02x r ++ fmt_02x g ++ fmt_02x b.

End PyStr.

(** [isinstance(c, str) and c.startswith("#") and len(c.lstrip('#')) in [3,6]]:
    the test both [get_two_colors] and [pil_get_two_colors] filter the
    palette with. *)
Definition is_valid_color (c : entry) : bool :=
  match c with
  | Str s =>
      PyStr.startswith_hash s &&
      (let n := PyStr.len (PyStr.lstrip_hash s) in (n =? 3) || (n =? 6))
  | NonStr => false
  end.

(** [[c for c in color_palette if ...]]: the entries that pass the test,
    all of them strings. *)
Definition valid_colors (color_palette : palette) : list string :=
  flat_map (fun c => match c with
                     | Str s => if is_valid_color c then [s] else []
                     | NonStr => []
                     end) color_palette.

(** [[c for c in valid_colors if c != background]] *)
Definition remaining_colors (valid : list string) (background : string)
  : list string :=
  filter (fun c => negb (String.eqb c background)) valid.

(** [hex_to_rgba(hex_color, alpha)] of the raster generator.  A value
    that is not a string has no [lstrip]. *)
Definition hex_to_rgba_str (hex_color : string) (alpha : Z) : result rgba :=
  let hex_color := PyStr.lstrip_hash hex_color in
  let hex_color :=
    if PyStr.len hex_color =? 3 then PyStr.double_chars hex_color
    else hex_color in
  if negb (PyStr.len hex_color =? 6) then Ok (0, 0, 0, alpha)
  else
    rbind (PyStr.int16 (PyStr.slice 0 2 hex_color)) (fun r =>
    rbind (PyStr.int16 (PyStr.slice 2 4 hex_color)) (fun g =>
    rbind (PyStr.int16 (PyStr.slice 4 6 hex_color)) (fun b =>
    Ok (r, g, b, alpha)))).

Definition hex_to_rgba (hex_color : entry) (alpha : Z) : result rgba :=
  match hex_color with
  | Str s => hex_to_rgba_str s alpha
  | NonStr => Raise AttributeError
  end.

(* ===================================================================== *)
(** * Numbers *)
(* ===================================================================== *)

Module PyNum.

Local Open Scope Q_scope.

Definition Qltb (a b : Q) : bool := negb (Qle_bool b a).

(** [int(x)] on a float: truncation toward zero. *)
Definition trunc (x : Q) : Z := Z.quot (Qnum x) (Zpos (Qden x)).

(** [max(a, b)] and [min(a, b)]: the first argument unless the second is
    strictly larger, respectively strictly smaller. *)
Definition max (a b : Q) : Q := if Qltb a b then b else a.
Definition min (a b : Q) : Q := if Qltb b a then b else a.

(** [x % 1.0] *)
Definition mod1 (x : Q) : Q := x - inject_Z (Qfloor x).

(** [a / b] with a divisor that is not a literal. *)
Definition div (a b : Q) : result Q :=
  if Qeq_bool b 0 then Raise ZeroDivisionError else Ok (a / b).

(** [round(x, ndigits)] with [scale = 10 ** ndigits]: to the nearest
    multiple of [1 / scale], ties to the even one. *)
Definition round_to (scale : Z) (x : Q) : Q :=
  let y := x * inject_Z scale in
  let f := Qfloor y in
  let d := y - inject_Z f in
  let n :=
    if Qltb d (1 # 2) then f
    else if Qltb (1 # 2) d then (f + 1)%Z
    else if Z.even f then f else (f + 1)%Z in
  inject_Z n / inject_Z scale.

End PyNum.

(* ===================================================================== *)
(** * The [colorsys] conversions *)
(* ===================================================================== *)

Module colorsys.

Local Open Scope Q_scope.
Import PyNum.

Definition ONE_THIRD : Q := 1 / 3.
Definition ONE_SIXTH : Q := 1 / 6.
Definition TWO_THIRD : Q := 2 / 3.

Definition rgb_to_hls (r g b : Q) : result (Q * Q * Q) :=
  let maxc := max (max r g) b in
  let minc := min (min r g) b in
  let sumc := maxc + minc in
  let rangec := maxc - minc in
  let l := sumc / 2 in
  if Qeq_bool minc maxc then Ok (0, l, 0)
  else
    rbind (if Qle_bool l (1 # 2) then div rangec sumc
           else div rangec (2 - maxc - minc)) (fun s =>
    rbind (div (maxc - r) rangec) (fun rc =>
    rbind (div (maxc - g) rangec) (fun gc =>
    rbind (div (maxc - b) rangec) (fun bc =>
    let h :=
      if Qeq_bool r maxc then bc - gc
      else if Qeq_bool g maxc then 2 + rc - bc
      else 4 + gc - rc in
    Ok (mod1 (h / 6), l, s))))).

Definition _v (m1 m2 hue : Q) : Q :=
  let hue := mod1 hue in
  if Qltb hue ONE_SIXTH then m1 + (m2 - m1) * hue * 6
  else if Qltb hue (1 # 2) then m2
  else if Qltb hue TWO_THIRD then m1 + (m2 - m1) * (TWO_THIRD - hue) * 6
  else m1.

Definition hls_to_rgb (h l s : Q) : Q * Q * Q :=
  if Qeq_bool s 0 then (l, l, l)
  else
    let m2 := if Qle_bool l (1 # 2) then l * (1 + s) else l + s - l * s in
    let m1 := 2 * l - m2 in
    (_v m1 m2 (h + ONE_THIRD), _v m1 m2 h, _v m1 m2 (h - ONE_THIRD)).

End colorsys.

(** The part of [create_background_colors] and
    [pil_create_background_colors] after the two colours are read: the
    channels are averaged, the mix is desaturated by 0.1, and lightened
    and darkened by 0.1.  The result is the pair of integer triples
    (inner, outer). *)
Definition mix_background (c1 c2 : Z * Z * Z)
  : result ((Z * Z * Z) * (Z * Z * Z)) :=
  let '(r1, g1, b1) := c1 in
  let '(r2, g2, b2) := c2 in
  let r_mix := (r1 + r2) / 2 in
  let g_mix := (g1 + g2) / 2 in
  let b_mix := (b1 + b2) / 2 in
  let q255 (n : Z) : Q := (inject_Z n / 255)%Q in
  let to255 (x : Q) : Z := PyNum.trunc (x * 255)%Q in
  rbind (colorsys.rgb_to_hls (q255 r_mix) (q255 g_mix) (q255 b_mix))
    (fun '(h, l, s) =>
  let s := PyNum.max 0 (s - (1 # 10))%Q in
  let '(r_desat, g_desat, b_desat) := colorsys.hls_to_rgb h l s in
  let '(r_desat, g_desat, b_desat) :=
    (to255 r_desat, to255 g_desat, to255 b_desat) in
  rbind (colorsys.rgb_to_hls (q255 r_desat) (q255 g_desat) (q255 b_desat))
    (fun '(h_l, l_l, s_l) =>
  let l_light := PyNum.min 1 (l_l + (1 # 10))%Q in
  let '(r_light, g_light, b_light) := colorsys.hls_to_rgb h_l l_light s_l in
  let l_dark := PyNum.max 0 (l_l - (1 # 10))%Q in
  let '(r_dark, g_dark, b_dark) := colorsys.hls_to_rgb h_l l_dark s_l in
  Ok ((to255 r_light, to255 g_light, to255 b_light),
      (to255 r_dark, to255 g_dark, to255 b_dark)))).

(* ===================================================================== *)
(** * The [random] module *)
(* ===================================================================== *)

(** The generator behind the module-level functions of [random]: its
    state, the state [random.seed(n)] installs for an integer [n], and the
    two primitives every other function is written with, [random()] and
    [_randbelow(n)]. *)
Class RandomSource : Type := {
  gen : Type;
  seed_int : Z -> gen;
  next_float : gen -> Q * gen;
  randbelow : Z -> gen -> Z * gen
}.

(** What Python guarantees of the two primitives: [random()] lies in
    [[0, 1)] and [_randbelow(n)] in [[0, n)]. *)
Class RandomSourceSpec (RS : RandomSource) : Prop := {
  next_float_range : forall g, (0 <= fst (next_float g) /\ fst (next_float g) < 1)%Q;
  randbelow_range : forall n g, 0 < n -> 0 <= fst (randbelow n g) < n
}.

(** The functions of [math] the generators call. *)
Class MathLib : Type := {
  sin : Q -> Q;
  pi : Q;
  sqrt : Q -> Q
}.

(** Lines written to standard output. *)
Inductive diagnostic : Type :=
| WarnInvalidSeed
| ErrNoPalette
| WarnBackgroundPalette (e : exn)
| SkipBigBlock (num_rows num_cols multiplier : Z).

Section Effects.

Context {RS : RandomSource}.

(** A computation runs from a state of the generator of [random]; it
    raises, or returns a value, the state it leaves and the lines it has
    printed. *)
Definition M (A : Type) : Type := gen -> result (A * gen * list diagnostic).

Definition ret {A : Type} (a : A) : M A := fun g => Ok (a, g, []).

Definition bind {A B : Type} (m : M A) (f : A -> M B) : M B :=
  fun g =>
    match m g with
    | Ok (a, g', out) =>
        match f a g' with
        | Ok (b, g'', out') => Ok (b, g'', out ++ out')
        | Raise e => Raise e
        end
    | Raise e => Raise e
    end.

Definition raise {A : Type} (e : exn) : M A := fun _ => Raise e.

Definition lift {A : Type} (r : result A) : M A :=
  fun g => match r with Ok a => Ok (a, g, []) | Raise e => Raise e end.

Definition print (d : diagnostic) : M unit := fun g => Ok (tt, g, [d]).

(** [random.seed(n)] and [random.seed()]; the latter installs the state
    the entropy of the operating system yields in this run. *)
Definition seed (n : Z) : M unit := fun _ => Ok (tt, seed_int n, []).

Definition seed_from_os (fresh : gen) : M unit := fun _ => Ok (tt, fresh, []).

(** [random.random()] *)
Definition random : M Q :=
  fun g => let '(x, g') := next_float g in Ok (x, g', []).

Definition _randbelow (n : Z) : M Z :=
  fun g => let '(k, g') := randbelow n g in Ok (k, g', []).

End Effects.

Declare Scope py_scope.
Delimit Scope py_scope with py.

Notation "x <- m ;; k" := (bind m (fun x => k))
  (at level 61, m at next level, right associativity) : py_scope.
Notation "' pat <- m ;; k" := (bind m (fun x => match x with pat => k end))
  (at level 61, pat pattern, m at next level, right associativity) : py_scope.
Notation "m ;; k" := (bind m (fun _ => k))
  (at level 61, right associativity) : py_scope.

Section Random.

Context {RS : RandomSource}.
Local Open Scope py_scope.

(** [random.uniform(a, b)] is [a + (b - a) * random()]. *)
Definition uniform (a b : Q) : M Q :=
  x <- random ;; ret (a + (b - a) * x)%Q.

(** [random.randint(a, b)] is [randrange(a, b + 1)]: [ValueError] on an
    empty range. *)
Definition randint (a b : Z) : M Z :=
  let width := b + 1 - a in
  if 0 <? width then k <- _randbelow width ;; ret (a + k)
  else raise ValueError.

(** [seq[i]] for [i >= 0]. *)
Definition index {A : Type} (l : list A) (i : Z) : result A :=
  if i <? 0 then Raise IndexError
  else match nth_error l (Z.to_nat i) with
       | Some a => Ok a
       | None => Raise IndexError
       end.

(** [random.choice(seq)]: [IndexError] on an empty sequence. *)
Definition choice {A : Type} (l : list A) : M A :=
  match l with
  | [] => raise IndexError
  | _ => k <- _randbelow (Z.of_nat (List.length l)) ;; lift (index l k)
  end.

End Random.

(** [range(n)] and a [for] loop whose body emits drawing calls. *)
Definition range (n : Z) : list Z := map Z.of_nat (seq 0 (Z.to_nat n)).

Section Loops.

Context {RS : RandomSource}.
Local Open Scope py_scope.

Fixpoint for_ {A Op : Type} (l : list A) (body : A -> M (list Op))
  : M (list Op) :=
  match l with
  | [] => ret []
  | a :: rest =>
      ops <- body a ;;
      ops' <- for_ rest body ;;
      ret (ops ++ ops')
  end.

End Loops.

(** [points[i] = p] on a list; [IndexError] out of range. *)
Fixpoint set_item {A : Type} (l : list A) (i : nat) (a : A) : result (list A) :=
  match l, i with
  | [], _ => Raise IndexError
  | _ :: rest, O => Ok (a :: rest)
  | b :: rest, S i' => rbind (set_item rest i' a) (fun rest' => Ok (b :: rest'))
  end.

Definition ALL_POSSIBLE_STYLE_NAMES : list string :=
  ["circle"; "opposite_circles"; "cross"; "half_square";
   "diagonal_square"; "quarter_circle"; "dots"; "letter_block";
   "concentric_circles"; "stripes"; "rotated_shape"; "wavy_lines"]%string.

(** The twelve block styles, the keys of [style_function_map]. *)
Inductive style : Type :=
| circle | opposite_circles | cross | half_square
| diagonal_square | quarter_circle | dots | letter_block
| concentric_circles | stripes | rotated_shape | wavy_lines.

Definition all_styles : list style :=
  [circle; opposite_circles; cross; half_square;
   diagonal_square; quarter_circle; dots; letter_block;
   concentric_circles; stripes; rotated_shape; wavy_lines].

(** [style_function_map.get(name)] *)
Definition style_of_name (name : string) : option style :=
  (if String.eqb name "circle" then Some circle
   else if String.eqb name "opposite_circles" then Some opposite_circles
   else if String.eqb name "cross" then Some cross
   else if String.eqb name "half_square" then Some half_square
   else if String.eqb name "diagonal_square" then Some diagonal_square
   else if String.eqb name "quarter_circle" then Some quarter_circle
   else if String.eqb name "dots" then Some dots
   else if String.eqb name "letter_block" then Some letter_block
   else if String.eqb name "concentric_circles" then Some concentric_circles
   else if String.eqb name "stripes" then Some stripes
   else if String.eqb name "rotated_shape" then Some rotated_shape
   else if String.eqb name "wavy_lines" then Some wavy_lines
   else None)%string.

(** [[style_function_map[name] for name in names if name in style_function_map]],
    and every style when that list is empty. *)
Definition active_styles (names : list string) : list style :=
  let funcs :=
    flat_map (fun name => match style_of_name name with
                          | Some f => [f]
                          | None => []
                          end) names in
  match funcs with
  | [] => all_styles
  | _ => funcs
  end.

Inductive direction : Type := top | right | bottom | left.
Inductive corner : Type := top_left | top_right | bottom_right | bottom_left.
Inductive shape_type : Type := shape_rect | shape_circle | shape_ellipse.

Definition characters : list ascii :=
  ["A"; "B"; "C"; "D"; "E"; "F"; "G"; "H"; "I"; "J"; "K"; "L"; "M";
   "N"; "O"; "P"; "Q"; "R"; "S"; "T"; "U"; "V"; "W"; "X"; "Y"; "Z";
   "0"; "1"; "2"; "3"; "4"; "5"; "6"; "7"; "8"; "9";
   "+"; "-"; "*"; "/"; "="; "#"; "@"; "&"; "%"; "$"; "!"; "?"]%char.

Definition rotation_angles : list Z :=
  [0; 15; 30; 45; 60; 75; 90; -15; -30; -45; -60; -75].

(* ===================================================================== *)
(** * The raster generator *)
(* ===================================================================== *)

Module Raster.

Definition DEFAULT_PALETTES_DATA_base : list (list string) :=
  [ ["#FF6B6B"; "#FFD166"; "#06D6A0"; "#118AB2"; "#073B4C"];
    ["#FAD02C"; "#F2A104"; "#E87007"; "#D53903"; "#A01F02"];
    ["#22223B"; "#4A4E69"; "#9A8C98"; "#C9ADA7"; "#F2E9E4"];
    ["#003049"; "#D62828"; "#F77F00"; "#FCBF49"; "#EAE2B7"] ]%string.

(** [range(0, 256, 64)] *)
Definition range_0_256_64 : list Z := [0; 64; 128; 192].

Definition generate_triadic_palettes : list (list string) :=
  flat_map (fun r =>
  flat_map (fun g =>
  map (fun b =>
    let triadic1 := ((g + 128) mod 256, (b + 128) mod 256, (r + 128) mod 256) in
    let triadic2 := ((b + 128) mod 256, (r + 128) mod 256, (g + 128) mod 256) in
    [ PyStr.hex_color_upper r g b;
      (let '(t0, t1, t2) := triadic1 in PyStr.hex_color_upper t0 t1 t2);
      (let '(t0, t1, t2) := triadic2 in PyStr.hex_color_upper t0 t1 t2) ])
    range_0_256_64) range_0_256_64) range_0_256_64.

(** The module-level list after
    [DEFAULT_PALETTES_DATA.extend(generate_triadic_palettes())]. *)
Definition DEFAULT_PALETTES_DATA : list palette :=
  map (map Str) (DEFAULT_PALETTES_DATA_base ++ generate_triadic_palettes).

#[local] Set Warnings "-register-all".

(** The calls made on Pillow, with their arguments.  [paste] and
    [paste_rotated] are the two ways [draw_rotated_image] ends: a square
    transparent image of side [size], drawn on with [ops], is pasted at
    [(x, y)], or rotated by [angle] degrees about its centre and pasted
    with that centre kept in place. *)
Inductive pil_op : Type :=
| rectangle (x0 y0 x1 y1 : Q) (fill : rgba)
| ellipse (x0 y0 x1 y1 : Q) (fill : rgba)
| polygon (points : list (Q * Q)) (fill : rgba)
| pieslice (x0 y0 x1 y1 : Q) (start end_ : Z) (fill : rgba)
| line (points : list (Z * Z)) (fill : rgba) (width : Z) (curve_joint : bool)
| text (character : ascii) (font_size : Z) (fill : rgba)
| paste (size : Z) (ops : list pil_op) (x y : Z)
| paste_rotated (size : Z) (ops : list pil_op) (angle : Z) (x y : Z).

(** The image [generate_art_image_pil] returns: its size and the calls
    drawn on it, in order. *)
Record image : Type := {
  img_width : Z;
  img_height : Z;
  img_ops : list pil_op
}.

Record colors : Type := {
  foreground : rgba;
  background : rgba
}.

Record bg_colors : Type := {
  bg_inner : rgba;
  bg_outer : rgba
}.

Definition alpha_of (c : rgba) : Z := let '(_, _, _, a) := c in a.

Definition with_alpha (c : rgba) (a : Z) : rgba :=
  let '(r, g, b, _) := c in (r, g, b, a).

Definition rgba_eqb (c d : rgba) : bool :=
  let '(r, g, b, a) := c in
  let '(r', g', b', a') := d in
  (r =? r') && (g =? g') && (b =? b') && (a =? a').

Section Generators.

Context {RS : RandomSource} {ML : MathLib}.
Local Open Scope py_scope.
Local Coercion inject_Z : Z >-> Q.

Definition get_random_alpha (chaos_factor : Q) : M Z :=
  t <- random ;;
  if PyNum.Qltb t (chaos_factor * 0.5)%Q then randint 150 240
  else ret 255.

Definition get_random_rotation_angle (chaos_factor : Q) : M Z :=
  t <- random ;;
  if PyNum.Qltb t chaos_factor then choice rotation_angles
  else ret 0.

Definition draw_rotated_image (size : Z) (ops : list pil_op)
    (x y angle : Z) : pil_op :=
  if angle =? 0 then paste size ops x y
  else paste_rotated size ops angle x y.

Definition fallback_bg_colors : result bg_colors :=
  rbind (hex_to_rgba (Str "#EEEEEE") 255) (fun inner =>
  rbind (hex_to_rgba (Str "#DDDDDD") 255) (fun outer =>
  Ok {| bg_inner := inner; bg_outer := outer |})).

(** The [try] block of [pil_create_background_colors]. *)
Definition read_first_two (color_palette : palette)
  : result ((Z * Z * Z) * (Z * Z * Z)) :=
  rbind (index color_palette 0) (fun c1_hex =>
  rbind (index color_palette 1) (fun c2_hex =>
  rbind (hex_to_rgba c1_hex 255) (fun '(r1, g1, b1, _) =>
  rbind (hex_to_rgba c2_hex 255) (fun '(r2, g2, b2, _) =>
  Ok ((r1, g1, b1), (r2, g2, b2)))))).

Definition pil_create_background_colors (color_palette : palette)
  : M bg_colors :=
  if (match color_palette with [] => true | _ => false end)
     || (Z.of_nat (List.length color_palette) <? 2)
  then lift fallback_bg_colors
  else
    match read_first_two color_palette with
    | Raise e => print (WarnBackgroundPalette e) ;; lift fallback_bg_colors
    | Ok (c1, c2) =>
        '(inner, outer) <- lift (mix_background c1 c2) ;;
        let '(r_light, g_light, b_light) := inner in
        let '(r_dark, g_dark, b_dark) := outer in
        ret {| bg_inner := (r_light, g_light, b_light, 255);
               bg_outer := (r_dark, g_dark, b_dark, 255) |}
    end.

Definition pil_get_two_colors (color_palette : palette) (chaos_factor : Q)
  : M colors :=
  alpha <- get_random_alpha chaos_factor ;;
  match color_palette with
  | [] => ret {| foreground := (51, 51, 51, alpha);
                 background := (204, 204, 204, 255) |}
  | _ =>
      let valid_colors_hex := valid_colors color_palette in
      match valid_colors_hex with
      | [] => ret {| foreground := (51, 51, 51, alpha);
                     background := (204, 204, 204, 255) |}
      | first :: _ =>
          bg_hex <- choice valid_colors_hex ;;
          background_rgba <- lift (hex_to_rgba (Str bg_hex) 255) ;;
          let remaining_colors_hex := remaining_colors valid_colors_hex bg_hex in
          fg_hex <- match remaining_colors_hex with
                    | [] => ret first
                    | _ => choice remaining_colors_hex
                    end ;;
          foreground_rgba <- lift (hex_to_rgba (Str fg_hex) alpha) ;;
          ret {| foreground := foreground_rgba;
                 background := background_rgba |}
      end
  end.

Definition cell_background (x y square_size : Z) (background_rgba : rgba)
  : pil_op :=
  rectangle x y (x + square_size)%Z (y + square_size)%Z background_rgba.

Definition draw_pil_circle (x y square_size : Z)
    (foreground_rgba background_rgba : rgba) (chaos_factor : Q)
  : M (list pil_op) :=
  let bg := cell_background x y square_size background_rgba in
  radius_factor <- uniform (0.8 - chaos_factor * 0.2)%Q 1.0%Q ;;
  let r := ((square_size / 2) * radius_factor)%Q in
  let cx := (x + square_size / 2)%Q in
  let cy := (y + square_size / 2)%Q in
  let main := ellipse (cx - r) (cy - r) (cx + r) (cy + r) foreground_rgba in
  t <- random ;;
  if PyNum.Qltb t (0.3 + chaos_factor * 0.3)%Q then
    inner_r_factor <- uniform 0.2%Q 0.5%Q ;;
    let inner_r := ((square_size / 2) * inner_r_factor)%Q in
    let inner_bg_alpha := alpha_of foreground_rgba in
    let inner_bg_color := with_alpha background_rgba inner_bg_alpha in
    let inner := ellipse (cx - inner_r) (cy - inner_r)
                         (cx + inner_r) (cy + inner_r) inner_bg_color in
    t' <- random ;;
    if PyNum.Qltb t' (chaos_factor * 0.5)%Q then
      let tiny_r := (inner_r * 0.5)%Q in
      ret [bg; main; inner;
           ellipse (cx - tiny_r) (cy - tiny_r) (cx + tiny_r) (cy + tiny_r)
                   foreground_rgba]
    else ret [bg; main; inner]
  else ret [bg; main].

Definition draw_pil_opposite_circles (x y square_size : Z)
    (foreground_rgba background_rgba : rgba) (chaos_factor : Q)
  : M (list pil_op) :=
  let bg := cell_background x y square_size background_rgba in
  r_factor <- uniform 0.4%Q 0.6%Q ;;
  let q_ss := (square_size / 4)%Q in
  f <- uniform 0.8%Q 1.2%Q ;;
  let q_radius := (q_ss * f)%Q in
  ret [bg;
       ellipse (x + q_ss - q_radius) (y + q_ss - q_radius)
               (x + q_ss + q_radius) (y + q_ss + q_radius) foreground_rgba;
       ellipse (x + 3 * q_ss - q_radius) (y + 3 * q_ss - q_radius)
               (x + 3 * q_ss + q_radius) (y + 3 * q_ss + q_radius)
               foreground_rgba].

Definition draw_pil_cross (x y square_size : Z)
    (foreground_rgba background_rgba : rgba) (chaos_factor : Q)
  : M (list pil_op) :=
  let bg := cell_background x y square_size background_rgba in
  t <- random ;;
  let is_plus := PyNum.Qltb t 0.5%Q in
  thickness_factor <- uniform (0.25 - chaos_factor * 0.1)%Q
                              (0.4 + chaos_factor * 0.1)%Q ;;
  let thickness := PyNum.trunc (square_size * thickness_factor)%Q in
  let cross_img :=
    if is_plus then
      [rectangle 0 ((square_size - thickness) / 2)%Z
                 square_size ((square_size + thickness) / 2)%Z foreground_rgba;
       rectangle ((square_size - thickness) / 2)%Z 0
                 ((square_size + thickness) / 2)%Z square_size foreground_rgba]
    else
      let line_width := PyNum.trunc (thickness * 0.8)%Q in
      let line_width := if line_width <? 1 then 1 else line_width in
      [line [(0, 0); (square_size, square_size)] foreground_rgba line_width false;
       line [(square_size, 0); (0, square_size)] foreground_rgba line_width false]
  in
  angle <- get_random_rotation_angle (chaos_factor / 2)%Q ;;
  ret [bg; draw_rotated_image square_size cross_img x y angle].

Definition draw_pil_half_square (x y square_size : Z)
    (foreground_rgba background_rgba : rgba) (chaos_factor : Q)
  : M (list pil_op) :=
  let bg := cell_background x y square_size background_rgba in
  direction <- choice [top; right; bottom; left] ;;
  ret [bg;
       match direction with
       | top => rectangle x y (x + square_size)%Z (y + square_size / 2)%Q
                          foreground_rgba
       | right => rectangle (x + square_size / 2)%Q y
                            (x + square_size)%Z (y + square_size)%Z
                            foreground_rgba
       | bottom => rectangle x (y + square_size / 2)%Q
                             (x + square_size)%Z (y + square_size)%Z
                             foreground_rgba
       | left => rectangle x y (x + square_size / 2)%Q (y + square_size)%Z
                           foreground_rgba
       end].

Definition draw_pil_diagonal_square (x y square_size : Z)
    (foreground_rgba background_rgba : rgba) (chaos_factor : Q)
  : M (list pil_op) :=
  let bg := cell_background x y square_size background_rgba in
  t <- random ;;
  let is_top_left_to_bottom_right := PyNum.Qltb t 0.5%Q in
  let points : list (Q * Q) :=
    if is_top_left_to_bottom_right
    then [(x : Q, y : Q); ((x + square_size)%Z : Q, (y + square_size)%Z : Q);
          (x : Q, (y + square_size)%Z : Q)]
    else [((x + square_size)%Z : Q, y : Q);
          ((x + square_size)%Z : Q, (y + square_size)%Z : Q); (x : Q, y : Q)] in
  t' <- random ;;
  points <-
    (if PyNum.Qltb t' (chaos_factor * 0.5)%Q then
       idx_to_move <- randint 0 2 ;;
       a <- random ;;
       let jitter_x := ((a - 0.5) * square_size * 0.1 * chaos_factor)%Q in
       b <- random ;;
       let jitter_y := ((b - 0.5) * square_size * 0.1 * chaos_factor)%Q in
       '(px, py) <- lift (index points idx_to_move) ;;
       lift (set_item points (Z.to_nat idx_to_move)
                      (px + jitter_x, py + jitter_y)%Q)
     else ret points) ;;
  ret [bg; polygon points foreground_rgba].

Definition draw_pil_quarter_circle (x y square_size : Z)
    (foreground_rgba background_rgba : rgba) (chaos_factor : Q)
  : M (list pil_op) :=
  let bg := cell_background x y square_size background_rgba in
  corner <- choice [top_left; top_right; bottom_right; bottom_left] ;;
  let slice start end_ :=
    pieslice x y (x + square_size)%Z (y + square_size)%Z start end_
             foreground_rgba in
  ret [bg;
       match corner with
       | top_left => slice 180 270
       | top_right => slice 270 360
       | bottom_right => slice 0 90
       | bottom_left => slice 90 180
       end].

(** One cell of the dot grid: the body of the two nested loops. *)
Definition dot (x y : Z) (cell_s : Q) (foreground_rgba : rgba)
    (chaos_factor : Q) (i j_inner : Z) : M (list pil_op) :=
  t <- random ;;
  if PyNum.Qltb t (chaos_factor * 0.2)%Q then ret []
  else
    f <- uniform 0.2%Q (0.4 + chaos_factor * 0.1)%Q ;;
    let dot_r := (cell_s * f / 2)%Q in
    a <- random ;;
    let center_x :=
      (x + (i + 0.5) * cell_s + (a - 0.5) * cell_s * 0.2 * chaos_factor)%Q in
    b <- random ;;
    let center_y :=
      (y + (j_inner + 0.5) * cell_s
       + (b - 0.5) * cell_s * 0.2 * chaos_factor)%Q in
    let dot_r := if PyNum.Qltb dot_r 1 then 1%Q else dot_r in
    ret [ellipse (center_x - dot_r) (center_y - dot_r)
                 (center_x + dot_r) (center_y + dot_r) foreground_rgba].

Definition draw_pil_dots (x y square_size : Z)
    (foreground_rgba background_rgba : rgba) (chaos_factor : Q)
  : M (list pil_op) :=
  let bg := cell_background x y square_size background_rgba in
  let num_dots_choices :=
    [4; 9; 16; if PyNum.Qltb 0.5%Q chaos_factor then 25 else 16] in
  n <- choice num_dots_choices ;;
  let num_dots_sqrt := Z.sqrt n in
  let rows_dots := num_dots_sqrt in
  let cols_dots := num_dots_sqrt in
  cell_s <- lift (PyNum.div square_size rows_dots) ;;
  ds <- for_ (range rows_dots) (fun i =>
          for_ (range cols_dots) (fun j_inner =>
            dot x y cell_s foreground_rgba chaos_factor i j_inner)) ;;
  ret (bg :: ds).

Definition draw_pil_letter_block (x y square_size : Z)
    (foreground_rgba background_rgba : rgba) (chaos_factor : Q)
  : M (list pil_op) :=
  let bg := cell_background x y square_size background_rgba in
  character <- choice characters ;;
  font_size_factor <- uniform (0.6 - chaos_factor * 0.1)%Q
                              (0.9 + chaos_factor * 0.1)%Q ;;
  let font_size := Z.max 10 (PyNum.trunc (square_size * font_size_factor)%Q) in
  let text_img := [text character font_size foreground_rgba] in
  angle <- get_random_rotation_angle (chaos_factor * 0.8)%Q ;;
  ret [bg; draw_rotated_image square_size text_img x y angle].

(** The loop [for i in range(num_circles, 0, -1)] with its flag
    [current_color_is_fg]. *)
Fixpoint concentric_loop (x y square_size : Z)
    (foreground_rgba background_rgba : rgba) (chaos_factor : Q)
    (num_circles : Z) (max_r : Q) (idxs : list Z) (current_color_is_fg : bool)
  : M (list pil_op) :=
  match idxs with
  | [] => ret []
  | i :: rest =>
      ratio <- lift (PyNum.div i num_circles) ;;
      let radius := (max_r * ratio)%Q in
      if PyNum.Qltb radius 1 then
        concentric_loop x y square_size foreground_rgba background_rgba
          chaos_factor num_circles max_r rest current_color_is_fg
      else
        let base_color :=
          if current_color_is_fg then foreground_rgba else background_rgba in
        let current_alpha := alpha_of base_color in
        chaotic_alpha <- get_random_alpha chaos_factor ;;
        let final_alpha := Z.min current_alpha chaotic_alpha in
        let color := with_alpha base_color final_alpha in
        a <- random ;;
        let offset_x_val := ((a - 0.5) * square_size * 0.05 * chaos_factor)%Q in
        b <- random ;;
        let offset_y_val := ((b - 0.5) * square_size * 0.05 * chaos_factor)%Q in
        let cx := (x + square_size / 2 + offset_x_val)%Q in
        let cy := (y + square_size / 2 + offset_y_val)%Q in
        ops <- concentric_loop x y square_size foreground_rgba background_rgba
                 chaos_factor num_circles max_r rest
                 (negb current_color_is_fg) ;;
        ret (ellipse (cx - radius) (cy - radius) (cx + radius) (cy + radius)
                     color :: ops)
  end.

(** [range(n, 0, -1)] *)
Definition range_down (n : Z) : list Z := map (fun k => n - k) (range n).

Definition draw_pil_concentric_circles (x y square_size : Z)
    (foreground_rgba background_rgba : rgba) (chaos_factor : Q)
  : M (list pil_op) :=
  let bg := cell_background x y square_size background_rgba in
  num_circles <- randint (2 + PyNum.trunc (chaos_factor * 2))
                         (5 + PyNum.trunc (chaos_factor * 3)) ;;
  f <- uniform 0.85%Q 1.0%Q ;;
  let max_r := (square_size / 2 * f)%Q in
  ops <- concentric_loop x y square_size foreground_rgba background_rgba
           chaos_factor num_circles max_r (range_down num_circles) true ;;
  ret (bg :: ops).

(** The body of the loop of [draw_pil_stripes]. *)
Definition stripe (x y square_size : Z)
    (foreground_rgba background_rgba : rgba) (chaos_factor : Q)
    (num_stripes : Z) (is_horizontal : bool) (i : Z) : M (list pil_op) :=
  use_fg <- (if i mod 2 =? 0 then ret true
             else t <- random ;; ret (PyNum.Qltb t (chaos_factor * 0.3)%Q)) ;;
  let base_stripe_color :=
    if (use_fg : bool) then foreground_rgba else background_rgba in
  let current_alpha := alpha_of base_stripe_color in
  chaotic_alpha <- get_random_alpha chaos_factor ;;
  let final_alpha := Z.min current_alpha chaotic_alpha in
  let stripe_color := with_alpha base_stripe_color final_alpha in
  skip <- (if rgba_eqb stripe_color background_rgba
           then t <- random ;; ret (PyNum.Qltb t (chaos_factor * 0.6)%Q)
           else ret false) ;;
  if (skip : bool) then ret []
  else
    base_thickness_exact <- lift (PyNum.div square_size num_stripes) ;;
    f <- uniform (0.7 - chaos_factor * 0.2)%Q (1.3 + chaos_factor * 0.2)%Q ;;
    let thickness_variation := (base_thickness_exact * f)%Q in
    let stripe_thickness := PyNum.trunc (PyNum.max 1 thickness_variation) in
    if is_horizontal then
      let y_pos := PyNum.trunc (y + i * base_thickness_exact)%Q in
      ret [rectangle x y_pos (x + square_size)%Z (y_pos + stripe_thickness)%Z
                     stripe_color]
    else
      let x_pos := PyNum.trunc (x + i * base_thickness_exact)%Q in
      ret [rectangle x_pos y (x_pos + stripe_thickness)%Z (y + square_size)%Z
                     stripe_color].

Definition draw_pil_stripes (x y square_size : Z)
    (foreground_rgba background_rgba : rgba) (chaos_factor : Q)
  : M (list pil_op) :=
  let bg := cell_background x y square_size background_rgba in
  num_stripes <- randint (3 + PyNum.trunc (chaos_factor * 2))
                         (7 + PyNum.trunc (chaos_factor * 4)) ;;
  is_horizontal <- choice [true; false] ;;
  ops <- for_ (range num_stripes)
           (stripe x y square_size foreground_rgba background_rgba
                   chaos_factor num_stripes is_horizontal) ;;
  ret (bg :: ops).

Definition draw_pil_rotated_shape (x y square_size : Z)
    (foreground_rgba background_rgba : rgba) (chaos_factor : Q)
  : M (list pil_op) :=
  let bg := cell_background x y square_size background_rgba in
  shape_type <- choice [shape_rect; shape_circle; shape_ellipse] ;;
  inner_size_factor <- uniform (0.5 - chaos_factor * 0.1)%Q
                               (0.8 + chaos_factor * 0.1)%Q ;;
  let inner_size := (square_size * inner_size_factor)%Q in
  let shape_center_x := (square_size / 2)%Q in
  let shape_center_y := (square_size / 2)%Q in
  shape_img <-
    match shape_type with
    | shape_rect =>
        fw <- uniform 0.7%Q 1.3%Q ;;
        let rect_w := (inner_size * fw)%Q in
        fh <- uniform 0.7%Q 1.3%Q ;;
        let rect_h := (inner_size * fh)%Q in
        let rect_w := PyNum.max 1 (PyNum.min rect_w (square_size * 0.9)%Q) in
        let rect_h := PyNum.max 1 (PyNum.min rect_h (square_size * 0.9)%Q) in
        ret [rectangle (shape_center_x - rect_w / 2) (shape_center_y - rect_h / 2)
                       (shape_center_x + rect_w / 2) (shape_center_y + rect_h / 2)
                       foreground_rgba]
    | _ =>
        let upper := match shape_type with
                     | shape_ellipse => 1.3%Q
                     | _ => 1.0%Q
                     end in
        fx <- uniform 0.7%Q upper ;;
        let rx_val := (inner_size / 2 * fx)%Q in
        fy <- uniform 0.7%Q upper ;;
        let ry_val := (inner_size / 2 * fy)%Q in
        let rx_val := PyNum.max 1 rx_val in
        let ry_val := PyNum.max 1 ry_val in
        ret [ellipse (shape_center_x - rx_val) (shape_center_y - ry_val)
                     (shape_center_x + rx_val) (shape_center_y + ry_val)
                     foreground_rgba]
    end ;;
  angle <- get_random_rotation_angle (chaos_factor * 1.5)%Q ;;
  ret [bg; draw_rotated_image square_size shape_img x y angle].

(** One point of a wavy line; the loop collects the points. *)
Definition wavy_point (x y square_size : Z) (chaos_factor : Q)
    (is_horizontal : bool) (start_line amplitude frequency : Q)
    (num_segments j_seg : Z) : M (Z * Z) :=
  step <- lift (PyNum.div square_size num_segments) ;;
  phase <- lift (PyNum.div (j_seg * pi * frequency)%Q num_segments) ;;
  a <- random ;;
  let wave := (start_line + amplitude * sin (phase + a * chaos_factor))%Q in
  let along := ((if is_horizontal then x else y) + step * j_seg)%Q in
  let '(px, py) := if is_horizontal then (along, wave) else (wave, along) in
  b <- random ;;
  let px := (px + (b - 0.5) * square_size * 0.01 * chaos_factor)%Q in
  c <- random ;;
  let py := (py + (c - 0.5) * square_size * 0.01 * chaos_factor)%Q in
  ret (PyNum.trunc px, PyNum.trunc py).

Fixpoint wavy_points (point : Z -> M (Z * Z)) (js : list Z)
  : M (list (Z * Z)) :=
  match js with
  | [] => ret []
  | j_seg :: rest =>
      p <- point j_seg ;;
      ps <- wavy_points point rest ;;
      ret (p :: ps)
  end.

(** The body of the loop [for i in range(num_lines)]. *)
Definition wavy_line (x y square_size : Z) (foreground_rgba : rgba)
    (chaos_factor : Q) (num_lines : Z) (is_horizontal : bool) (stroke_w : Z)
    (i : Z) : M (list pil_op) :=
  f <- uniform 0.05%Q (0.2 + chaos_factor * 0.1)%Q ;;
  let amplitude := (square_size * f)%Q in
  frequency <- uniform 0.5%Q (2.0 + chaos_factor)%Q ;;
  num_segments <- randint 10 20 ;;
  gap <- lift (PyNum.div square_size (num_lines + 1)%Z) ;;
  let start_line := ((if is_horizontal then y else x) + gap * (i + 1)%Z)%Q in
  points <- wavy_points
              (wavy_point x y square_size chaos_factor is_horizontal
                          start_line amplitude frequency num_segments)
              (range (num_segments + 1)) ;;
  if 1 <? Z.of_nat (List.length points)
  then ret [line points foreground_rgba stroke_w true]
  else ret [].

Definition draw_pil_wavy_lines (x y square_size : Z)
    (foreground_rgba background_rgba : rgba) (chaos_factor : Q)
  : M (list pil_op) :=
  let bg := cell_background x y square_size background_rgba in
  num_lines <- randint (2 + PyNum.trunc (chaos_factor * 2))
                       (5 + PyNum.trunc (chaos_factor * 3)) ;;
  is_horizontal <- choice [true; false] ;;
  f <- uniform 0.02%Q (0.05 + chaos_factor * 0.05)%Q ;;
  let stroke_w := PyNum.trunc (PyNum.max 1 (square_size * f)%Q) in
  ops <- for_ (range num_lines)
           (wavy_line x y square_size foreground_rgba chaos_factor
                      num_lines is_horizontal stroke_w) ;;
  ret (bg :: ops).

(** [style_function_map_pil[name]] *)
Definition style_function_map_pil (f : style)
  : Z -> Z -> Z -> rgba -> rgba -> Q -> M (list pil_op) :=
  match f with
  | circle => draw_pil_circle
  | opposite_circles => draw_pil_opposite_circles
  | cross => draw_pil_cross
  | half_square => draw_pil_half_square
  | diagonal_square => draw_pil_diagonal_square
  | quarter_circle => draw_pil_quarter_circle
  | dots => draw_pil_dots
  | letter_block => draw_pil_letter_block
  | concentric_circles => draw_pil_concentric_circles
  | stripes => draw_pil_stripes
  | rotated_shape => draw_pil_rotated_shape
  | wavy_lines => draw_pil_wavy_lines
  end.

(** The parts of [generate_art_image_pil], in the order of its body. *)

(** Seeding: [random.seed()] when the seed is [None] or negative. *)
Definition seed_random (seed_value : option Z) (fresh : gen) : M unit :=
  match seed_value with
  | None => seed_from_os fresh
  | Some n => if n <? 0 then seed_from_os fresh else seed n
  end.

(** The palette index after the range test. *)
Definition clamp_palette_index (palette_index : Z) : Z :=
  if negb ((0 <=? palette_index)
           && (palette_index <? Z.of_nat (List.length DEFAULT_PALETTES_DATA)))
  then 0 else palette_index.

Definition select_palette (palette_index : Z) : result palette :=
  index DEFAULT_PALETTES_DATA (clamp_palette_index palette_index).

Definition in_style_names (name : string) : bool :=
  existsb (String.eqb name) ALL_POSSIBLE_STYLE_NAMES.

Definition parse_block_styles (block_styles_str : string) : list string :=
  let block_style_names_list :=
    if negb (String.eqb block_styles_str "")
       && negb (String.eqb (PyStr.strip block_styles_str) "")
    then filter in_style_names
                (map PyStr.strip (PyStr.split_comma block_styles_str))
    else [] in
  match block_style_names_list with
  | [] => ALL_POSSIBLE_STYLE_NAMES
  | _ => block_style_names_list
  end.

(** The outer colour over the whole image, the inner one inset. *)
Definition draw_background (img_width img_height : Z) (bg : bg_colors)
  : list pil_op :=
  let inset := Z.max 10 (PyNum.trunc (Z.min img_width img_height * 0.1)%Q) in
  rectangle 0 0 img_width img_height (bg_outer bg)
  :: (if (2 * inset <? img_width) && (2 * inset <? img_height)
      then [rectangle inset inset (img_width - inset)%Z (img_height - inset)%Z
                      (bg_inner bg)]
      else []).

(** The two nested loops over the cells. *)
Definition draw_grid (num_rows num_cols square_size : Z)
    (selected_palette_data : palette) (active_style_funcs : list style)
    (chaos_factor : Q) : M (list pil_op) :=
  for_ (range num_rows) (fun r_idx =>
    for_ (range num_cols) (fun c_idx =>
      colors <- pil_get_two_colors selected_palette_data chaos_factor ;;
      draw_func <- choice active_style_funcs ;;
      style_function_map_pil draw_func
        (c_idx * square_size) (r_idx * square_size) square_size
        (foreground colors) (background colors) chaos_factor)).

(** The column and row of the top-left cell of a big block. *)
Definition big_block_origin (num_rows num_cols multiplier : Z) : M (Z * Z) :=
  bb_col_idx <- randint 0 (num_cols - multiplier) ;;
  bb_row_idx <- randint 0 (num_rows - multiplier) ;;
  ret (bb_col_idx, bb_row_idx).

(** The body of the loop [for _ in range(num_big_blocks)]. *)
Definition draw_big_block (num_rows num_cols square_size : Z)
    (selected_palette_data : palette) (active_style_funcs : list style)
    (multiplier : Z) (chaos_factor : Q) : M (list pil_op) :=
  if (multiplier <=? num_rows) && (multiplier <=? num_cols) then
    '(bb_col_idx, bb_row_idx) <- big_block_origin num_rows num_cols multiplier ;;
    let bb_x := bb_col_idx * square_size in
    let bb_y := bb_row_idx * square_size in
    let big_s_size := multiplier * square_size in
    colors <- pil_get_two_colors selected_palette_data chaos_factor ;;
    draw_func_big <- choice active_style_funcs ;;
    style_function_map_pil draw_func_big bb_x bb_y big_s_size
      (foreground colors) (background colors) chaos_factor
  else
    print (SkipBigBlock num_rows num_cols multiplier) ;;
    ret [].

Definition draw_big_blocks (num_rows num_cols square_size : Z)
    (selected_palette_data : palette) (active_style_funcs : list style)
    (big_block_enabled : bool) (big_block_size_multiplier num_big_blocks : Z)
    (chaos_factor : Q) : M (list pil_op) :=
  if big_block_enabled then
    let multiplier := big_block_size_multiplier in
    for_ (range num_big_blocks) (fun _ =>
      draw_big_block num_rows num_cols square_size selected_palette_data
        active_style_funcs multiplier chaos_factor)
  else ret [].

Definition generate_art_image_pil (num_rows num_cols square_size : Z)
    (palette_index : Z) (block_styles_str : string)
    (big_block_enabled : bool) (big_block_size_multiplier num_big_blocks : Z)
    (chaos_factor : Q) (seed_value : option Z) (fresh : gen) : M image :=
  seed_random seed_value fresh ;;
  selected_palette_data <- lift (select_palette palette_index) ;;
  let block_style_names_list := parse_block_styles block_styles_str in
  let img_width := num_cols * square_size in
  let img_height := num_rows * square_size in
  bg <- pil_create_background_colors selected_palette_data ;;
  let active_style_funcs := active_styles block_style_names_list in
  cells <- draw_grid num_rows num_cols square_size selected_palette_data
             active_style_funcs chaos_factor ;;
  blocks <- draw_big_blocks num_rows num_cols square_size
              selected_palette_data active_style_funcs big_block_enabled
              big_block_size_multiplier num_big_blocks chaos_factor ;;
  ret {| img_width := img_width;
         img_height := img_height;
         img_ops := draw_background img_width img_height bg
                    ++ cells ++ blocks |}.

End Generators.

End Raster.

(* ===================================================================== *)
(** * The vector generator *)
(* ===================================================================== *)

Module Vector.

#[local] Set Warnings "-register-all".

Definition DEFAULT_PALETTES_DATA : list palette :=
  map (map Str)
  [ ["#FF6B6B"; "#FFD166"; "#06D6A0"; "#118AB2"; "#073B4C"];
    ["#FAD02C"; "#F2A104"; "#E87007"; "#D53903"; "#A01F02"];
    ["#22223B"; "#4A4E69"; "#9A8C98"; "#C9ADA7"; "#F2E9E4"];
    ["#003049"; "#D62828"; "#F77F00"; "#FCBF49"; "#EAE2B7"] ]%string.

(** [f"rotate({angle} {cx} {cy})"] *)
Record rotation : Type := rotate {
  rot_angle : Z;
  rot_cx : Q;
  rot_cy : Q
}.

Inductive path_cmd : Type :=
| path_M (x y : Q)
| path_L (x y : Q)
| path_A (rx ry : Q) (x_axis_rotation large_arc sweep : Z) (x y : Q)
| path_C (x1 y1 x2 y2 x y : Q)
| path_Z.

Inductive group_id : Type :=
| grid_elements
| cell (c_idx r_idx : Z)
| big_block_element.

(** The elements handed to svgwrite, with their attributes.  An opacity
    is the number whose [str] the attribute holds. *)
Inductive svg_element : Type :=
| Rect (insert size : Q * Q) (fill : string)
| Circle (center : Q * Q) (r : Q) (fill : string) (opacity : option Q)
| Ellipse (center r : Q * Q) (fill : string)
| Polygon (points : list (Q * Q)) (fill : string)
| Path (d : list path_cmd) (fill : option string) (stroke : option string)
       (stroke_width : option Q) (opacity : option Q)
| Text (character : ascii) (insert : Q * Q) (font_size : Q) (fill : string)
       (opacity : Q) (transform : rotation)
| Group (id : option group_id) (transform : option rotation)
        (opacity : option Q) (children : list svg_element).

(** The drawing [generate_art_svg_string] serialises: its size, the
    radial gradient of the background (its id is [bg_grad_<n>], its two
    stops the inner and outer colours) and the elements added after the
    background rectangle, in order. *)
Record drawing : Type := {
  svg_width : Z;
  svg_height : Z;
  gradient_id : Z;
  gradient_stops : string * string;
  elements : list svg_element
}.

Record colors : Type := {
  foreground : string;
  background : string
}.

Record bg_colors : Type := {
  bg_inner : string;
  bg_outer : string
}.

(** The value of [params['seed']]. *)
Inductive seed_param : Type :=
| seed_none
| seed_str (s : string)
| seed_int_value (n : Z)
| seed_other.

(** [seq[i]] with Python's negative indices. *)
Definition getitem {A : Type} (l : list A) (i : Z) : result A :=
  if i <? 0 then index l (i + Z.of_nat (List.length l)) else index l i.

Definition fallback_bg_colors : bg_colors :=
  {| bg_inner := "#EEEEEE"; bg_outer := "#DDDDDD" |}.

(** [isinstance(c, str) and c.startswith('#') and len(c) in [4, 7]] *)
Definition well_shaped (c : entry) : bool :=
  match c with
  | Str s => PyStr.startswith_hash s
             && ((PyStr.len s =? 4) || (PyStr.len s =? 7))
  | NonStr => false
  end.

(** [tuple(int(h[i:i+2], 16) for i in (0, 2, 4))] after the [lstrip] and
    the doubling of a three-digit colour. *)
Definition parse_hex (c : entry) : result (Z * Z * Z) :=
  match c with
  | NonStr => Raise AttributeError
  | Str s =>
      let color_hex := PyStr.lstrip_hash s in
      let color_hex :=
        if PyStr.len color_hex =? 3 then PyStr.double_chars color_hex
        else color_hex in
      rbind (PyStr.int16 (PyStr.slice 0 2 color_hex)) (fun r =>
      rbind (PyStr.int16 (PyStr.slice 2 4 color_hex)) (fun g =>
      rbind (PyStr.int16 (PyStr.slice 4 6 color_hex)) (fun b =>
      Ok (r, g, b))))
  end.

(** The [try] block of [create_background_colors]. *)
Definition read_first_two (color_palette : palette)
  : result ((Z * Z * Z) * (Z * Z * Z)) :=
  rbind (index color_palette 0) (fun c1 =>
  rbind (index color_palette 1) (fun c2 =>
  if negb (well_shaped c1) || negb (well_shaped c2) then Raise ValueError
  else
    rbind (parse_hex c1) (fun rgb1 =>
    rbind (parse_hex c2) (fun rgb2 =>
    Ok (rgb1, rgb2))))).

(** [except (ValueError, IndexError, TypeError)] *)
Definition caught (e : exn) : bool :=
  match e with
  | ValueError | IndexError | TypeError => true
  | _ => false
  end.

Section Generators.

Context {RS : RandomSource} {ML : MathLib}.
Local Open Scope py_scope.
Local Coercion inject_Z : Z >-> Q.

Definition create_background_colors (color_palette : palette) : M bg_colors :=
  if (match color_palette with [] => true | _ => false end)
     || (Z.of_nat (List.length color_palette) <? 2)
  then ret fallback_bg_colors
  else
    match read_first_two color_palette with
    | Raise e =>
        if caught e
        then print (WarnBackgroundPalette e) ;; ret fallback_bg_colors
        else raise e
    | Ok (c1, c2) =>
        '(inner, outer) <- lift (mix_background c1 c2) ;;
        let '(r_light, g_light, b_light) := inner in
        let '(r_dark, g_dark, b_dark) := outer in
        ret {| bg_inner := PyStr.hex_color_lower r_light g_light b_light;
               bg_outer := PyStr.hex_color_lower r_dark g_dark b_dark |}
    end.

Definition get_two_colors (color_palette : palette) : M colors :=
  match color_palette with
  | [] => ret {| foreground := "#333333"; background := "#CCCCCC" |}
  | _ =>
      let valid := valid_colors color_palette in
      match valid with
      | [] => ret {| foreground := "#333333"; background := "#CCCCCC" |}
      | [only] => ret {| foreground := only; background := "#CCCCCC" |}
      | first :: _ =>
          background <- choice valid ;;
          let remaining := remaining_colors valid background in
          foreground <- match remaining with
                        | [] => ret first
                        | _ => choice remaining
                        end ;;
          ret {| foreground := foreground; background := background |}
      end
  end.

(** [get_random_opacity_str]: the number whose [str] is returned. *)
Definition get_random_opacity_str (chaos_factor : Q) : M Q :=
  t <- random ;;
  if PyNum.Qltb t (chaos_factor * 0.5)%Q then
    u <- uniform 0.6%Q 0.95%Q ;; ret (PyNum.round_to 100 u)
  else ret 1.0%Q.

Definition get_random_rotation_transform (chaos_factor cx cy : Q)
  : M rotation :=
  t <- random ;;
  angle <- (if PyNum.Qltb t chaos_factor then choice rotation_angles
            else ret 0) ;;
  ret (rotate angle cx cy).

Definition cell_background (x y square_size : Z) (background : string)
  : svg_element :=
  Rect (x : Q, y : Q) (square_size : Q, square_size : Q) background.

Definition draw_circle (x y square_size : Z) (foreground background : string)
    (chaos_factor : Q) : M (list svg_element) :=
  let bg := cell_background x y square_size background in
  let center := (x + square_size / 2, y + square_size / 2)%Q in
  f <- uniform (0.8 - chaos_factor * 0.2)%Q 1.0%Q ;;
  o <- get_random_opacity_str chaos_factor ;;
  let main_circle := Circle center (square_size / 2 * f)%Q foreground (Some o) in
  t <- random ;;
  if PyNum.Qltb t (0.3 + chaos_factor * 0.3)%Q then
    inner_r_factor <- uniform 0.2%Q 0.5%Q ;;
    o1 <- get_random_opacity_str chaos_factor ;;
    let inner := Circle center (square_size / 2 * inner_r_factor)%Q
                        background (Some o1) in
    t' <- random ;;
    if PyNum.Qltb t' (chaos_factor * 0.5)%Q then
      o2 <- get_random_opacity_str chaos_factor ;;
      ret [bg; main_circle; inner;
           Circle center (square_size / 2 * inner_r_factor * 0.5)%Q
                  foreground (Some o2)]
    else ret [bg; main_circle; inner]
  else ret [bg; main_circle].

Definition draw_opposite_circles (x y square_size : Z)
    (foreground background : string) (chaos_factor : Q)
  : M (list svg_element) :=
  let bg := cell_background x y square_size background in
  r_factor <- uniform 0.4%Q 0.6%Q ;;
  let radius := (square_size * r_factor)%Q in
  let offset := (square_size / 2)%Q in
  o1 <- get_random_opacity_str chaos_factor ;;
  o2 <- get_random_opacity_str chaos_factor ;;
  ret [bg;
       Circle (x + offset, y + offset)%Q radius foreground (Some o1);
       Circle (x + square_size - offset, y + square_size - offset)%Q
              radius foreground (Some o2)].

(** One bar of the X: the rectangle of width [line_width] around the
    segment from [p1] to [p2]. *)
Definition diagonal_bar (p1 p2 : Z * Z) (line_width : Q) : list (Q * Q) :=
  let '(p1x, p1y) := p1 in
  let '(p2x, p2y) := p2 in
  let dx := p2x - p1x in
  let dy := p2y - p1y in
  let len := sqrt (dx * dx + dy * dy)%Z in
  let len := if Qeq_bool len 0 then 1%Q else len in
  let nx := (- dy / len)%Q in
  let ny := (dx / len)%Q in
  [(p1x + nx * line_width / 2, p1y + ny * line_width / 2)%Q;
   (p2x + nx * line_width / 2, p2y + ny * line_width / 2)%Q;
   (p2x - nx * line_width / 2, p2y - ny * line_width / 2)%Q;
   (p1x - nx * line_width / 2, p1y - ny * line_width / 2)%Q].

Definition draw_cross (x y square_size : Z) (foreground background : string)
    (chaos_factor : Q) : M (list svg_element) :=
  let bg := cell_background x y square_size background in
  t <- random ;;
  let is_plus := PyNum.Qltb t 0.5%Q in
  thickness_factor <- uniform (0.25 - chaos_factor * 0.1)%Q
                              (0.4 + chaos_factor * 0.1)%Q ;;
  let thickness := (square_size * thickness_factor)%Q in
  transform_str <- get_random_rotation_transform (chaos_factor / 2)%Q
                     (x + square_size / 2)%Q (y + square_size / 2)%Q ;;
  o <- get_random_opacity_str chaos_factor ;;
  let cross_elements :=
    if is_plus then
      [Rect (x : Q, y + (square_size - thickness) / 2)%Q
            (square_size : Q, thickness) foreground;
       Rect (x + (square_size - thickness) / 2, y : Q)%Q
            (thickness, square_size : Q) foreground]
    else
      let line_width := (thickness * 0.8)%Q in
      [Polygon (diagonal_bar (x, y) (x + square_size, y + square_size)
                             line_width) foreground;
       Polygon (diagonal_bar (x + square_size, y) (x, y + square_size)
                             line_width) foreground] in
  ret [bg; Group None (Some transform_str) (Some o) cross_elements].

Definition draw_half_square (x y square_size : Z)
    (foreground background : string) (chaos_factor : Q)
  : M (list svg_element) :=
  let bg := cell_background x y square_size background in
  o <- get_random_opacity_str chaos_factor ;;
  direction <- choice [top; right; bottom; left] ;;
  let points : list (Q * Q) :=
    match direction with
    | top => [(x : Q, y : Q); (x + square_size, y : Q);
              (x + square_size, y + square_size / 2); (x : Q, y + square_size / 2)]
    | right => [(x + square_size / 2, y : Q); (x + square_size, y : Q);
                (x + square_size, y + square_size);
                (x + square_size / 2, y + square_size)]
    | bottom => [(x : Q, y + square_size / 2);
                 (x + square_size, y + square_size / 2);
                 (x + square_size, y + square_size); (x : Q, y + square_size)]
    | left => [(x : Q, y : Q); (x + square_size / 2, y : Q);
               (x + square_size / 2, y + square_size); (x : Q, y + square_size)]
    end%Q in
  ret [bg; Group None None (Some o) [Polygon points foreground]].

Definition draw_diagonal_square (x y square_size : Z)
    (foreground background : string) (chaos_factor : Q)
  : M (list svg_element) :=
  let bg := cell_background x y square_size background in
  o <- get_random_opacity_str chaos_factor ;;
  t <- random ;;
  let is_top_left_to_bottom_right := PyNum.Qltb t 0.5%Q in
  let points : list (Q * Q) :=
    (if is_top_left_to_bottom_right
     then [(x : Q, y : Q); (x + square_size, y + square_size);
           (x : Q, y + square_size)]
     else [(x + square_size, y : Q); (x + square_size, y + square_size);
           (x : Q, y : Q)])%Q in
  t' <- random ;;
  points <-
    (if PyNum.Qltb t' (chaos_factor * 0.5)%Q then
       idx_to_move <- randint 0 2 ;;
       '(px, py) <- lift (index points idx_to_move) ;;
       a <- random ;;
       b <- random ;;
       lift (set_item points (Z.to_nat idx_to_move)
               (px + (a - 0.5) * square_size * 0.1 * chaos_factor,
                py + (b - 0.5) * square_size * 0.1 * chaos_factor)%Q)
     else ret points) ;;
  ret [bg; Group None None (Some o) [Polygon points foreground]].

Definition draw_quarter_circle (x y square_size : Z)
    (foreground background : string) (chaos_factor : Q)
  : M (list svg_element) :=
  let bg := cell_background x y square_size background in
  o <- get_random_opacity_str chaos_factor ;;
  corner <- choice [top_left; top_right; bottom_right; bottom_left] ;;
  r_factor <- uniform (0.8 - chaos_factor * 0.2)%Q
                      (1.2 + chaos_factor * 0.2)%Q ;;
  let r := (square_size * r_factor)%Q in
  let r := PyNum.max (square_size * 0.1)%Q
                     (PyNum.min r (square_size * 1.5)%Q) in
  let d :=
    match corner with
    | top_left =>
        [path_M x y; path_L (x + r) y; path_A r r 0 0 0 x (y + r); path_Z]
    | top_right =>
        [path_M (x + square_size) y; path_L (x + square_size - r) y;
         path_A r r 0 0 0 (x + square_size) (y + r); path_Z]
    | bottom_right =>
        [path_M (x + square_size) (y + square_size);
         path_L (x + square_size - r) (y + square_size);
         path_A r r 0 0 0 (x + square_size) (y + square_size - r); path_Z]
    | bottom_left =>
        [path_M x (y + square_size); path_L (x + r) (y + square_size);
         path_A r r 0 0 0 x (y + square_size - r); path_Z]
    end%Q in
  ret [bg; Group None None (Some o)
             [Path d (Some foreground) None None None]].

(** The body of the two nested loops of [draw_dots]. *)
Definition dot (x y : Z) (cell_size : Q) (foreground : string)
    (chaos_factor : Q) (i j : Z) : M (list svg_element) :=
  t <- random ;;
  if PyNum.Qltb t (chaos_factor * 0.2)%Q then ret []
  else
    f <- uniform 0.2%Q (0.4 + chaos_factor * 0.1)%Q ;;
    let dot_radius := (cell_size * f)%Q in
    a <- random ;;
    let center_x :=
      (x + (i + 0.5) * cell_size
       + (a - 0.5) * cell_size * 0.2 * chaos_factor)%Q in
    b <- random ;;
    let center_y :=
      (y + (j + 0.5) * cell_size
       + (b - 0.5) * cell_size * 0.2 * chaos_factor)%Q in
    o <- get_random_opacity_str chaos_factor ;;
    ret [Circle (center_x, center_y) (PyNum.max 1 dot_radius) foreground
                (Some o)].

Definition draw_dots (x y square_size : Z) (foreground background : string)
    (chaos_factor : Q) : M (list svg_element) :=
  let bg := cell_background x y square_size background in
  let num_dots_choices :=
    [4; 9; 16; if PyNum.Qltb 0.5%Q chaos_factor then 25 else 16] in
  n <- choice num_dots_choices ;;
  let num_dots_sqrt := Z.sqrt n in
  let rows := num_dots_sqrt in
  let cols := num_dots_sqrt in
  cell_size <- lift (PyNum.div square_size rows) ;;
  ds <- for_ (range rows) (fun i =>
          for_ (range cols) (fun j =>
            dot x y cell_size foreground chaos_factor i j)) ;;
  ret (bg :: ds).

Definition draw_letter_block (x y square_size : Z)
    (foreground background : string) (chaos_factor : Q)
  : M (list svg_element) :=
  let bg := cell_background x y square_size background in
  character <- choice characters ;;
  font_size_factor <- uniform (0.6 - chaos_factor * 0.1)%Q
                              (0.9 + chaos_factor * 0.1)%Q ;;
  let font_size := PyNum.max 10 (square_size * font_size_factor)%Q in
  let text_center_x := (x + square_size / 2)%Q in
  let text_center_y := (y + square_size / 2)%Q in
  transform_str <- get_random_rotation_transform (chaos_factor * 0.8)%Q
                     text_center_x text_center_y ;;
  o <- get_random_opacity_str chaos_factor ;;
  ret [bg; Text character (text_center_x, text_center_y) font_size foreground
                o transform_str].

(** The loop [for i in range(num_circles, 0, -1)] with its flag. *)
Fixpoint concentric_loop (x y square_size : Z)
    (foreground background : string) (chaos_factor : Q)
    (num_circles : Z) (max_radius : Q) (idxs : list Z)
    (current_color_is_fg : bool) : M (list svg_element) :=
  match idxs with
  | [] => ret []
  | i :: rest =>
      ratio <- lift (PyNum.div i num_circles) ;;
      let radius := (max_radius * ratio)%Q in
      if PyNum.Qltb radius 1 then
        concentric_loop x y square_size foreground background chaos_factor
          num_circles max_radius rest current_color_is_fg
      else
        let color := if current_color_is_fg then foreground else background in
        a <- random ;;
        let offset_x_val := ((a - 0.5) * square_size * 0.05 * chaos_factor)%Q in
        b <- random ;;
        let offset_y_val := ((b - 0.5) * square_size * 0.05 * chaos_factor)%Q in
        o <- get_random_opacity_str chaos_factor ;;
        ops <- concentric_loop x y square_size foreground background
                 chaos_factor num_circles max_radius rest
                 (negb current_color_is_fg) ;;
        ret (Circle (x + square_size / 2 + offset_x_val,
                     y + square_size / 2 + offset_y_val)%Q
                    radius color (Some o) :: ops)
  end.

(** [range(n, 0, -1)] *)
Definition range_down (n : Z) : list Z := map (fun k => n - k) (range n).

Definition draw_concentric_circles (x y square_size : Z)
    (foreground background : string) (chaos_factor : Q)
  : M (list svg_element) :=
  let bg := cell_background x y square_size background in
  num_circles <- randint (2 + PyNum.trunc (chaos_factor * 2))
                         (5 + PyNum.trunc (chaos_factor * 3)) ;;
  f <- uniform 0.85%Q 1.0%Q ;;
  let max_radius := (square_size / 2 * f)%Q in
  ops <- concentric_loop x y square_size foreground background chaos_factor
           num_circles max_radius (range_down num_circles) true ;;
  ret (bg :: ops).

(** The body of the loop of [draw_stripes]. *)
Definition stripe (x y square_size : Z) (foreground background : string)
    (chaos_factor : Q) (num_stripes : Z) (is_horizontal : bool) (i : Z)
  : M (list svg_element) :=
  use_fg <- (if i mod 2 =? 0 then ret true
             else t <- random ;; ret (PyNum.Qltb t (chaos_factor * 0.3)%Q)) ;;
  let stripe_color := if (use_fg : bool) then foreground else background in
  skip <- (if String.eqb stripe_color background
           then t <- random ;; ret (PyNum.Qltb t (chaos_factor * 0.6)%Q)
           else ret false) ;;
  if (skip : bool) then ret []
  else
    base_thickness <- lift (PyNum.div square_size num_stripes) ;;
    f <- uniform (0.7 - chaos_factor * 0.2)%Q (1.3 + chaos_factor * 0.2)%Q ;;
    let thickness_variation := (base_thickness * f)%Q in
    let stripe_thickness := PyNum.max 1 thickness_variation in
    if is_horizontal then
      let y_pos := (y + i * base_thickness)%Q in
      ret [Rect (x : Q, y_pos) (square_size : Q, stripe_thickness) stripe_color]
    else
      let x_pos := (x + i * base_thickness)%Q in
      ret [Rect (x_pos, y : Q) (stripe_thickness, square_size : Q) stripe_color].

Definition draw_stripes (x y square_size : Z) (foreground background : string)
    (chaos_factor : Q) : M (list svg_element) :=
  let bg := cell_background x y square_size background in
  num_stripes <- randint (3 + PyNum.trunc (chaos_factor * 2))
                         (7 + PyNum.trunc (chaos_factor * 4)) ;;
  is_horizontal <- choice [true; false] ;;
  o <- get_random_opacity_str chaos_factor ;;
  stripe_elements <-
    for_ (range num_stripes)
         (stripe x y square_size foreground background chaos_factor
                 num_stripes is_horizontal) ;;
  ret [bg; Group None None (Some o) stripe_elements].

Definition draw_rotated_shape (x y square_size : Z)
    (foreground background : string) (chaos_factor : Q)
  : M (list svg_element) :=
  let bg := cell_background x y square_size background in
  shape_type <- choice [shape_rect; shape_circle; shape_ellipse] ;;
  inner_size_factor <- uniform (0.5 - chaos_factor * 0.1)%Q
                               (0.8 + chaos_factor * 0.1)%Q ;;
  let inner_size := (square_size * inner_size_factor)%Q in
  let center_x := (x + square_size / 2)%Q in
  let center_y := (y + square_size / 2)%Q in
  transform_str <- get_random_rotation_transform (chaos_factor * 1.5)%Q
                     center_x center_y ;;
  o <- get_random_opacity_str chaos_factor ;;
  shape <-
    match shape_type with
    | shape_rect =>
        fw <- uniform 0.7%Q 1.3%Q ;;
        let rect_w := (inner_size * fw)%Q in
        fh <- uniform 0.7%Q 1.3%Q ;;
        let rect_h := (inner_size * fh)%Q in
        let rect_w := PyNum.max 1 (PyNum.min rect_w (square_size * 0.9)%Q) in
        let rect_h := PyNum.max 1 (PyNum.min rect_h (square_size * 0.9)%Q) in
        ret (Rect (center_x - rect_w / 2, center_y - rect_h / 2)%Q
                  (rect_w, rect_h) foreground)
    | shape_circle =>
        ret (Circle (center_x, center_y) (PyNum.max 1 (inner_size / 2)%Q)
                    foreground None)
    | shape_ellipse =>
        fx <- uniform 0.7%Q 1.3%Q ;;
        let rx_val := (inner_size / 2 * fx)%Q in
        fy <- uniform 0.7%Q 1.3%Q ;;
        let ry_val := (inner_size / 2 * fy)%Q in
        ret (Ellipse (center_x, center_y)
                     (PyNum.max 1 rx_val, PyNum.max 1 ry_val) foreground)
    end ;;
  ret [bg; Group None (Some transform_str) (Some o) [shape]].

(** One curve segment of a wavy line.  [along] is the coordinate the line
    runs along ([x] when horizontal), [across] the other one. *)
Definition wavy_segment (x y square_size : Z) (chaos_factor : Q)
    (is_horizontal : bool) (start_line amplitude frequency : Q)
    (num_segments j_seg : Z) : M path_cmd :=
  let origin : Q := if is_horizontal then x else y in
  let round1 := PyNum.round_to 10 in
  step <- lift (PyNum.div square_size num_segments) ;;
  u1 <- uniform (-10)%Q 10%Q ;;
  let along1 := (origin + step * j_seg
                 + u1 * chaos_factor * (square_size / 100))%Q in
  phase1 <- lift (PyNum.div (j_seg * pi * frequency)%Q num_segments) ;;
  a1 <- random ;;
  v1 <- uniform (-5)%Q 5%Q ;;
  let across1 := (start_line + amplitude * sin (phase1 + a1 * chaos_factor)
                  + v1 * chaos_factor * (square_size / 100))%Q in
  u2 <- uniform (-10)%Q 10%Q ;;
  let along2 := (origin + step * (j_seg + 0.5)
                 + u2 * chaos_factor * (square_size / 100))%Q in
  phase2 <- lift (PyNum.div ((j_seg + 0.5) * pi * frequency)%Q num_segments) ;;
  a2 <- random ;;
  v2 <- uniform (-5)%Q 5%Q ;;
  let across2 := (start_line - amplitude * sin (phase2 + a2 * chaos_factor)
                  + v2 * chaos_factor * (square_size / 100))%Q in
  let along_end := (origin + step * (j_seg + 1)%Z)%Q in
  across_end <-
    (if j_seg <? num_segments - 1 then
       phase3 <- lift (PyNum.div ((j_seg + 1)%Z * pi * frequency)%Q
                                 num_segments) ;;
       a3 <- random ;;
       ret (start_line + amplitude * sin (phase3 + a3 * chaos_factor))%Q
     else ret start_line) ;;
  if is_horizontal then
    ret (path_C (round1 along1) (round1 across1) (round1 along2)
                (round1 across2) (round1 along_end) (round1 across_end))
  else
    ret (path_C (round1 across1) (round1 along1) (round1 across2)
                (round1 along2) (round1 across_end) (round1 along_end)).

Fixpoint wavy_segments (segment : Z -> M path_cmd) (js : list Z)
  : M (list path_cmd) :=
  match js with
  | [] => ret []
  | j_seg :: rest =>
      c <- segment j_seg ;;
      cs <- wavy_segments segment rest ;;
      ret (c :: cs)
  end.

(** The body of the loop [for i in range(num_lines)]. *)
Definition wavy_line (x y square_size : Z) (foreground : string)
    (chaos_factor : Q) (num_lines : Z) (is_horizontal : bool) (stroke_w : Q)
    (i : Z) : M (list svg_element) :=
  o <- get_random_opacity_str chaos_factor ;;
  f <- uniform 0.05%Q (0.2 + chaos_factor * 0.1)%Q ;;
  let amplitude := (square_size * f)%Q in
  frequency <- uniform 0.5%Q (2.0 + chaos_factor)%Q ;;
  num_segments <- randint 3 7 ;;
  gap <- lift (PyNum.div square_size (num_lines + 1)%Z) ;;
  let start_line := ((if is_horizontal then y else x) + gap * (i + 1)%Z)%Q in
  let start := if is_horizontal then path_M x start_line
               else path_M start_line y in
  curves <- wavy_segments
              (wavy_segment x y square_size chaos_factor is_horizontal
                            start_line amplitude frequency num_segments)
              (range num_segments) ;;
  ret [Path (start :: curves) None (Some foreground) (Some stroke_w) (Some o)].

Definition draw_wavy_lines (x y square_size : Z)
    (foreground background : string) (chaos_factor : Q)
  : M (list svg_element) :=
  let bg := cell_background x y square_size background in
  num_lines <- randint (2 + PyNum.trunc (chaos_factor * 2))
                       (5 + PyNum.trunc (chaos_factor * 3)) ;;
  is_horizontal <- choice [true; false] ;;
  f <- uniform 0.02%Q (0.05 + chaos_factor * 0.05)%Q ;;
  let stroke_w := PyNum.max 1 (square_size * f)%Q in
  ops <- for_ (range num_lines)
           (wavy_line x y square_size foreground chaos_factor
                      num_lines is_horizontal stroke_w) ;;
  ret (bg :: ops).

(** [style_function_map[name]] *)
Definition style_function_map (f : style)
  : Z -> Z -> Z -> string -> string -> Q -> M (list svg_element) :=
  match f with
  | circle => draw_circle
  | opposite_circles => draw_opposite_circles
  | cross => draw_cross
  | half_square => draw_half_square
  | diagonal_square => draw_diagonal_square
  | quarter_circle => draw_quarter_circle
  | dots => draw_dots
  | letter_block => draw_letter_block
  | concentric_circles => draw_concentric_circles
  | stripes => draw_stripes
  | rotated_shape => draw_rotated_shape
  | wavy_lines => draw_wavy_lines
  end.

(** The dictionary [params]. *)
Record params : Type := {
  seed_value : seed_param;
  cols : Z;
  rows : Z;
  square_size : Z;
  current_palette_list : list palette;
  palette_index : Z;
  block_styles : list string;
  chaos_factor : Q;
  big_block_enabled : bool;
  big_block_size : Z
}.

(** The call of [random.seed] the seed handling ends in: with the
    integer given, or without argument. *)
Inductive seed_call : Type :=
| seed_with (n : Z)
| seed_without_argument.

Definition seed_handling (seed_value : seed_param)
  : result (seed_call * list diagnostic) :=
  match seed_value with
  | seed_str s =>
      if PyStr.isdigit s
      then rbind (PyStr.int10 s) (fun n => Ok (seed_with n, []))
      else if negb (String.eqb s "")
           then Ok (seed_without_argument, [WarnInvalidSeed])
           else Ok (seed_without_argument, [])
  | seed_int_value n => Ok (seed_with n, [])
  | seed_none => Ok (seed_without_argument, [])
  | seed_other => Ok (seed_without_argument, [WarnInvalidSeed])
  end.

Fixpoint print_all (ds : list diagnostic) : M unit :=
  match ds with
  | [] => ret tt
  | d :: rest => print d ;; print_all rest
  end.

Definition seed_random (seed_value : seed_param) (fresh : gen) : M unit :=
  '(call, warnings) <- lift (seed_handling seed_value) ;;
  print_all warnings ;;
  match call with
  | seed_with n => seed n
  | seed_without_argument => seed_from_os fresh
  end.

(** The two nested loops over the cells; each cell is a group of its
    own. *)
Definition draw_grid (num_rows num_cols square_size : Z)
    (selected_palette_data : palette) (active_style_funcs : list style)
    (chaos_factor : Q) : M (list svg_element) :=
  for_ (range num_rows) (fun r_idx =>
    for_ (range num_cols) (fun c_idx =>
      colors <- get_two_colors selected_palette_data ;;
      draw_func <- choice active_style_funcs ;;
      cell_group <- style_function_map draw_func
                      (c_idx * square_size) (r_idx * square_size) square_size
                      (foreground colors) (background colors) chaos_factor ;;
      ret [Group (Some (cell c_idx r_idx)) None None cell_group])).

(** The column and row of the top-left cell of the big block. *)
Definition big_block_origin (num_rows num_cols multiplier : Z) : M (Z * Z) :=
  bb_col_idx <- randint 0 (num_cols - multiplier) ;;
  bb_row_idx <- randint 0 (num_rows - multiplier) ;;
  ret (bb_col_idx, bb_row_idx).

Definition draw_big_block (num_rows num_cols square_size : Z)
    (selected_palette_data : palette) (active_style_funcs : list style)
    (big_block_enabled : bool) (multiplier : Z) (chaos_factor : Q)
  : M (list svg_element) :=
  if big_block_enabled then
    if (multiplier <=? num_rows) && (multiplier <=? num_cols) then
      '(bb_col_idx, bb_row_idx) <-
         big_block_origin num_rows num_cols multiplier ;;
      let bb_svg_x := bb_col_idx * square_size in
      let bb_svg_y := bb_row_idx * square_size in
      let big_square_actual_size := multiplier * square_size in
      colors <- get_two_colors selected_palette_data ;;
      draw_func_big <- choice active_style_funcs ;;
      big_block_group <- style_function_map draw_func_big bb_svg_x bb_svg_y
                           big_square_actual_size
                           (foreground colors) (background colors)
                           chaos_factor ;;
      ret [Group (Some big_block_element) None None big_block_group]
    else
      print (SkipBigBlock num_rows num_cols multiplier) ;;
      ret []
  else ret [].

(** [generate_art_svg_string(params)]; [None] when there is no palette
    list. *)
Definition generate_art_svg_string (p : params) (fresh : gen)
  : M (option drawing) :=
  seed_random (seed_value p) fresh ;;
  let num_cols := cols p in
  let num_rows := rows p in
  let square_size := square_size p in
  match current_palette_list p with
  | [] => print ErrNoPalette ;; ret None
  | _ =>
      selected_palette_data <-
        lift (getitem (current_palette_list p) (palette_index p)) ;;
      let chaos_factor := chaos_factor p in
      let svg_width := num_cols * square_size in
      let svg_height := num_rows * square_size in
      bg <- create_background_colors selected_palette_data ;;
      n <- randint 1000 9999 ;;
      let active_style_funcs := active_styles (block_styles p) in
      cells <- draw_grid num_rows num_cols square_size selected_palette_data
                 active_style_funcs chaos_factor ;;
      big <- draw_big_block num_rows num_cols square_size
               selected_palette_data active_style_funcs
               (big_block_enabled p) (big_block_size p) chaos_factor ;;
      ret (Some {| svg_width := svg_width;
                   svg_height := svg_height;
                   gradient_id := n;
                   gradient_stops := (bg_inner bg, bg_outer bg);
                   elements :=
                     Group (Some grid_elements) None None cells :: big |})
  end.

End Generators.

End Vector.

(* ===================================================================== *)
(** * A concrete source, to run the generators on *)
(* ===================================================================== *)

(** A linear congruential generator and rational stand-ins for the
    functions of [math]: enough to evaluate the generators on concrete
    inputs.  (Python's own generator is the Mersenne Twister; nothing
    below depends on which source is used.) *)
Module Lcg.

Definition modulus : Z := 2147483648.

Definition step (g : Z) : Z := (1103515245 * g + 12345) mod modulus.

#[export] Instance source : RandomSource := {|
  gen := Z;
  seed_int n := Z.abs n mod modulus;
  next_float g := (Qmake (step g) (Z.to_pos modulus), step g);
  randbelow n g := (step g mod n, step g)
|}.

(** A state of the generator, given as a number. *)
Definition state (n : Z) : @gen source := n.

#[export] Instance math : MathLib := {|
  sin x := Qred (x - x * x * x / 6)%Q;
  pi := (355 # 113)%Q;
  sqrt x := Qred ((x + 1) / 2)%Q
|}.

End Lcg.

(* ===================================================================== *)
(** * Vocabulary of the statements *)
(* ===================================================================== *)

Section Outcomes.

Context {RS : RandomSource}.

(** [m] returns from every state, prints nothing, and its value
    satisfies [post]. *)
Definition returns {A : Type} (m : M A) (post : A -> Prop) : Prop :=
  forall g, exists a g', m g = Ok (a, g', []) /\ post a.

(** [m] returns from every state. *)
Definition succeeds {A : Type} (m : M A) : Prop :=
  forall g, exists a g' out, m g = Ok (a, g', out).

End Outcomes.

Definition rgb_of (c : rgba) : Z * Z * Z := let '(r, g, b, _) := c in (r, g, b).

(** The string parses as a colour, whatever the alpha it is given. *)
Definition parses (s : string) : Prop :=
  exists rgb, forall alpha,
    hex_to_rgba (Str s) alpha = Ok (let '(r, g, b) := rgb in (r, g, b, alpha)).

Definition is_hex_digit (c : ascii) : bool :=
  match PyStr.hex_value c with Some _ => true | None => false end.

Fixpoint all_hex (s : string) : bool :=
  match s with
  | String c rest => is_hex_digit c && all_hex rest
  | EmptyString => true
  end.

(** ['#'] followed by exactly six hexadecimal digits. *)
Definition is_hex6 (c : entry) : bool :=
  match c with
  | Str (String h rest) =>
      Ascii.eqb h "#" && (String.length rest =? 6)%nat && all_hex rest
  | _ => false
  end.

(** The cells of a grid in row-major order: the [k]-th cell visited is
    in row [k / num_cols] and column [k mod num_cols]. *)
Definition row_major (num_rows num_cols : Z) : list (Z * Z) :=
  map (fun k => (k / num_cols, k mod num_cols)) (range (num_rows * num_cols)).


(** How a colour pair relates to the valid colours it was drawn from:
    both colours parse from valid entries, and the two entries are the
    same one exactly when every valid entry is that one. *)
Definition drawn_from (valid : list string) (cs : Raster.colors) : Prop :=
  exists fg_hex bg_hex alpha,
    In fg_hex valid /\ In bg_hex valid /\
    hex_to_rgba (Str fg_hex) alpha = Ok (Raster.foreground cs) /\
    hex_to_rgba (Str bg_hex) 255 = Ok (Raster.background cs) /\
    (fg_hex = bg_hex <-> forall s, In s valid -> s = bg_hex).

(** What is checked of each palette of the raster store. *)
Definition palette_well_formed (p : palette) : bool :=
  (3 <=? List.length p)%nat
  && forallb is_hex6 p
  && forallb is_valid_color p
  && forallb (fun c => match c with
                       | Str s => PyStr.len (PyStr.lstrip_hash s) =? 6
                       | NonStr => false
                       end) p
  && forallb (fun c => is_ok (hex_to_rgba c 255)) p
  && is_ok (rbind (Raster.read_first_two p)
                  (fun '(c1, c2) => mix_background c1 c2)).

Section DrawOrder.

Context {RS : RandomSource} {ML : MathLib}.

(** The order in which one cell consumes the stream, written out state
    by state: the colour pair is drawn from the state the cell starts
    in, the style is chosen from the state the colour pair leaves, and
    the generator of that style draws from the state the choice
    leaves. *)
Definition raster_cell_in_order (square_size : Z)
    (selected_palette_data : palette) (active_style_funcs : list style)
    (chaos_factor : Q) (cell : Z * Z) : M (list Raster.pil_op) :=
  fun g0 =>
    let '(r_idx, c_idx) := cell in
    match Raster.pil_get_two_colors selected_palette_data chaos_factor g0 with
    | Raise e => Raise e
    | Ok (colors, g1, out1) =>
        match choice active_style_funcs g1 with
        | Raise e => Raise e
        | Ok (draw_func, g2, out2) =>
            match Raster.style_function_map_pil draw_func
                    (c_idx * square_size) (r_idx * square_size) square_size
                    (Raster.foreground colors) (Raster.background colors)
                    chaos_factor g2 with
            | Raise e => Raise e
            | Ok (ops, g3, out3) => Ok (ops, g3, out1 ++ out2 ++ out3)
            end
        end
    end.

Definition vector_cell_in_order (square_size : Z)
    (selected_palette_data : palette) (active_style_funcs : list style)
    (chaos_factor : Q) (cell : Z * Z) : M (list Vector.svg_element) :=
  fun g0 =>
    let '(r_idx, c_idx) := cell in
    match Vector.get_two_colors selected_palette_data g0 with
    | Raise e => Raise e
    | Ok (colors, g1, out1) =>
        match choice active_style_funcs g1 with
        | Raise e => Raise e
        | Ok (draw_func, g2, out2) =>
            match Vector.style_function_map draw_func
                    (c_idx * square_size) (r_idx * square_size) square_size
                    (Vector.foreground colors) (Vector.background colors)
                    chaos_factor g2 with
            | Raise e => Raise e
            | Ok (ops, g3, out3) =>
                Ok ([Vector.Group (Some (Vector.cell c_idx r_idx)) None None ops],
                    g3, out1 ++ out2 ++ out3)
            end
        end
    end.

End DrawOrder.



(** Different valid entries denote different colours. *)
Definition distinct_colours (valid : list string) : Prop :=
  forall s t a b x y,
    In s valid -> In t valid ->
    hex_to_rgba (Str s) a = Ok x -> hex_to_rgba (Str t) b = Ok y ->
    rgb_of x = rgb_of y -> s = t.

(** The pair [get_two_colors] returns, by the number of valid colours:
    none, the fixed pair; one, that colour over [#CCCCCC]; more, two
    valid entries that are the same one exactly when every valid entry is
    that one. *)
Definition vector_pair_from (valid : list string) (cs : Vector.colors)
  : Prop :=
  match valid with
  | [] => Vector.foreground cs = "#333333"%string
          /\ Vector.background cs = "#CCCCCC"%string
  | [only] => Vector.foreground cs = only
              /\ Vector.background cs = "#CCCCCC"%string
  | _ => In (Vector.foreground cs) valid /\ In (Vector.background cs) valid /\
         (Vector.foreground cs = Vector.background cs
          <-> forall s, In s valid -> s = Vector.background cs)
  end.

(** The bounding box Pillow is given for a circle of centre [(cx, cy)]
    and radius [r]. *)
Definition circle_at (cx cy r : Q) (fill : rgba) : Raster.pil_op :=
  Raster.ellipse (cx - r) (cy - r) (cx + r) (cy + r) fill.

(** The reading of the background claim: the pair derived from the first
    two valid colours of the palette, the fixed grey pair when there are
    fewer than two. *)
Definition background_of_first_two_valid (color_palette : palette)
  : result ((Z * Z * Z) * (Z * Z * Z)) :=
  match valid_colors color_palette with
  | c1 :: c2 :: _ =>
      rbind (Vector.parse_hex (Str c1)) (fun rgb1 =>
      rbind (Vector.parse_hex (Str c2)) (fun rgb2 =>
      mix_background rgb1 rgb2))
  | _ => Ok ((238, 238, 238), (221, 221, 221))
  end.

Definition raster_fallback_bg : Raster.bg_colors :=
  {| Raster.bg_inner := (238, 238, 238, 255);
     Raster.bg_outer := (221, 221, 221, 255) |}.


(** [create_background_colors] returns on this palette: it is short, or
    the error of its [try] block is caught, or the mix works out. *)
Definition background_returns (color_palette : palette) : bool :=
  match color_palette with
  | [] | [_] => true
  | _ =>
      match Vector.read_first_two color_palette with
      | Raise e => Vector.caught e
      | Ok (c1, c2) => is_ok (mix_background c1 c2)
      end
  end.

(** A two by two grid asked for a big block of three cells. *)
Definition small_grid_params : Vector.params :=
  {| Vector.seed_value := Vector.seed_none;
     Vector.cols := 2; Vector.rows := 2; Vector.square_size := 10;
     Vector.current_palette_list := Vector.DEFAULT_PALETTES_DATA;
     Vector.palette_index := 0; Vector.block_styles := [];
     Vector.chaos_factor := 0.2; Vector.big_block_enabled := true;
     Vector.big_block_size := 3 |}.

(** Text of ASCII characters only. *)
Fixpoint ascii_only (s : string) : bool :=
  match s with
  | EmptyString => true
  | String c rest => (nat_of_ascii c <? 128)%nat && ascii_only rest
  end.

(* ===================================================================== *)
(** * Vocabulary of the further properties *)
(* ===================================================================== *)

(** Every character a string of the model can hold. *)
Definition all_ascii : list ascii := map ascii_of_nat (seq 0 256).

(** What [int(s, 16)] does on a two-character slice: it raises, or
    yields a value no smaller than [-15] and no larger than [255]. *)
Definition slice_value_bounded (c1 c2 : ascii) : bool :=
  match PyStr.int16 (String c1 (String c2 EmptyString)) with
  | Ok v => (-15 <=? v) && (v <=? 255)
  | Raise _ => true
  end.

(** A channel value written with [:02X] or [:02x] is two hexadecimal
    digits and reads back with [int(_, 16)]. *)
Definition channel_reads_back (digit : Z -> ascii) (n : Z) : bool :=
  match PyStr.fmt_02 digit n with
  | String c1 (String c2 EmptyString) =>
      is_hex_digit c1 && is_hex_digit c2
      && negb (Ascii.eqb c1 "#")
      && match PyStr.int16 (String c1 (String c2 EmptyString)) with
         | Ok v => v =? n
         | Raise _ => false
         end
  | _ => false
  end.

(** On two hexadecimal digits [int(_, 16)] yields a value from [0] to
    [255]. *)
Definition hex_pair_value_bounded (c1 c2 : ascii) : bool :=
  if is_hex_digit c1 && is_hex_digit c2 then
    match PyStr.int16 (String c1 (String c2 EmptyString)) with
    | Ok v => (0 <=? v) && (v <=? 255)
    | Raise _ => false
    end
  else true.

(** All three channels lie between [lo] and [hi]. *)
Definition channels_within (lo hi : Z) (c : rgba) : Prop :=
  let '(r, g, b, _) := c in
  lo <= r <= hi /\ lo <= g <= hi /\ lo <= b <= hi.

Section Partial.

Context {RS : RandomSource}.

(** Whenever [m] returns, its value satisfies [post]. *)
Definition ensures {A : Type} (m : M A) (post : A -> Prop) : Prop :=
  forall g a g' out, m g = Ok (a, g', out) -> post a.

End Partial.

(** The fill colours of a Pillow call, those of a pasted image
    included, and the angles of the rotated pastes. *)
Fixpoint fills (o : Raster.pil_op) : list rgba :=
  match o with
  | Raster.rectangle _ _ _ _ fill | Raster.ellipse _ _ _ _ fill
  | Raster.polygon _ fill | Raster.pieslice _ _ _ _ _ _ fill
  | Raster.line _ fill _ _ | Raster.text _ _ fill => [fill]
  | Raster.paste _ ops _ _ | Raster.paste_rotated _ ops _ _ _ =>
      flat_map fills ops
  end.

Fixpoint rotations (o : Raster.pil_op) : list Z :=
  match o with
  | Raster.paste _ ops _ _ => flat_map rotations ops
  | Raster.paste_rotated _ ops angle _ _ => angle :: flat_map rotations ops
  | _ => []
  end.

(** A fill a style generator may use when it is given [fg] and [bg]:
    one of the two with its alpha kept, replaced by the alpha of the
    other, or capped by a value [get_random_alpha] returned. *)
Definition fill_derived (fg bg : rgba) (chaos_factor : Q) (fill : rgba)
  : Prop :=
  exists base a,
    (base = fg \/ base = bg) /\ fill = Raster.with_alpha base a /\
    (a = Raster.alpha_of fg \/ a = Raster.alpha_of bg \/
     exists k, (150 <= k <= 240 \/ k = 255) /\
               ((chaos_factor <= 0)%Q -> k = 255) /\
               a = Z.min (Raster.alpha_of base) k).

(** A rotated paste: by one of the listed angles, not 0, and only under
    a positive chaos factor. *)
Definition rotation_drawn (chaos_factor : Q) (angle : Z) : Prop :=
  In angle rotation_angles /\ angle <> 0 /\ (0 < chaos_factor)%Q.

(** What the calls of one cell are made of. *)
Definition cell_painted (x y square_size : Z) (fg bg : rgba)
    (chaos_factor : Q) (ops : list Raster.pil_op) : Prop :=
  (exists rest, ops = Raster.cell_background x y square_size bg :: rest) /\
  Forall (fill_derived fg bg chaos_factor) (flat_map fills ops) /\
  Forall (rotation_drawn chaos_factor) (flat_map rotations ops).

(** The boxes handed to Pillow ([rectangle], [ellipse], [pieslice]),
    those of a pasted image included; the width and number of points of
    the lines; the font sizes. *)
Fixpoint boxes (o : Raster.pil_op) : list (Q * Q * Q * Q) :=
  match o with
  | Raster.rectangle x0 y0 x1 y1 _ | Raster.ellipse x0 y0 x1 y1 _
  | Raster.pieslice x0 y0 x1 y1 _ _ _ => [(x0, y0, x1, y1)]
  | Raster.paste _ ops _ _ | Raster.paste_rotated _ ops _ _ _ =>
      flat_map boxes ops
  | _ => []
  end.

Fixpoint strokes (o : Raster.pil_op) : list (Z * Z) :=
  match o with
  | Raster.line points _ width _ => [(width, Z.of_nat (List.length points))]
  | Raster.paste _ ops _ _ | Raster.paste_rotated _ ops _ _ _ =>
      flat_map strokes ops
  | _ => []
  end.

Fixpoint font_sizes (o : Raster.pil_op) : list Z :=
  match o with
  | Raster.text _ font_size _ => [font_size]
  | Raster.paste _ ops _ _ | Raster.paste_rotated _ ops _ _ _ =>
      flat_map font_sizes ops
  | _ => []
  end.

(** A box whose second corner is not above or left of the first. *)
Definition ordered (box : Q * Q * Q * Q) : Prop :=
  let '(x0, y0, x1, y1) := box in (x0 <= x1 /\ y0 <= y1)%Q.

(** Calls with well-formed arguments: ordered boxes, lines at least one
    pixel wide through at least two points, fonts of size 10 or more. *)
Definition well_formed_calls (ops : list Raster.pil_op) : Prop :=
  Forall ordered (flat_map boxes ops) /\
  Forall (fun '(width, points) => 1 <= width /\ 2 <= points)
         (flat_map strokes ops) /\
  Forall (fun font_size => 10 <= font_size) (flat_map font_sizes ops).

(** The lists of fills and rotations of the calls drawn so far. *)
Definition painted_ops (fg bg : rgba) (c : Q) (ops : list Raster.pil_op)
  : Prop :=
  Forall (fill_derived fg bg c) (flat_map fills ops) /\
  Forall (rotation_drawn c) (flat_map rotations ops).

(** Fills with an alpha from 150 to 255, 255 when the chaos factor is
    not positive, and rotations that were drawn. *)
Definition alpha_bounded (c : Q) (ops : list Raster.pil_op) : Prop :=
  Forall (fun fill => 150 <= Raster.alpha_of fill <= 255 /\
                      ((c <= 0)%Q -> Raster.alpha_of fill = 255))
         (flat_map fills ops) /\
  Forall (rotation_drawn c) (flat_map rotations ops).

(** An attribute that may be absent. *)
Definition attribute {A : Type} (a : option A) : list A :=
  match a with Some v => [v] | None => [] end.

(** Of an element and its descendants: the colours of the [fill] and
    [stroke] attributes, the opacities, the transforms, and the lengths
    that give a size (sides, radii, stroke widths, font sizes). *)
Fixpoint svg_fills (e : Vector.svg_element) : list string :=
  match e with
  | Vector.Rect _ _ fill | Vector.Circle _ _ fill _ | Vector.Ellipse _ _ fill
  | Vector.Polygon _ fill | Vector.Text _ _ _ fill _ _ => [fill]
  | Vector.Path _ fill stroke _ _ => attribute fill ++ attribute stroke
  | Vector.Group _ _ _ children => flat_map svg_fills children
  end.

Fixpoint opacities (e : Vector.svg_element) : list Q :=
  match e with
  | Vector.Circle _ _ _ opacity | Vector.Path _ _ _ _ opacity =>
      attribute opacity
  | Vector.Text _ _ _ _ opacity _ => [opacity]
  | Vector.Group _ _ opacity children =>
      attribute opacity ++ flat_map opacities children
  | _ => []
  end.

Fixpoint transforms (e : Vector.svg_element) : list Vector.rotation :=
  match e with
  | Vector.Text _ _ _ _ _ transform => [transform]
  | Vector.Group _ transform _ children =>
      attribute transform ++ flat_map transforms children
  | _ => []
  end.

Definition arc_radii (cmd : Vector.path_cmd) : list Q :=
  match cmd with
  | Vector.path_A rx ry _ _ _ _ _ => [rx; ry]
  | _ => []
  end.

Fixpoint lengths (e : Vector.svg_element) : list Q :=
  match e with
  | Vector.Rect _ (w, h) _ => [w; h]
  | Vector.Circle _ r _ _ => [r]
  | Vector.Ellipse _ (rx, ry) _ => [rx; ry]
  | Vector.Polygon _ _ => []
  | Vector.Path d _ _ stroke_width _ =>
      attribute stroke_width ++ flat_map arc_radii d
  | Vector.Text _ _ font_size _ _ _ => [font_size]
  | Vector.Group _ _ _ children => flat_map lengths children
  end.

(** An opacity [get_random_opacity_str] returns. *)
Definition opacity_drawn (chaos_factor : Q) (o : Q) : Prop :=
  ((exists n, o = (inject_Z n / inject_Z 100)%Q /\ 60 <= n <= 95)
   \/ o = 1.0%Q) /\
  ((chaos_factor <= 0)%Q -> o = 1.0%Q).

(** A transform [get_random_rotation_transform] returns for a turn about
    [(cx, cy)]. *)
Definition transform_drawn (chaos_factor cx cy : Q) (t : Vector.rotation)
  : Prop :=
  In (Vector.rot_angle t) rotation_angles /\
  Vector.rot_cx t = cx /\ Vector.rot_cy t = cy /\
  (Vector.rot_angle t <> 0 -> (0 < chaos_factor)%Q).

(** What the elements drawn so far for a cell are made of. *)
Definition drawn_elements (x y square_size : Z) (fg bg : string)
    (chaos_factor : Q) (elements : list Vector.svg_element) : Prop :=
  Forall (fun fill => fill = fg \/ fill = bg) (flat_map svg_fills elements) /\
  Forall (opacity_drawn chaos_factor) (flat_map opacities elements) /\
  Forall (transform_drawn chaos_factor
            (inject_Z x + inject_Z square_size / 2)
            (inject_Z y + inject_Z square_size / 2))
         (flat_map transforms elements).

Definition cell_drawn (x y square_size : Z) (fg bg : string)
    (chaos_factor : Q) (elements : list Vector.svg_element) : Prop :=
  (exists rest,
     elements = Vector.cell_background x y square_size bg :: rest) /\
  drawn_elements x y square_size fg bg chaos_factor elements.

(** Sizes that are not negative. *)
Definition sizes_not_negative (elements : list Vector.svg_element) : Prop :=
  Forall (fun l => (0 <= l)%Q) (flat_map lengths elements).

(** Opacities and transforms that were drawn, whatever the cell. *)
Definition opacity_bounded (c : Q) (elements : list Vector.svg_element)
  : Prop :=
  Forall (opacity_drawn c) (flat_map opacities elements) /\
  Forall (fun t => In (Vector.rot_angle t) rotation_angles /\
                   (Vector.rot_angle t <> 0 -> (0 < c)%Q))
         (flat_map transforms elements).

(** ['#'] followed by three or by six hexadecimal digits. *)
Definition is_hex_colour (c : entry) : bool :=
  match c with
  | Str (String h body) =>
      Ascii.eqb h "#" && all_hex body
      && ((String.length body =? 3) || (String.length body =? 6))%nat
  | _ => false
  end.

(** A palette whose first two entries read as [-15, 15, 0]: each slice
    [-F] is a signed literal for [int]. *)
Definition signed_slices_palette : palette :=
  [Str "#-F0F00"; Str "#-F0F00"].

(** Where the cells and the big blocks lie.  The group of the cell in
    row [r_idx] and column [c_idx] carries the id of the cell and holds
    first the square of the cell; the calls of a raster cell start with
    its square. *)
Definition cell_group_at (square_size : Z) (cell : Z * Z)
    (el : Vector.svg_element) : Prop :=
  let '(r_idx, c_idx) := cell in
  exists bg rest,
    el = Vector.Group (Some (Vector.cell c_idx r_idx)) None None
           (Vector.Rect (inject_Z (c_idx * square_size),
                         inject_Z (r_idx * square_size))
                        (inject_Z square_size, inject_Z square_size) bg
            :: rest).

Definition cell_ops_at (square_size : Z) (cell : Z * Z)
    (ops : list Raster.pil_op) : Prop :=
  let '(r_idx, c_idx) := cell in
  exists bg rest,
    ops = Raster.rectangle (inject_Z (c_idx * square_size))
            (inject_Z (r_idx * square_size))
            (inject_Z (c_idx * square_size + square_size))
            (inject_Z (r_idx * square_size + square_size)) bg
          :: rest.

(** A square of [multiplier] cells a side whose top-left cell is the
    cell of some column [col] and row [row], and which ends inside a
    grid of [num_rows] by [num_cols] cells. *)
Definition block_inside (num_rows num_cols square_size multiplier : Z)
    (x y side : Z) : Prop :=
  exists col row,
    0 <= col <= num_cols - multiplier /\ 0 <= row <= num_rows - multiplier /\
    x = col * square_size /\ y = row * square_size /\
    side = multiplier * square_size /\
    0 <= x /\ x + side <= num_cols * square_size /\
    0 <= y /\ y + side <= num_rows * square_size.

Definition big_block_group_at (num_rows num_cols square_size multiplier : Z)
    (el : Vector.svg_element) : Prop :=
  exists x y side bg rest,
    block_inside num_rows num_cols square_size multiplier x y side /\
    el = Vector.Group (Some Vector.big_block_element) None None
           (Vector.Rect (inject_Z x, inject_Z y)
                        (inject_Z side, inject_Z side) bg :: rest).

Definition big_block_ops_at (num_rows num_cols square_size multiplier : Z)
    (ops : list Raster.pil_op) : Prop :=
  exists x y side bg rest,
    block_inside num_rows num_cols square_size multiplier x y side /\
    ops = Raster.rectangle (inject_Z x) (inject_Z y)
            (inject_Z (x + side)) (inject_Z (y + side)) bg :: rest.

(** [params] with another value under ['big_block_size']. *)
Definition with_big_block_size (n : Z) (p : Vector.params) : Vector.params :=
  {| Vector.seed_value := Vector.seed_value p;
     Vector.cols := Vector.cols p; Vector.rows := Vector.rows p;
     Vector.square_size := Vector.square_size p;
     Vector.current_palette_list := Vector.current_palette_list p;
     Vector.palette_index := Vector.palette_index p;
     Vector.block_styles := Vector.block_styles p;
     Vector.chaos_factor := Vector.chaos_factor p;
     Vector.big_block_enabled := Vector.big_block_enabled p;
     Vector.big_block_size := n |}.

(** Circles one inside the other: the radius of the first satisfies
    [below], every later radius is smaller than the one before it, no
    radius is under one pixel, and the fills are [first], [second],
    [first], ... in turn. *)
Fixpoint rings (first second : string) (below : Q -> Prop)
    (els : list Vector.svg_element) : Prop :=
  match els with
  | [] => True
  | el :: rest =>
      exists center r o,
        el = Vector.Circle center r first (Some o) /\
        (1 <= r)%Q /\ below r /\
        rings second first (fun r' => (r' < r)%Q) rest
  end.

(** The same for the ellipses Pillow draws, each in the box around a
    circle of radius [r]; the fills are [first] and [second] up to their
    alpha. *)
Fixpoint pil_rings (first second : rgba) (below : Q -> Prop)
    (ops : list Raster.pil_op) : Prop :=
  match ops with
  | [] => True
  | op :: rest =>
      exists cx cy r fill,
        op = Raster.ellipse (cx - r)%Q (cy - r)%Q (cx + r)%Q (cy + r)%Q fill /\
        rgb_of fill = rgb_of first /\
        (1 <= r)%Q /\ below r /\
        pil_rings second first (fun r' => (r' < r)%Q) rest
  end.

(** Indices that go down from at most [top] and stay positive. *)
Fixpoint descending (top : Z) (idxs : list Z) : Prop :=
  match idxs with
  | [] => True
  | i :: rest => 0 < i <= top /\ descending (i - 1) rest
  end.

(** [",".join(names)] *)
Fixpoint join_comma (names : list string) : string :=
  match names with
  | [] => EmptyString
  | [name] => name
  | name :: rest => append name (String "," (join_comma rest))
  end.

(** The default of the node input [block_styles]. *)
Definition all_styles_string : string := join_comma ALL_POSSIBLE_STYLE_NAMES.

(** No comma in the string. *)
Fixpoint comma_free (s : string) : bool :=
  match s with
  | EmptyString => true
  | String c rest => negb (Ascii.eqb c ",") && comma_free rest
  end.

(** Only white space, as [str.strip()] sees it. *)
Fixpoint all_space (s : string) : bool :=
  match s with
  | EmptyString => true
  | String c rest => PyStr.is_space c && all_space rest
  end.

(** Two colours read from the strings [s] and [t] differ in a channel. *)
Definition rgb_differ (s t : string) : bool :=
  match hex_to_rgba (Str s) 255, hex_to_rgba (Str t) 255 with
  | Ok (r1, g1, b1, _), Ok (r2, g2, b2, _) =>
      negb ((r1 =? r2) && (g1 =? g2) && (b1 =? b2))
  | _, _ => false
  end.

(** A palette with two valid entries that are not the same string, and
    in which entries that are not the same string are not the same
    colour either. *)
Definition colours_differ (p : palette) : bool :=
  let valid := valid_colors p in
  existsb (fun s => existsb (fun t => negb (String.eqb s t)) valid) valid
  && forallb (fun s =>
                forallb (fun t => String.eqb s t || rgb_differ s t) valid)
             valid.

(* ===================================================================== *)
(** * The window of the vector generator *)
(* ===================================================================== *)

(** [ArtGridWindow.get_generation_parameters] reads the widgets, shows
    message boxes and builds the dictionary [generate_art_svg_string]
    takes.  The state it reads and writes is kept in a record; the
    message boxes it shows are returned in order.  [int] is the model of
    [PyStr.int10], which knows no limit on the number of digits. *)
Module Window.

(** What [self.current_palette_list] holds: a list of palettes, or a
    value of another type a palette file gave. *)
Inductive loaded : Type :=
| palette_list (l : list palette)
| not_a_list.

Record widgets : Type := {
  style_checkboxes : list (string * bool);
  current_palette_list : loaded;
  palette_index_spin : Z;
  seed_edit : string;
  rows_spin : Z;
  cols_spin : Z;
  square_size_spin : Z;
  big_block_check : bool;
  big_block_size_combo : string;
  chaos_factor_spin : Q
}.

Inductive dialog : Type :=
| NoStylesSelected
| NoValidPalettes
| InvalidPaletteIndex (palette_idx : Z)
| InvalidSeed.

(** [for cb in self.style_checkboxes.values(): cb.setChecked(True)] *)
Definition check_all (w : widgets) : widgets :=
  {| style_checkboxes := map (fun cb : string * bool => (fst cb, true))
                             (style_checkboxes w);
     current_palette_list := current_palette_list w;
     palette_index_spin := palette_index_spin w;
     seed_edit := seed_edit w;
     rows_spin := rows_spin w;
     cols_spin := cols_spin w;
     square_size_spin := square_size_spin w;
     big_block_check := big_block_check w;
     big_block_size_combo := big_block_size_combo w;
     chaos_factor_spin := chaos_factor_spin w |}.

(** [self.seed_edit.clear()] *)
Definition clear_seed (w : widgets) : widgets :=
  {| style_checkboxes := style_checkboxes w;
     current_palette_list := current_palette_list w;
     palette_index_spin := palette_index_spin w;
     seed_edit := EmptyString;
     rows_spin := rows_spin w;
     cols_spin := cols_spin w;
     square_size_spin := square_size_spin w;
     big_block_check := big_block_check w;
     big_block_size_combo := big_block_size_combo w;
     chaos_factor_spin := chaos_factor_spin w |}.

(** The names whose box is checked, in the order of the dictionary. *)
Definition checked_styles (w : widgets) : list string :=
  flat_map (fun cb : string * bool =>
              let '(name, checked) := cb in if checked then [name] else [])
           (style_checkboxes w).

(** The seed read from the line edit: the widgets after it, the message
    boxes and the value kept for ['seed']. *)
Definition read_seed (w : widgets)
  : result (Vector.seed_param * widgets * list dialog) :=
  let seed_text := PyStr.strip (seed_edit w) in
  if negb (String.eqb seed_text EmptyString) then
    match PyStr.int10 seed_text with
    | Ok n => Ok (Vector.seed_int_value n, w, @nil dialog)
    | Raise ValueError => Ok (Vector.seed_none, clear_seed w, [InvalidSeed])
    | Raise e => Raise e
    end
  else Ok (Vector.seed_none, w, []).

(** [None] stands for the [return None] of the two palette errors. *)
Definition get_generation_parameters (w : widgets)
  : result (option Vector.params * widgets * list dialog) :=
  let '(selected_styles, w, shown) :=
    match checked_styles w with
    | [] => (ALL_POSSIBLE_STYLE_NAMES, check_all w, [NoStylesSelected])
    | selected => (selected, w, @nil dialog)
    end in
  match current_palette_list w with
  | not_a_list | palette_list [] => Ok (None, w, shown ++ [NoValidPalettes])
  | palette_list palettes =>
      let palette_idx := palette_index_spin w in
      if negb ((0 <=? palette_idx)
               && (palette_idx <? Z.of_nat (List.length palettes)))
      then Ok (None, w, shown ++ [InvalidPaletteIndex palette_idx])
      else
        rbind (read_seed w) (fun '(valid_seed_param, w, shown_seed) =>
        rbind (PyStr.int10 (big_block_size_combo w)) (fun big_block_size =>
        Ok (Some {| Vector.seed_value := valid_seed_param;
                    Vector.cols := cols_spin w;
                    Vector.rows := rows_spin w;
                    Vector.square_size := square_size_spin w;
                    Vector.current_palette_list := palettes;
                    Vector.palette_index := palette_idx;
                    Vector.block_styles := selected_styles;
                    Vector.chaos_factor := chaos_factor_spin w;
                    Vector.big_block_enabled := big_block_check w;
                    Vector.big_block_size := big_block_size |},
            w, shown ++ shown_seed)))
  end.

(** The widgets as [initUI] and [load_initial_palettes] leave them when
    the built-in palettes are loaded; the numbers of rows and columns are
    drawn at random there. *)
Definition initial_widgets (rows cols : Z) : widgets :=
  {| style_checkboxes := map (fun name => (name, true))
                             ALL_POSSIBLE_STYLE_NAMES;
     current_palette_list := palette_list Vector.DEFAULT_PALETTES_DATA;
     palette_index_spin := 0;
     seed_edit := EmptyString;
     rows_spin := rows;
     cols_spin := cols;
     square_size_spin := 100;
     big_block_check := true;
     big_block_size_combo := "2";
     chaos_factor_spin := 0.3 |}.

(** Widgets on which no style is checked and the seed is no number. *)
Definition neglected_widgets : widgets :=
  {| style_checkboxes := map (fun name => (name, false))
                             ALL_POSSIBLE_STYLE_NAMES;
     current_palette_list := palette_list Vector.DEFAULT_PALETTES_DATA;
     palette_index_spin := 2;
     seed_edit := " abc ";
     rows_spin := 5;
     cols_spin := 6;
     square_size_spin := 100;
     big_block_check := true;
     big_block_size_combo := "3";
     chaos_factor_spin := 0.3 |}.

End Window.

(* ===================================================================== *)
(** * The node of the raster generator *)
(* ===================================================================== *)

Module Node.

(** The decimal digits of [n >= 0], most significant first, and
    [str(n)]. *)
Fixpoint decimal_digits (fuel : nat) (n : Z) (acc : string) : string :=
  let acc' := String (ascii_of_nat (48 + Z.to_nat (n mod 10))) acc in
  match fuel with
  | O => acc'
  | S fuel' =>
      if n / 10 =? 0 then acc' else decimal_digits fuel' (n / 10) acc'
  end.

Definition str_int (n : Z) : string :=
  let ds := decimal_digits (Z.to_nat (Z.log2 (Z.abs n))) (Z.abs n) "" in
  if n <? 0 then String "-" ds else ds.

(** [[f"Palette {i+1}" for i in range(len(DEFAULT_PALETTES_DATA))]] *)
Definition palette_names : list string :=
  map (fun i => append "Palette " (str_int (i + 1)))
      (range (Z.of_nat (List.length Raster.DEFAULT_PALETTES_DATA))).

(** [l.index(x)]: the first position of [x]; [ValueError] when [x] is
    not in [l]. *)
Fixpoint list_index (l : list string) (x : string) : result Z :=
  match l with
  | [] => Raise ValueError
  | y :: rest =>
      if String.eqb y x then Ok 0
      else rbind (list_index rest x) (fun i => Ok (i + 1))
  end.

Section Generate.

Context {RS : RandomSource} {ML : MathLib}.

(** [ArtGridPNGGenerator.generate_art_pil] up to the image it converts
    to a tensor. *)
Definition generate_art_pil (rows cols square_size : Z) (palette : string)
    (block_styles : string) (chaos_factor : Q) (seed : Z)
    (big_block_enabled : bool) (big_block_size num_big_blocks : Z)
    (fresh : gen) : M Raster.image :=
  match
    match list_index palette_names palette with
    | Ok i => Ok i
    | Raise ValueError => Ok 0
    | Raise e => Raise e
    end
  with
  | Ok palette_index =>
      Raster.generate_art_image_pil rows cols square_size palette_index
        block_styles big_block_enabled big_block_size num_big_blocks
        chaos_factor (Some seed) fresh
  | Raise e => raise e
  end.

End Generate.

End Node.

(* ===================================================================== *)
(** * Reasoning about computations *)
(* ===================================================================== *)

Section Returns.

Context {RS : RandomSource}.

Lemma returns_ret {A} (a : A) (post : A -> Prop) :
  post a -> returns (ret a) post.
Proof. intros H g. exists a, g. split; [reflexivity | exact H]. Qed.

Lemma returns_ret_eq {A} (a : A) : returns (ret a) (fun v => v = a).
Proof. apply returns_ret. reflexivity. Qed.

Lemma returns_bind {A B} (m : M A) (f : A -> M B)
    (mid : A -> Prop) (post : B -> Prop) :
  returns m mid -> (forall a, mid a -> returns (f a) post) ->
  returns (bind m f) post.
Proof.
  intros Hm Hf g. destruct (Hm g) as (a & g1 & E1 & Ha).
  destruct (Hf a Ha g1) as (b & g2 & E2 & Hb).
  exists b, g2. unfold bind. rewrite E1, E2. split; [reflexivity | exact Hb].
Qed.

Lemma returns_weaken {A} (m : M A) (P P' : A -> Prop) :
  returns m P -> (forall a, P a -> P' a) -> returns m P'.
Proof.
  intros Hm HP g. destruct (Hm g) as (a & g' & E & Ha). exists a, g'. auto.
Qed.

Lemma returns_lift {A} (r : result A) (a : A) (post : A -> Prop) :
  r = Ok a -> post a -> returns (lift r) post.
Proof. intros -> H g. exists a, g. split; [reflexivity | exact H]. Qed.

Lemma returns_lift_eq {A} (r : result A) (a : A) :
  r = Ok a -> returns (lift r) (fun v => v = a).
Proof. intros E. eapply returns_lift; [exact E | reflexivity]. Qed.

Lemma returns_for_ {A Op} (l : list A) (body : A -> M (list Op)) :
  (forall a, In a l -> returns (body a) (fun _ => True)) ->
  returns (for_ l body) (fun _ => True).
Proof.
  induction l as [| a l IH]; intros H; simpl.
  - apply returns_ret. exact I.
  - eapply returns_bind; [apply H; left; reflexivity |].
    intros ops _.
    eapply returns_bind; [apply IH; intros; apply H; right; assumption |].
    intros ops' _. apply returns_ret. exact I.
Qed.

Lemma returns_succeeds {A} (m : M A) (post : A -> Prop) :
  returns m post -> succeeds m.
Proof.
  intros H g. destruct (H g) as (a & g' & E & _). exists a, g', []. exact E.
Qed.

Lemma succeeds_bind {A B} (m : M A) (f : A -> M B) (mid : A -> Prop) :
  returns m mid -> (forall a, mid a -> succeeds (f a)) -> succeeds (bind m f).
Proof.
  intros Hm Hf g. destruct (Hm g) as (a & g1 & E1 & Ha).
  destruct (Hf a Ha g1) as (b & g2 & out & E2).
  exists b, g2, ([] ++ out). unfold bind. rewrite E1, E2. reflexivity.
Qed.

Context {RSS : RandomSourceSpec RS}.

Lemma returns_random : returns random (fun x => (0 <= x /\ x < 1)%Q).
Proof.
  intros g. unfold random. pose proof (next_float_range g) as H.
  destruct (next_float g) as [x g']. exists x, g'.
  split; [reflexivity | exact H].
Qed.

Lemma returns_uniform (a b : Q) : returns (uniform a b) (fun _ => True).
Proof.
  unfold uniform. eapply returns_bind; [apply returns_random |].
  intros x _. apply returns_ret. exact I.
Qed.

Lemma returns_randint (a b : Z) :
  a <= b -> returns (randint a b) (fun v => a <= v <= b).
Proof.
  intros Hab. unfold randint. destruct (Z.ltb_spec 0 (b + 1 - a)); [| lia].
  intros g. unfold bind, _randbelow.
  pose proof (randbelow_range (b + 1 - a) g ltac:(lia)) as Hr.
  destruct (randbelow (b + 1 - a) g) as [k g']. simpl in *.
  exists (a + k), g'. split; [reflexivity | lia].
Qed.

Lemma index_in_range {A} (l : list A) (k : Z) :
  0 <= k < Z.of_nat (List.length l) -> exists a, index l k = Ok a /\ In a l.
Proof.
  intros Hk. unfold index. destruct (Z.ltb_spec k 0); [lia |].
  destruct (nth_error l (Z.to_nat k)) as [a |] eqn:E.
  - exists a. split; [reflexivity | eapply nth_error_In; eassumption].
  - apply nth_error_None in E. lia.
Qed.

Lemma returns_choice {A} (l : list A) :
  l <> [] -> returns (choice l) (fun a => In a l).
Proof.
  intros Hl g. unfold choice. destruct l as [| a0 l0]; [congruence |].
  unfold bind, _randbelow.
  pose proof (randbelow_range (Z.of_nat (List.length (a0 :: l0))) g) as Hr.
  destruct (randbelow (Z.of_nat (List.length (a0 :: l0))) g) as [k g'].
  simpl fst in Hr.
  destruct (index_in_range (a0 :: l0) k) as (a & E & Hin).
  { apply Hr. simpl. lia. }
  unfold lift. rewrite E. exists a, g'. split; [reflexivity | exact Hin].
Qed.

End Returns.

Create HintDb returns discriminated.
#[export] Hint Resolve returns_random returns_uniform : returns.

Ltac returns_prim :=
  first
    [ apply returns_random
    | apply returns_uniform
    | apply returns_randint; lia
    | apply returns_choice; discriminate
    | solve [eauto with returns] ].

(** One step through a computation whose value does not matter. *)
Ltac returns_step :=
  lazymatch goal with
  | |- returns (bind (if ?b then _ else _) _) _ => destruct b
  | |- returns (bind (match ?x with _ => _ end) _) _ => destruct x
  | |- returns (bind _ _) _ =>
      first
        [ eapply returns_bind; [ returns_prim | intros ]
        | apply returns_bind with (mid := fun _ => True);
          [ solve [repeat returns_step] | intros ] ]
  | |- returns (ret _) _ => apply returns_ret; exact I
  | |- returns (if ?b then _ else _) _ => destruct b
  | |- returns (match ?x with _ => _ end) _ => destruct x
  | |- returns (let _ := _ in _) _ => cbv zeta
  end.

(* ===================================================================== *)
(** * Truncation and division *)
(* ===================================================================== *)

Lemma trunc_floor (x : Q) : (0 <= x)%Q -> PyNum.trunc x = Qfloor x.
Proof.
  destruct x as [n d]. unfold Qle, PyNum.trunc, Qfloor. simpl. intros H.
  apply Z.quot_div_nonneg; lia.
Qed.

Lemma trunc_nonneg (x : Q) : (0 <= x)%Q -> 0 <= PyNum.trunc x.
Proof.
  intros H. rewrite trunc_floor by assumption.
  change 0 with (Qfloor 0). apply Qfloor_resp_le. assumption.
Qed.

Lemma trunc_mono (x y : Q) :
  (0 <= x)%Q -> (x <= y)%Q -> PyNum.trunc x <= PyNum.trunc y.
Proof.
  intros Hx Hxy.
  rewrite !trunc_floor; [apply Qfloor_resp_le; assumption | | assumption].
  eapply Qle_trans; eassumption.
Qed.

(** [int(chaos * a) <= int(chaos * b)] for [a <= b], the shape of every
    [randint] range the generators compute from the chaos factor. *)
Lemma chaos_scale_le (c : Q) (a b : Z) :
  (0 <= c)%Q -> 0 <= a <= b ->
  0 <= PyNum.trunc (c * inject_Z a) <= PyNum.trunc (c * inject_Z b).
Proof.
  intros Hc Hab.
  assert (H0 : (0 <= c * inject_Z a)%Q).
  { apply Qmult_le_0_compat; [assumption |].
    change 0%Q with (inject_Z 0). rewrite <- Zle_Qle. lia. }
  split; [apply trunc_nonneg; assumption |].
  apply trunc_mono; [assumption |].
  rewrite (Qmult_comm c), (Qmult_comm c (inject_Z b)).
  apply Qmult_le_compat_r; [| assumption]. rewrite <- Zle_Qle. lia.
Qed.

Lemma div_nonzero (a : Q) (n : Z) :
  n <> 0 -> PyNum.div a (inject_Z n) = Ok (a / inject_Z n)%Q.
Proof.
  intros Hn. unfold PyNum.div.
  destruct (Qeq_bool (inject_Z n) 0) eqn:E; [| reflexivity].
  apply Qeq_bool_eq in E. unfold Qeq in E. simpl in E. lia.
Qed.

Lemma in_range (n i : Z) : In i (range n) -> 0 <= i < n.
Proof.
  unfold range. rewrite in_map_iff. intros (k & <- & Hk).
  apply in_seq in Hk. lia.
Qed.

(* ===================================================================== *)
(** * The raster style generators always return *)
(* ===================================================================== *)

Section RasterTotal.
Context {RS : RandomSource} {RSS : RandomSourceSpec RS} {ML : MathLib}.
Import Raster.

Lemma returns_get_random_alpha c : returns (get_random_alpha c) (fun _ => True).
Proof. unfold get_random_alpha. repeat returns_step.
  eapply returns_weaken; [apply returns_randint; lia | auto]. Qed.

Lemma returns_get_random_rotation_angle c :
  returns (get_random_rotation_angle c) (fun _ => True).
Proof. unfold get_random_rotation_angle. repeat returns_step.
  eapply returns_weaken; [apply returns_choice; discriminate | auto]. Qed.

#[local] Hint Resolve returns_get_random_alpha returns_get_random_rotation_angle : returns.

Lemma returns_draw_pil_circle x y s fg bg c :
  returns (draw_pil_circle x y s fg bg c) (fun _ => True).
Proof. unfold draw_pil_circle. repeat returns_step. Qed.

Lemma returns_draw_pil_opposite_circles x y s fg bg c :
  returns (draw_pil_opposite_circles x y s fg bg c) (fun _ => True).
Proof. unfold draw_pil_opposite_circles. repeat returns_step. Qed.

Lemma returns_draw_pil_cross x y s fg bg c :
  returns (draw_pil_cross x y s fg bg c) (fun _ => True).
Proof. unfold draw_pil_cross. repeat returns_step. Qed.

Lemma returns_draw_pil_half_square x y s fg bg c :
  returns (draw_pil_half_square x y s fg bg c) (fun _ => True).
Proof. unfold draw_pil_half_square. repeat returns_step. Qed.

Lemma returns_draw_pil_quarter_circle x y s fg bg c :
  returns (draw_pil_quarter_circle x y s fg bg c) (fun _ => True).
Proof. unfold draw_pil_quarter_circle. repeat returns_step. Qed.

Lemma returns_draw_pil_letter_block x y s fg bg c :
  returns (draw_pil_letter_block x y s fg bg c) (fun _ => True).
Proof. unfold draw_pil_letter_block. repeat returns_step. Qed.

Lemma returns_draw_pil_rotated_shape x y s fg bg c :
  returns (draw_pil_rotated_shape x y s fg bg c) (fun _ => True).
Proof. unfold draw_pil_rotated_shape. repeat returns_step. Qed.

Lemma returns_draw_pil_diagonal_square x y s fg bg c :
  returns (draw_pil_diagonal_square x y s fg bg c) (fun _ => True).
Proof.
  unfold draw_pil_diagonal_square. repeat returns_step.
  apply returns_bind with (mid := fun _ => True); [| intros; repeat returns_step].
  eapply returns_bind; [apply returns_randint; lia |]. intros idx Hidx. cbv beta in Hidx.
  repeat returns_step.
  assert (Hcases : idx = 0 \/ idx = 1 \/ idx = 2) by lia.
  destruct (PyNum.Qltb a 0.5); destruct Hcases as [-> | [-> | ->]]; simpl;
    (apply returns_bind with (mid := fun _ => True);
     [eapply returns_lift; [reflexivity | exact I] |]);
    intros [px py] _; (eapply returns_lift; [reflexivity | exact I]).
Qed.

Lemma returns_lift_div (a : Q) (n : Z) :
  n <> 0 -> returns (lift (PyNum.div a (inject_Z n))) (fun _ => True).
Proof.
  intros Hn. eapply returns_lift; [apply div_nonzero; assumption | exact I].
Qed.

Lemma returns_dot x y cs fg c i j : returns (dot x y cs fg c i j) (fun _ => True).
Proof. unfold dot. repeat returns_step. Qed.

Lemma returns_draw_pil_dots x y s fg bg c :
  returns (draw_pil_dots x y s fg bg c) (fun _ => True).
Proof.
  unfold draw_pil_dots. cbv zeta.
  eapply returns_bind; [apply returns_choice; discriminate |]. intros n Hn. cbv beta in Hn.
  assert (Hs : Z.sqrt n <> 0).
  { destruct (PyNum.Qltb 0.5 c); simpl in Hn;
      repeat (destruct Hn as [<- | Hn]; [discriminate |]); contradiction. }
  eapply returns_bind; [apply returns_lift_div; assumption |]. intros cs _.
  eapply returns_bind; [| intros; apply returns_ret; exact I].
  apply returns_for_. intros i _. apply returns_for_. intros j _.
  apply returns_dot.
Qed.

Lemma returns_concentric_loop x y s fg bg c n max_r idxs flag :
  n <> 0 ->
  returns (concentric_loop x y s fg bg c n max_r idxs flag) (fun _ => True).
Proof.
  intros Hn. revert flag. induction idxs as [| i rest IH]; intros flag; simpl.
  - apply returns_ret. exact I.
  - eapply returns_bind; [apply returns_lift_div; assumption |]. intros ratio _.
    destruct (PyNum.Qltb (max_r * ratio) 1); [apply IH |].
    repeat returns_step.
Qed.

Lemma returns_draw_pil_concentric_circles x y s fg bg c :
  (0 <= c)%Q ->
  returns (draw_pil_concentric_circles x y s fg bg c) (fun _ => True).
Proof.
  intros Hc. unfold draw_pil_concentric_circles. cbv zeta.
  pose proof (chaos_scale_le c 2 3 Hc ltac:(lia)) as Hb. unfold inject_Z in Hb.
  eapply returns_bind; [apply returns_randint; lia |]. intros n Hn. cbv beta in Hn.
  eapply returns_bind; [apply returns_uniform |]. intros f _.
  eapply returns_bind; [apply returns_concentric_loop; lia |].
  intros. apply returns_ret. exact I.
Qed.

Lemma returns_stripe x y s fg bg c n h i :
  n <> 0 -> returns (stripe x y s fg bg c n h i) (fun _ => True).
Proof.
  intros Hn. unfold stripe. repeat returns_step.
  all: try (eapply returns_bind; [apply returns_lift_div; assumption | intros]).
  all: repeat returns_step.
Qed.

Lemma returns_draw_pil_stripes x y s fg bg c :
  (0 <= c)%Q ->
  returns (draw_pil_stripes x y s fg bg c) (fun _ => True).
Proof.
  intros Hc. unfold draw_pil_stripes. cbv zeta.
  pose proof (chaos_scale_le c 2 4 Hc ltac:(lia)) as Hb. unfold inject_Z in Hb.
  eapply returns_bind; [apply returns_randint; lia |]. intros n Hn. cbv beta in Hn.
  eapply returns_bind; [apply returns_choice; discriminate |]. intros h _.
  eapply returns_bind; [| intros; apply returns_ret; exact I].
  apply returns_for_. intros i _. apply returns_stripe. lia.
Qed.

Lemma returns_wavy_points (point : Z -> M (Z * Z)) js :
  (forall j, returns (point j) (fun _ => True)) ->
  returns (wavy_points point js) (fun _ => True).
Proof.
  intros Hp. induction js as [| j rest IH]; simpl.
  - apply returns_ret. exact I.
  - eapply returns_bind; [apply Hp |]. intros.
    eapply returns_bind; [apply IH |]. intros. apply returns_ret. exact I.
Qed.

Lemma returns_wavy_point x y s c h sl am fr n j :
  n <> 0 -> returns (wavy_point x y s c h sl am fr n j) (fun _ => True).
Proof.
  intros Hn. unfold wavy_point.
  eapply returns_bind; [apply returns_lift_div; assumption |]. intros.
  eapply returns_bind; [apply returns_lift_div; assumption |]. intros.
  repeat returns_step.
Qed.

Lemma returns_wavy_line x y s fg c n h sw i :
  n + 1 <> 0 -> returns (wavy_line x y s fg c n h sw i) (fun _ => True).
Proof.
  intros Hn. unfold wavy_line.
  eapply returns_bind; [apply returns_uniform |]. intros.
  eapply returns_bind; [apply returns_uniform |]. intros.
  eapply returns_bind; [apply returns_randint; lia |]. intros ns Hns. cbv beta in Hns.
  eapply returns_bind; [apply returns_lift_div; assumption |]. intros.
  eapply returns_bind;
    [apply returns_wavy_points; intros; apply returns_wavy_point; lia |].
  intros. repeat returns_step.
Qed.

Lemma returns_draw_pil_wavy_lines x y s fg bg c :
  (0 <= c)%Q ->
  returns (draw_pil_wavy_lines x y s fg bg c) (fun _ => True).
Proof.
  intros Hc. unfold draw_pil_wavy_lines. cbv zeta.
  pose proof (chaos_scale_le c 2 3 Hc ltac:(lia)) as Hb. unfold inject_Z in Hb.
  eapply returns_bind; [apply returns_randint; lia |]. intros n Hn. cbv beta in Hn.
  eapply returns_bind; [apply returns_choice; discriminate |]. intros h _.
  eapply returns_bind; [apply returns_uniform |]. intros f _.
  eapply returns_bind; [| intros; apply returns_ret; exact I].
  apply returns_for_. intros i _. apply returns_wavy_line. lia.
Qed.

Lemma returns_style_function_map_pil f x y s fg bg c :
  (0 <= c)%Q ->
  returns (style_function_map_pil f x y s fg bg c) (fun _ => True).
Proof.
  intros Hc. destruct f; simpl.
  - apply returns_draw_pil_circle.
  - apply returns_draw_pil_opposite_circles.
  - apply returns_draw_pil_cross.
  - apply returns_draw_pil_half_square.
  - apply returns_draw_pil_diagonal_square.
  - apply returns_draw_pil_quarter_circle.
  - apply returns_draw_pil_dots.
  - apply returns_draw_pil_letter_block.
  - apply returns_draw_pil_concentric_circles; assumption.
  - apply returns_draw_pil_stripes; assumption.
  - apply returns_draw_pil_rotated_shape.
  - apply returns_draw_pil_wavy_lines; assumption.
Qed.

End RasterTotal.

(* ===================================================================== *)
(** * Colour pairs and the palette store *)
(* ===================================================================== *)

Lemma hex_to_rgba_alpha (c : entry) (a a' : Z) (r g b x : Z) :
  hex_to_rgba c a = Ok (r, g, b, x) -> hex_to_rgba c a' = Ok (r, g, b, a').
Proof.
  destruct c as [s |]; [| discriminate]. unfold hex_to_rgba, hex_to_rgba_str.
  destruct (negb _); [intros [= <- <- <- <-]; reflexivity |].
  destruct (PyStr.int16 _); [| discriminate]. simpl.
  destruct (PyStr.int16 _); [| discriminate]. simpl.
  destruct (PyStr.int16 _); [| discriminate]. simpl.
  intros [= <- <- <- <-]. reflexivity.
Qed.

Lemma parses_of_ok (s : string) (a : Z) :
  is_ok (hex_to_rgba (Str s) a) = true -> parses s.
Proof.
  destruct (hex_to_rgba (Str s) a) as [[[[r g] b] x] |] eqn:E; [| discriminate].
  intros _. exists (r, g, b). intros alpha. eapply hex_to_rgba_alpha. eassumption.
Qed.

Lemma remaining_colors_spec (valid : list string) (bg s : string) :
  In s (remaining_colors valid bg) <-> In s valid /\ s <> bg.
Proof.
  unfold remaining_colors. rewrite filter_In.
  destruct (String.eqb_spec s bg); simpl; intuition congruence.
Qed.

Section PaletteColours.
Context {RS : RandomSource} {RSS : RandomSourceSpec RS} {ML : MathLib}.
Import Raster.

Lemma returns_pil_get_two_colors (p : palette) (c : Q) :
  (forall s, In s (valid_colors p) -> parses s) ->
  returns (pil_get_two_colors p c)
    (fun cs => valid_colors p <> [] -> drawn_from (valid_colors p) cs).
Proof.
  intros Hp. unfold pil_get_two_colors.
  eapply returns_bind; [apply returns_get_random_alpha |]. intros alpha _.
  destruct p as [| e p']; [apply returns_ret; simpl; congruence |].
  remember (valid_colors (e :: p')) as valid eqn:Ev.
  destruct valid as [| first rest]; [apply returns_ret; congruence |].
  eapply returns_bind; [apply returns_choice; discriminate |]. intros bg_hex Hbg.
  cbv beta in Hbg.
  destruct (Hp bg_hex Hbg) as ([[rb gb] bb] & Eb).
  eapply returns_bind; [apply returns_lift_eq; apply Eb |].
  intros background_rgba ->. cbv zeta.
  destruct (remaining_colors (first :: rest) bg_hex) as [| r0 rem] eqn:Er.
  - (* every valid colour is the background: the first one is reused *)
    eapply returns_bind; [apply returns_ret_eq |]. intros fg_hex ->.
    destruct (Hp first (or_introl eq_refl)) as ([[rf gf] bf] & Ef).
    eapply returns_bind; [apply returns_lift_eq; apply Ef |].
    intros foreground_rgba ->. apply returns_ret. intros _.
    assert (Hall : forall s, In s (first :: rest) -> s = bg_hex).
    { intros s Hs. destruct (string_dec s bg_hex) as [| Hne]; [assumption |].
      assert (Hin : In s (remaining_colors (first :: rest) bg_hex))
        by (apply remaining_colors_spec; auto).
      rewrite Er in Hin. contradiction. }
    exists first, bg_hex, alpha. simpl.
    split; [left; reflexivity |]. split; [exact Hbg |].
    split; [apply Ef |]. split; [apply Eb |].
    split; [intros _; exact Hall | intros _; apply Hall; left; reflexivity].
  - eapply returns_bind; [apply returns_choice; discriminate |].
    intros fg_hex Hfg. cbv beta in Hfg. rewrite <- Er in Hfg.
    apply remaining_colors_spec in Hfg. destruct Hfg as [Hfg Hne].
    destruct (Hp fg_hex Hfg) as ([[rf gf] bf] & Ef).
    eapply returns_bind; [apply returns_lift_eq; apply Ef |].
    intros foreground_rgba ->. apply returns_ret. intros _.
    exists fg_hex, bg_hex, alpha. simpl.
    split; [exact Hfg |]. split; [exact Hbg |].
    split; [apply Ef |]. split; [apply Eb |].
    split; [intros E; contradiction |].
    intros Hall. apply Hall. exact Hfg.
Qed.

Lemma returns_pil_get_two_colors_any (p : palette) (c : Q) :
  (forall s, In s (valid_colors p) -> parses s) ->
  returns (pil_get_two_colors p c) (fun _ => True).
Proof.
  intros Hp. eapply returns_weaken; [apply returns_pil_get_two_colors; assumption |].
  auto.
Qed.

End PaletteColours.

Lemma store_checked :
  forallb palette_well_formed Raster.DEFAULT_PALETTES_DATA = true.
Proof. vm_compute. reflexivity. Qed.

Lemma store_palette_checked (p : palette) :
  In p Raster.DEFAULT_PALETTES_DATA -> palette_well_formed p = true.
Proof.
  intros Hin. pose proof store_checked as H.
  rewrite forallb_forall in H. apply H. exact Hin.
Qed.

Lemma valid_colors_all (p : palette) :
  forallb is_valid_color p = true -> map Str (valid_colors p) = p.
Proof.
  induction p as [| c p IH]; simpl; [reflexivity |].
  intros H. apply andb_prop in H. destruct H as [Hc Hp].
  destruct c as [s |]; [| discriminate].
  rewrite Hc. simpl. rewrite IH by assumption. reflexivity.
Qed.

Lemma valid_colors_in (p : palette) (s : string) :
  In s (valid_colors p) -> In (Str s) p.
Proof.
  unfold valid_colors. rewrite in_flat_map. intros (c & Hc & Hs).
  destruct c as [t |]; [| contradiction].
  destruct (is_valid_color (Str t)); [| contradiction].
  destruct Hs as [<- | []]. exact Hc.
Qed.

Lemma select_palette_in (palette_index : Z) :
  exists p, Raster.select_palette palette_index = Ok p
            /\ In p Raster.DEFAULT_PALETTES_DATA
            /\ (0 <= palette_index < 68 ->
                nth_error Raster.DEFAULT_PALETTES_DATA (Z.to_nat palette_index) = Some p)
            /\ (~ 0 <= palette_index < 68 ->
                nth_error Raster.DEFAULT_PALETTES_DATA 0 = Some p).
Proof.
  unfold Raster.select_palette, Raster.clamp_palette_index.
  assert (Hlen : Z.of_nat (List.length Raster.DEFAULT_PALETTES_DATA) = 68)
    by (vm_compute; reflexivity).
  rewrite Hlen.
  destruct (Z.leb_spec 0 palette_index); destruct (Z.ltb_spec palette_index 68); simpl.
  - destruct (index_in_range Raster.DEFAULT_PALETTES_DATA palette_index) as (p & E & Hin);
      [lia |].
    exists p. split; [exact E |]. split; [exact Hin |]. split; [| lia].
    intros _. unfold index in E. destruct (palette_index <? 0); [discriminate |].
    destruct (nth_error _ _); [congruence | discriminate].
  - eexists. split; [reflexivity |]. split; [left; reflexivity |].
    split; [lia | reflexivity].
  - eexists. split; [reflexivity |]. split; [left; reflexivity |].
    split; [lia | reflexivity].
  - eexists. split; [reflexivity |]. split; [left; reflexivity |].
    split; [lia | reflexivity].
Qed.

(* ===================================================================== *)
(** * Loops *)
(* ===================================================================== *)

Section Loops.
Context {RS : RandomSource}.


Lemma length_range (n : Z) : List.length (range n) = Z.to_nat n.
Proof. unfold range. rewrite length_map, length_seq. reflexivity. Qed.

Lemma for_app {A Op} (l1 l2 : list A) (body : A -> M (list Op)) (g : gen) :
  for_ (l1 ++ l2) body g
  = bind (for_ l1 body) (fun ops1 =>
      bind (for_ l2 body) (fun ops2 => ret (ops1 ++ ops2))) g.
Proof.
  revert g. induction l1 as [| a l1 IH]; intros g; simpl.
  - unfold bind, ret. destruct (for_ l2 body g) as [[[ops g'] out] |]; [| reflexivity].
    simpl. rewrite app_nil_r. reflexivity.
  - unfold bind, ret in *. destruct (body a g) as [[[ops g1] o1] |]; [| reflexivity].
    rewrite IH.
    destruct (for_ l1 body g1) as [[[ops1 g2] o2] |]; [| reflexivity].
    destruct (for_ l2 body g2) as [[[ops2 g3] o3] |]; [| reflexivity].
    simpl. rewrite !app_nil_r, <- !app_assoc. reflexivity.
Qed.

Lemma for_map {A B Op} (h : A -> B) (l : list A) (body : B -> M (list Op)) (g : gen) :
  for_ (map h l) body g = for_ l (fun a => body (h a)) g.
Proof.
  revert g. induction l as [| a l IH]; intros g; simpl; [reflexivity |].
  unfold bind. destruct (body (h a) g) as [[[ops g1] o1] |]; [| reflexivity].
  rewrite IH. reflexivity.
Qed.

Lemma for_ext {A Op} (l : list A) (body body' : A -> M (list Op)) (g : gen) :
  (forall a g, In a l -> body a g = body' a g) -> for_ l body g = for_ l body' g.
Proof.
  revert g. induction l as [| a l IH]; intros g H; simpl; [reflexivity |].
  unfold bind. rewrite H by (left; reflexivity).
  destruct (body' a g) as [[[ops g1] o1] |]; [| reflexivity].
  rewrite IH by (intros; apply H; right; assumption). reflexivity.
Qed.

Lemma for_flat_map {A B Op} (f : A -> list B) (l : list A)
    (body : B -> M (list Op)) (g : gen) :
  for_ (flat_map f l) body g = for_ l (fun a => for_ (f a) body) g.
Proof.
  revert g. induction l as [| a l IH]; intros g; simpl; [reflexivity |].
  rewrite for_app. unfold bind, ret.
  destruct (for_ (f a) body g) as [[[ops1 g1] o1] |]; [| reflexivity].
  rewrite IH.
  destruct (for_ l _ g1) as [[[ops2 g2] o2] |]; [| reflexivity].
  simpl. rewrite app_nil_r. reflexivity.
Qed.

End Loops.

Lemma range_succ (n : Z) : 0 <= n -> range (n + 1) = range n ++ [n].
Proof.
  intros Hn. unfold range. replace (Z.to_nat (n + 1)) with (S (Z.to_nat n)) by lia.
  rewrite seq_S, map_app. simpl. rewrite Z2Nat.id by assumption. reflexivity.
Qed.

Lemma range_add (a b : Z) :
  0 <= a -> 0 <= b -> range (a + b) = range a ++ map (fun k => a + k) (range b).
Proof.
  intros Ha Hb. unfold range.
  rewrite Z2Nat.inj_add by assumption. rewrite seq_app, map_app. f_equal.
  rewrite map_map. simpl. generalize (Z.to_nat b). intros nb.
  induction nb as [| nb IH]; [reflexivity |].
  rewrite !seq_S, !map_app, IH. simpl. f_equal. f_equal. lia.
Qed.

Lemma row_major_nested (num_rows num_cols : Z) :
  0 <= num_rows -> 0 <= num_cols ->
  row_major num_rows num_cols
  = flat_map (fun r_idx => map (fun c_idx => (r_idx, c_idx)) (range num_cols))
             (range num_rows).
Proof.
  intros Hr Hc. unfold row_major.
  rewrite <- (Z2Nat.id num_rows Hr). generalize (Z.to_nat num_rows). intros n.
  induction n as [| n IH].
  - reflexivity.
  - rewrite Nat2Z.inj_succ. unfold Z.succ.
    rewrite range_succ by lia. rewrite flat_map_app. simpl. rewrite app_nil_r.
    rewrite <- IH.
    replace ((Z.of_nat n + 1) * num_cols) with (Z.of_nat n * num_cols + num_cols) by lia.
    rewrite range_add by nia. rewrite map_app. f_equal.
    rewrite map_map. apply map_ext_in. intros c Hin. apply in_range in Hin.
    f_equal.
    + rewrite Z.add_comm, Z.div_add by lia. rewrite Z.div_small by lia. lia.
    + rewrite Z.add_comm, Z.mod_add by lia. apply Z.mod_small. lia.
Qed.

(* ===================================================================== *)
(** * The raster generation always returns *)
(* ===================================================================== *)

Section RasterGenerate.
Context {RS : RandomSource} {RSS : RandomSourceSpec RS} {ML : MathLib}.
Import Raster.

Lemma store_palette_parses (p : palette) (s : string) :
  In p DEFAULT_PALETTES_DATA -> In s (valid_colors p) -> parses s.
Proof.
  intros Hp Hs. apply valid_colors_in in Hs.
  pose proof (store_palette_checked p Hp) as H. unfold palette_well_formed in H.
  repeat (apply andb_prop in H; destruct H as [H ?]).
  match goal with
  | Hok : forallb (fun c => is_ok (hex_to_rgba c 255)) p = true |- _ =>
      rewrite forallb_forall in Hok; apply (parses_of_ok s 255); apply Hok; exact Hs
  end.
Qed.

Lemma returns_store_background (p : palette) :
  In p DEFAULT_PALETTES_DATA ->
  returns (pil_create_background_colors p) (fun _ => True).
Proof.
  intros Hp. pose proof (store_palette_checked p Hp) as H.
  unfold palette_well_formed in H.
  repeat (apply andb_prop in H; destruct H as [H ?]).
  apply Nat.leb_le in H.
  unfold pil_create_background_colors.
  destruct p as [| c1 [| c2 rest]]; [simpl in H; lia | simpl in H; lia |].
  replace (_ || _) with false
    by (symmetry; apply orb_false_iff; split; [reflexivity | apply Z.ltb_ge; simpl List.length; lia]).
  match goal with
  | Hok : is_ok (rbind (read_first_two ?q) _) = true |- _ =>
      destruct (read_first_two q) as [[x1 x2] |]; [| discriminate];
      simpl in Hok; destruct (mix_background x1 x2) as [[inner outer] |] eqn:Em;
      [| discriminate]
  end.
  eapply returns_bind; [apply returns_lift_eq; reflexivity |].
  intros v ->. destruct inner as [[? ?] ?], outer as [[? ?] ?].
  apply returns_ret. exact I.
Qed.

Lemma returns_draw_grid num_rows num_cols square_size p active c :
  (0 <= c)%Q -> active <> [] ->
  (forall s, In s (valid_colors p) -> parses s) ->
  returns (draw_grid num_rows num_cols square_size p active c) (fun _ => True).
Proof.
  intros Hc Hact Hp. unfold draw_grid.
  apply returns_for_. intros r_idx _. apply returns_for_. intros c_idx _.
  eapply returns_bind; [apply returns_pil_get_two_colors_any; assumption |].
  intros colors _.
  eapply returns_bind; [apply returns_choice; assumption |]. intros f _.
  apply returns_style_function_map_pil. assumption.
Qed.

Lemma active_styles_nonempty (names : list string) : active_styles names <> [].
Proof.
  unfold active_styles. destruct (flat_map _ names); discriminate.
Qed.

Lemma succeeds_for_ {A Op} (l : list A) (body : A -> M (list Op)) :
  (forall a, succeeds (body a)) -> succeeds (for_ l body).
Proof.
  intros Hb. induction l as [| a l IH]; intros g; simpl.
  - exists [], g, []. reflexivity.
  - unfold bind. destruct (Hb a g) as (ops & g1 & o1 & E1). rewrite E1.
    destruct (IH g1) as (ops' & g2 & o2 & E2). rewrite E2.
    simpl. eexists _, _, _. reflexivity.
Qed.

Lemma returns_big_block_origin num_rows num_cols multiplier :
  multiplier <= num_rows -> multiplier <= num_cols ->
  returns (big_block_origin num_rows num_cols multiplier)
    (fun '(bb_col_idx, bb_row_idx) =>
       0 <= bb_col_idx /\ bb_col_idx + multiplier <= num_cols /\
       0 <= bb_row_idx /\ bb_row_idx + multiplier <= num_rows).
Proof.
  intros Hr Hc. unfold big_block_origin.
  eapply returns_bind; [apply returns_randint; lia |]. intros col Hcol.
  eapply returns_bind; [apply returns_randint; lia |]. intros row Hrow.
  apply returns_ret. cbv beta in *. lia.
Qed.

Lemma succeeds_draw_big_block num_rows num_cols square_size p active m c :
  (0 <= c)%Q -> active <> [] ->
  (forall s, In s (valid_colors p) -> parses s) ->
  succeeds (draw_big_block num_rows num_cols square_size p active m c).
Proof.
  intros Hc Hact Hp. unfold draw_big_block.
  destruct (Z.leb_spec m num_rows); destruct (Z.leb_spec m num_cols); simpl;
    try (intros g; eexists _, _, _; reflexivity).
  eapply returns_succeeds.
  eapply returns_bind; [apply returns_big_block_origin; assumption |].
  intros [col row] _.
  eapply returns_bind; [apply returns_pil_get_two_colors_any; assumption |].
  intros colors _.
  eapply returns_bind; [apply returns_choice; assumption |]. intros f _.
  apply returns_style_function_map_pil. assumption.
Qed.

Lemma succeeds_draw_big_blocks num_rows num_cols square_size p active en m n c :
  (0 <= c)%Q -> active <> [] ->
  (forall s, In s (valid_colors p) -> parses s) ->
  succeeds (draw_big_blocks num_rows num_cols square_size p active en m n c).
Proof.
  intros Hc Hact Hp. unfold draw_big_blocks. destruct en.
  - apply succeeds_for_. intros _. apply succeeds_draw_big_block; assumption.
  - intros g. eexists _, _, _. reflexivity.
Qed.

Lemma succeeds_generate_art_image_pil
    num_rows num_cols square_size palette_index block_styles_str
    big_block_enabled big_block_size_multiplier num_big_blocks chaos_factor
    seed_value fresh :
  (0 <= chaos_factor)%Q ->
  succeeds (generate_art_image_pil num_rows num_cols square_size palette_index
              block_styles_str big_block_enabled big_block_size_multiplier
              num_big_blocks chaos_factor seed_value fresh).
Proof.
  intros Hc. unfold generate_art_image_pil.
  destruct (select_palette_in palette_index) as (p & Ep & Hin & _).
  eapply succeeds_bind with (mid := fun _ => True).
  { intros g. unfold seed_random. destruct seed_value as [n |];
      [destruct (n <? 0) |]; eexists _, _; split; try reflexivity; exact I. }
  intros _ _.
  eapply succeeds_bind; [apply returns_lift_eq; exact Ep |]. intros ? ->.
  eapply succeeds_bind; [apply returns_store_background; exact Hin |].
  intros bg _.
  eapply succeeds_bind.
  { apply returns_draw_grid;
      [assumption | apply active_styles_nonempty
       | intros s; apply store_palette_parses; exact Hin]. }
  intros cells _. cbv zeta.
  intros g.
  destruct (succeeds_draw_big_blocks num_rows num_cols square_size p
              (active_styles (parse_block_styles block_styles_str))
              big_block_enabled big_block_size_multiplier num_big_blocks
              chaos_factor Hc (active_styles_nonempty _)
              (fun s => store_palette_parses p s Hin) g)
    as (blocks & g' & out & E).
  unfold bind. rewrite E. eexists _, _, _. reflexivity.
Qed.

End RasterGenerate.

(* ===================================================================== *)
(** * Decimal strings *)
(* ===================================================================== *)

Lemma decimal_char_facts (c : ascii) :
  PyStr.is_decimal c = true ->
  PyStr.is_literal_space c = false /\
  Ascii.eqb c "-" = false /\ Ascii.eqb c "+" = false /\
  Ascii.eqb c "_" = false /\
  exists d, PyStr.hex_value c = Some d /\ 0 <= d < 10.
Proof.
  destruct c as [[] [] [] [] [] [] [] []]; intros H; try discriminate H;
    (split; [reflexivity |]); (split; [reflexivity |]);
    (split; [reflexivity |]); (split; [reflexivity |]);
    vm_compute; eexists;
    (split; [reflexivity | split; [intros E; discriminate E | reflexivity]]).
Qed.

Lemma rev_string_rev (s acc acc' : string) :
  PyStr.rev_string (PyStr.rev_string s acc) acc'
  = PyStr.rev_string acc (s ++ acc')%string.
Proof.
  revert acc. induction s as [| c s IH]; intros acc; simpl; [reflexivity |].
  rewrite IH. reflexivity.
Qed.

Lemma string_app_nil_r (s : string) : (s ++ "")%string = s.
Proof. induction s as [| c s IH]; simpl; [reflexivity | rewrite IH; reflexivity]. Qed.

Lemma all_decimal_rev (s acc : string) :
  PyStr.all_decimal (PyStr.rev_string s acc)
  = PyStr.all_decimal s && PyStr.all_decimal acc.
Proof.
  revert acc. induction s as [| c s IH]; intros acc; simpl; [reflexivity |].
  rewrite IH. simpl. 
  destruct (PyStr.is_decimal c), (PyStr.all_decimal s); reflexivity.
Qed.

Lemma lstrip_decimal (s : string) :
  PyStr.all_decimal s = true ->
  PyStr.lstrip_with PyStr.is_literal_space s = s.
Proof.
  destruct s as [| c s]; simpl; [reflexivity |]. intros H.
  apply andb_prop in H. destruct H as [Hc _].
  destruct (decimal_char_facts c Hc) as (-> & _). reflexivity.
Qed.

Lemma strip_decimal (s : string) :
  PyStr.all_decimal s = true ->
  PyStr.strip_with PyStr.is_literal_space s = s.
Proof.
  intros H. unfold PyStr.strip_with.
  rewrite (lstrip_decimal s H).
  rewrite lstrip_decimal by (rewrite all_decimal_rev, H; reflexivity).
  rewrite rev_string_rev. simpl. apply string_app_nil_r.
Qed.

Lemma digits_decimal (s : string) (acc : Z) (seen : bool) :
  PyStr.all_decimal s = true -> 0 <= acc -> s <> EmptyString \/ seen = true ->
  exists v, 0 <= v /\ PyStr.digits 10 s acc false seen = Some v.
Proof.
  revert acc seen. induction s as [| c s IH]; intros acc seen Hs Hacc Hne.
  - destruct Hne as [Hne | ->]; [congruence |]. exists acc. simpl. auto.
  - simpl in Hs. apply andb_prop in Hs. destruct Hs as [Hc Hs].
    destruct (decimal_char_facts c Hc) as (_ & _ & _ & Hus & d & Hd & Hr).
    simpl. rewrite Hus, Hd.
    destruct (Z.ltb_spec d 10); [| lia].
    apply IH; [assumption | lia | right; reflexivity].
Qed.

Lemma int10_isdigit (s : string) :
  PyStr.isdigit s = true -> exists n, 0 <= n /\ PyStr.int10 s = Ok n.
Proof.
  intros H. assert (Hall : PyStr.all_decimal s = true /\ s <> EmptyString).
  { destruct s; [discriminate |]. split; [exact H | discriminate]. }
  destruct Hall as [Hall Hne]. unfold PyStr.int10.
  rewrite strip_decimal by assumption.
  assert (Hsign : PyStr.strip_sign s = (false, s)).
  { destruct s as [| c s]; [congruence |]. simpl in Hall.
    apply andb_prop in Hall. destruct Hall as [Hc _].
    destruct (decimal_char_facts c Hc) as (_ & Hm & Hp & _).
    simpl. rewrite Hm, Hp. reflexivity. }
  rewrite Hsign.
  destruct (digits_decimal s 0 false Hall ltac:(lia) (or_introl Hne))
    as (v & Hv & E).
  rewrite E. exists v. auto.
Qed.

(* ===================================================================== *)
(** * The vector generation always returns *)
(* ===================================================================== *)

Section VectorTotal.

Context {RS : RandomSource} {RSS : RandomSourceSpec RS} {ML : MathLib}.
Import Vector.

Lemma returns_get_random_opacity_str (c : Q) :
  returns (get_random_opacity_str c) (fun _ => True).
Proof. unfold get_random_opacity_str. repeat returns_step. Qed.

Lemma returns_get_random_rotation_transform (c cx cy : Q) :
  returns (get_random_rotation_transform c cx cy) (fun _ => True).
Proof. unfold get_random_rotation_transform. repeat returns_step. Qed.

#[local] Hint Resolve returns_get_random_opacity_str returns_get_random_rotation_transform : returns.

Lemma returns_draw_circle x y s fg bg c :
  returns (draw_circle x y s fg bg c) (fun _ => True).
Proof. unfold draw_circle. repeat returns_step. Qed.

Lemma returns_draw_opposite_circles x y s fg bg c :
  returns (draw_opposite_circles x y s fg bg c) (fun _ => True).
Proof. unfold draw_opposite_circles. repeat returns_step. Qed.

Lemma returns_draw_cross x y s fg bg c :
  returns (draw_cross x y s fg bg c) (fun _ => True).
Proof. unfold draw_cross. repeat returns_step. Qed.

Lemma returns_draw_half_square x y s fg bg c :
  returns (draw_half_square x y s fg bg c) (fun _ => True).
Proof. unfold draw_half_square. repeat returns_step. Qed.

Lemma returns_draw_quarter_circle x y s fg bg c :
  returns (draw_quarter_circle x y s fg bg c) (fun _ => True).
Proof. unfold draw_quarter_circle. repeat returns_step. Qed.

Lemma returns_draw_letter_block x y s fg bg c :
  returns (draw_letter_block x y s fg bg c) (fun _ => True).
Proof. unfold draw_letter_block. repeat returns_step. Qed.

Lemma returns_draw_rotated_shape x y s fg bg c :
  returns (draw_rotated_shape x y s fg bg c) (fun _ => True).
Proof. unfold draw_rotated_shape. repeat returns_step. Qed.

Lemma returns_draw_diagonal_square x y s fg bg c :
  returns (draw_diagonal_square x y s fg bg c) (fun _ => True).
Proof.
  unfold draw_diagonal_square. repeat returns_step.
  apply returns_bind with (mid := fun _ => True); [| intros; repeat returns_step].
  eapply returns_bind; [apply returns_randint; lia |].
  intros idx Hidx. cbv beta in Hidx.
  assert (Hcases : idx = 0 \/ idx = 1 \/ idx = 2) by lia.
  match goal with
  | |- context [if ?b then _ else _] => destruct b
  end;
    destruct Hcases as [-> | [-> | ->]]; simpl;
    (apply returns_bind with (mid := fun _ => True);
     [eapply returns_lift; [reflexivity | exact I] |]);
    intros [px py] _; repeat returns_step;
    (eapply returns_lift; [reflexivity | exact I]).
Qed.

Lemma returns_vector_dot x y cs fg c i j :
  returns (dot x y cs fg c i j) (fun _ => True).
Proof. unfold dot. repeat returns_step. Qed.

Lemma returns_draw_dots x y s fg bg c :
  returns (draw_dots x y s fg bg c) (fun _ => True).
Proof.
  unfold draw_dots. cbv zeta.
  eapply returns_bind; [apply returns_choice; discriminate |].
  intros n Hn. cbv beta in Hn.
  assert (Hs : Z.sqrt n <> 0).
  { destruct (PyNum.Qltb 0.5 c); simpl in Hn;
      repeat (destruct Hn as [<- | Hn]; [discriminate |]); contradiction. }
  eapply returns_bind; [apply returns_lift_div; assumption |]. intros cs _.
  eapply returns_bind; [| intros; apply returns_ret; exact I].
  apply returns_for_. intros i _. apply returns_for_. intros j _.
  apply returns_vector_dot.
Qed.

Lemma returns_vector_concentric_loop x y s fg bg c n max_r idxs flag :
  n <> 0 ->
  returns (concentric_loop x y s fg bg c n max_r idxs flag) (fun _ => True).
Proof.
  intros Hn. revert flag. induction idxs as [| i rest IH]; intros flag; simpl.
  - apply returns_ret. exact I.
  - eapply returns_bind; [apply returns_lift_div; assumption |]. intros ratio _.
    destruct (PyNum.Qltb (max_r * ratio) 1); [apply IH |].
    repeat returns_step.
Qed.

Lemma returns_draw_concentric_circles x y s fg bg c :
  (0 <= c)%Q ->
  returns (draw_concentric_circles x y s fg bg c) (fun _ => True).
Proof.
  intros Hc. unfold draw_concentric_circles. cbv zeta.
  pose proof (chaos_scale_le c 2 3 Hc ltac:(lia)) as Hb. unfold inject_Z in Hb.
  eapply returns_bind; [apply returns_randint; lia |].
  intros n Hn. cbv beta in Hn.
  eapply returns_bind; [apply returns_uniform |]. intros f _.
  eapply returns_bind; [apply returns_vector_concentric_loop; lia |].
  intros. apply returns_ret. exact I.
Qed.

Lemma returns_vector_stripe x y s fg bg c n h i :
  n <> 0 -> returns (stripe x y s fg bg c n h i) (fun _ => True).
Proof.
  intros Hn. unfold stripe. repeat returns_step.
  all: try (eapply returns_bind; [apply returns_lift_div; assumption | intros]).
  all: repeat returns_step.
Qed.

Lemma returns_draw_stripes x y s fg bg c :
  (0 <= c)%Q ->
  returns (draw_stripes x y s fg bg c) (fun _ => True).
Proof.
  intros Hc. unfold draw_stripes. cbv zeta.
  pose proof (chaos_scale_le c 2 4 Hc ltac:(lia)) as Hb. unfold inject_Z in Hb.
  eapply returns_bind; [apply returns_randint; lia |].
  intros n Hn. cbv beta in Hn.
  eapply returns_bind; [apply returns_choice; discriminate |]. intros h _.
  eapply returns_bind; [apply returns_get_random_opacity_str |]. intros o _.
  eapply returns_bind; [| intros; apply returns_ret; exact I].
  apply returns_for_. intros i _. apply returns_vector_stripe. lia.
Qed.

Lemma returns_wavy_segments (segment : Z -> M path_cmd) js :
  (forall j, returns (segment j) (fun _ => True)) ->
  returns (wavy_segments segment js) (fun _ => True).
Proof.
  intros Hp. induction js as [| j rest IH]; simpl.
  - apply returns_ret. exact I.
  - eapply returns_bind; [apply Hp |]. intros.
    eapply returns_bind; [apply IH |]. intros. apply returns_ret. exact I.
Qed.

Lemma returns_wavy_segment x y s c h sl am fr n j :
  n <> 0 -> returns (wavy_segment x y s c h sl am fr n j) (fun _ => True).
Proof.
  intros Hn. unfold wavy_segment. cbv zeta.
  eapply returns_bind; [apply returns_lift_div; assumption |]. intros.
  eapply returns_bind; [apply returns_uniform |]. intros.
  eapply returns_bind; [apply returns_lift_div; assumption |]. intros.
  eapply returns_bind; [apply returns_random |]. intros.
  eapply returns_bind; [apply returns_uniform |]. intros.
  eapply returns_bind; [apply returns_uniform |]. intros.
  eapply returns_bind; [apply returns_lift_div; assumption |]. intros.
  eapply returns_bind; [apply returns_random |]. intros.
  eapply returns_bind; [apply returns_uniform |]. intros.
  apply returns_bind with (mid := fun _ => True).
  - destruct (j <? n - 1); [| apply returns_ret; exact I].
    eapply returns_bind; [apply returns_lift_div; assumption |]. intros.
    repeat returns_step.
  - intros. repeat returns_step.
Qed.

Lemma returns_vector_wavy_line x y s fg c n h sw i :
  n + 1 <> 0 -> returns (wavy_line x y s fg c n h sw i) (fun _ => True).
Proof.
  intros Hn. unfold wavy_line.
  eapply returns_bind; [apply returns_get_random_opacity_str |]. intros.
  eapply returns_bind; [apply returns_uniform |]. intros.
  eapply returns_bind; [apply returns_uniform |]. intros.
  eapply returns_bind; [apply returns_randint; lia |].
  intros ns Hns. cbv beta in Hns.
  eapply returns_bind; [apply returns_lift_div; assumption |]. intros.
  cbv zeta.
  eapply returns_bind;
    [apply returns_wavy_segments; intros; apply returns_wavy_segment; lia |].
  intros. repeat returns_step.
Qed.

Lemma returns_draw_wavy_lines x y s fg bg c :
  (0 <= c)%Q ->
  returns (draw_wavy_lines x y s fg bg c) (fun _ => True).
Proof.
  intros Hc. unfold draw_wavy_lines. cbv zeta.
  pose proof (chaos_scale_le c 2 3 Hc ltac:(lia)) as Hb. unfold inject_Z in Hb.
  eapply returns_bind; [apply returns_randint; lia |].
  intros n Hn. cbv beta in Hn.
  eapply returns_bind; [apply returns_choice; discriminate |]. intros h _.
  eapply returns_bind; [apply returns_uniform |]. intros f _.
  eapply returns_bind; [| intros; apply returns_ret; exact I].
  apply returns_for_. intros i _. apply returns_vector_wavy_line. lia.
Qed.

Lemma returns_style_function_map f x y s fg bg c :
  (0 <= c)%Q ->
  returns (style_function_map f x y s fg bg c) (fun _ => True).
Proof.
  intros Hc. destruct f; simpl.
  - apply returns_draw_circle.
  - apply returns_draw_opposite_circles.
  - apply returns_draw_cross.
  - apply returns_draw_half_square.
  - apply returns_draw_diagonal_square.
  - apply returns_draw_quarter_circle.
  - apply returns_draw_dots.
  - apply returns_draw_letter_block.
  - apply returns_draw_concentric_circles; assumption.
  - apply returns_draw_stripes; assumption.
  - apply returns_draw_rotated_shape.
  - apply returns_draw_wavy_lines; assumption.
Qed.

Lemma returns_get_two_colors (p : palette) :
  returns (get_two_colors p) (vector_pair_from (valid_colors p)).
Proof.
  unfold get_two_colors, vector_pair_from.
  destruct p as [| e p']; [apply returns_ret; simpl; auto |].
  remember (valid_colors (e :: p')) as valid eqn:Ev. clear Ev.
  destruct valid as [| first [| second rest]];
    [apply returns_ret; simpl; auto | apply returns_ret; simpl; auto |].
  eapply returns_bind; [apply returns_choice; discriminate |].
  intros bg Hbg. cbv beta in Hbg. cbv zeta.
  destruct (remaining_colors (first :: second :: rest) bg) as [| r0 rem] eqn:Er.
  - eapply returns_bind; [apply returns_ret_eq |]. intros fg ->.
    apply returns_ret. simpl foreground. simpl background.
    assert (Hall : forall s, In s (first :: second :: rest) -> s = bg).
    { intros s Hs. destruct (string_dec s bg) as [| Hne]; [assumption |].
      assert (Hin : In s (remaining_colors (first :: second :: rest) bg))
        by (apply remaining_colors_spec; auto).
      rewrite Er in Hin. contradiction. }
    split; [left; reflexivity |]. split; [exact Hbg |].
    split; [intros _; exact Hall | intros _; apply Hall; left; reflexivity].
  - eapply returns_bind; [apply returns_choice; discriminate |].
    intros fg Hfg. cbv beta in Hfg. rewrite <- Er in Hfg.
    apply remaining_colors_spec in Hfg. destruct Hfg as [Hfg Hne].
    apply returns_ret. simpl foreground. simpl background.
    split; [exact Hfg |]. split; [exact Hbg |].
    split; [intros E; contradiction | intros Hall; apply Hall; exact Hfg].
Qed.

Lemma succeeds_bind_any {A B} (m : M A) (f : A -> M B) :
  succeeds m -> (forall a, succeeds (f a)) -> succeeds (bind m f).
Proof.
  intros Hm Hf g. destruct (Hm g) as (a & g1 & o1 & E1).
  destruct (Hf a g1) as (b & g2 & o2 & E2).
  exists b, g2, (o1 ++ o2). unfold bind. rewrite E1, E2. reflexivity.
Qed.

Lemma succeeds_create_background_colors (sel : palette) :
  background_returns sel = true -> succeeds (create_background_colors sel).
Proof.
  intros H g. unfold create_background_colors.
  destruct sel as [| c1 [| c2 rest]];
    [eexists _, _, _; reflexivity | eexists _, _, _; reflexivity |].
  replace (_ || _) with false
    by (symmetry; apply orb_false_iff; split;
        [reflexivity | apply Z.ltb_ge; simpl List.length; lia]).
  assert (H' : match read_first_two (c1 :: c2 :: rest) with
               | Raise e => caught e
               | Ok (x1, x2) => is_ok (mix_background x1 x2)
               end = true) by exact H.
  clear H.
  destruct (read_first_two (c1 :: c2 :: rest)) as [[x1 x2] | e].
  - unfold bind, lift.
    destruct (mix_background x1 x2) as [[[[? ?] ?] [[? ?] ?]] |];
      [| discriminate].
    eexists _, _, _. reflexivity.
  - rewrite H'. eexists _, _, _. reflexivity.
Qed.

Lemma succeeds_seed_random sv fresh : succeeds (seed_random sv fresh).
Proof.
  intros g. unfold seed_random, bind, lift.
  assert (Hh : exists call warnings, seed_handling sv = Ok (call, warnings)).
  { destruct sv as [| s | n |]; simpl; try (eexists _, _; reflexivity).
    destruct (PyStr.isdigit s) eqn:Hd.
    - destruct (int10_isdigit s Hd) as (n & _ & ->). eexists _, _. reflexivity.
    - destruct (negb _); eexists _, _; reflexivity. }
  destruct Hh as (call & warnings & ->).
  assert (Hp : forall h, print_all warnings h = Ok (tt, h, warnings)).
  { induction warnings as [| d ds IH]; intros h; simpl; [reflexivity |].
    unfold bind, print. rewrite IH. reflexivity. }
  rewrite Hp. destruct call; eexists _, _, _; reflexivity.
Qed.

Lemma returns_vector_draw_grid num_rows num_cols square_size p active c :
  (0 <= c)%Q -> active <> [] ->
  returns (draw_grid num_rows num_cols square_size p active c) (fun _ => True).
Proof.
  intros Hc Hact. unfold draw_grid.
  apply returns_for_. intros r_idx _. apply returns_for_. intros c_idx _.
  eapply returns_bind; [apply returns_get_two_colors |]. intros colors _.
  eapply returns_bind; [apply returns_choice; assumption |]. intros f _.
  eapply returns_bind; [apply returns_style_function_map; assumption |].
  intros. apply returns_ret. exact I.
Qed.

Lemma succeeds_vector_draw_big_block num_rows num_cols square_size p active
    en m c :
  (0 <= c)%Q -> active <> [] ->
  succeeds (draw_big_block num_rows num_cols square_size p active en m c).
Proof.
  intros Hc Hact. unfold draw_big_block.
  destruct en; [| intros g; eexists _, _, _; reflexivity].
  destruct (Z.leb_spec m num_rows); destruct (Z.leb_spec m num_cols); simpl;
    try (intros g; eexists _, _, _; reflexivity).
  apply returns_succeeds with (post := fun _ => True).
  apply returns_bind with (mid := fun _ => True).
  { unfold big_block_origin.
    eapply returns_bind; [apply returns_randint; lia |]. intros.
    eapply returns_bind; [apply returns_randint; lia |]. intros.
    apply returns_ret. exact I. }
  intros [col row] _.
  eapply returns_bind; [apply returns_get_two_colors |]. intros colors _.
  eapply returns_bind; [apply returns_choice; assumption |]. intros f _.
  eapply returns_bind; [apply returns_style_function_map; assumption |].
  intros. apply returns_ret. exact I.
Qed.

Lemma succeeds_generate_art_svg_string (p : params) (sel : palette) fresh g :
  (0 <= chaos_factor p)%Q ->
  getitem (current_palette_list p) (palette_index p) = Ok sel ->
  background_returns sel = true ->
  exists d g' out, generate_art_svg_string p fresh g = Ok (Some d, g', out).
Proof.
  intros Hc Hsel Hbg. unfold generate_art_svg_string, bind.
  destruct (succeeds_seed_random (seed_value p) fresh g) as ([] & g0 & o0 & ->).
  destruct (current_palette_list p) as [| p0 ps] eqn:El.
  { unfold getitem, index in Hsel. 
    destruct (palette_index p <? 0); simpl in Hsel;
      [destruct (palette_index p + 0 <? 0) |]; try discriminate;
      destruct (Z.to_nat _); discriminate. }
  unfold lift. rewrite Hsel.
  destruct (succeeds_create_background_colors sel Hbg g0) as (bg & g1 & o1 & ->).
  destruct (returns_randint 1000 9999 ltac:(lia) g1) as (n & g2 & -> & _).
  destruct (returns_vector_draw_grid (rows p) (cols p) (square_size p) sel
              (active_styles (block_styles p)) (chaos_factor p) Hc
              (active_styles_nonempty _) g2) as (cells & g3 & -> & _).
  destruct (succeeds_vector_draw_big_block (rows p) (cols p) (square_size p)
              sel (active_styles (block_styles p)) (big_block_enabled p)
              (big_block_size p) (chaos_factor p) Hc
              (active_styles_nonempty _) g3) as (big & g4 & o4 & ->).
  unfold ret. eexists _, _, _. reflexivity.
Qed.

End VectorTotal.

Lemma default_palettes_background_returns (sel : palette) :
  In sel Vector.DEFAULT_PALETTES_DATA -> background_returns sel = true.
Proof.
  intros H.
  repeat (destruct H as [<- | H]; [vm_compute; reflexivity |]).
  contradiction.
Qed.

(* ===================================================================== *)
(** * The concrete source meets the contract *)
(* ===================================================================== *)

Lemma lcg_step_range (g : Z) : 0 <= Lcg.step g < Lcg.modulus.
Proof. unfold Lcg.step. apply Z.mod_pos_bound. reflexivity. Qed.

Lemma lcg_source_spec : RandomSourceSpec Lcg.source.
Proof.
  split.
  - intros g. simpl. pose proof (lcg_step_range g) as H.
    unfold Qle, Qlt. simpl. unfold Lcg.modulus in *. lia.
  - intros n g Hn. simpl. apply Z.mod_pos_bound. exact Hn.
Qed.

(* ===================================================================== *)
(** * Draw order *)
(* ===================================================================== *)

Section DrawOrderProofs.

Context {RS : RandomSource} {ML : MathLib}.

Lemma raster_cell_unfold square_size p active c r_idx c_idx g :
  bind (Raster.pil_get_two_colors p c) (fun colors =>
    bind (choice active) (fun draw_func =>
      Raster.style_function_map_pil draw_func
        (c_idx * square_size) (r_idx * square_size) square_size
        (Raster.foreground colors) (Raster.background colors) c)) g
  = raster_cell_in_order square_size p active c (r_idx, c_idx) g.
Proof.
  unfold bind, raster_cell_in_order.
  destruct (Raster.pil_get_two_colors p c g) as [[[colors g1] o1] |];
    [| reflexivity].
  destruct (choice active g1) as [[[f g2] o2] |]; [| reflexivity].
  destruct (Raster.style_function_map_pil _ _ _ _ _ _ _ g2)
    as [[[ops g3] o3] |]; reflexivity.
Qed.

Lemma vector_cell_unfold square_size p active c r_idx c_idx g :
  bind (Vector.get_two_colors p) (fun colors =>
    bind (choice active) (fun draw_func =>
      bind (Vector.style_function_map draw_func
              (c_idx * square_size) (r_idx * square_size) square_size
              (Vector.foreground colors) (Vector.background colors) c)
           (fun cell_group =>
              ret [Vector.Group (Some (Vector.cell c_idx r_idx)) None None
                                cell_group]))) g
  = vector_cell_in_order square_size p active c (r_idx, c_idx) g.
Proof.
  unfold bind, ret, vector_cell_in_order.
  destruct (Vector.get_two_colors p g) as [[[colors g1] o1] |];
    [| reflexivity].
  destruct (choice active g1) as [[[f g2] o2] |]; [| reflexivity].
  destruct (Vector.style_function_map _ _ _ _ _ _ _ g2)
    as [[[ops g3] o3] |]; [| reflexivity].
  rewrite app_nil_r. reflexivity.
Qed.

(** C2.  The cells are visited in row-major order, rows outer and
    columns inner: the two nested loops of either generator are one loop
    over [row_major], whose [k]-th cell is in row [k / num_cols] and
    column [k mod num_cols].  Within a cell the stream is consumed in the
    order colour pair, style choice, draws of the chosen generator. *)
Theorem grid_row_major_draw_order
    (num_rows num_cols square_size : Z) (selected_palette_data : palette)
    (active_style_funcs : list style) (chaos_factor : Q) (g : gen) :
  0 <= num_rows -> 0 <= num_cols ->
  Raster.draw_grid num_rows num_cols square_size selected_palette_data
    active_style_funcs chaos_factor g
  = for_ (row_major num_rows num_cols)
         (raster_cell_in_order square_size selected_palette_data
            active_style_funcs chaos_factor) g
  /\
  Vector.draw_grid num_rows num_cols square_size selected_palette_data
    active_style_funcs chaos_factor g
  = for_ (row_major num_rows num_cols)
         (vector_cell_in_order square_size selected_palette_data
            active_style_funcs chaos_factor) g.
Proof.
  intros Hr Hc. rewrite row_major_nested by assumption.
  rewrite !for_flat_map. split.
  - unfold Raster.draw_grid. apply for_ext. intros r_idx g1 _.
    rewrite for_map. apply for_ext. intros c_idx g2 _.
    apply raster_cell_unfold.
  - unfold Vector.draw_grid. apply for_ext. intros r_idx g1 _.
    rewrite for_map. apply for_ext. intros c_idx g2 _.
    apply vector_cell_unfold.
Qed.

End DrawOrderProofs.

Lemma grid_row_major_draw_order_witness :
  (0 <= 2 /\ 0 <= 3) /\
  row_major 2 3 = [(0, 0); (0, 1); (0, 2); (1, 0); (1, 1); (1, 2)] /\
  Raster.draw_grid (RS := Lcg.source) (ML := Lcg.math) 2 3 10
    (map Str ["#FF6B6B"; "#FFD166"; "#06D6A0"]%string) [circle; dots] 0.2 (Lcg.state 42)
  = for_ (row_major 2 3)
         (raster_cell_in_order (ML := Lcg.math) 10
            (map Str ["#FF6B6B"; "#FFD166"; "#06D6A0"]%string)
            [circle; dots] 0.2) (Lcg.state 42).
Proof.
  split; [lia |]. split; [reflexivity |].
  apply (grid_row_major_draw_order (RS := Lcg.source) (ML := Lcg.math)
           2 3 10 (map Str ["#FF6B6B"; "#FFD166"; "#06D6A0"]%string)
           [circle; dots] 0.2 (Lcg.state 42)); lia.
Defined.

(* ===================================================================== *)
(** * The palette store *)
(* ===================================================================== *)

Section PaletteStore.

Context {RS : RandomSource} {RSS : RandomSourceSpec RS} {ML : MathLib}.

Lemma store_background_silent (p : palette) (g : gen) :
  In p Raster.DEFAULT_PALETTES_DATA ->
  exists bg, Raster.pil_create_background_colors p g = Ok (bg, g, []).
Proof.
  intros Hp. pose proof (store_palette_checked p Hp) as H.
  unfold palette_well_formed in H.
  repeat (apply andb_prop in H; destruct H as [H ?]).
  apply Nat.leb_le in H.
  unfold Raster.pil_create_background_colors.
  destruct p as [| c1 [| c2 rest]]; [simpl in H; lia | simpl in H; lia |].
  replace (_ || _) with false
    by (symmetry; apply orb_false_iff; split;
        [reflexivity | apply Z.ltb_ge; simpl List.length; lia]).
  match goal with
  | Hok : is_ok (rbind (Raster.read_first_two ?q) _) = true |- _ =>
      destruct (Raster.read_first_two q) as [[x1 x2] |]; [| discriminate];
      simpl in Hok;
      destruct (mix_background x1 x2) as [[[[? ?] ?] [[? ?] ?]] |] eqn:Em;
      [| discriminate]
  end.
  cbv beta iota. unfold bind, lift, ret. eexists. reflexivity.
Qed.

(** C10.  The store of the raster generator holds 68 palettes, the 4
    written out and the 64 triadic ones.  The palette at any index in
    range has at least three entries, each ['#'] followed by exactly six
    hexadecimal digits.  So the filter of [pil_get_two_colors] drops
    nothing and leaves a non-empty list, [hex_to_rgba] finds six
    characters after the ['#'] and parses them, and
    [pil_create_background_colors] reads its first two entries and prints
    no warning: none of the fallback branches is taken. *)
Theorem palette_store_well_formed (palette_index : Z) (p : palette)
    (chaos_factor : Q) (g : gen) :
  0 <= palette_index < Z.of_nat (List.length Raster.DEFAULT_PALETTES_DATA) ->
  nth_error Raster.DEFAULT_PALETTES_DATA (Z.to_nat palette_index) = Some p ->
  List.length Raster.DEFAULT_PALETTES_DATA_base = 4%nat /\
  List.length Raster.generate_triadic_palettes = 64%nat /\
  List.length Raster.DEFAULT_PALETTES_DATA = 68%nat /\
  Raster.select_palette palette_index = Ok p /\
  (3 <= List.length p)%nat /\
  Forall (fun c => is_hex6 c = true) p /\
  map Str (valid_colors p) = p /\
  valid_colors p <> [] /\
  Forall (fun s => PyStr.len (PyStr.lstrip_hash s) = 6 /\ parses s)
         (valid_colors p) /\
  returns (Raster.pil_get_two_colors p chaos_factor)
          (drawn_from (valid_colors p)) /\
  (exists c1 c2, Raster.read_first_two p = Ok (c1, c2)) /\
  (exists bg, Raster.pil_create_background_colors p g = Ok (bg, g, [])).
Proof.
  intros Hidx Hnth.
  assert (Hin : In p Raster.DEFAULT_PALETTES_DATA)
    by (eapply nth_error_In; eassumption).
  pose proof (store_palette_checked p Hin) as H.
  unfold palette_well_formed in H.
  repeat (apply andb_prop in H; destruct H as [H ?]).
  apply Nat.leb_le in H.
  assert (Hvalid : map Str (valid_colors p) = p)
    by (apply valid_colors_all; assumption).
  assert (Hne : valid_colors p <> []).
  { intros E. rewrite E in Hvalid. simpl in Hvalid. subst p. simpl in H. lia. }
  split; [reflexivity |]. split; [reflexivity |]. split; [reflexivity |].
  split.
  { destruct (select_palette_in palette_index) as (q & Eq & _ & Hq & _).
    rewrite Eq. f_equal.
    assert (Hq' : nth_error Raster.DEFAULT_PALETTES_DATA (Z.to_nat palette_index)
                  = Some q)
      by (apply Hq; change 68 with
            (Z.of_nat (List.length Raster.DEFAULT_PALETTES_DATA)); exact Hidx).
    congruence. }
  split; [exact H |].
  split; [apply Forall_forall; apply forallb_forall; assumption |].
  split; [exact Hvalid |]. split; [exact Hne |].
  split.
  { apply Forall_forall. intros s Hs. split.
    - apply valid_colors_in in Hs.
      match goal with
      | Hlen : forallb (fun c => match c with Str _ => _ | NonStr => false end) p
               = true |- _ =>
          rewrite forallb_forall in Hlen; specialize (Hlen _ Hs);
          apply Z.eqb_eq in Hlen; exact Hlen
      end.
    - eapply store_palette_parses; eassumption. }
  split.
  { eapply returns_weaken.
    - apply returns_pil_get_two_colors. intros s.
      apply store_palette_parses. exact Hin.
    - intros cs Hcs. apply Hcs. exact Hne. }
  split.
  { match goal with
    | Hok : is_ok (rbind (Raster.read_first_two p) _) = true |- _ =>
        destruct (Raster.read_first_two p) as [[c1 c2] |]; [| discriminate]
    end.
    exists c1, c2. reflexivity. }
  apply store_background_silent. exact Hin.
Qed.

End PaletteStore.

Lemma palette_store_well_formed_witness :
  0 <= 5 < Z.of_nat (List.length Raster.DEFAULT_PALETTES_DATA) /\
  nth_error Raster.DEFAULT_PALETTES_DATA (Z.to_nat 5)
  = Some (map Str ["#000040"; "#80C080"; "#C08080"]%string) /\
  valid_colors (map Str ["#000040"; "#80C080"; "#C08080"]%string) <> [].
Proof.
  split; [vm_compute; split; [discriminate | reflexivity] |].
  split; [reflexivity |].
  apply (palette_store_well_formed (RS := Lcg.source) (RSS := lcg_source_spec)
           5
           (map Str ["#000040"; "#80C080"; "#C08080"]%string) 0.3
           (Lcg.state 0)).
  - vm_compute. split; [discriminate | reflexivity].
  - reflexivity.
Defined.

(* ===================================================================== *)
(** * Big blocks *)
(* ===================================================================== *)

Section BigBlocks.

Context {RS : RandomSource} {RSS : RandomSourceSpec RS} {ML : MathLib}.





End BigBlocks.

(* ===================================================================== *)
(** * Seeding and determinism *)
(* ===================================================================== *)

Section Seeding.

Context {RS : RandomSource} {ML : MathLib}.

Lemma bind_cong {A B} (m m' : M A) (f : A -> M B) (g g' : gen) :
  m g = m' g' -> bind m f g = bind m' f g'.
Proof. unfold bind. intros ->. reflexivity. Qed.

Lemma raster_run_from_any_state num_rows num_cols square_size palette_index
    block_styles_str big_block_enabled multiplier num_big_blocks chaos_factor
    seed_value fresh (g g' : gen) :
  Raster.generate_art_image_pil num_rows num_cols square_size palette_index
    block_styles_str big_block_enabled multiplier num_big_blocks chaos_factor
    seed_value fresh g
  = Raster.generate_art_image_pil num_rows num_cols square_size palette_index
      block_styles_str big_block_enabled multiplier num_big_blocks
      chaos_factor seed_value fresh g'.
Proof.
  unfold Raster.generate_art_image_pil. apply bind_cong.
  unfold Raster.seed_random, seed, seed_from_os.
  destruct seed_value as [n |]; [destruct (n <? 0) |]; reflexivity.
Qed.

Lemma vector_seed_random_state sv fresh (g g' : gen) :
  Vector.seed_random sv fresh g = Vector.seed_random sv fresh g'.
Proof.
  unfold Vector.seed_random, bind, lift.
  destruct (Vector.seed_handling sv) as [[call warnings] |]; [| reflexivity].
  assert (Hp : forall h, Vector.print_all warnings h = Ok (tt, h, warnings)).
  { induction warnings as [| d ds IH]; intros h; simpl; [reflexivity |].
    unfold bind, print. rewrite IH. reflexivity. }
  rewrite !Hp. destruct call; reflexivity.
Qed.

Lemma vector_run_from_any_state (p : Vector.params) fresh (g g' : gen) :
  Vector.generate_art_svg_string p fresh g
  = Vector.generate_art_svg_string p fresh g'.
Proof.
  unfold Vector.generate_art_svg_string. apply bind_cong.
  apply vector_seed_random_state.
Qed.

Lemma vector_seed_random_int n fresh (g : gen) :
  Vector.seed_random (Vector.seed_int_value n) fresh g = Ok (tt, seed_int n, []).
Proof. reflexivity. Qed.

Lemma vector_seed_random_digits s fresh (g : gen) :
  PyStr.isdigit s = true ->
  exists n, 0 <= n /\ PyStr.int10 s = Ok n /\
            Vector.seed_random (Vector.seed_str s) fresh g
            = Ok (tt, seed_int n, []).
Proof.
  intros H. destruct (int10_isdigit s H) as (n & Hn & E).
  exists n. split; [exact Hn |]. split; [exact E |].
  unfold Vector.seed_random, Vector.seed_handling, bind, lift.
  rewrite H, E. reflexivity.
Qed.

(** C8, as the code has it.  Raster generator: no seed or a negative one
    installs the state of the operating system's entropy, a non-negative
    seed the state that seed determines.  Vector generator: no seed, the
    empty string, an ASCII string that is not all digits and any value of
    another type install the entropy state (the last two with a
    warning); an integer of either sign and a string of at most 4300
    decimal digits install the state the number determines.  In both the
    seeding comes before every draw: the run does not depend on the state
    the generator was in when it was called.  The two statements on
    strings stop where [str.isdigit] and [int] part ways: a digit that is
    not decimal, such as a superscript two, or more digits than the
    interpreter converts, make [int] raise [ValueError], which the code
    does not catch; these strings are outside [PyStr.isdigit] and
    [PyStr.int10]. *)
Theorem seed_handling
    (num_rows num_cols square_size palette_index : Z)
    (block_styles_str : string) (big_block_enabled : bool)
    (multiplier num_big_blocks : Z) (chaos_factor : Q)
    (seed_value : option Z) (p : Vector.params)
    (n : Z) (s : string) (fresh g g' : gen) :
  Raster.seed_random None fresh g = Ok (tt, fresh, []) /\
  Raster.seed_random (Some n) fresh g
  = Ok (tt, (if n <? 0 then fresh else seed_int n), []) /\
  Vector.seed_random Vector.seed_none fresh g = Ok (tt, fresh, []) /\
  Vector.seed_random (Vector.seed_str "") fresh g = Ok (tt, fresh, []) /\
  Vector.seed_random Vector.seed_other fresh g
  = Ok (tt, fresh, [WarnInvalidSeed]) /\
  Vector.seed_random (Vector.seed_int_value n) fresh g
  = Ok (tt, seed_int n, []) /\
  (PyStr.isdigit s = true -> (String.length s <= 4300)%nat ->
   exists k, 0 <= k /\ PyStr.int10 s = Ok k /\
             Vector.seed_random (Vector.seed_str s) fresh g
             = Ok (tt, seed_int k, [])) /\
  (ascii_only s = true -> PyStr.isdigit s = false -> s <> ""%string ->
   Vector.seed_random (Vector.seed_str s) fresh g
   = Ok (tt, fresh, [WarnInvalidSeed])) /\
  Raster.generate_art_image_pil num_rows num_cols square_size palette_index
    block_styles_str big_block_enabled multiplier num_big_blocks chaos_factor
    seed_value fresh g
  = Raster.generate_art_image_pil num_rows num_cols square_size palette_index
      block_styles_str big_block_enabled multiplier num_big_blocks
      chaos_factor seed_value fresh g' /\
  Vector.generate_art_svg_string p fresh g
  = Vector.generate_art_svg_string p fresh g'.
Proof.
  split; [reflexivity |].
  split; [unfold Raster.seed_random; destruct (n <? 0); reflexivity |].
  split; [reflexivity |]. split; [reflexivity |]. split; [reflexivity |].
  split; [reflexivity |].
  split; [intros Hd _; apply vector_seed_random_digits; exact Hd |].
  split.
  { intros _ Hd Hne. unfold Vector.seed_random, Vector.seed_handling, bind, lift.
    rewrite Hd. destruct (String.eqb_spec s ""); [contradiction | reflexivity]. }
  split; [apply raster_run_from_any_state | apply vector_run_from_any_state].
Qed.

(** C1.  With a seed that is present and not negative (for the vector
    generator an integer or a string of digits), the outcome of a run,
    image or drawing, final state and printed lines, is the same whatever
    state the generator of [random] was in when the run started and
    whatever the entropy of the operating system would have yielded: two
    runs with the same seed and parameters give the same artifact.  For
    the raster generator the outcome is an image; for the vector
    generator it is a drawing whenever the palette index selects a
    palette on which the background derivation returns. *)
Theorem generation_deterministic
    (num_rows num_cols square_size palette_index : Z)
    (block_styles_str : string) (big_block_enabled : bool)
    (multiplier num_big_blocks : Z) (chaos_factor : Q)
    (p : Vector.params) (n : Z) (fresh1 fresh2 g1 g2 : gen) :
  0 <= n ->
  Raster.generate_art_image_pil num_rows num_cols square_size palette_index
    block_styles_str big_block_enabled multiplier num_big_blocks chaos_factor
    (Some n) fresh1 g1
  = Raster.generate_art_image_pil num_rows num_cols square_size palette_index
      block_styles_str big_block_enabled multiplier num_big_blocks
      chaos_factor (Some n) fresh2 g2
  /\
  (Vector.seed_value p = Vector.seed_int_value n
   \/ (exists s, Vector.seed_value p = Vector.seed_str s
                 /\ PyStr.isdigit s = true) ->
   Vector.generate_art_svg_string p fresh1 g1
   = Vector.generate_art_svg_string p fresh2 g2)
  /\
  (RandomSourceSpec RS -> (0 <= chaos_factor)%Q ->
   exists img g' out,
     Raster.generate_art_image_pil num_rows num_cols square_size palette_index
       block_styles_str big_block_enabled multiplier num_big_blocks
       chaos_factor (Some n) fresh1 g1 = Ok (img, g', out))
  /\
  (RandomSourceSpec RS -> (0 <= Vector.chaos_factor p)%Q ->
   forall sel : palette,
     Vector.getitem (Vector.current_palette_list p) (Vector.palette_index p)
     = Ok sel ->
     background_returns sel = true ->
     exists d g' out,
       Vector.generate_art_svg_string p fresh1 g1 = Ok (Some d, g', out)).
Proof.
  intros Hn. split; [| split; [| split]].
  - unfold Raster.generate_art_image_pil. apply bind_cong.
    unfold Raster.seed_random, seed.
    destruct (Z.ltb_spec n 0); [lia | reflexivity].
  - intros Hseed. unfold Vector.generate_art_svg_string. apply bind_cong.
    assert (E : exists k, forall fresh g,
                  Vector.seed_random (Vector.seed_value p) fresh g
                  = Ok (tt, seed_int k, [])).
    { destruct Hseed as [-> | (s & -> & Hd)].
      - exists n. intros. reflexivity.
      - destruct (vector_seed_random_digits s fresh1 g1 Hd) as (k & _ & Ek & _).
        exists k. intros fresh g.
        unfold Vector.seed_random, Vector.seed_handling, bind, lift.
        rewrite Hd, Ek. reflexivity. }
    destruct E as (k & E). rewrite !E. reflexivity.
  - intros RSS Hc.
    apply (succeeds_generate_art_image_pil (RSS := RSS)). exact Hc.
  - intros RSS Hc sel Hsel Hbg.
    apply (succeeds_generate_art_svg_string (RSS := RSS) p sel); assumption.
Qed.

End Seeding.

Lemma generation_deterministic_witness :
  0 <= 42 /\
  Raster.generate_art_image_pil (RS := Lcg.source) (ML := Lcg.math)
    4 4 80 0 "circle,cross,dots,stripes" true 2 1 0.2 (Some 42)
    (Lcg.state 7) (Lcg.state 0)
  = Raster.generate_art_image_pil (RS := Lcg.source) (ML := Lcg.math)
      4 4 80 0 "circle,cross,dots,stripes" true 2 1 0.2 (Some 42)
      (Lcg.state 11) (Lcg.state 5).
Proof.
  split; [lia |].
  apply (generation_deterministic (RS := Lcg.source) (ML := Lcg.math)
           4 4 80 0 "circle,cross,dots,stripes" true 2 1 0.2
           {| Vector.seed_value := Vector.seed_int_value 42;
              Vector.cols := 4; Vector.rows := 4; Vector.square_size := 80;
              Vector.current_palette_list := Vector.DEFAULT_PALETTES_DATA;
              Vector.palette_index := 0;
              Vector.block_styles := ["circle"; "cross"; "dots"; "stripes"]%string;
              Vector.chaos_factor := 0.2; Vector.big_block_enabled := true;
              Vector.big_block_size := 2 |}
           42 (Lcg.state 7) (Lcg.state 11) (Lcg.state 0) (Lcg.state 5)).
  lia.
Defined.

Lemma seed_handling_witness :
  PyStr.isdigit "0042" = true /\ (String.length "0042" <= 4300)%nat /\
  exists k, 0 <= k /\ PyStr.int10 "0042" = Ok k /\
            Vector.seed_random (RS := Lcg.source) (Vector.seed_str "0042")
              (Lcg.state 7) (Lcg.state 0)
            = Ok (tt, seed_int k, []).
Proof.
  split; [reflexivity |]. split; [simpl; lia |].
  destruct (seed_handling (RS := Lcg.source) (ML := Lcg.math)
              2 2 10 0 "" false 2 1 0.2 None
              {| Vector.seed_value := Vector.seed_str "0042";
                 Vector.cols := 2; Vector.rows := 2; Vector.square_size := 10;
                 Vector.current_palette_list := Vector.DEFAULT_PALETTES_DATA;
                 Vector.palette_index := 0; Vector.block_styles := [];
                 Vector.chaos_factor := 0.2; Vector.big_block_enabled := false;
                 Vector.big_block_size := 2 |}
              0 "0042" (Lcg.state 7) (Lcg.state 0) (Lcg.state 1))
    as (_ & _ & _ & _ & _ & _ & Hdigits & _).
  apply Hdigits; [reflexivity | simpl; lia].
Defined.

(** C8, the claim as written fails on the vector generator: the seed
    [-1] is negative, yet [random.seed(-1)] is called and the state is
    the one the number determines, not the entropy state. *)
Lemma vector_negative_seed_is_used :
  Vector.seed_handling (Vector.seed_int_value (-1))
  = Ok (Vector.seed_with (-1), []) /\
  Vector.seed_random (RS := Lcg.source) (Vector.seed_int_value (-1))
    (Lcg.state 7) (Lcg.state 0)
  = Ok (tt, seed_int (-1), []) /\
  Vector.seed_random (RS := Lcg.source) (Vector.seed_int_value (-1))
    (Lcg.state 7) (Lcg.state 0)
  <> Ok (tt, Lcg.state 7, []).
Proof.
  split; [reflexivity |]. split; [reflexivity |]. discriminate.
Qed.

(* ===================================================================== *)
(** * Palette index *)
(* ===================================================================== *)

Section PaletteIndex.

Context {RS : RandomSource} {RSS : RandomSourceSpec RS} {ML : MathLib}.

Lemma getitem_spec {A : Type} (l : list A) (i : Z) :
  let n := Z.of_nat (List.length l) in
  Vector.getitem l i
  = if (0 <=? i) && (i <? n)
    then match nth_error l (Z.to_nat i) with
         | Some a => Ok a
         | None => Raise IndexError
         end
    else if (- n <=? i) && (i <? 0)
    then match nth_error l (Z.to_nat (i + n)) with
         | Some a => Ok a
         | None => Raise IndexError
         end
    else Raise IndexError.
Proof.
  cbv zeta. unfold Vector.getitem, index.
  destruct (Z.ltb_spec i 0).
  - replace (0 <=? i) with false by (symmetry; apply Z.leb_gt; assumption).
    simpl.
    destruct (Z.leb_spec (- Z.of_nat (List.length l)) i).
    + destruct (Z.ltb_spec (i + Z.of_nat (List.length l)) 0); [lia |].
      reflexivity.
    + destruct (Z.ltb_spec (i + Z.of_nat (List.length l)) 0); [| lia].
      reflexivity.
  - replace (0 <=? i) with true by (symmetry; apply Z.leb_le; assumption).
    simpl. destruct (Z.ltb_spec i (Z.of_nat (List.length l))); [reflexivity |].
    replace (- Z.of_nat (List.length l) <=? i) with true
      by (symmetry; apply Z.leb_le; lia).
    simpl.
    destruct (nth_error l (Z.to_nat i)) eqn:E; [| reflexivity].
    assert (Hlt : (Z.to_nat i < List.length l)%nat)
      by (apply nth_error_Some; congruence).
    lia.
Qed.

(** C4, as the code has it.  The raster generator clamps: an index
    outside [0, len) is replaced by 0, so every index resolves to a
    palette of the store (-1 and 68, the length of the store, to the
    first one) and the generation returns an image.  The vector generator
    does not clamp: it indexes the list it is given the way Python does,
    so an index in [-len, 0) counts from the end and any other index
    outside [0, len) raises [IndexError].  The parameters range over what
    the node declares: positive sizes and a chaos factor in [0, 1]. *)
Theorem palette_index_clamped
    (num_rows num_cols square_size palette_index : Z)
    (block_styles_str : string) (big_block_enabled : bool)
    (multiplier num_big_blocks : Z) (chaos_factor : Q)
    (seed_value : option Z) (palettes : list palette) (fresh g : gen) :
  0 < num_rows -> 0 < num_cols -> 0 < square_size ->
  (0 <= chaos_factor /\ chaos_factor <= 1)%Q ->
  Raster.select_palette palette_index
  = index Raster.DEFAULT_PALETTES_DATA
      (if (0 <=? palette_index) && (palette_index <? 68)
       then palette_index else 0) /\
  (exists p, Raster.select_palette palette_index = Ok p
             /\ In p Raster.DEFAULT_PALETTES_DATA) /\
  Raster.select_palette (-1) = Raster.select_palette 0 /\
  Raster.select_palette
    (Z.of_nat (List.length Raster.DEFAULT_PALETTES_DATA))
  = Raster.select_palette 0 /\
  (exists img g' out,
     Raster.generate_art_image_pil num_rows num_cols square_size palette_index
       block_styles_str big_block_enabled multiplier num_big_blocks
       chaos_factor seed_value fresh g = Ok (img, g', out)) /\
  Vector.getitem palettes palette_index
  = (let n := Z.of_nat (List.length palettes) in
     if (0 <=? palette_index) && (palette_index <? n)
     then match nth_error palettes (Z.to_nat palette_index) with
          | Some a => Ok a
          | None => Raise IndexError
          end
     else if (- n <=? palette_index) && (palette_index <? 0)
     then match nth_error palettes (Z.to_nat (palette_index + n)) with
          | Some a => Ok a
          | None => Raise IndexError
          end
     else Raise IndexError).
Proof.
  intros _ _ _ [Hc _].
  split.
  { unfold Raster.select_palette, Raster.clamp_palette_index.
    change (Z.of_nat (List.length Raster.DEFAULT_PALETTES_DATA)) with 68.
    destruct ((0 <=? palette_index) && (palette_index <? 68)); reflexivity. }
  split.
  { destruct (select_palette_in palette_index) as (p & E & Hin & _).
    exists p. auto. }
  split; [reflexivity |]. split; [reflexivity |].
  split; [apply succeeds_generate_art_image_pil; exact Hc |].
  apply getitem_spec.
Qed.

End PaletteIndex.

Lemma palette_index_clamped_witness :
  (0 < 2 /\ 0 < 2 /\ 0 < 10 /\ (0 <= 0.2 /\ 0.2 <= 1)%Q) /\
  exists p, Raster.select_palette (-1) = Ok p
            /\ In p Raster.DEFAULT_PALETTES_DATA.
Proof.
  split.
  - repeat split; try lia; unfold Qle; simpl; lia.
  - apply (palette_index_clamped (RS := Lcg.source) (RSS := lcg_source_spec)
             (ML := Lcg.math) 2 2 10 (-1) "" false 2 1 0.2 None
             Vector.DEFAULT_PALETTES_DATA (Lcg.state 7) (Lcg.state 0)).
    + lia.
    + lia.
    + lia.
    + unfold Qle; simpl; lia.
Defined.

(** C4, the claim as written fails on the vector generator: with the
    four palettes it ships, index 4 (the length of the list) raises
    [IndexError], also through [generate_art_svg_string], and index -1
    selects the last palette, which is not the first. *)
Lemma vector_palette_index_not_clamped :
  Vector.getitem Vector.DEFAULT_PALETTES_DATA 4 = Raise IndexError /\
  Vector.generate_art_svg_string (RS := Lcg.source) (ML := Lcg.math)
    {| Vector.seed_value := Vector.seed_int_value 42;
       Vector.cols := 2; Vector.rows := 2; Vector.square_size := 10;
       Vector.current_palette_list := Vector.DEFAULT_PALETTES_DATA;
       Vector.palette_index := 4; Vector.block_styles := [];
       Vector.chaos_factor := 0.2; Vector.big_block_enabled := false;
       Vector.big_block_size := 2 |} (Lcg.state 7) (Lcg.state 0)
  = Raise IndexError /\
  Vector.getitem Vector.DEFAULT_PALETTES_DATA (-1)
  = Ok (map Str ["#003049"; "#D62828"; "#F77F00"; "#FCBF49"; "#EAE2B7"]%string) /\
  Vector.getitem Vector.DEFAULT_PALETTES_DATA (-1)
  <> Vector.getitem Vector.DEFAULT_PALETTES_DATA 0.
Proof.
  split; [reflexivity |]. split; [reflexivity |]. split; [reflexivity |].
  discriminate.
Qed.

(* ===================================================================== *)
(** * Colour pairs *)
(* ===================================================================== *)

Section ColourPairs.

Context {RS : RandomSource} {RSS : RandomSourceSpec RS} {ML : MathLib}.

(** C3, as the code has it.  For a palette whose valid entries all
    parse, the raster pair is drawn from two valid entries, and they are
    the same entry exactly when every valid entry is that one (a single
    valid colour, or one colour repeated): then foreground and background
    are that colour.  If the valid entries hold two different strings the
    two entries differ, and so do foreground and background RGB when
    different entries denote different colours.  The vector pair is two
    valid entries under the same condition, except that a palette with
    exactly one valid entry gives that colour over [#CCCCCC]. *)
Theorem color_pair_distinct (color_palette : palette) (chaos_factor : Q) :
  (forall s, In s (valid_colors color_palette) -> parses s) ->
  returns (Raster.pil_get_two_colors color_palette chaos_factor)
    (fun cs =>
       valid_colors color_palette <> [] ->
       drawn_from (valid_colors color_palette) cs /\
       ((exists s t, In s (valid_colors color_palette)
                     /\ In t (valid_colors color_palette) /\ s <> t) ->
        distinct_colours (valid_colors color_palette) ->
        rgb_of (Raster.foreground cs) <> rgb_of (Raster.background cs)) /\
       ((forall s t, In s (valid_colors color_palette) ->
                     In t (valid_colors color_palette) -> s = t) ->
        rgb_of (Raster.foreground cs) = rgb_of (Raster.background cs)))
  /\
  returns (Vector.get_two_colors color_palette)
    (vector_pair_from (valid_colors color_palette)).
Proof.
  intros Hparse. split; [| apply returns_get_two_colors].
  eapply returns_weaken; [apply returns_pil_get_two_colors; exact Hparse |].
  intros cs Hcs Hne. specialize (Hcs Hne).
  split; [exact Hcs |].
  destruct Hcs as (fg_hex & bg_hex & alpha & Hfg & Hbg & Efg & Ebg & Hiff).
  split.
  - intros (s & t & Hs & Ht & Hst) Hdist Hrgb.
    assert (E : fg_hex = bg_hex)
      by (eapply Hdist; [exact Hfg | exact Hbg | exact Efg | exact Ebg | exact Hrgb]).
    apply Hst. destruct Hiff as [Hall _]. specialize (Hall E).
    rewrite (Hall s Hs), (Hall t Ht). reflexivity.
  - intros Hsame.
    assert (E : fg_hex = bg_hex) by (apply Hsame; assumption). subst fg_hex.
    destruct (Raster.foreground cs) as [[[r g] b] a] eqn:Ef.
    rewrite (hex_to_rgba_alpha _ _ 255 _ _ _ _ Efg) in Ebg.
    injection Ebg as <-. reflexivity.
Qed.

End ColourPairs.

Lemma color_pair_distinct_witness :
  (forall s, In s (valid_colors (map Str ["#FF6B6B"; "oops"; "#FFD166"]%string))
             -> parses s) /\
  returns (RS := Lcg.source)
    (Vector.get_two_colors (map Str ["#FF6B6B"; "oops"; "#FFD166"]%string))
    (vector_pair_from
       (valid_colors (map Str ["#FF6B6B"; "oops"; "#FFD166"]%string))).
Proof.
  assert (H : forall s,
             In s (valid_colors (map Str ["#FF6B6B"; "oops"; "#FFD166"]%string))
             -> parses s).
  { intros s [<- | [<- | []]]; apply (parses_of_ok _ 255); reflexivity. }
  split; [exact H |].
  apply (color_pair_distinct (RS := Lcg.source) (RSS := lcg_source_spec)
           (map Str ["#FF6B6B"; "oops"; "#FFD166"]%string) 0.2 H).
Defined.

(** C3, the claim as written fails.  A palette with two valid entries
    that are the same colour, written the same way or as [#FFF] and
    [#FFFFFF], gives a raster pair whose foreground and background RGB
    are equal; and a palette with exactly one valid colour gives a vector
    pair whose background is [#CCCCCC], not that colour. *)
Lemma repeated_entry_gives_equal_pair :
  List.length (valid_colors (map Str ["#FF0000"; "#FF0000"]%string)) = 2%nat /\
  (exists cs g' out,
     Raster.pil_get_two_colors (RS := Lcg.source)
       (map Str ["#FF0000"; "#FF0000"]%string) 0.2 (Lcg.state 0)
     = Ok (cs, g', out) /\
     rgb_of (Raster.foreground cs) = (255, 0, 0) /\
     rgb_of (Raster.background cs) = (255, 0, 0)) /\
  valid_colors (map Str ["#FFF"; "#FFFFFF"]%string)
  = ["#FFF"; "#FFFFFF"]%string /\
  (exists cs g' out,
     Raster.pil_get_two_colors (RS := Lcg.source)
       (map Str ["#FFF"; "#FFFFFF"]%string) 0.2 (Lcg.state 0)
     = Ok (cs, g', out) /\
     rgb_of (Raster.foreground cs) = (255, 255, 255) /\
     rgb_of (Raster.background cs) = (255, 255, 255)) /\
  valid_colors [Str "#FF0000"] = ["#FF0000"%string] /\
  Vector.get_two_colors (RS := Lcg.source) [Str "#FF0000"] (Lcg.state 0)
  = Ok ({| Vector.foreground := "#FF0000";
           Vector.background := "#CCCCCC" |}, Lcg.state 0, []).
Proof.
  split; [reflexivity |]. split.
  { eexists _, _, _. split; [vm_compute; reflexivity |]. split; reflexivity. }
  split; [reflexivity |]. split.
  { eexists _, _, _. split; [vm_compute; reflexivity |]. split; reflexivity. }
  split; reflexivity.
Qed.

(* ===================================================================== *)
(** * Opposite circles *)
(* ===================================================================== *)

Section OppositeCircles.

Context {RS : RandomSource} {RSS : RandomSourceSpec RS} {ML : MathLib}.
Local Coercion inject_Z : Z >-> Q.

Lemma uniform_run (a b : Q) (g : gen) :
  uniform a b g
  = Ok ((a + (b - a) * fst (next_float g))%Q, snd (next_float g), []).
Proof.
  unfold uniform, bind, random, ret. destruct (next_float g). reflexivity.
Qed.

Lemma scale_le (s a b : Q) : (0 <= s)%Q -> (a <= b)%Q -> (s * a <= s * b)%Q.
Proof.
  intros Hs Hab. rewrite (Qmult_comm s a), (Qmult_comm s b).
  apply Qmult_le_compat_r; assumption.
Qed.

(** C9.  The raster generator draws, over the cell background, exactly
    two circles of one radius, centred at the quarter-points
    [(x + size/4, y + size/4)] and [(x + 3 size/4, y + 3 size/4)], the
    radius between 0.8 and 1.2 times [size/4].  The vector generator
    does not: its two circles are both centred at the middle of the cell,
    [(x + size/2, y + size/2)], with a radius between 0.4 and 0.6 times
    [size]. *)
Theorem opposite_circles_placement (x y square_size : Z)
    (foreground_rgba background_rgba : rgba) (foreground background : string)
    (chaos_factor : Q) (g : gen) :
  0 < square_size ->
  (exists q_radius g',
     Raster.draw_pil_opposite_circles x y square_size foreground_rgba
       background_rgba chaos_factor g
     = Ok ([Raster.cell_background x y square_size background_rgba;
            circle_at (x + square_size / 4) (y + square_size / 4) q_radius
                      foreground_rgba;
            circle_at (x + 3 * (square_size / 4)) (y + 3 * (square_size / 4))
                      q_radius foreground_rgba], g', []) /\
     (square_size / 4 * 0.8 <= q_radius)%Q /\
     (q_radius <= square_size / 4 * 1.2)%Q)
  /\
  (exists c1 c2 radius o1 o2 g',
     Vector.draw_opposite_circles x y square_size foreground background
       chaos_factor g
     = Ok ([Vector.cell_background x y square_size background;
            Vector.Circle c1 radius foreground (Some o1);
            Vector.Circle c2 radius foreground (Some o2)], g', []) /\
     (fst c1 == x + square_size / 2)%Q /\ (snd c1 == y + square_size / 2)%Q /\
     (fst c2 == x + square_size / 2)%Q /\ (snd c2 == y + square_size / 2)%Q /\
     ~ (fst c1 == x + square_size / 4)%Q /\
     ~ (fst c2 == x + 3 * (square_size / 4))%Q /\
     (square_size * 0.4 <= radius)%Q /\ (radius <= square_size * 0.6)%Q /\
     (square_size / 4 * 1.2 < radius)%Q).
Proof.
  intros Hs.
  assert (Hq : (0 < inject_Z square_size)%Q).
  { change 0%Q with (inject_Z 0). rewrite <- Zlt_Qlt. lia. }
  split.
  - unfold Raster.draw_pil_opposite_circles, bind. rewrite uniform_run.
    rewrite uniform_run. unfold ret. cbv zeta.
    pose proof (next_float_range (snd (next_float g))) as [Hu0 Hu1].
    set (u := fst (next_float (snd (next_float g)))) in *.
    eexists _, _. split; [reflexivity |].
    assert (Hq4 : (0 <= inject_Z square_size / 4)%Q)
      by (apply Qle_shift_div_l; [reflexivity | lra]).
    split; apply scale_le; try assumption; lra.
  - unfold Vector.draw_opposite_circles, bind. rewrite uniform_run. cbv zeta.
    pose proof (next_float_range g) as [Hu0 Hu1].
    set (u := fst (next_float g)) in *.
    destruct (returns_get_random_opacity_str chaos_factor (snd (next_float g)))
      as (o1 & g1 & E1 & _). rewrite E1.
    destruct (returns_get_random_opacity_str chaos_factor g1)
      as (o2 & g2 & E2 & _). rewrite E2. unfold ret.
    eexists (_, _), (_, _), _, o1, o2, g2. split; [reflexivity |].
    simpl fst. simpl snd.
    assert (Hlow : (inject_Z square_size * 0.4
                    <= inject_Z square_size * (0.4 + (0.6 - 0.4) * u))%Q)
      by (apply scale_le; lra).
    assert (Hsu : (0 <= inject_Z square_size * u)%Q)
      by (apply Qmult_le_0_compat; lra).
    split; [reflexivity |]. split; [reflexivity |].
    split; [field |]. split; [field |].
    split.
    { intros E. unfold Qdiv in E.
      change (/ 2)%Q with (1 # 2)%Q in E. change (/ 4)%Q with (1 # 4)%Q in E.
      lra. }
    split.
    { intros E. unfold Qdiv in E.
      change (/ 2)%Q with (1 # 2)%Q in E. change (/ 4)%Q with (1 # 4)%Q in E.
      lra. }
    split; [exact Hlow |].
    split; [apply scale_le; lra |].
    unfold Qdiv. change (/ 4)%Q with (1 # 4)%Q. lra.
Qed.

End OppositeCircles.

Lemma opposite_circles_placement_witness :
  0 < 100 /\
  exists c1 c2 radius o1 o2 g',
    Vector.draw_opposite_circles (RS := Lcg.source) 0 0 100
      "#FF6B6B" "#073B4C" 0.2 (Lcg.state 42)
    = Ok ([Vector.cell_background 0 0 100 "#073B4C";
           Vector.Circle c1 radius "#FF6B6B" (Some o1);
           Vector.Circle c2 radius "#FF6B6B" (Some o2)], g', []) /\
    (fst c1 == 50)%Q /\ (snd c1 == 50)%Q /\
    (fst c2 == 50)%Q /\ (snd c2 == 50)%Q /\
    (40 <= radius)%Q /\ (radius <= 60)%Q.
Proof.
  split; [lia |].
  destruct (opposite_circles_placement (RS := Lcg.source)
              (RSS := lcg_source_spec) 0 0 100
              (255, 107, 107, 255) (7, 59, 76, 255) "#FF6B6B" "#073B4C" 0.2
              (Lcg.state 42) ltac:(lia))
    as (_ & c1 & c2 & radius & o1 & o2 & g' & E & H1 & H2 & H3 & H4 & _ & _
        & H5 & H6 & _).
  exists c1, c2, radius, o1, o2, g'.
  split; [exact E |].
  split; [rewrite H1; reflexivity |]. split; [rewrite H2; reflexivity |].
  split; [rewrite H3; reflexivity |]. split; [rewrite H4; reflexivity |].
  split.
  - eapply Qle_trans; [| exact H5]. unfold Qle; simpl; lia.
  - eapply Qle_trans; [exact H6 |]. unfold Qle; simpl; lia.
Defined.

(* ===================================================================== *)
(** * Background colours *)
(* ===================================================================== *)

Lemma int16_raises (s : string) (e : exn) :
  PyStr.int16 s = Raise e -> e = ValueError.
Proof.
  unfold PyStr.int16.
  destruct (PyStr.strip_sign _) as [neg body].
  destruct (PyStr.digits _ _ _ _ _); [discriminate | congruence].
Qed.

Lemma parse_hex_raises (s : string) (e : exn) :
  Vector.parse_hex (Str s) = Raise e -> e = ValueError.
Proof.
  unfold Vector.parse_hex, rbind.
  repeat match goal with
         | |- context [PyStr.int16 ?x] =>
             let E := fresh "E" in
             destruct (PyStr.int16 x) eqn:E;
             [| apply int16_raises in E; congruence]
         end.
  discriminate.
Qed.

Section Background.

Context {RS : RandomSource} {ML : MathLib}.

Lemma raster_background_first_two c1 c2 rest rest' (g : gen) :
  Raster.pil_create_background_colors (c1 :: c2 :: rest) g
  = Raster.pil_create_background_colors (c1 :: c2 :: rest') g.
Proof.
  unfold Raster.pil_create_background_colors.
  replace (Z.of_nat (List.length (c1 :: c2 :: rest)) <? 2) with false
    by (symmetry; apply Z.ltb_ge; simpl List.length; lia).
  replace (Z.of_nat (List.length (c1 :: c2 :: rest')) <? 2) with false
    by (symmetry; apply Z.ltb_ge; simpl List.length; lia).
  reflexivity.
Qed.

Lemma vector_background_first_two c1 c2 rest rest' (g : gen) :
  Vector.create_background_colors (c1 :: c2 :: rest) g
  = Vector.create_background_colors (c1 :: c2 :: rest') g.
Proof.
  unfold Vector.create_background_colors.
  replace (Z.of_nat (List.length (c1 :: c2 :: rest)) <? 2) with false
    by (symmetry; apply Z.ltb_ge; simpl List.length; lia).
  replace (Z.of_nat (List.length (c1 :: c2 :: rest')) <? 2) with false
    by (symmetry; apply Z.ltb_ge; simpl List.length; lia).
  reflexivity.
Qed.

(** C5, as the code has it.  The background is derived from the first
    two entries of the palette, whatever follows them.  A palette with
    fewer than two entries, so one whose only entry is a valid colour,
    gives the fixed grey pair [#EEEEEE], [#DDDDDD].  With two entries or
    more, the vector generator gives the grey pair, and prints a warning,
    when either of the first two is not a string of length 4 or 7 that
    starts with ['#'], and otherwise the pair mixed from the two; the
    raster generator mixes what [hex_to_rgba] returns for the first two
    entries, which is black for a string of any other length. *)
Theorem background_from_first_two_entries
    (c c1 c2 : entry) (rest rest' : palette) (g : gen) :
  Raster.pil_create_background_colors [] g = Ok (raster_fallback_bg, g, []) /\
  Raster.pil_create_background_colors [c] g = Ok (raster_fallback_bg, g, []) /\
  Vector.create_background_colors [] g
  = Ok ({| Vector.bg_inner := "#EEEEEE"; Vector.bg_outer := "#DDDDDD" |},
        g, []) /\
  Vector.create_background_colors [c] g
  = Ok ({| Vector.bg_inner := "#EEEEEE"; Vector.bg_outer := "#DDDDDD" |},
        g, []) /\
  Raster.pil_create_background_colors (c1 :: c2 :: rest) g
  = Raster.pil_create_background_colors (c1 :: c2 :: rest') g /\
  Vector.create_background_colors (c1 :: c2 :: rest) g
  = Vector.create_background_colors (c1 :: c2 :: rest') g /\
  (Vector.well_shaped c1 = false \/ Vector.well_shaped c2 = false ->
   Vector.create_background_colors (c1 :: c2 :: rest) g
   = Ok ({| Vector.bg_inner := "#EEEEEE"; Vector.bg_outer := "#DDDDDD" |},
         g, [WarnBackgroundPalette ValueError])) /\
  (Vector.well_shaped c1 = true -> Vector.well_shaped c2 = true ->
   is_ok (Vector.parse_hex c1) = false \/ is_ok (Vector.parse_hex c2) = false ->
   Vector.create_background_colors (c1 :: c2 :: rest) g
   = Ok ({| Vector.bg_inner := "#EEEEEE"; Vector.bg_outer := "#DDDDDD" |},
         g, [WarnBackgroundPalette ValueError])) /\
  (forall rgb1 rgb2 r_light g_light b_light r_dark g_dark b_dark,
     Vector.well_shaped c1 = true -> Vector.well_shaped c2 = true ->
     Vector.parse_hex c1 = Ok rgb1 -> Vector.parse_hex c2 = Ok rgb2 ->
     mix_background rgb1 rgb2
     = Ok ((r_light, g_light, b_light), (r_dark, g_dark, b_dark)) ->
     Vector.create_background_colors (c1 :: c2 :: rest) g
     = Ok ({| Vector.bg_inner :=
                PyStr.hex_color_lower r_light g_light b_light;
              Vector.bg_outer :=
                PyStr.hex_color_lower r_dark g_dark b_dark |}, g, [])) /\
  (forall r1 g1 b1 a1 r2 g2 b2 a2 r_light g_light b_light r_dark g_dark b_dark,
     hex_to_rgba c1 255 = Ok (r1, g1, b1, a1) ->
     hex_to_rgba c2 255 = Ok (r2, g2, b2, a2) ->
     mix_background (r1, g1, b1) (r2, g2, b2)
     = Ok ((r_light, g_light, b_light), (r_dark, g_dark, b_dark)) ->
     Raster.pil_create_background_colors (c1 :: c2 :: rest) g
     = Ok ({| Raster.bg_inner := (r_light, g_light, b_light, 255);
              Raster.bg_outer := (r_dark, g_dark, b_dark, 255) |}, g, [])) /\
  (is_ok (hex_to_rgba c1 255) = false \/ is_ok (hex_to_rgba c2 255) = false ->
   exists e,
     Raster.pil_create_background_colors (c1 :: c2 :: rest) g
     = Ok (raster_fallback_bg, g, [WarnBackgroundPalette e])).
Proof.
  split; [reflexivity |]. split; [reflexivity |].
  split; [reflexivity |]. split; [reflexivity |].
  split; [apply raster_background_first_two |].
  split; [apply vector_background_first_two |].
  assert (Hlen : (Z.of_nat (List.length (c1 :: c2 :: rest)) <? 2) = false)
    by (apply Z.ltb_ge; simpl List.length; lia).
  split; [| split; [| split; [| split]]].
  - intros Hbad. unfold Vector.create_background_colors. rewrite Hlen.
    cbv beta iota. unfold orb at 1.
    unfold Vector.read_first_two.
    change (index (c1 :: c2 :: rest) 0) with (Ok c1).
    change (index (c1 :: c2 :: rest) 1) with (Ok c2).
    cbv beta iota. unfold rbind at 1 2.
    replace (negb (Vector.well_shaped c1) || negb (Vector.well_shaped c2))
      with true
      by (symmetry; apply orb_true_iff;
          destruct Hbad as [-> | ->]; [left | right]; reflexivity).
    reflexivity.
  - intros H1 H2 Hbad. unfold Vector.create_background_colors. rewrite Hlen.
    cbv beta iota. unfold orb at 1.
    unfold Vector.read_first_two.
    change (index (c1 :: c2 :: rest) 0) with (Ok c1).
    change (index (c1 :: c2 :: rest) 1) with (Ok c2).
    cbv beta iota. unfold rbind at 1 2. rewrite H1, H2. simpl negb. simpl orb.
    cbv iota.
    destruct c1 as [s1 |]; [| discriminate H1].
    destruct c2 as [s2 |]; [| discriminate H2].
    destruct (Vector.parse_hex (Str s1)) as [rgb1 | e1] eqn:E1.
    + destruct (Vector.parse_hex (Str s2)) as [rgb2 | e2] eqn:E2.
      * destruct Hbad; discriminate.
      * apply parse_hex_raises in E2. subst e2. reflexivity.
    + apply parse_hex_raises in E1. subst e1. reflexivity.
  - intros rgb1 rgb2 rl gl bl rd gd bd H1 H2 E1 E2 Em.
    unfold Vector.create_background_colors. rewrite Hlen.
    cbv beta iota. unfold orb at 1.
    unfold Vector.read_first_two.
    change (index (c1 :: c2 :: rest) 0) with (Ok c1).
    change (index (c1 :: c2 :: rest) 1) with (Ok c2). cbv beta iota. unfold rbind at 1 2.
    rewrite H1, H2, E1, E2. simpl. unfold bind, lift, ret. rewrite Em.
    reflexivity.
  - intros r1 g1 b1 a1 r2 g2 b2 a2 rl gl bl rd gd bd E1 E2 Em.
    unfold Raster.pil_create_background_colors. rewrite Hlen.
    cbv beta iota. unfold orb at 1.
    unfold Raster.read_first_two.
    change (index (c1 :: c2 :: rest) 0) with (Ok c1).
    change (index (c1 :: c2 :: rest) 1) with (Ok c2). cbv beta iota. unfold rbind.
    rewrite E1, E2. unfold bind, lift, ret. rewrite Em. reflexivity.
  - intros Hbad. unfold Raster.pil_create_background_colors. rewrite Hlen.
    cbv beta iota. unfold orb at 1.
    unfold Raster.read_first_two.
    change (index (c1 :: c2 :: rest) 0) with (Ok c1).
    change (index (c1 :: c2 :: rest) 1) with (Ok c2). cbv beta iota. unfold rbind.
    destruct (hex_to_rgba c1 255) as [[[[r1 g1] b1] a1] | e1].
    + destruct (hex_to_rgba c2 255) as [[[[r2 g2] b2] a2] | e2].
      * destruct Hbad; discriminate.
      * exists e2. reflexivity.
    + exists e1. reflexivity.
Qed.

End Background.

Lemma background_from_first_two_entries_witness :
  (Vector.well_shaped (Str "#12") = false
   \/ Vector.well_shaped (Str "#FF0000") = false) /\
  Vector.create_background_colors (RS := Lcg.source)
    [Str "#12"; Str "#FF0000"; Str "#00FF00"] (Lcg.state 0)
  = Ok ({| Vector.bg_inner := "#EEEEEE"; Vector.bg_outer := "#DDDDDD" |},
        Lcg.state 0, [WarnBackgroundPalette ValueError]).
Proof.
  split; [left; reflexivity |].
  destruct (background_from_first_two_entries (RS := Lcg.source)
              NonStr (Str "#12") (Str "#FF0000") [Str "#00FF00"] []
              (Lcg.state 0)) as (_ & _ & _ & _ & _ & _ & H & _).
  apply H. left. reflexivity.
Defined.

(** C5, the claim as written fails.  The palette [#12, #FF0000, #00FF00]
    has two valid colours, whose mix gives the pair (168, 168, 8),
    (71, 71, 3); the vector generator returns the grey pair, because the
    first entry is ill-formed, and the raster generator mixes black, read
    from the first entry, with red.  And [#FF0000, junk], with exactly
    one valid colour, gives the same red-and-black pair on the raster
    generator, not the grey pair. *)
Lemma first_entries_decide_background :
  valid_colors [Str "#12"; Str "#FF0000"; Str "#00FF00"]
  = ["#FF0000"; "#00FF00"]%string /\
  background_of_first_two_valid [Str "#12"; Str "#FF0000"; Str "#00FF00"]
  = Ok ((168, 168, 8), (71, 71, 3)) /\
  Vector.create_background_colors (RS := Lcg.source)
    [Str "#12"; Str "#FF0000"; Str "#00FF00"] (Lcg.state 0)
  = Ok ({| Vector.bg_inner := "#EEEEEE"; Vector.bg_outer := "#DDDDDD" |},
        Lcg.state 0, [WarnBackgroundPalette ValueError]) /\
  Raster.pil_create_background_colors (RS := Lcg.source)
    [Str "#12"; Str "#FF0000"; Str "#00FF00"] (Lcg.state 0)
  = Ok ({| Raster.bg_inner := (168, 8, 8, 255);
           Raster.bg_outer := (71, 3, 3, 255) |}, Lcg.state 0, []) /\
  valid_colors [Str "#FF0000"; Str "junk"] = ["#FF0000"%string] /\
  Raster.pil_create_background_colors (RS := Lcg.source)
    [Str "#FF0000"; Str "junk"] (Lcg.state 0)
  = Ok ({| Raster.bg_inner := (168, 8, 8, 255);
           Raster.bg_outer := (71, 3, 3, 255) |}, Lcg.state 0, []).
Proof.
  repeat split; vm_compute; reflexivity.
Qed.

(* ===================================================================== *)
(** * Entries that do not parse *)
(* ===================================================================== *)

Section Unparseable.

Context {RS : RandomSource} {ML : MathLib}.

Lemma get_random_alpha_runs (chaos_factor : Q) (g : gen) :
  exists alpha g', Raster.get_random_alpha chaos_factor g = Ok (alpha, g', []).
Proof.
  unfold Raster.get_random_alpha, bind, random.
  destruct (next_float g) as [t g1].
  destruct (PyNum.Qltb t (chaos_factor * 0.5)).
  - unfold randint, bind, _randbelow, ret. simpl.
    destruct (randbelow 91 g1) as [k g2]. eexists _, _. reflexivity.
  - eexists _, _. reflexivity.
Qed.

(** C6, where the code departs from the claim.  The entry [#GGGGGG]
    passes the filter of [pil_get_two_colors], which looks at the ['#']
    and the length only, so it is not dropped; [hex_to_rgba] then raises
    [ValueError] on it, and nothing in [pil_get_two_colors] catches it:
    on the palette [[#GGGGGG]] the function raises from every state
    ([ValueError], with a source that meets the contract).  The vector
    generator does not drop the entry either: it hands the string over
    as the foreground.  (A palette none of whose entries passes the
    filter does give the fixed pair.) *)
Theorem non_hex_entry_raises (chaos_factor : Q) (g : gen) :
  valid_colors [Str "#GGGGGG"] = ["#GGGGGG"%string] /\
  (forall alpha, hex_to_rgba (Str "#GGGGGG") alpha = Raise ValueError) /\
  (exists e,
     Raster.pil_get_two_colors [Str "#GGGGGG"] chaos_factor g = Raise e) /\
  Raster.pil_get_two_colors (RS := Lcg.source) [Str "#GGGGGG"] 0.5
    (Lcg.state 0)
  = Raise ValueError /\
  Vector.get_two_colors [Str "#GGGGGG"] g
  = Ok ({| Vector.foreground := "#GGGGGG"; Vector.background := "#CCCCCC" |},
        g, []) /\
  (exists alpha g',
     Raster.pil_get_two_colors [Str "#12"; NonStr] chaos_factor g
     = Ok ({| Raster.foreground := (51, 51, 51, alpha);
              Raster.background := (204, 204, 204, 255) |}, g', [])).
Proof.
  split; [reflexivity |]. split; [reflexivity |].
  destruct (get_random_alpha_runs chaos_factor g) as (alpha & g1 & Ea).
  assert (Hrun : Raster.pil_get_two_colors [Str "#GGGGGG"] chaos_factor g
                 = match index ["#GGGGGG"%string] (fst (randbelow 1 g1)) with
                   | Ok _ => Raise ValueError
                   | Raise e => Raise e
                   end).
  { unfold Raster.pil_get_two_colors, bind. rewrite Ea.
    change (valid_colors [Str "#GGGGGG"]) with ["#GGGGGG"%string].
    cbv beta iota zeta. unfold choice, bind, _randbelow. simpl List.length.
    change (Z.of_nat 1) with 1. destruct (randbelow 1 g1) as [k g2].
    simpl fst. unfold lift.
    destruct (index ["#GGGGGG"%string] k) as [s |] eqn:Ei; [| reflexivity].
    assert (s = "#GGGGGG"%string) as ->.
    { unfold index in Ei. destruct (k <? 0); [discriminate |].
      destruct (Z.to_nat k) as [| [| n]]; simpl in Ei; congruence. }
    reflexivity. }
  split; [| split; [| split]].
  - rewrite Hrun. destruct (index _ _); eexists; reflexivity.
  - reflexivity.
  - reflexivity.
  - exists alpha, g1. unfold Raster.pil_get_two_colors, bind. rewrite Ea.
    reflexivity.
Qed.

End Unparseable.

(* ===================================================================== *)
(** * Colour strings *)
(* ===================================================================== *)

Lemma in_all_ascii (c : ascii) : In c all_ascii.
Proof.
  unfold all_ascii. rewrite <- (ascii_nat_embedding c).
  apply in_map. apply in_seq. pose proof (nat_ascii_bounded c). lia.
Qed.

Lemma forall_range (P : Z -> bool) (n k : Z) :
  forallb P (range n) = true -> 0 <= k < n -> P k = true.
Proof.
  intros H Hk. rewrite forallb_forall in H. apply H.
  unfold range. rewrite <- (Z2Nat.id k) by lia. apply in_map.
  apply in_seq. lia.
Qed.

Lemma slices_bounded :
  forallb (fun c1 => forallb (slice_value_bounded c1) all_ascii) all_ascii = true.
Proof. vm_compute. reflexivity. Qed.

Lemma int16_two_chars (c1 c2 : ascii) :
  match PyStr.int16 (String c1 (String c2 EmptyString)) with
  | Ok v => -15 <= v <= 255
  | Raise e => e = ValueError
  end.
Proof.
  pose proof slices_bounded as H. rewrite forallb_forall in H.
  specialize (H c1 (in_all_ascii c1)). rewrite forallb_forall in H.
  specialize (H c2 (in_all_ascii c2)). unfold slice_value_bounded in H.
  destruct (PyStr.int16 _) as [v | e] eqn:E.
  - lia.
  - unfold PyStr.int16 in E. destruct (PyStr.strip_sign _) as [neg body].
    destruct (PyStr.digits _ _ _ _ _); congruence.
Qed.

Lemma channels_read_back (digit : Z -> ascii) :
  digit = PyStr.hex_upper \/ digit = PyStr.hex_lower ->
  forallb (channel_reads_back digit) (range 256) = true.
Proof. intros [-> | ->]; vm_compute; reflexivity. Qed.

Lemma fmt_02_shape (digit : Z -> ascii) (n : Z) :
  digit = PyStr.hex_upper \/ digit = PyStr.hex_lower ->
  0 <= n <= 255 ->
  exists c1 c2,
    PyStr.fmt_02 digit n = String c1 (String c2 EmptyString) /\
    is_hex_digit c1 = true /\ is_hex_digit c2 = true /\
    Ascii.eqb c1 "#" = false /\
    PyStr.int16 (String c1 (String c2 EmptyString)) = Ok n.
Proof.
  intros Hd Hn.
  pose proof (forall_range _ 256 n (channels_read_back digit Hd) ltac:(lia)) as H.
  unfold channel_reads_back in H.
  destruct (PyStr.fmt_02 digit n) as [| c1 [| c2 [| c3 rest]]]; try discriminate.
  apply andb_prop in H. destruct H as [H H4].
  apply andb_prop in H. destruct H as [H H3].
  apply andb_prop in H. destruct H as [H1 H2].
  exists c1, c2. split; [reflexivity |].
  split; [exact H1 |]. split; [exact H2 |].
  split; [destruct (Ascii.eqb c1 "#"); [discriminate | reflexivity] |].
  destruct (PyStr.int16 _) as [v |]; [| discriminate].
  apply Z.eqb_eq in H4. congruence.
Qed.

(** X1.  A colour written as ['#'] and three channels in two hexadecimal
    digits each reads back as the same channels: what
    [generate_triadic_palettes] writes (upper case) is accepted by the
    filter of the colour pair and [hex_to_rgba] returns its channels with
    the alpha it is given; what [create_background_colors] writes (lower
    case) has the shape it asks of a palette entry and parses to the
    channels written. *)
Theorem hex_color_round_trip (r g b alpha : Z) :
  0 <= r <= 255 -> 0 <= g <= 255 -> 0 <= b <= 255 ->
  is_valid_color (Str (PyStr.hex_color_upper r g b)) = true /\
  hex_to_rgba (Str (PyStr.hex_color_upper r g b)) alpha = Ok (r, g, b, alpha) /\
  Vector.well_shaped (Str (PyStr.hex_color_lower r g b)) = true /\
  Vector.parse_hex (Str (PyStr.hex_color_lower r g b)) = Ok (r, g, b).
Proof.
  intros Hr Hg Hb.
  destruct (fmt_02_shape PyStr.hex_upper r (or_introl eq_refl) Hr)
    as (r1 & r2 & Er & _ & _ & Hr1 & Pr).
  destruct (fmt_02_shape PyStr.hex_upper g (or_introl eq_refl) Hg)
    as (g1 & g2 & Eg & _ & _ & _ & Pg).
  destruct (fmt_02_shape PyStr.hex_upper b (or_introl eq_refl) Hb)
    as (b1 & b2 & Eb & _ & _ & _ & Pb).
  destruct (fmt_02_shape PyStr.hex_lower r (or_intror eq_refl) Hr)
    as (r1' & r2' & Er' & _ & _ & Hr1' & Pr').
  destruct (fmt_02_shape PyStr.hex_lower g (or_intror eq_refl) Hg)
    as (g1' & g2' & Eg' & _ & _ & _ & Pg').
  destruct (fmt_02_shape PyStr.hex_lower b (or_intror eq_refl) Hb)
    as (b1' & b2' & Eb' & _ & _ & _ & Pb').
  unfold PyStr.hex_color_upper, PyStr.hex_color_lower, PyStr.fmt_02X,
    PyStr.fmt_02x.
  rewrite Er, Eg, Eb, Er', Eg', Eb'.
  unfold is_valid_color, hex_to_rgba, hex_to_rgba_str, Vector.well_shaped,
    Vector.parse_hex.
  cbn [append PyStr.startswith_hash PyStr.lstrip_hash].
  change (Ascii.eqb "#" "#") with true. cbv iota.
  rewrite Hr1, Hr1'. unfold PyStr.len, PyStr.slice.
  cbn [String.length String.substring Nat.sub Z.of_nat Pos.of_succ_nat
       Pos.succ Z.eqb Pos.eqb negb orb andb].
  rewrite Pr, Pg, Pb, Pr', Pg', Pb'. cbn [rbind].
  repeat split; reflexivity.
Qed.

Lemma hex_color_round_trip_witness :
  (0 <= 64 <= 255 /\ 0 <= 192 <= 255 /\ 0 <= 0 <= 255) /\
  hex_to_rgba (Str (PyStr.hex_color_upper 64 192 0)) 200 = Ok (64, 192, 0, 200).
Proof.
  split; [lia |].
  apply (hex_color_round_trip 64 192 0 200); lia.
Defined.

Lemma hex_pairs_bounded :
  forallb (fun c1 => forallb (hex_pair_value_bounded c1) all_ascii) all_ascii
  = true.
Proof. vm_compute. reflexivity. Qed.

Lemma int16_hex_pair (c1 c2 : ascii) :
  is_hex_digit c1 = true -> is_hex_digit c2 = true ->
  exists v, PyStr.int16 (String c1 (String c2 EmptyString)) = Ok v
            /\ 0 <= v <= 255.
Proof.
  intros H1 H2. pose proof hex_pairs_bounded as H. rewrite forallb_forall in H.
  specialize (H c1 (in_all_ascii c1)). rewrite forallb_forall in H.
  specialize (H c2 (in_all_ascii c2)). unfold hex_pair_value_bounded in H.
  rewrite H1, H2 in H. simpl in H.
  destruct (PyStr.int16 _) as [v |]; [| discriminate].
  exists v. split; [reflexivity | lia].
Qed.

Lemma all_hex_double (s : string) :
  all_hex (PyStr.double_chars s) = all_hex s.
Proof.
  induction s as [| c s IH]; simpl; [reflexivity |]. rewrite IH.
  destruct (is_hex_digit c); reflexivity.
Qed.

Lemma length_double (s : string) :
  String.length (PyStr.double_chars s) = (2 * String.length s)%nat.
Proof. induction s as [| c s IH]; simpl; [reflexivity | rewrite IH; lia]. Qed.

(** The three slices of a body of six characters. *)
Lemma six_chars (body : string) :
  PyStr.len body = 6 ->
  exists a b c d e f,
    body = String a (String b (String c (String d (String e (String f ""))))).
Proof.
  unfold PyStr.len.
  destruct body as [| a [| b [| c [| d [| e [| f [| h rest]]]]]]];
    simpl String.length; intros H; try lia.
  exists a, b, c, d, e, f. reflexivity.
Qed.

(** The body [hex_to_rgba] and [create_background_colors] parse: the
    string without its leading ['#'], doubled when it has three
    characters. *)
Lemma normalised_body_cases (s : string) :
  let body := PyStr.lstrip_hash s in
  let body' := if PyStr.len body =? 3 then PyStr.double_chars body else body in
  PyStr.len body' = 6 \/ (PyStr.len body' <> 6 /\ PyStr.len body <> 3).
Proof.
  cbv zeta. destruct (Z.eqb_spec (PyStr.len (PyStr.lstrip_hash s)) 3) as [E | E].
  - left. unfold PyStr.len in *. rewrite length_double. lia.
  - destruct (Z.eq_dec (PyStr.len (PyStr.lstrip_hash s)) 6); [left | right]; auto.
Qed.

(** X3.  Whatever the string, [hex_to_rgba] either raises [ValueError]
    (from [int]) or returns the alpha it was given with channels between
    [-15] and [255]: a slice such as [-F] is a signed literal for [int].
    When the string without its leading ['#'] holds hexadecimal digits
    only, it does not raise and the channels lie between [0] and [255]
    (black when the length is neither three nor six). *)
Theorem hex_to_rgba_channels (s : string) (alpha : Z) :
  match hex_to_rgba (Str s) alpha with
  | Ok c => Raster.alpha_of c = alpha /\ channels_within (-15) 255 c
  | Raise e => e = ValueError
  end /\
  (all_hex (PyStr.lstrip_hash s) = true ->
   exists c, hex_to_rgba (Str s) alpha = Ok c /\ channels_within 0 255 c) /\
  hex_to_rgba (Str "#-F-F-F") alpha = Ok (-15, -15, -15, alpha).
Proof.
  split; [| split; [| reflexivity]].
  - unfold hex_to_rgba, hex_to_rgba_str.
    destruct (normalised_body_cases s) as [H6 | [Hn6 _]]; cbv zeta in *.
    + rewrite H6. cbn [Z.eqb Pos.eqb negb].
      destruct (six_chars _ H6) as (a & b & c & d & e & f & ->).
      unfold PyStr.slice. cbn [String.substring Nat.sub].
      pose proof (int16_two_chars a b) as Hr.
      pose proof (int16_two_chars c d) as Hg.
      pose proof (int16_two_chars e f) as Hb.
      destruct (PyStr.int16 (String a _)) as [r |]; [| exact Hr].
      destruct (PyStr.int16 (String c _)) as [g |]; [| exact Hg].
      destruct (PyStr.int16 (String e _)) as [bl |]; [| exact Hb].
      simpl. repeat split; lia.
    + destruct (Z.eqb_spec (PyStr.len (if PyStr.len (PyStr.lstrip_hash s) =? 3
                                       then PyStr.double_chars (PyStr.lstrip_hash s)
                                       else PyStr.lstrip_hash s)) 6);
        [contradiction |].
      simpl. repeat split; lia.
  - intros Hhex. unfold hex_to_rgba, hex_to_rgba_str.
    destruct (normalised_body_cases s) as [H6 | [Hn6 _]]; cbv zeta in *.
    + rewrite H6. cbn [Z.eqb Pos.eqb negb].
      assert (Hhex' : all_hex (if PyStr.len (PyStr.lstrip_hash s) =? 3
                               then PyStr.double_chars (PyStr.lstrip_hash s)
                               else PyStr.lstrip_hash s) = true).
      { destruct (_ =? 3); [rewrite all_hex_double |]; exact Hhex. }
      destruct (six_chars _ H6) as (a & b & c & d & e & f & E).
      rewrite E in *. simpl in Hhex'.
      repeat (apply andb_prop in Hhex'; destruct Hhex' as [? Hhex']).
      unfold PyStr.slice. cbn [String.substring Nat.sub].
      destruct (int16_hex_pair a b) as (r & -> & Hr); [assumption | assumption |].
      destruct (int16_hex_pair c d) as (g & -> & Hg); [assumption | assumption |].
      destruct (int16_hex_pair e f) as (bl & -> & Hb); [assumption | assumption |].
      eexists. split; [reflexivity |]. simpl. repeat split; lia.
    + destruct (Z.eqb_spec (PyStr.len (if PyStr.len (PyStr.lstrip_hash s) =? 3
                                       then PyStr.double_chars (PyStr.lstrip_hash s)
                                       else PyStr.lstrip_hash s)) 6);
        [contradiction |].
      eexists. split; [reflexivity |]. simpl. repeat split; lia.
Qed.

(** X2.  A colour of three digits denotes the colour whose digits are
    each doubled: [hex_to_rgba] and the parsing of
    [create_background_colors] give the same outcome on [#abc] and on
    [#aabbcc], both pass the filter of the colour pair and both have the
    shape asked of the first two palette entries. *)
Theorem three_digit_shorthand (c1 c2 c3 : ascii) (alpha : Z) :
  c1 <> "#"%char ->
  let short := String "#" (String c1 (String c2 (String c3 ""))) in
  let long := String "#" (String c1 (String c1 (String c2 (String c2
                (String c3 (String c3 "")))))) in
  hex_to_rgba (Str short) alpha = hex_to_rgba (Str long) alpha /\
  Vector.parse_hex (Str short) = Vector.parse_hex (Str long) /\
  is_valid_color (Str short) = true /\ is_valid_color (Str long) = true /\
  Vector.well_shaped (Str short) = true /\ Vector.well_shaped (Str long) = true.
Proof.
  intros Hc. cbv zeta.
  assert (E : Ascii.eqb c1 "#" = false) by (apply Ascii.eqb_neq; exact Hc).
  unfold hex_to_rgba, hex_to_rgba_str, Vector.parse_hex, is_valid_color,
    Vector.well_shaped.
  cbn [PyStr.startswith_hash PyStr.lstrip_hash].
  change (Ascii.eqb "#" "#") with true. cbv iota. rewrite E.
  unfold PyStr.len.
  cbn [String.length PyStr.double_chars Z.of_nat Pos.of_succ_nat Pos.succ
       Z.eqb Pos.eqb negb orb andb].
  repeat split; reflexivity.
Qed.

Lemma three_digit_shorthand_witness :
  "F"%char <> "#"%char /\
  hex_to_rgba (Str "#F80") 255 = hex_to_rgba (Str "#FF8800") 255.
Proof.
  assert (H : "F"%char <> "#"%char) by discriminate.
  split; [exact H |].
  apply (three_digit_shorthand "F" "8" "0" 255 H).
Defined.

(* ===================================================================== *)
(** * What a computation ensures *)
(* ===================================================================== *)

Lemma Qltb_lt (a b : Q) : PyNum.Qltb a b = true <-> (a < b)%Q.
Proof.
  unfold PyNum.Qltb. rewrite negb_true_iff, <- not_true_iff_false, Qle_bool_iff.
  split; [apply Qnot_le_lt | apply Qlt_not_le].
Qed.

Lemma Qltb_ge (a b : Q) : PyNum.Qltb a b = false <-> (b <= a)%Q.
Proof.
  unfold PyNum.Qltb. rewrite negb_false_iff. apply Qle_bool_iff.
Qed.

(** Division by a numeral, written as the product [lra] reads. *)
Ltac qnorm :=
  unfold Qdiv in *;
  repeat match goal with
  | |- context [(/ (Zpos ?p # 1))%Q] =>
      change (/ (Zpos p # 1))%Q with (1 # p)%Q
  | H : context [(/ (Zpos ?p # 1))%Q] |- _ =>
      change (/ (Zpos p # 1))%Q with (1 # p)%Q in H
  end.

Section Ensures.

Context {RS : RandomSource}.

Lemma ensures_ret {A} (a : A) (post : A -> Prop) :
  post a -> ensures (ret a) post.
Proof. intros H g a' g' out [= <- _ _]. exact H. Qed.

Lemma ensures_bind {A B} (m : M A) (f : A -> M B)
    (mid : A -> Prop) (post : B -> Prop) :
  ensures m mid -> (forall a, mid a -> ensures (f a) post) ->
  ensures (bind m f) post.
Proof.
  intros Hm Hf g b g' out. unfold bind.
  destruct (m g) as [[[a g1] o1] |] eqn:E1; [| discriminate].
  destruct (f a g1) as [[[b' g2] o2] |] eqn:E2; [| discriminate].
  intros [= <- _ _]. eapply Hf; [eapply Hm; exact E1 | exact E2].
Qed.

Lemma ensures_weaken {A} (m : M A) (P P' : A -> Prop) :
  ensures m P -> (forall a, P a -> P' a) -> ensures m P'.
Proof. intros Hm HP g a g' out E. apply HP. eapply Hm. exact E. Qed.

Lemma ensures_any {A} (m : M A) : ensures m (fun _ => True).
Proof. intros g a g' out _. exact I. Qed.

Lemma ensures_lift {A} (r : result A) (post : A -> Prop) :
  (forall a, r = Ok a -> post a) -> ensures (lift r) post.
Proof.
  intros H g a g' out. unfold lift. destruct r as [a' |]; [| discriminate].
  intros [= <- _ _]. apply H. reflexivity.
Qed.

Lemma ensures_raise {A} (e : exn) (post : A -> Prop) : ensures (raise e) post.
Proof. intros g a g' out. discriminate. Qed.

Lemma ensures_and {A} (m : M A) (P P' : A -> Prop) :
  ensures m P -> ensures m P' -> ensures m (fun a => P a /\ P' a).
Proof. intros H H' g a g' out E. split; [eapply H | eapply H']; exact E. Qed.

Lemma returns_ensures {A} (m : M A) (P P' : A -> Prop) :
  returns m P -> ensures m P' -> returns m (fun a => P a /\ P' a).
Proof.
  intros Hr He g. destruct (Hr g) as (a & g' & E & Ha).
  exists a, g'. split; [exact E |]. split; [exact Ha | eapply He; exact E].
Qed.

Lemma ensures_for_ {A Op} (l : list A) (body : A -> M (list Op))
    (ok : Op -> bool) :
  (forall a, In a l -> ensures (body a) (fun ops => forallb ok ops = true)) ->
  ensures (for_ l body) (fun ops => forallb ok ops = true).
Proof.
  induction l as [| a l IH]; intros H; simpl.
  - apply ensures_ret. reflexivity.
  - eapply ensures_bind; [apply H; left; reflexivity |]. intros ops Hops.
    eapply ensures_bind; [apply IH; intros; apply H; right; assumption |].
    intros ops' Hops'. apply ensures_ret. rewrite forallb_app, Hops, Hops'.
    reflexivity.
Qed.

Context {RSS : RandomSourceSpec RS}.

Lemma ensures_random : ensures random (fun x => (0 <= x /\ x < 1)%Q).
Proof.
  intros g x g' out. unfold random. pose proof (next_float_range g) as H.
  destruct (next_float g) as [x' g'']. intros [= <- _ _]. exact H.
Qed.

Lemma ensures_uniform (a b : Q) :
  (a <= b)%Q -> ensures (uniform a b) (fun v => (a <= v /\ v <= b)%Q).
Proof.
  intros Hab. unfold uniform.
  eapply ensures_bind; [apply ensures_random |]. intros x [H0 H1].
  apply ensures_ret. split; nra.
Qed.

Lemma ensures_randint (a b : Z) : ensures (randint a b) (fun v => a <= v <= b).
Proof.
  unfold randint. destruct (Z.ltb_spec 0 (b + 1 - a)); [| apply ensures_raise].
  intros g v g' out. unfold bind, _randbelow.
  pose proof (randbelow_range (b + 1 - a) g ltac:(lia)) as Hr.
  destruct (randbelow (b + 1 - a) g) as [k g1]. simpl in *.
  intros [= <- _ _]. lia.
Qed.

Lemma ensures_choice {A} (l : list A) : ensures (choice l) (fun a => In a l).
Proof.
  unfold choice. destruct l as [| a0 l0]; [apply ensures_raise |].
  eapply ensures_bind; [apply ensures_any |]. intros k _.
  apply ensures_lift. intros a E. unfold index in E.
  destruct (k <? 0); [discriminate |].
  destruct (nth_error (a0 :: l0) (Z.to_nat k)) eqn:En; [| discriminate].
  injection E as <-. eapply nth_error_In. exact En.
Qed.

End Ensures.

(* ===================================================================== *)
(** * Transparency and rotation *)
(* ===================================================================== *)

Section Chaos.

Context {RS : RandomSource} {RSS : RandomSourceSpec RS} {ML : MathLib}.

Lemma ensures_get_random_alpha (c : Q) :
  ensures (Raster.get_random_alpha c)
    (fun a => (150 <= a <= 240 \/ a = 255) /\ ((c <= 0)%Q -> a = 255)).
Proof.
  unfold Raster.get_random_alpha.
  eapply ensures_bind; [apply ensures_random |]. intros t [Ht0 Ht1].
  destruct (PyNum.Qltb t (c * 0.5)) eqn:E.
  - apply Qltb_lt in E.
    eapply ensures_weaken; [apply ensures_randint |]. intros a Ha.
    split; [left; exact Ha |]. intros Hc. exfalso. nra.
  - apply ensures_ret. split; [right; reflexivity | reflexivity].
Qed.

Lemma ensures_get_random_rotation_angle (c : Q) :
  ensures (Raster.get_random_rotation_angle c)
    (fun angle => In angle rotation_angles /\
                  (angle <> 0 -> (0 < c)%Q)).
Proof.
  unfold Raster.get_random_rotation_angle.
  eapply ensures_bind; [apply ensures_random |]. intros t [Ht0 Ht1].
  destruct (PyNum.Qltb t c) eqn:E.
  - apply Qltb_lt in E.
    eapply ensures_weaken; [apply ensures_choice |]. intros a Ha.
    split; [exact Ha |]. intros _. lra.
  - apply ensures_ret. split; [left; reflexivity | congruence].
Qed.

(** X4.  [get_random_alpha] returns 255 or a value from 150 to 240, and
    [get_random_rotation_angle] one of the twelve listed angles, a
    multiple of 15 from -75 to 90.  With a chaos factor that is zero (or
    negative) the alpha is always 255 and the angle always 0: no shape
    is transparent, none is rotated. *)
Theorem chaos_bounds_alpha_and_angle (chaos_factor : Q) :
  returns (Raster.get_random_alpha chaos_factor)
    (fun alpha => (150 <= alpha <= 240 \/ alpha = 255) /\
                  ((chaos_factor <= 0)%Q -> alpha = 255)) /\
  returns (Raster.get_random_rotation_angle chaos_factor)
    (fun angle => In angle rotation_angles /\
                  -75 <= angle <= 90 /\ (15 | angle) /\
                  ((chaos_factor <= 0)%Q -> angle = 0)).
Proof.
  split.
  - eapply returns_weaken;
      [apply returns_ensures;
       [apply returns_get_random_alpha | apply ensures_get_random_alpha] |].
    intros a [_ H]. exact H.
  - eapply returns_weaken;
      [apply returns_ensures;
       [apply returns_get_random_rotation_angle
       | apply ensures_get_random_rotation_angle] |].
    intros a [_ [Hin Hz]]. split; [exact Hin |].
    assert (Hlist : -75 <= a <= 90 /\ (15 | a)).
    { unfold rotation_angles in Hin. simpl in Hin.
      repeat (destruct Hin as [<- | Hin];
              [split; [lia | apply Z.mod_divide; [lia | reflexivity]] |]).
      contradiction. }
    destruct Hlist as [Hb Hd]. split; [exact Hb |]. split; [exact Hd |].
    intros Hc. destruct (Z.eq_dec a 0) as [| Hne]; [assumption |].
    specialize (Hz Hne). lra.
Qed.

End Chaos.

Lemma chaos_bounds_alpha_and_angle_witness :
  returns (RS := Lcg.source) (Raster.get_random_alpha 0.3)
    (fun alpha => (150 <= alpha <= 240 \/ alpha = 255) /\
                  ((0.3 <= 0)%Q -> alpha = 255)).
Proof.
  apply (chaos_bounds_alpha_and_angle (RS := Lcg.source)
           (RSS := lcg_source_spec) 0.3).
Defined.

Lemma round_to_bounds (scale lo hi : Z) (x : Q) :
  (inject_Z lo <= x * inject_Z scale)%Q ->
  (x * inject_Z scale <= inject_Z hi)%Q ->
  exists n, PyNum.round_to scale x = (inject_Z n / inject_Z scale)%Q
            /\ lo <= n <= hi.
Proof.
  intros Hlo Hhi. unfold PyNum.round_to. cbv zeta.
  set (y := (x * inject_Z scale)%Q) in *.
  pose proof (Qfloor_le y) as Hf. pose proof (Qlt_floor y) as Hf'.
  assert (Hflo : lo <= Qfloor y).
  { rewrite <- (Qfloor_Z lo). apply Qfloor_resp_le. exact Hlo. }
  assert (Hfhi : Qfloor y <= hi).
  { rewrite <- (Qfloor_Z hi). apply Qfloor_resp_le. exact Hhi. }
  assert (Hup : (1 # 2 <= y - inject_Z (Qfloor y))%Q -> Qfloor y + 1 <= hi).
  { intros Hd. rewrite inject_Z_plus in Hf'.
    assert (Hlt : (inject_Z (Qfloor y) < inject_Z hi)%Q) by lra.
    rewrite <- Zlt_Qlt in Hlt. lia. }
  destruct (PyNum.Qltb (y - inject_Z (Qfloor y)) (1 # 2)) eqn:E1.
  - eexists. split; [reflexivity | lia].
  - apply Qltb_ge in E1.
    destruct (PyNum.Qltb (1 # 2) (y - inject_Z (Qfloor y))) eqn:E2.
    + eexists. split; [reflexivity |]. specialize (Hup E1). lia.
    + destruct (Z.even (Qfloor y)).
      * eexists. split; [reflexivity | lia].
      * eexists. split; [reflexivity |]. specialize (Hup E1). lia.
Qed.

Section VectorChaos.

Context {RS : RandomSource} {RSS : RandomSourceSpec RS} {ML : MathLib}.

Lemma ensures_get_random_opacity_str (c : Q) :
  ensures (Vector.get_random_opacity_str c)
    (fun o => ((exists n, o = (inject_Z n / inject_Z 100)%Q /\ 60 <= n <= 95)
               \/ o = 1.0%Q) /\
              ((c <= 0)%Q -> o = 1.0%Q)).
Proof.
  unfold Vector.get_random_opacity_str.
  eapply ensures_bind; [apply ensures_random |]. intros t [Ht0 Ht1].
  destruct (PyNum.Qltb t (c * 0.5)) eqn:E.
  - apply Qltb_lt in E.
    eapply ensures_bind; [apply ensures_uniform; lra |]. intros u [Hu0 Hu1].
    apply ensures_ret. split.
    + left. apply round_to_bounds.
      * change (inject_Z 60) with 60%Q. change (inject_Z 100) with 100%Q. lra.
      * change (inject_Z 95) with 95%Q. change (inject_Z 100) with 100%Q. lra.
    + intros Hc. exfalso. lra.
  - apply ensures_ret. split; [right; reflexivity | reflexivity].
Qed.

Lemma opacity_range (o : Q) :
  (exists n, o = (inject_Z n / inject_Z 100)%Q /\ 60 <= n <= 95) \/ o = 1.0%Q ->
  (0.6 <= o /\ o <= 1)%Q.
Proof.
  intros [(n & -> & Hn) | ->]; [| split; lra].
  assert (H60 : (inject_Z 60 <= inject_Z n)%Q) by (rewrite <- Zle_Qle; lia).
  assert (H95 : (inject_Z n <= inject_Z 95)%Q) by (rewrite <- Zle_Qle; lia).
  change (inject_Z 60) with 60%Q in H60. change (inject_Z 95) with 95%Q in H95.
  unfold Qdiv. change (/ inject_Z 100)%Q with (1 # 100)%Q. split; lra.
Qed.

Lemma ensures_get_random_rotation_transform (c cx cy : Q) :
  ensures (Vector.get_random_rotation_transform c cx cy)
    (fun t => In (Vector.rot_angle t) rotation_angles /\
              Vector.rot_cx t = cx /\ Vector.rot_cy t = cy /\
              (Vector.rot_angle t <> 0 -> (0 < c)%Q)).
Proof.
  unfold Vector.get_random_rotation_transform.
  eapply ensures_bind; [apply ensures_random |]. intros t [Ht0 Ht1].
  destruct (PyNum.Qltb t c) eqn:E.
  - apply Qltb_lt in E.
    eapply ensures_bind; [apply ensures_choice |]. intros a Ha.
    apply ensures_ret. simpl. repeat split; try assumption. intros _. lra.
  - apply ensures_bind with (mid := fun a => a = 0);
      [apply ensures_ret; reflexivity |]. intros a ->.
    apply ensures_ret. simpl. repeat split; [left; reflexivity | congruence].
Qed.

(** X5.  [get_random_opacity_str] returns 1.0 or a number of two
    decimals from 0.6 to 0.95 (the rounding of [uniform(0.6, 0.95)] to two
    places stays within the two bounds);
    [get_random_rotation_transform] turns about the centre it is given by
    one of the twelve listed angles.  With a chaos factor that is zero
    (or negative) the opacity is always 1.0 and the angle always 0. *)
Theorem chaos_bounds_opacity_and_transform (chaos_factor cx cy : Q) :
  returns (Vector.get_random_opacity_str chaos_factor)
    (fun o => ((exists n, o = (inject_Z n / inject_Z 100)%Q /\ 60 <= n <= 95)
               \/ o = 1.0%Q) /\
              (0.6 <= o /\ o <= 1)%Q /\
              ((chaos_factor <= 0)%Q -> o = 1.0%Q)) /\
  returns (Vector.get_random_rotation_transform chaos_factor cx cy)
    (fun t => In (Vector.rot_angle t) rotation_angles /\
              Vector.rot_cx t = cx /\ Vector.rot_cy t = cy /\
              ((chaos_factor <= 0)%Q -> Vector.rot_angle t = 0)).
Proof.
  split.
  - eapply returns_weaken;
      [apply returns_ensures;
       [apply returns_get_random_opacity_str
       | apply ensures_get_random_opacity_str] |].
    intros o [_ [H Hz]]. split; [exact H |]. split; [| exact Hz].
    apply opacity_range. exact H.
  - eapply returns_weaken;
      [apply returns_ensures;
       [apply returns_get_random_rotation_transform
       | apply ensures_get_random_rotation_transform] |].
    intros t [_ (Hin & Hx & Hy & Hz)]. repeat split; try assumption.
    intros Hc. destruct (Z.eq_dec (Vector.rot_angle t) 0) as [| Hne];
      [assumption |].
    specialize (Hz Hne). lra.
Qed.

End VectorChaos.

Lemma chaos_bounds_opacity_and_transform_witness :
  returns (RS := Lcg.source) (Vector.get_random_opacity_str 0.3)
    (fun o => ((exists n, o = (inject_Z n / inject_Z 100)%Q /\ 60 <= n <= 95)
               \/ o = 1.0%Q) /\
              (0.6 <= o /\ o <= 1)%Q /\
              ((0.3 <= 0)%Q -> o = 1.0%Q)).
Proof.
  apply (chaos_bounds_opacity_and_transform (RS := Lcg.source)
           (RSS := lcg_source_spec) 0.3 0 0).
Defined.

(* ===================================================================== *)
(** * What a raster cell is painted with *)
(* ===================================================================== *)

Lemma with_alpha_alpha_of (c : rgba) : Raster.with_alpha c (Raster.alpha_of c) = c.
Proof. destruct c as [[[r g] b] a]. reflexivity. Qed.

Lemma fill_derived_fg fg bg c : fill_derived fg bg c fg.
Proof.
  exists fg, (Raster.alpha_of fg). split; [left; reflexivity |].
  split; [symmetry; apply with_alpha_alpha_of | left; reflexivity].
Qed.

Lemma fill_derived_bg fg bg c : fill_derived fg bg c bg.
Proof.
  exists bg, (Raster.alpha_of bg). split; [right; reflexivity |].
  split; [symmetry; apply with_alpha_alpha_of | right; left; reflexivity].
Qed.

Lemma fill_derived_bg_alpha_fg fg bg c :
  fill_derived fg bg c (Raster.with_alpha bg (Raster.alpha_of fg)).
Proof.
  exists bg, (Raster.alpha_of fg). split; [right; reflexivity |].
  split; [reflexivity | left; reflexivity].
Qed.

Lemma fill_derived_capped fg bg c (is_fg : bool) (k : Z) :
  (150 <= k <= 240 \/ k = 255) /\ ((c <= 0)%Q -> k = 255) ->
  fill_derived fg bg c
    (Raster.with_alpha (if is_fg then fg else bg)
       (Z.min (Raster.alpha_of (if is_fg then fg else bg)) k)).
Proof.
  intros [Hk Hz].
  exists (if is_fg then fg else bg),
         (Z.min (Raster.alpha_of (if is_fg then fg else bg)) k).
  split; [destruct is_fg; auto |]. split; [reflexivity |].
  right; right. exists k. auto.
Qed.

Create HintDb fills discriminated.
#[local] Hint Resolve fill_derived_fg fill_derived_bg fill_derived_bg_alpha_fg
  fill_derived_capped : fills.

Lemma cell_painted_intro x y s fg bg c rest :
  Forall (fill_derived fg bg c) (flat_map fills rest) ->
  Forall (rotation_drawn c) (flat_map rotations rest) ->
  cell_painted x y s fg bg c (Raster.cell_background x y s bg :: rest).
Proof.
  intros Hf Hr. split; [eexists; reflexivity |]. split.
  - simpl. constructor; [apply fill_derived_bg | exact Hf].
  - exact Hr.
Qed.

Lemma painted_ops_nil fg bg c : painted_ops fg bg c [].
Proof. split; constructor. Qed.

Lemma painted_ops_app fg bg c ops ops' :
  painted_ops fg bg c ops -> painted_ops fg bg c ops' ->
  painted_ops fg bg c (ops ++ ops').
Proof.
  intros [H1 H2] [H1' H2']. unfold painted_ops.
  rewrite !flat_map_app. split; apply Forall_app; auto.
Qed.

Lemma painted_ops_cons fg bg c o ops :
  painted_ops fg bg c [o] -> painted_ops fg bg c ops ->
  painted_ops fg bg c (o :: ops).
Proof. intros H H'. apply (painted_ops_app fg bg c [o] ops); assumption. Qed.

Lemma cell_painted_of x y s fg bg c rest :
  painted_ops fg bg c rest ->
  cell_painted x y s fg bg c (Raster.cell_background x y s bg :: rest).
Proof. intros [Hf Hr]. apply cell_painted_intro; assumption. Qed.

Lemma painted_rotated_image fg bg c (k : Q) size ops x y angle :
  ((0 < k)%Q -> (0 < c)%Q) ->
  painted_ops fg bg c ops ->
  In angle rotation_angles /\ (angle <> 0 -> (0 < k)%Q) ->
  painted_ops fg bg c [Raster.draw_rotated_image size ops x y angle].
Proof.
  intros Hk [Hf Hr] [Hin Hpos]. unfold Raster.draw_rotated_image.
  destruct (Z.eqb_spec angle 0) as [-> | Hne]; split; simpl;
    rewrite ?app_nil_r; try assumption.
  constructor; [| assumption].
  split; [exact Hin |]. split; [exact Hne |]. auto.
Qed.

Lemma ensures_for_gen {RS : RandomSource} {A Op} (l : list A)
    (body : A -> M (list Op)) (P : list Op -> Prop) :
  P [] -> (forall ops ops', P ops -> P ops' -> P (ops ++ ops')) ->
  (forall a, In a l -> ensures (body a) P) ->
  ensures (for_ l body) P.
Proof.
  intros Hnil Happ. induction l as [| a l IH]; intros H; simpl.
  - apply ensures_ret. exact Hnil.
  - eapply ensures_bind; [apply H; left; reflexivity |]. intros ops Hops.
    eapply ensures_bind; [apply IH; intros; apply H; right; assumption |].
    intros ops' Hops'. apply ensures_ret. apply Happ; assumption.
Qed.

(** One step through a computation, keeping what each draw ensures. *)
Ltac ensures_prim :=
  first
    [ apply ensures_get_random_alpha
    | apply ensures_get_random_rotation_angle
    | apply ensures_any ].

Ltac ensures_walk :=
  repeat lazymatch goal with
  | |- ensures (bind (if ?b then _ else _) _) _ => destruct b
  | |- ensures (bind (match ?x with _ => _ end) _) _ => destruct x
  | |- ensures (bind _ _) _ =>
      eapply ensures_bind; [ensures_prim | cbv beta; intros]
  | |- ensures (if ?b then _ else _) _ => destruct b
  | |- ensures (match ?x with _ => _ end) _ => destruct x
  | |- ensures (let _ := _ in _) _ => cbv zeta
  | |- ensures (ret _) _ => apply ensures_ret
  end.

Ltac painted_one :=
  first
    [ eapply painted_rotated_image;
      [| | eassumption]; [intros; qnorm; lra |]
    | lazymatch goal with
      | |- painted_ops _ _ _ [match ?d with _ => _ end] => destruct d
      end
    | split; simpl; repeat constructor; eauto with fills ].

Ltac painted_solve :=
  repeat lazymatch goal with
  | |- cell_painted _ _ _ _ _ _ (_ :: _) => apply cell_painted_of
  | |- painted_ops _ _ _ [] => apply painted_ops_nil
  | |- painted_ops _ _ _ [_] => painted_one
  | |- painted_ops _ _ _ (_ :: _) => apply painted_ops_cons
  | |- painted_ops _ _ _ (if ?b then _ else _) => destruct b
  | |- painted_ops _ _ _ _ => assumption
  end.

Section RasterPainted.

Context {RS : RandomSource} {RSS : RandomSourceSpec RS} {ML : MathLib}.
Import Raster.

Lemma painted_draw_pil_circle x y s fg bg c :
  ensures (draw_pil_circle x y s fg bg c) (cell_painted x y s fg bg c).
Proof. unfold draw_pil_circle. ensures_walk; painted_solve. Qed.

Lemma painted_draw_pil_opposite_circles x y s fg bg c :
  ensures (draw_pil_opposite_circles x y s fg bg c) (cell_painted x y s fg bg c).
Proof. unfold draw_pil_opposite_circles. ensures_walk; painted_solve. Qed.

Lemma painted_draw_pil_cross x y s fg bg c :
  ensures (draw_pil_cross x y s fg bg c) (cell_painted x y s fg bg c).
Proof. unfold draw_pil_cross. ensures_walk; painted_solve. Qed.

Lemma painted_draw_pil_half_square x y s fg bg c :
  ensures (draw_pil_half_square x y s fg bg c) (cell_painted x y s fg bg c).
Proof. unfold draw_pil_half_square. ensures_walk; painted_solve. Qed.

Lemma painted_draw_pil_diagonal_square x y s fg bg c :
  ensures (draw_pil_diagonal_square x y s fg bg c) (cell_painted x y s fg bg c).
Proof. unfold draw_pil_diagonal_square. ensures_walk; painted_solve. Qed.

Lemma painted_draw_pil_quarter_circle x y s fg bg c :
  ensures (draw_pil_quarter_circle x y s fg bg c) (cell_painted x y s fg bg c).
Proof. unfold draw_pil_quarter_circle. ensures_walk; painted_solve. Qed.

Lemma painted_for_ {A} (l : list A) (body : A -> M (list pil_op)) fg bg c :
  (forall a, In a l -> ensures (body a) (painted_ops fg bg c)) ->
  ensures (for_ l body) (painted_ops fg bg c).
Proof.
  apply ensures_for_gen; [apply painted_ops_nil | apply painted_ops_app].
Qed.

Lemma painted_dot x y cs fg bg c i j :
  ensures (dot x y cs fg c i j) (painted_ops fg bg c).
Proof. unfold dot. ensures_walk; painted_solve. Qed.

Lemma painted_draw_pil_dots x y s fg bg c :
  ensures (draw_pil_dots x y s fg bg c) (cell_painted x y s fg bg c).
Proof.
  unfold draw_pil_dots. cbv zeta.
  eapply ensures_bind; [apply ensures_any |]. intros n _.
  eapply ensures_bind; [apply ensures_any |]. intros cs _.
  eapply ensures_bind.
  { apply painted_for_. intros i _. apply painted_for_. intros j _.
    apply painted_dot. }
  intros ds Hds. apply ensures_ret. apply cell_painted_of. exact Hds.
Qed.

Lemma painted_draw_pil_letter_block x y s fg bg c :
  ensures (draw_pil_letter_block x y s fg bg c) (cell_painted x y s fg bg c).
Proof. unfold draw_pil_letter_block. ensures_walk; painted_solve. Qed.

Lemma painted_concentric_loop x y s fg bg c n max_r idxs flag :
  ensures (concentric_loop x y s fg bg c n max_r idxs flag)
    (painted_ops fg bg c).
Proof.
  revert flag. induction idxs as [| i rest IH]; intros flag; simpl.
  - apply ensures_ret. apply painted_ops_nil.
  - eapply ensures_bind; [apply ensures_any |]. intros ratio _.
    destruct (PyNum.Qltb (max_r * ratio) 1); [apply IH |].
    eapply ensures_bind; [apply ensures_get_random_alpha |]. intros k Hk.
    eapply ensures_bind; [apply ensures_any |]. intros a _.
    eapply ensures_bind; [apply ensures_any |]. intros b _.
    eapply ensures_bind; [apply IH |]. intros ops Hops.
    apply ensures_ret. apply painted_ops_cons; [| exact Hops].
    split; simpl; repeat constructor. apply fill_derived_capped. exact Hk.
Qed.

Lemma painted_draw_pil_concentric_circles x y s fg bg c :
  ensures (draw_pil_concentric_circles x y s fg bg c)
    (cell_painted x y s fg bg c).
Proof.
  unfold draw_pil_concentric_circles. cbv zeta.
  eapply ensures_bind; [apply ensures_any |]. intros n _.
  eapply ensures_bind; [apply ensures_any |]. intros f _.
  eapply ensures_bind; [apply painted_concentric_loop |]. intros ops Hops.
  apply ensures_ret. apply cell_painted_of. exact Hops.
Qed.

Lemma painted_stripe x y s fg bg c n h i :
  ensures (stripe x y s fg bg c n h i) (painted_ops fg bg c).
Proof.
  unfold stripe.
  apply ensures_bind with (mid := fun _ => True); [apply ensures_any |].
  intros use_fg _. cbv zeta.
  eapply ensures_bind; [apply ensures_get_random_alpha |]. intros k Hk.
  assert (Hfill : fill_derived fg bg c
                    (with_alpha (if use_fg then fg else bg)
                       (Z.min (alpha_of (if use_fg then fg else bg)) k)))
    by (apply fill_derived_capped; exact Hk).
  apply ensures_bind with (mid := fun _ => True); [apply ensures_any |].
  intros skip _. destruct skip; [apply ensures_ret; apply painted_ops_nil |].
  eapply ensures_bind; [apply ensures_any |]. intros bt _.
  eapply ensures_bind; [apply ensures_any |]. intros f _.
  destruct h; apply ensures_ret; split; simpl; repeat constructor; exact Hfill.
Qed.

Lemma painted_draw_pil_stripes x y s fg bg c :
  ensures (draw_pil_stripes x y s fg bg c) (cell_painted x y s fg bg c).
Proof.
  unfold draw_pil_stripes. cbv zeta.
  eapply ensures_bind; [apply ensures_any |]. intros n _.
  eapply ensures_bind; [apply ensures_any |]. intros h _.
  eapply ensures_bind; [apply painted_for_; intros; apply painted_stripe |].
  intros ops Hops. apply ensures_ret. apply cell_painted_of. exact Hops.
Qed.

Lemma painted_draw_pil_rotated_shape x y s fg bg c :
  ensures (draw_pil_rotated_shape x y s fg bg c) (cell_painted x y s fg bg c).
Proof.
  unfold draw_pil_rotated_shape. cbv zeta.
  eapply ensures_bind; [apply ensures_any |]. intros st _.
  eapply ensures_bind; [apply ensures_any |]. intros f _.
  apply ensures_bind with (mid := painted_ops fg bg c).
  { destruct st; ensures_walk; painted_solve. }
  intros img Himg.
  eapply ensures_bind; [apply ensures_get_random_rotation_angle |].
  intros angle Hangle. apply ensures_ret. apply cell_painted_of.
  eapply painted_rotated_image; [| exact Himg | exact Hangle].
  intros; qnorm; lra.
Qed.

Lemma painted_wavy_line x y s fg bg c n h sw i :
  ensures (wavy_line x y s fg c n h sw i) (painted_ops fg bg c).
Proof. unfold wavy_line. ensures_walk; painted_solve. Qed.

Lemma painted_draw_pil_wavy_lines x y s fg bg c :
  ensures (draw_pil_wavy_lines x y s fg bg c) (cell_painted x y s fg bg c).
Proof.
  unfold draw_pil_wavy_lines. cbv zeta.
  eapply ensures_bind; [apply ensures_any |]. intros n _.
  eapply ensures_bind; [apply ensures_any |]. intros h _.
  eapply ensures_bind; [apply ensures_any |]. intros f _.
  eapply ensures_bind; [apply painted_for_; intros; apply painted_wavy_line |].
  intros ops Hops. apply ensures_ret. apply cell_painted_of. exact Hops.
Qed.

Lemma painted_style_function_map_pil f x y s fg bg c :
  ensures (style_function_map_pil f x y s fg bg c) (cell_painted x y s fg bg c).
Proof.
  destruct f; simpl.
  - apply painted_draw_pil_circle.
  - apply painted_draw_pil_opposite_circles.
  - apply painted_draw_pil_cross.
  - apply painted_draw_pil_half_square.
  - apply painted_draw_pil_diagonal_square.
  - apply painted_draw_pil_quarter_circle.
  - apply painted_draw_pil_dots.
  - apply painted_draw_pil_letter_block.
  - apply painted_draw_pil_concentric_circles.
  - apply painted_draw_pil_stripes.
  - apply painted_draw_pil_rotated_shape.
  - apply painted_draw_pil_wavy_lines.
Qed.

End RasterPainted.

(* ===================================================================== *)
(** * The arguments of the Pillow calls *)
(* ===================================================================== *)

Lemma max_ge_l (a b : Q) : (a <= PyNum.max a b)%Q.
Proof.
  unfold PyNum.max. destruct (PyNum.Qltb a b) eqn:E; [| lra].
  apply Qltb_lt in E. lra.
Qed.

Lemma max_ge_r (a b : Q) : (b <= PyNum.max a b)%Q.
Proof.
  unfold PyNum.max. destruct (PyNum.Qltb a b) eqn:E; [lra |].
  apply Qltb_ge in E. exact E.
Qed.

Lemma min_le_r (a b : Q) : (PyNum.min a b <= b)%Q.
Proof.
  unfold PyNum.min. destruct (PyNum.Qltb b a) eqn:E; [lra |].
  apply Qltb_ge in E. exact E.
Qed.

Lemma min_le_l (a b : Q) : (PyNum.min a b <= a)%Q.
Proof.
  unfold PyNum.min. destruct (PyNum.Qltb b a) eqn:E; [| lra].
  apply Qltb_lt in E. lra.
Qed.

Lemma trunc_max_one (x : Q) : 1 <= PyNum.trunc (PyNum.max 1 x).
Proof.
  change 1 with (PyNum.trunc 1) at 1.
  apply trunc_mono; [lra | apply max_ge_l].
Qed.

Lemma inject_Z_nonneg (n : Z) : 0 <= n -> (0 <= inject_Z n)%Q.
Proof. intros H. change 0%Q with (inject_Z 0). rewrite <- Zle_Qle. exact H. Qed.

Lemma inject_Z_le (a b : Z) : a <= b -> (inject_Z a <= inject_Z b)%Q.
Proof. intros H. rewrite <- Zle_Qle. exact H. Qed.

Lemma well_formed_nil : well_formed_calls [].
Proof. repeat split; constructor. Qed.

Lemma well_formed_app ops ops' :
  well_formed_calls ops -> well_formed_calls ops' ->
  well_formed_calls (ops ++ ops').
Proof.
  intros (H1 & H2 & H3) (H1' & H2' & H3'). unfold well_formed_calls.
  rewrite !flat_map_app. repeat split; apply Forall_app; auto.
Qed.

Lemma well_formed_cons o ops :
  well_formed_calls [o] -> well_formed_calls ops -> well_formed_calls (o :: ops).
Proof. intros H H'. apply (well_formed_app [o] ops); assumption. Qed.

Lemma well_formed_box (o : Raster.pil_op) (x0 y0 x1 y1 : Q) :
  boxes o = [(x0, y0, x1, y1)] -> strokes o = [] -> font_sizes o = [] ->
  (x0 <= x1)%Q -> (y0 <= y1)%Q -> well_formed_calls [o].
Proof.
  intros Eb Es Ef Hx Hy. unfold well_formed_calls. simpl.
  rewrite Eb, Es, Ef. simpl. repeat split; repeat constructor; assumption.
Qed.

Lemma well_formed_cell_background x y s fill :
  0 <= s -> well_formed_calls [Raster.cell_background x y s fill].
Proof.
  intros Hs. unfold Raster.cell_background.
  eapply well_formed_box; try reflexivity; apply inject_Z_le; lia.
Qed.

Lemma well_formed_rotated_image size ops x y angle :
  well_formed_calls ops ->
  well_formed_calls [Raster.draw_rotated_image size ops x y angle].
Proof.
  intros (H1 & H2 & H3). unfold Raster.draw_rotated_image, well_formed_calls.
  destruct (angle =? 0); simpl; rewrite !app_nil_r; auto.
Qed.

Lemma well_formed_for_ {RS : RandomSource} {A} (l : list A)
    (body : A -> M (list Raster.pil_op)) :
  (forall a, In a l -> ensures (body a) well_formed_calls) ->
  ensures (for_ l body) well_formed_calls.
Proof.
  apply ensures_for_gen; [apply well_formed_nil | apply well_formed_app].
Qed.

(** A circle given by its centre and a radius that is not negative. *)
Lemma well_formed_circle (cx cy r : Q) fill :
  (0 <= r)%Q ->
  well_formed_calls [Raster.ellipse (cx - r) (cy - r) (cx + r) (cy + r) fill].
Proof.
  intros Hr. eapply well_formed_box; try reflexivity; lra.
Qed.

Lemma well_formed_line points fill width curve :
  1 <= width -> 2 <= Z.of_nat (List.length points) ->
  well_formed_calls [Raster.line points fill width curve].
Proof.
  intros Hw Hp. unfold well_formed_calls. simpl.
  repeat split; repeat constructor; assumption.
Qed.

Lemma well_formed_text ch size fill :
  10 <= size -> well_formed_calls [Raster.text ch size fill].
Proof.
  intros H. unfold well_formed_calls. simpl.
  repeat split; repeat constructor; assumption.
Qed.

Lemma well_formed_polygon points fill :
  well_formed_calls [Raster.polygon points fill].
Proof. unfold well_formed_calls. simpl. repeat split; constructor. Qed.

(** The calls of a list, one after the other. *)
Ltac wf_list wf_one :=
  repeat lazymatch goal with
  | |- well_formed_calls [] => apply well_formed_nil
  | |- well_formed_calls [_] => wf_one
  | |- well_formed_calls (_ :: _) => apply well_formed_cons; [wf_one |]
  | |- well_formed_calls _ => assumption
  end.

Section RasterGeometry.

Context {RS : RandomSource} {RSS : RandomSourceSpec RS} {ML : MathLib}.
Import Raster.

Variables (x y s : Z) (fg bg : rgba) (c : Q).
Hypothesis Hs : 0 <= s.
Hypothesis Hc0 : (0 <= c)%Q.
Hypothesis Hc1 : (c <= 1)%Q.

Ltac wf_basic :=
  first
    [ apply well_formed_cell_background; assumption
    | apply well_formed_polygon
    | apply well_formed_circle; qnorm; nra
    | eapply well_formed_box; [reflexivity | reflexivity | reflexivity | |];
      rewrite ?inject_Z_plus; qnorm; nra ].

Lemma geometry_draw_pil_circle :
  ensures (draw_pil_circle x y s fg bg c) well_formed_calls.
Proof.
  pose proof (inject_Z_nonneg s Hs) as Hq.
  unfold draw_pil_circle. cbv zeta.
  eapply ensures_bind; [apply ensures_uniform; lra |]. intros rf [Hrf0 Hrf1].
  eapply ensures_bind; [apply ensures_any |]. intros t _.
  destruct (PyNum.Qltb t (0.3 + c * 0.3)).
  - eapply ensures_bind; [apply ensures_uniform; lra |]. intros f [Hf0 Hf1].
    eapply ensures_bind; [apply ensures_any |]. intros t' _.
    destruct (PyNum.Qltb t' (c * 0.5)); apply ensures_ret; wf_list wf_basic.
  - apply ensures_ret. wf_list wf_basic.
Qed.

Lemma geometry_draw_pil_opposite_circles :
  ensures (draw_pil_opposite_circles x y s fg bg c) well_formed_calls.
Proof.
  pose proof (inject_Z_nonneg s Hs) as Hq.
  unfold draw_pil_opposite_circles. cbv zeta.
  eapply ensures_bind; [apply ensures_any |]. intros rf _.
  eapply ensures_bind; [apply ensures_uniform; lra |]. intros f [Hf0 Hf1].
  apply ensures_ret. wf_list wf_basic.
Qed.

Lemma geometry_draw_pil_cross :
  ensures (draw_pil_cross x y s fg bg c) well_formed_calls.
Proof.
  pose proof (inject_Z_nonneg s Hs) as Hq.
  unfold draw_pil_cross. cbv zeta.
  eapply ensures_bind; [apply ensures_any |]. intros t _.
  eapply ensures_bind; [apply ensures_uniform; lra |]. intros tf [Htf0 Htf1].
  assert (Ht : 0 <= PyNum.trunc (inject_Z s * tf)).
  { apply trunc_nonneg. nra. }
  eapply ensures_bind; [apply ensures_any |]. intros angle _.
  apply ensures_ret. wf_list wf_basic.
  apply well_formed_rotated_image.
  destruct (PyNum.Qltb t 0.5).
  - wf_list ltac:(eapply well_formed_box;
                  [reflexivity | reflexivity | reflexivity | |];
                  first [exact Hq | apply inject_Z_le; apply Z.div_le_mono; lia]).
  - wf_list ltac:(apply well_formed_line;
                  [destruct (Z.ltb_spec (PyNum.trunc
                     (inject_Z (PyNum.trunc (inject_Z s * tf)) * 0.8)) 1); lia
                  | simpl; lia]).
Qed.

Lemma geometry_draw_pil_half_square :
  ensures (draw_pil_half_square x y s fg bg c) well_formed_calls.
Proof.
  pose proof (inject_Z_nonneg s Hs) as Hq.
  unfold draw_pil_half_square. cbv zeta.
  eapply ensures_bind; [apply ensures_any |]. intros d _.
  apply ensures_ret. destruct d; wf_list wf_basic.
Qed.

Lemma geometry_draw_pil_diagonal_square :
  ensures (draw_pil_diagonal_square x y s fg bg c) well_formed_calls.
Proof.
  unfold draw_pil_diagonal_square. cbv zeta.
  eapply ensures_bind; [apply ensures_any |]. intros t _.
  eapply ensures_bind; [apply ensures_any |]. intros t' _.
  eapply ensures_bind; [apply ensures_any |]. intros pts _.
  apply ensures_ret. wf_list wf_basic.
Qed.

Lemma geometry_draw_pil_quarter_circle :
  ensures (draw_pil_quarter_circle x y s fg bg c) well_formed_calls.
Proof.
  pose proof (inject_Z_nonneg s Hs) as Hq.
  unfold draw_pil_quarter_circle. cbv zeta.
  eapply ensures_bind; [apply ensures_any |]. intros d _.
  apply ensures_ret. destruct d; wf_list wf_basic.
Qed.

Lemma geometry_dot cs i j :
  ensures (dot x y cs fg c i j) well_formed_calls.
Proof.
  unfold dot.
  eapply ensures_bind; [apply ensures_any |]. intros t _.
  destruct (PyNum.Qltb t (c * 0.2)); [apply ensures_ret; apply well_formed_nil |].
  eapply ensures_bind; [apply ensures_any |]. intros f _.
  eapply ensures_bind; [apply ensures_any |]. intros a _.
  eapply ensures_bind; [apply ensures_any |]. intros b _.
  cbv zeta. apply ensures_ret. apply well_formed_circle.
  destruct (PyNum.Qltb (cs * f / 2) 1) eqn:E; [lra |].
  apply Qltb_ge in E. lra.
Qed.

Lemma geometry_draw_pil_dots :
  ensures (draw_pil_dots x y s fg bg c) well_formed_calls.
Proof.
  unfold draw_pil_dots. cbv zeta.
  eapply ensures_bind; [apply ensures_any |]. intros n _.
  eapply ensures_bind; [apply ensures_any |]. intros cs _.
  eapply ensures_bind.
  { apply well_formed_for_. intros i _. apply well_formed_for_. intros j _.
    apply geometry_dot. }
  intros ds Hds. apply ensures_ret. wf_list wf_basic.
Qed.

Lemma geometry_draw_pil_letter_block :
  ensures (draw_pil_letter_block x y s fg bg c) well_formed_calls.
Proof.
  unfold draw_pil_letter_block. cbv zeta.
  eapply ensures_bind; [apply ensures_any |]. intros ch _.
  eapply ensures_bind; [apply ensures_any |]. intros f _.
  eapply ensures_bind; [apply ensures_any |]. intros angle _.
  apply ensures_ret. wf_list wf_basic.
  apply well_formed_rotated_image. apply well_formed_text. lia.
Qed.

Lemma geometry_concentric_loop n max_r idxs flag :
  ensures (concentric_loop x y s fg bg c n max_r idxs flag) well_formed_calls.
Proof.
  revert flag. induction idxs as [| i rest IH]; intros flag; simpl.
  - apply ensures_ret. apply well_formed_nil.
  - eapply ensures_bind; [apply ensures_any |]. intros ratio _.
    destruct (PyNum.Qltb (max_r * ratio) 1) eqn:E; [apply IH |].
    apply Qltb_ge in E.
    eapply ensures_bind; [apply ensures_any |]. intros k _.
    eapply ensures_bind; [apply ensures_any |]. intros a _.
    eapply ensures_bind; [apply ensures_any |]. intros b _.
    eapply ensures_bind; [apply IH |]. intros ops Hops.
    apply ensures_ret. apply well_formed_cons; [| exact Hops].
    apply well_formed_circle. lra.
Qed.

Lemma geometry_draw_pil_concentric_circles :
  ensures (draw_pil_concentric_circles x y s fg bg c) well_formed_calls.
Proof.
  unfold draw_pil_concentric_circles. cbv zeta.
  eapply ensures_bind; [apply ensures_any |]. intros n _.
  eapply ensures_bind; [apply ensures_any |]. intros f _.
  eapply ensures_bind; [apply geometry_concentric_loop |]. intros ops Hops.
  apply ensures_ret. wf_list wf_basic.
Qed.

Lemma geometry_stripe n h i :
  ensures (stripe x y s fg bg c n h i) well_formed_calls.
Proof.
  unfold stripe.
  apply ensures_bind with (mid := fun _ => True); [apply ensures_any |].
  intros use_fg _. cbv zeta.
  eapply ensures_bind; [apply ensures_any |]. intros k _.
  apply ensures_bind with (mid := fun _ => True); [apply ensures_any |].
  intros skip _. destruct skip; [apply ensures_ret; apply well_formed_nil |].
  eapply ensures_bind; [apply ensures_any |]. intros bt _.
  eapply ensures_bind; [apply ensures_any |]. intros f _.
  pose proof (trunc_max_one (bt * f)) as Ht.
  destruct h; apply ensures_ret;
    (eapply well_formed_box; [reflexivity | reflexivity | reflexivity | |]);
    apply inject_Z_le; lia.
Qed.

Lemma geometry_draw_pil_stripes :
  ensures (draw_pil_stripes x y s fg bg c) well_formed_calls.
Proof.
  unfold draw_pil_stripes. cbv zeta.
  eapply ensures_bind; [apply ensures_any |]. intros n _.
  eapply ensures_bind; [apply ensures_any |]. intros h _.
  eapply ensures_bind; [apply well_formed_for_; intros; apply geometry_stripe |].
  intros ops Hops. apply ensures_ret. wf_list wf_basic.
Qed.

Lemma geometry_draw_pil_rotated_shape :
  ensures (draw_pil_rotated_shape x y s fg bg c) well_formed_calls.
Proof.
  unfold draw_pil_rotated_shape. cbv zeta.
  eapply ensures_bind; [apply ensures_any |]. intros st _.
  eapply ensures_bind; [apply ensures_any |]. intros f _.
  apply ensures_bind with (mid := well_formed_calls).
  { destruct st.
    - eapply ensures_bind; [apply ensures_any |]. intros fw _.
      eapply ensures_bind; [apply ensures_any |]. intros fh _.
      apply ensures_ret.
      pose proof (max_ge_l 1 (PyNum.min (inject_Z s * f * fw) (inject_Z s * 0.9))).
      pose proof (max_ge_l 1 (PyNum.min (inject_Z s * f * fh) (inject_Z s * 0.9))).
      eapply well_formed_box; [reflexivity | reflexivity | reflexivity | |];
        qnorm; lra.
    - eapply ensures_bind; [apply ensures_any |]. intros fx _.
      eapply ensures_bind; [apply ensures_any |]. intros fy _.
      apply ensures_ret.
      pose proof (max_ge_l 1 (inject_Z s * f / 2 * fx)).
      pose proof (max_ge_l 1 (inject_Z s * f / 2 * fy)).
      eapply well_formed_box; [reflexivity | reflexivity | reflexivity | |]; lra.
    - eapply ensures_bind; [apply ensures_any |]. intros fx _.
      eapply ensures_bind; [apply ensures_any |]. intros fy _.
      apply ensures_ret.
      pose proof (max_ge_l 1 (inject_Z s * f / 2 * fx)).
      pose proof (max_ge_l 1 (inject_Z s * f / 2 * fy)).
      eapply well_formed_box; [reflexivity | reflexivity | reflexivity | |]; lra. }
  intros img Himg.
  eapply ensures_bind; [apply ensures_any |]. intros angle _.
  apply ensures_ret. wf_list wf_basic.
  apply well_formed_rotated_image. exact Himg.
Qed.

Lemma geometry_wavy_line n h sw i :
  1 <= sw -> ensures (wavy_line x y s fg c n h sw i) well_formed_calls.
Proof.
  intros Hsw. unfold wavy_line.
  eapply ensures_bind; [apply ensures_any |]. intros f _.
  eapply ensures_bind; [apply ensures_any |]. intros fr _.
  eapply ensures_bind; [apply ensures_any |]. intros ns _.
  eapply ensures_bind; [apply ensures_any |]. intros gap _.
  cbv zeta.
  eapply ensures_bind; [apply ensures_any |]. intros pts _.
  destruct (Z.ltb_spec 1 (Z.of_nat (List.length pts))); apply ensures_ret.
  - apply well_formed_line; lia.
  - apply well_formed_nil.
Qed.

Lemma geometry_draw_pil_wavy_lines :
  ensures (draw_pil_wavy_lines x y s fg bg c) well_formed_calls.
Proof.
  unfold draw_pil_wavy_lines. cbv zeta.
  eapply ensures_bind; [apply ensures_any |]. intros n _.
  eapply ensures_bind; [apply ensures_any |]. intros h _.
  eapply ensures_bind; [apply ensures_any |]. intros f _.
  eapply ensures_bind.
  { apply well_formed_for_. intros i _. apply geometry_wavy_line.
    apply trunc_max_one. }
  intros ops Hops. apply ensures_ret. wf_list wf_basic.
Qed.

Lemma geometry_style_function_map_pil (f : style) :
  ensures (style_function_map_pil f x y s fg bg c) well_formed_calls.
Proof.
  destruct f; simpl.
  - apply geometry_draw_pil_circle.
  - apply geometry_draw_pil_opposite_circles.
  - apply geometry_draw_pil_cross.
  - apply geometry_draw_pil_half_square.
  - apply geometry_draw_pil_diagonal_square.
  - apply geometry_draw_pil_quarter_circle.
  - apply geometry_draw_pil_dots.
  - apply geometry_draw_pil_letter_block.
  - apply geometry_draw_pil_concentric_circles.
  - apply geometry_draw_pil_stripes.
  - apply geometry_draw_pil_rotated_shape.
  - apply geometry_draw_pil_wavy_lines.
Qed.

End RasterGeometry.

(* ===================================================================== *)
(** * The calls of a whole raster image *)
(* ===================================================================== *)

Lemma hex_to_rgba_keeps_alpha (e : entry) (a : Z) (col : rgba) :
  hex_to_rgba e a = Ok col -> Raster.alpha_of col = a.
Proof.
  destruct col as [[[r g] b] x]. intros E.
  pose proof (hex_to_rgba_alpha e a a r g b x E) as E'.
  rewrite E in E'. injection E' as ->. reflexivity.
Qed.

Section RasterImage.

Context {RS : RandomSource} {RSS : RandomSourceSpec RS} {ML : MathLib}.
Import Raster.

Lemma ensures_pil_get_two_colors (p : palette) (c : Q) :
  ensures (pil_get_two_colors p c)
    (fun cs => alpha_of (background cs) = 255 /\
               (150 <= alpha_of (foreground cs) <= 240
                \/ alpha_of (foreground cs) = 255) /\
               ((c <= 0)%Q -> alpha_of (foreground cs) = 255)).
Proof.
  unfold pil_get_two_colors.
  eapply ensures_bind; [apply ensures_get_random_alpha |]. intros alpha [Ha Hz].
  destruct p as [| e p']; [apply ensures_ret; simpl; auto |].
  destruct (valid_colors (e :: p')) as [| first rest];
    [apply ensures_ret; simpl; auto |].
  eapply ensures_bind; [apply ensures_any |]. intros bg_hex _.
  eapply ensures_bind;
    [apply ensures_lift; intros col E; exact (hex_to_rgba_keeps_alpha _ _ _ E) |].
  intros background_rgba Hb. cbv zeta.
  eapply ensures_bind; [apply ensures_any |]. intros fg_hex _.
  eapply ensures_bind;
    [apply ensures_lift; intros col E; exact (hex_to_rgba_keeps_alpha _ _ _ E) |].
  intros foreground_rgba Hf. apply ensures_ret. simpl. rewrite Hb, Hf. auto.
Qed.

Lemma ensures_pil_create_background_colors (p : palette) :
  ensures (pil_create_background_colors p)
    (fun bg => alpha_of (bg_inner bg) = 255 /\ alpha_of (bg_outer bg) = 255).
Proof.
  unfold pil_create_background_colors.
  assert (Hfall : ensures (lift fallback_bg_colors)
                    (fun bg => alpha_of (bg_inner bg) = 255
                               /\ alpha_of (bg_outer bg) = 255)).
  { apply ensures_lift. intros bg [= <-]. split; reflexivity. }
  destruct (_ || _); [exact Hfall |].
  destruct (read_first_two p) as [[c1 c2] | e].
  - eapply ensures_bind; [apply ensures_any |]. intros [inner outer] _.
    destruct inner as [[? ?] ?], outer as [[? ?] ?].
    apply ensures_ret. split; reflexivity.
  - eapply ensures_bind; [apply ensures_any |]. intros _ _. exact Hfall.
Qed.

Section Assembly.

Variable P : list pil_op -> Prop.
Hypothesis P_nil : P [].
Hypothesis P_app : forall ops ops', P ops -> P ops' -> P (ops ++ ops').

Variable C : colors -> Prop.
Variable B : bg_colors -> Prop.

Variables (num_rows num_cols square_size palette_index : Z)
  (block_styles_str : string) (big_block_enabled : bool)
  (multiplier num_big_blocks : Z) (chaos_factor : Q)
  (seed_value : option Z) (fresh : gen).

Hypothesis H_bg : forall p, ensures (pil_create_background_colors p) B.
Hypothesis H_draw_bg :
  forall bg, B bg ->
    P (draw_background (num_cols * square_size) (num_rows * square_size) bg).
Hypothesis H_colors : forall p, ensures (pil_get_two_colors p chaos_factor) C.
Hypothesis H_cell :
  forall f x y cs, C cs ->
    ensures (style_function_map_pil f x y square_size
               (foreground cs) (background cs) chaos_factor) P.
Hypothesis H_block :
  forall f x y cs, C cs ->
    ensures (style_function_map_pil f x y (multiplier * square_size)
               (foreground cs) (background cs) chaos_factor) P.

Lemma assemble_generate_art_image_pil :
  ensures (generate_art_image_pil num_rows num_cols square_size palette_index
             block_styles_str big_block_enabled multiplier num_big_blocks
             chaos_factor seed_value fresh)
    (fun img => P (img_ops img) /\
                img_width img = num_cols * square_size /\
                img_height img = num_rows * square_size).
Proof.
  unfold generate_art_image_pil. cbv zeta.
  eapply ensures_bind; [apply ensures_any |]. intros _ _.
  eapply ensures_bind; [apply ensures_any |]. intros p _.
  eapply ensures_bind; [apply H_bg |]. intros bg Hbg.
  eapply ensures_bind.
  { unfold draw_grid. apply ensures_for_gen; [exact P_nil | exact P_app |].
    intros r_idx _. apply ensures_for_gen; [exact P_nil | exact P_app |].
    intros c_idx _.
    eapply ensures_bind; [apply H_colors |]. intros cs Hcs.
    eapply ensures_bind; [apply ensures_any |]. intros f _.
    apply H_cell. exact Hcs. }
  intros cells Hcells.
  eapply ensures_bind.
  { unfold draw_big_blocks. destruct big_block_enabled;
      [| apply ensures_ret; exact P_nil].
    cbv zeta. apply ensures_for_gen; [exact P_nil | exact P_app |].
    intros _ _. unfold draw_big_block.
    destruct (_ && _).
    - eapply ensures_bind; [apply ensures_any |]. intros [col row] _.
      eapply ensures_bind; [apply H_colors |]. intros cs Hcs.
      eapply ensures_bind; [apply ensures_any |]. intros f _.
      apply H_block. exact Hcs.
    - eapply ensures_bind; [apply ensures_any |]. intros _ _.
      apply ensures_ret. exact P_nil. }
  intros blocks Hblocks. apply ensures_ret.
  cbn [img_ops img_width img_height].
  split; [| split; reflexivity].
  apply P_app; [apply H_draw_bg; exact Hbg |]. apply P_app; assumption.
Qed.

End Assembly.

Lemma fill_derived_rgb fg bg c fill :
  fill_derived fg bg c fill ->
  rgb_of fill = rgb_of fg \/ rgb_of fill = rgb_of bg.
Proof.
  intros (base & a & Hbase & -> & _).
  destruct Hbase as [-> | ->]; [left | right];
    match goal with |- context [with_alpha ?b _] =>
      destruct b as [[[? ?] ?] ?] end; reflexivity.
Qed.

Lemma alpha_of_with_alpha (base : rgba) (a : Z) : alpha_of (with_alpha base a) = a.
Proof. destruct base as [[[? ?] ?] ?]. reflexivity. Qed.

Lemma fill_derived_alpha fg bg c fill :
  fill_derived fg bg c fill ->
  Z.min 150 (Z.min (alpha_of fg) (alpha_of bg)) <= alpha_of fill
  <= Z.max (alpha_of fg) (alpha_of bg).
Proof.
  intros (base & a & Hbase & -> & Ha). rewrite alpha_of_with_alpha.
  destruct Ha as [-> | [-> | (k & Hk & _ & ->)]]; [lia | lia |].
  destruct Hbase as [-> | ->]; lia.
Qed.

Lemma fill_derived_opaque fg bg c fill :
  alpha_of fg = 255 -> alpha_of bg = 255 -> (c <= 0)%Q ->
  fill_derived fg bg c fill -> alpha_of fill = 255.
Proof.
  intros Hfg Hbg Hc (base & a & Hbase & -> & Ha). rewrite alpha_of_with_alpha.
  destruct Ha as [-> | [-> | (k & _ & Hk & ->)]]; [assumption | assumption |].
  rewrite (Hk Hc). destruct Hbase as [-> | ->]; lia.
Qed.

(** X6.  Whatever the style, the generator of a cell first paints the
    whole cell, from [(x, y)] to [(x + size, y + size)], with the
    background colour, and every call after it, those drawn on a pasted
    image included, is filled with the RGB of the foreground or of the
    background it was given and no other colour; the alpha of a fill
    never exceeds that of the two colours and never drops below 150
    unless theirs does. *)
Theorem cell_painted_with_its_two_colours (f : style) (x y square_size : Z)
    (foreground_rgba background_rgba : rgba) (chaos_factor : Q) :
  (0 <= chaos_factor)%Q ->
  returns (style_function_map_pil f x y square_size foreground_rgba
             background_rgba chaos_factor)
    (fun ops =>
       (exists rest,
          ops = rectangle (inject_Z x) (inject_Z y)
                  (inject_Z (x + square_size)) (inject_Z (y + square_size))
                  background_rgba :: rest) /\
       Forall (fun fill =>
                 (rgb_of fill = rgb_of foreground_rgba
                  \/ rgb_of fill = rgb_of background_rgba) /\
                 Z.min 150 (Z.min (alpha_of foreground_rgba)
                                  (alpha_of background_rgba))
                 <= alpha_of fill
                 <= Z.max (alpha_of foreground_rgba) (alpha_of background_rgba))
              (flat_map fills ops)).
Proof.
  intros Hc.
  eapply returns_weaken;
    [apply returns_ensures;
     [apply returns_style_function_map_pil; exact Hc
     | apply painted_style_function_map_pil] |].
  intros ops [_ (Hhead & Hfills & _)]. split; [exact Hhead |].
  eapply Forall_impl; [| exact Hfills]. intros fill Hfill.
  split; [eapply fill_derived_rgb | eapply fill_derived_alpha]; exact Hfill.
Qed.

Lemma alpha_bounded_app c ops ops' :
  alpha_bounded c ops -> alpha_bounded c ops' -> alpha_bounded c (ops ++ ops').
Proof.
  intros [H1 H2] [H1' H2']. unfold alpha_bounded.
  rewrite !flat_map_app. split; apply Forall_app; auto.
Qed.

Lemma alpha_bounded_cell c fg bg x y s ops :
  alpha_of bg = 255 ->
  (150 <= alpha_of fg <= 240 \/ alpha_of fg = 255) ->
  ((c <= 0)%Q -> alpha_of fg = 255) ->
  cell_painted x y s fg bg c ops -> alpha_bounded c ops.
Proof.
  intros Hbg Hfg Hz (_ & Hfills & Hrot). split; [| exact Hrot].
  eapply Forall_impl; [| exact Hfills]. intros fill Hfill. split.
  - pose proof (fill_derived_alpha _ _ _ _ Hfill). lia.
  - intros Hc. eapply fill_derived_opaque; [apply Hz; exact Hc | | |]; eauto.
Qed.

Lemma alpha_bounded_background c w h bg :
  alpha_of (bg_inner bg) = 255 /\ alpha_of (bg_outer bg) = 255 ->
  alpha_bounded c (draw_background w h bg).
Proof.
  intros [Hi Ho]. unfold draw_background, alpha_bounded. cbv zeta.
  destruct (_ && _); simpl; split; repeat constructor; lia.
Qed.

Lemma well_formed_background w h bg :
  0 <= w -> 0 <= h -> well_formed_calls (draw_background w h bg).
Proof.
  intros Hw Hh. unfold draw_background. cbv zeta.
  apply well_formed_cons.
  - eapply well_formed_box; try reflexivity; apply inject_Z_nonneg; assumption.
  - destruct (Z.ltb_spec (2 * Z.max 10 (PyNum.trunc
                 (inject_Z (Z.min w h) * 0.1))) w);
      destruct (Z.ltb_spec (2 * Z.max 10 (PyNum.trunc
                 (inject_Z (Z.min w h) * 0.1))) h); simpl;
      try apply well_formed_nil.
    eapply well_formed_box; try reflexivity; apply inject_Z_le; lia.
Qed.

(** X7.  For a grid, a cell size and a big-block multiplier that are not
    negative and a chaos factor from 0 to 1, [generate_art_image_pil]
    returns an image of [num_cols * square_size] by
    [num_rows * square_size] pixels, and every call it makes on Pillow
    has well-formed arguments: the box of each rectangle, ellipse and pie
    slice has its second corner right of and below the first, also on
    the images that are pasted; each line is at least one pixel wide and
    runs through at least two points; each font has size 10 or more. *)
Theorem pillow_calls_well_formed
    (num_rows num_cols square_size palette_index : Z)
    (block_styles_str : string) (big_block_enabled : bool)
    (multiplier num_big_blocks : Z) (chaos_factor : Q)
    (seed_value : option Z) (fresh g : gen) :
  0 <= num_rows -> 0 <= num_cols -> 0 <= square_size -> 0 <= multiplier ->
  (0 <= chaos_factor)%Q -> (chaos_factor <= 1)%Q ->
  exists img g' out,
    generate_art_image_pil num_rows num_cols square_size palette_index
      block_styles_str big_block_enabled multiplier num_big_blocks
      chaos_factor seed_value fresh g = Ok (img, g', out) /\
    img_width img = num_cols * square_size /\
    img_height img = num_rows * square_size /\
    well_formed_calls (img_ops img).
Proof.
  intros Hrows Hcols Hs Hm Hc0 Hc1.
  destruct (succeeds_generate_art_image_pil num_rows num_cols square_size
              palette_index block_styles_str big_block_enabled multiplier
              num_big_blocks chaos_factor seed_value fresh Hc0 g)
    as (img & g' & out & E).
  exists img, g', out. split; [exact E |].
  pose proof (assemble_generate_art_image_pil well_formed_calls
                well_formed_nil well_formed_app (fun _ => True) (fun _ => True)
                num_rows num_cols square_size palette_index block_styles_str
                big_block_enabled multiplier num_big_blocks chaos_factor
                seed_value fresh) as H.
  assert (Hw0 : 0 <= num_cols * square_size) by nia.
  assert (Hh0 : 0 <= num_rows * square_size) by nia.
  assert (Hb0 : 0 <= multiplier * square_size) by nia.
  destruct (H (fun p => ensures_any _)
              (fun bg _ => well_formed_background _ _ bg Hw0 Hh0)
              (fun p => ensures_any _)
              (fun f x y cs _ =>
                 geometry_style_function_map_pil x y square_size _ _
                   chaos_factor Hs Hc0 Hc1 f)
              (fun f x y cs _ =>
                 geometry_style_function_map_pil x y (multiplier * square_size)
                   _ _ chaos_factor Hb0 Hc0 Hc1 f)
              g img g' out E) as (Hops & Hw & Hh).
  auto.
Qed.

(** X8.  In the image [generate_art_image_pil] returns every fill,
    background included, has an alpha from 150 to 255, and every rotated
    paste turns by one of the listed angles other than 0.  With a chaos
    factor of 0 every fill is fully opaque and nothing is rotated. *)
Theorem image_alpha_bounds
    (num_rows num_cols square_size palette_index : Z)
    (block_styles_str : string) (big_block_enabled : bool)
    (multiplier num_big_blocks : Z) (chaos_factor : Q)
    (seed_value : option Z) (fresh g : gen) :
  (0 <= chaos_factor)%Q ->
  exists img g' out,
    generate_art_image_pil num_rows num_cols square_size palette_index
      block_styles_str big_block_enabled multiplier num_big_blocks
      chaos_factor seed_value fresh g = Ok (img, g', out) /\
    Forall (fun fill => 150 <= alpha_of fill <= 255)
           (flat_map fills (img_ops img)) /\
    Forall (fun angle => In angle rotation_angles /\ angle <> 0)
           (flat_map rotations (img_ops img)) /\
    ((chaos_factor == 0)%Q ->
     Forall (fun fill => alpha_of fill = 255) (flat_map fills (img_ops img)) /\
     flat_map rotations (img_ops img) = []).
Proof.
  intros Hc0.
  destruct (succeeds_generate_art_image_pil num_rows num_cols square_size
              palette_index block_styles_str big_block_enabled multiplier
              num_big_blocks chaos_factor seed_value fresh Hc0 g)
    as (img & g' & out & E).
  exists img, g', out. split; [exact E |].
  pose proof (assemble_generate_art_image_pil (alpha_bounded chaos_factor)
                ltac:(split; constructor) (alpha_bounded_app chaos_factor)
                (fun cs => alpha_of (background cs) = 255 /\
                           (150 <= alpha_of (foreground cs) <= 240
                            \/ alpha_of (foreground cs) = 255) /\
                           ((chaos_factor <= 0)%Q ->
                            alpha_of (foreground cs) = 255))
                (fun bg => alpha_of (bg_inner bg) = 255
                           /\ alpha_of (bg_outer bg) = 255)
                num_rows num_cols square_size palette_index block_styles_str
                big_block_enabled multiplier num_big_blocks chaos_factor
                seed_value fresh) as H.
  assert (Hcell : forall size f x y cs,
            alpha_of (background cs) = 255 /\
            (150 <= alpha_of (foreground cs) <= 240
             \/ alpha_of (foreground cs) = 255) /\
            ((chaos_factor <= 0)%Q -> alpha_of (foreground cs) = 255) ->
            ensures (style_function_map_pil f x y size (foreground cs)
                       (background cs) chaos_factor)
                    (alpha_bounded chaos_factor)).
  { intros size f x y cs (Hb & Hf & Hz).
    eapply ensures_weaken; [apply painted_style_function_map_pil |].
    intros ops Hops. eapply alpha_bounded_cell; eauto. }
  destruct (H ensures_pil_create_background_colors
              (fun bg Hbg => alpha_bounded_background _ _ _ bg Hbg)
              (fun p => ensures_pil_get_two_colors p chaos_factor)
              (Hcell square_size) (Hcell (multiplier * square_size))
              g img g' out E) as ([Hfills Hrot] & _ & _).
  split; [eapply Forall_impl; [| exact Hfills]; intros fill [Hf _]; exact Hf |].
  split; [eapply Forall_impl; [| exact Hrot];
          intros angle (Hin & Hne & _); auto |].
  intros Hzero. split.
  - eapply Forall_impl; [| exact Hfills]. intros fill [_ Hf]. apply Hf. lra.
  - destruct (flat_map rotations (img_ops img)) as [| angle rest];
      [reflexivity |].
    inversion Hrot as [| ? ? (_ & _ & Hpos) _]. lra.
Qed.

End RasterImage.

Lemma cell_painted_with_its_two_colours_witness :
  (0 <= 0.3)%Q /\
  returns (RS := Lcg.source)
    (Raster.style_function_map_pil (ML := Lcg.math) stripes 100 200 80
       (255, 107, 107, 200) (7, 59, 76, 255) 0.3)
    (fun ops =>
       (exists rest,
          ops = Raster.rectangle (inject_Z 100) (inject_Z 200)
                  (inject_Z (100 + 80)) (inject_Z (200 + 80))
                  (7, 59, 76, 255) :: rest) /\
       Forall (fun fill =>
                 (rgb_of fill = rgb_of (255, 107, 107, 200)
                  \/ rgb_of fill = rgb_of (7, 59, 76, 255)) /\
                 Z.min 150 (Z.min (Raster.alpha_of (255, 107, 107, 200))
                                  (Raster.alpha_of (7, 59, 76, 255)))
                 <= Raster.alpha_of fill
                 <= Z.max (Raster.alpha_of (255, 107, 107, 200))
                          (Raster.alpha_of (7, 59, 76, 255)))
              (flat_map fills ops)).
Proof.
  assert (H : (0 <= 0.3)%Q) by (unfold Qle; simpl; lia).
  split; [exact H |].
  apply (cell_painted_with_its_two_colours (RS := Lcg.source)
           (RSS := lcg_source_spec) (ML := Lcg.math) stripes 100 200 80
           (255, 107, 107, 200) (7, 59, 76, 255) 0.3 H).
Defined.

Lemma pillow_calls_well_formed_witness :
  exists img g' out,
    Raster.generate_art_image_pil (RS := Lcg.source) (ML := Lcg.math)
      4 4 80 0 "circle,cross,dots,stripes" true 2 1 0.2 (Some 42)
      (Lcg.state 7) (Lcg.state 0) = Ok (img, g', out) /\
    Raster.img_width img = 4 * 80 /\
    Raster.img_height img = 4 * 80 /\
    well_formed_calls (Raster.img_ops img).
Proof.
  apply (pillow_calls_well_formed (RS := Lcg.source) (RSS := lcg_source_spec)
           (ML := Lcg.math) 4 4 80 0 "circle,cross,dots,stripes" true 2 1 0.2
           (Some 42) (Lcg.state 7) (Lcg.state 0));
    first [lia | unfold Qle; simpl; lia].
Defined.

Lemma image_alpha_bounds_witness :
  exists img g' out,
    Raster.generate_art_image_pil (RS := Lcg.source) (ML := Lcg.math)
      4 4 80 0 "circle,cross,dots,stripes" true 2 1 0 (Some 42)
      (Lcg.state 7) (Lcg.state 0) = Ok (img, g', out) /\
    Forall (fun fill => 150 <= Raster.alpha_of fill <= 255)
           (flat_map fills (Raster.img_ops img)) /\
    Forall (fun angle => In angle rotation_angles /\ angle <> 0)
           (flat_map rotations (Raster.img_ops img)) /\
    ((0 == 0)%Q ->
     Forall (fun fill => Raster.alpha_of fill = 255)
            (flat_map fills (Raster.img_ops img)) /\
     flat_map rotations (Raster.img_ops img) = []).
Proof.
  apply (image_alpha_bounds (RS := Lcg.source) (RSS := lcg_source_spec)
           (ML := Lcg.math) 4 4 80 0 "circle,cross,dots,stripes" true 2 1 0
           (Some 42) (Lcg.state 7) (Lcg.state 0)).
  unfold Qle; simpl; lia.
Defined.

(* ===================================================================== *)
(** * What a vector cell is drawn with *)
(* ===================================================================== *)

Lemma drawn_elements_nil x y s fg bg c : drawn_elements x y s fg bg c [].
Proof. repeat split; constructor. Qed.

Lemma drawn_elements_app x y s fg bg c els els' :
  drawn_elements x y s fg bg c els -> drawn_elements x y s fg bg c els' ->
  drawn_elements x y s fg bg c (els ++ els').
Proof.
  intros (H1 & H2 & H3) (H1' & H2' & H3'). unfold drawn_elements.
  rewrite !flat_map_app. repeat split; apply Forall_app; auto.
Qed.

Lemma drawn_elements_cons x y s fg bg c e els :
  drawn_elements x y s fg bg c [e] -> drawn_elements x y s fg bg c els ->
  drawn_elements x y s fg bg c (e :: els).
Proof. intros H H'. apply (drawn_elements_app x y s fg bg c [e] els); assumption. Qed.

Lemma cell_drawn_of x y s fg bg c rest :
  drawn_elements x y s fg bg c rest ->
  cell_drawn x y s fg bg c (Vector.cell_background x y s bg :: rest).
Proof.
  intros H. split; [eexists; reflexivity |].
  apply drawn_elements_cons; [| exact H].
  unfold drawn_elements. simpl.
  split; [repeat constructor; right; reflexivity | split; constructor].
Qed.

(** A group: its own attributes and what its children are made of. *)
Lemma drawn_group x y s fg bg c id (transform : option Vector.rotation)
    (opacity : option Q) children :
  Forall (transform_drawn c (inject_Z x + inject_Z s / 2)
                            (inject_Z y + inject_Z s / 2))
         (attribute transform) ->
  Forall (opacity_drawn c) (attribute opacity) ->
  drawn_elements x y s fg bg c children ->
  drawn_elements x y s fg bg c [Vector.Group id transform opacity children].
Proof.
  intros Ht Ho (H1 & H2 & H3). unfold drawn_elements. simpl.
  rewrite !app_nil_r. repeat split; try apply Forall_app; auto.
Qed.

Section VectorDrawn.

Context {RS : RandomSource} {RSS : RandomSourceSpec RS} {ML : MathLib}.
Import Vector.

Lemma opacity_drawn_ensured (c : Q) :
  ensures (get_random_opacity_str c) (opacity_drawn c).
Proof. apply ensures_get_random_opacity_str. Qed.

Lemma transform_drawn_ensured (c k cx cy : Q) :
  ((0 < k)%Q -> (0 < c)%Q) ->
  ensures (get_random_rotation_transform k cx cy) (transform_drawn c cx cy).
Proof.
  intros Hk. eapply ensures_weaken;
    [apply ensures_get_random_rotation_transform |].
  intros t (H1 & H2 & H3 & H4). repeat split; auto.
Qed.

Ltac drawn_prim c :=
  first
    [ apply (opacity_drawn_ensured c)
    | apply (transform_drawn_ensured c); intros; qnorm; lra
    | apply ensures_any ].

Ltac drawn_walk c :=
  repeat lazymatch goal with
  | |- ensures (bind (if ?b then _ else _) _) _ => destruct b
  | |- ensures (bind (match ?x with _ => _ end) _) _ => destruct x
  | |- ensures (bind _ _) _ =>
      eapply ensures_bind; [drawn_prim c | cbv beta; intros]
  | |- ensures (if ?b then _ else _) _ => destruct b
  | |- ensures (match ?x with _ => _ end) _ => destruct x
  | |- ensures (let _ := _ in _) _ => cbv zeta
  | |- ensures (ret _) _ => apply ensures_ret
  end.

Ltac drawn_one :=
  first
    [ apply drawn_group;
      [ simpl; repeat first [apply Forall_nil | apply Forall_cons]; assumption
      | simpl; repeat first [apply Forall_nil | apply Forall_cons]; assumption
      | ]
    | lazymatch goal with
      | |- drawn_elements _ _ _ _ _ _ [match ?d with _ => _ end] => destruct d
      end
    | unfold drawn_elements; simpl;
      (split; [| split]);
      repeat first [apply Forall_nil | apply Forall_cons];
      first [assumption | left; reflexivity | right; reflexivity] ].

Ltac drawn_solve :=
  repeat lazymatch goal with
  | |- cell_drawn _ _ _ _ _ _ (_ :: _) => apply cell_drawn_of
  | |- drawn_elements _ _ _ _ _ _ [] => apply drawn_elements_nil
  | |- drawn_elements _ _ _ _ _ _ [_] => drawn_one
  | |- drawn_elements _ _ _ _ _ _ (_ :: _) => apply drawn_elements_cons
  | |- drawn_elements _ _ _ _ _ _ (if ?b then _ else _) => destruct b
  | |- drawn_elements _ _ _ _ _ _ (let _ := _ in _) => cbv zeta
  | |- drawn_elements _ _ _ _ _ _ _ => assumption
  end.

Lemma drawn_draw_circle x y s fg bg c :
  ensures (draw_circle x y s fg bg c) (cell_drawn x y s fg bg c).
Proof. unfold draw_circle. drawn_walk c; drawn_solve. Qed.

Lemma drawn_draw_opposite_circles x y s fg bg c :
  ensures (draw_opposite_circles x y s fg bg c) (cell_drawn x y s fg bg c).
Proof. unfold draw_opposite_circles. drawn_walk c; drawn_solve. Qed.

Lemma drawn_draw_cross x y s fg bg c :
  ensures (draw_cross x y s fg bg c) (cell_drawn x y s fg bg c).
Proof. unfold draw_cross. drawn_walk c; drawn_solve. Qed.

Lemma drawn_draw_half_square x y s fg bg c :
  ensures (draw_half_square x y s fg bg c) (cell_drawn x y s fg bg c).
Proof. unfold draw_half_square. drawn_walk c; drawn_solve. Qed.

Lemma drawn_draw_diagonal_square x y s fg bg c :
  ensures (draw_diagonal_square x y s fg bg c) (cell_drawn x y s fg bg c).
Proof. unfold draw_diagonal_square. drawn_walk c; drawn_solve. Qed.

Lemma drawn_draw_quarter_circle x y s fg bg c :
  ensures (draw_quarter_circle x y s fg bg c) (cell_drawn x y s fg bg c).
Proof. unfold draw_quarter_circle. drawn_walk c; drawn_solve. Qed.

Lemma drawn_draw_letter_block x y s fg bg c :
  ensures (draw_letter_block x y s fg bg c) (cell_drawn x y s fg bg c).
Proof. unfold draw_letter_block. drawn_walk c; drawn_solve. Qed.

Lemma drawn_for_ {A} (l : list A) (body : A -> M (list svg_element))
    x y s fg bg c :
  (forall a, In a l -> ensures (body a) (drawn_elements x y s fg bg c)) ->
  ensures (for_ l body) (drawn_elements x y s fg bg c).
Proof.
  apply ensures_for_gen; [apply drawn_elements_nil | apply drawn_elements_app].
Qed.

Lemma drawn_dot x y s cs fg bg c i j :
  ensures (dot x y cs fg c i j) (drawn_elements x y s fg bg c).
Proof. unfold dot. drawn_walk c; drawn_solve. Qed.

Lemma drawn_draw_dots x y s fg bg c :
  ensures (draw_dots x y s fg bg c) (cell_drawn x y s fg bg c).
Proof.
  unfold draw_dots. cbv zeta.
  eapply ensures_bind; [apply ensures_any |]. intros n _.
  eapply ensures_bind; [apply ensures_any |]. intros cs _.
  eapply ensures_bind.
  { apply drawn_for_. intros i _. apply drawn_for_. intros j _.
    apply drawn_dot. }
  intros ds Hds. apply ensures_ret. apply cell_drawn_of. exact Hds.
Qed.

Lemma drawn_concentric_loop x y s fg bg c n max_r idxs flag :
  ensures (concentric_loop x y s fg bg c n max_r idxs flag)
    (drawn_elements x y s fg bg c).
Proof.
  revert flag. induction idxs as [| i rest IH]; intros flag; simpl.
  - apply ensures_ret. apply drawn_elements_nil.
  - eapply ensures_bind; [apply ensures_any |]. intros ratio _.
    destruct (PyNum.Qltb (max_r * ratio) 1); [apply IH |].
    eapply ensures_bind; [apply ensures_any |]. intros a _.
    eapply ensures_bind; [apply ensures_any |]. intros b _.
    eapply ensures_bind; [apply (opacity_drawn_ensured c) |]. intros o Ho.
    eapply ensures_bind; [apply IH |]. intros ops Hops.
    apply ensures_ret. apply drawn_elements_cons; [| exact Hops].
    unfold drawn_elements. simpl.
    split; [| split]; repeat first [apply Forall_nil | apply Forall_cons];
      [destruct flag; auto | exact Ho].
Qed.

Lemma drawn_draw_concentric_circles x y s fg bg c :
  ensures (draw_concentric_circles x y s fg bg c) (cell_drawn x y s fg bg c).
Proof.
  unfold draw_concentric_circles. cbv zeta.
  eapply ensures_bind; [apply ensures_any |]. intros n _.
  eapply ensures_bind; [apply ensures_any |]. intros f _.
  eapply ensures_bind; [apply drawn_concentric_loop |]. intros ops Hops.
  apply ensures_ret. apply cell_drawn_of. exact Hops.
Qed.

Lemma drawn_stripe x y s fg bg c n h i :
  ensures (stripe x y s fg bg c n h i) (drawn_elements x y s fg bg c).
Proof.
  unfold stripe.
  apply ensures_bind with (mid := fun _ => True); [apply ensures_any |].
  intros use_fg _. cbv zeta.
  apply ensures_bind with (mid := fun _ => True); [apply ensures_any |].
  intros skip _. destruct skip; [apply ensures_ret; apply drawn_elements_nil |].
  eapply ensures_bind; [apply ensures_any |]. intros bt _.
  eapply ensures_bind; [apply ensures_any |]. intros f _.
  destruct h; apply ensures_ret; unfold drawn_elements; simpl;
    (split; [| split]); repeat first [apply Forall_nil | apply Forall_cons];
    destruct use_fg; auto.
Qed.

Lemma drawn_draw_stripes x y s fg bg c :
  ensures (draw_stripes x y s fg bg c) (cell_drawn x y s fg bg c).
Proof.
  unfold draw_stripes. cbv zeta.
  eapply ensures_bind; [apply ensures_any |]. intros n _.
  eapply ensures_bind; [apply ensures_any |]. intros h _.
  eapply ensures_bind; [apply (opacity_drawn_ensured c) |]. intros o Ho.
  eapply ensures_bind; [apply drawn_for_; intros; apply drawn_stripe |].
  intros ops Hops. apply ensures_ret. apply cell_drawn_of.
  apply drawn_group;
    [apply Forall_nil | apply Forall_cons; [exact Ho | apply Forall_nil]
    | exact Hops].
Qed.

Lemma drawn_draw_rotated_shape x y s fg bg c :
  ensures (draw_rotated_shape x y s fg bg c) (cell_drawn x y s fg bg c).
Proof.
  unfold draw_rotated_shape. cbv zeta.
  eapply ensures_bind; [apply ensures_any |]. intros st _.
  eapply ensures_bind; [apply ensures_any |]. intros f _.
  eapply ensures_bind;
    [apply (transform_drawn_ensured c); intros; qnorm; lra |]. intros t Ht.
  eapply ensures_bind; [apply (opacity_drawn_ensured c) |]. intros o Ho.
  apply ensures_bind with (mid := fun e => drawn_elements x y s fg bg c [e]).
  { destruct st; drawn_walk c; unfold drawn_elements; simpl;
      (split; [| split]); repeat first [apply Forall_nil | apply Forall_cons];
      auto. }
  intros e He. apply ensures_ret. apply cell_drawn_of.
  apply drawn_group;
    [apply Forall_cons; [exact Ht | apply Forall_nil]
    | apply Forall_cons; [exact Ho | apply Forall_nil]
    | exact He].
Qed.

Lemma drawn_wavy_line x y s fg bg c n h sw i :
  ensures (wavy_line x y s fg c n h sw i) (drawn_elements x y s fg bg c).
Proof. unfold wavy_line. drawn_walk c; drawn_solve. Qed.

Lemma drawn_draw_wavy_lines x y s fg bg c :
  ensures (draw_wavy_lines x y s fg bg c) (cell_drawn x y s fg bg c).
Proof.
  unfold draw_wavy_lines. cbv zeta.
  eapply ensures_bind; [apply ensures_any |]. intros n _.
  eapply ensures_bind; [apply ensures_any |]. intros h _.
  eapply ensures_bind; [apply ensures_any |]. intros f _.
  eapply ensures_bind; [apply drawn_for_; intros; apply drawn_wavy_line |].
  intros ops Hops. apply ensures_ret. apply cell_drawn_of. exact Hops.
Qed.

Lemma drawn_style_function_map f x y s fg bg c :
  ensures (style_function_map f x y s fg bg c) (cell_drawn x y s fg bg c).
Proof.
  destruct f; simpl.
  - apply drawn_draw_circle.
  - apply drawn_draw_opposite_circles.
  - apply drawn_draw_cross.
  - apply drawn_draw_half_square.
  - apply drawn_draw_diagonal_square.
  - apply drawn_draw_quarter_circle.
  - apply drawn_draw_dots.
  - apply drawn_draw_letter_block.
  - apply drawn_draw_concentric_circles.
  - apply drawn_draw_stripes.
  - apply drawn_draw_rotated_shape.
  - apply drawn_draw_wavy_lines.
Qed.

End VectorDrawn.

(* ===================================================================== *)
(** * The sizes of the vector elements *)
(* ===================================================================== *)

Lemma sizes_nil : sizes_not_negative [].
Proof. constructor. Qed.

Lemma sizes_app els els' :
  sizes_not_negative els -> sizes_not_negative els' ->
  sizes_not_negative (els ++ els').
Proof.
  unfold sizes_not_negative. intros H H'. rewrite flat_map_app.
  apply Forall_app. split; assumption.
Qed.

Lemma sizes_cons e els :
  sizes_not_negative [e] -> sizes_not_negative els ->
  sizes_not_negative (e :: els).
Proof. intros H H'. apply (sizes_app [e] els); assumption. Qed.

Lemma sizes_group id transform opacity children :
  sizes_not_negative children ->
  sizes_not_negative [Vector.Group id transform opacity children].
Proof. unfold sizes_not_negative. simpl. rewrite app_nil_r. auto. Qed.

Lemma sizes_polygon points fill : sizes_not_negative [Vector.Polygon points fill].
Proof. constructor. Qed.

Lemma sizes_for_ {RS : RandomSource} {A} (l : list A)
    (body : A -> M (list Vector.svg_element)) :
  (forall a, In a l -> ensures (body a) sizes_not_negative) ->
  ensures (for_ l body) sizes_not_negative.
Proof. apply ensures_for_gen; [apply sizes_nil | apply sizes_app]. Qed.

Ltac sizes_list one :=
  repeat lazymatch goal with
  | |- sizes_not_negative [] => apply sizes_nil
  | |- sizes_not_negative [Vector.Group _ _ _ _] => apply sizes_group
  | |- sizes_not_negative [Vector.Polygon _ _] => apply sizes_polygon
  | |- sizes_not_negative [_] =>
      first
        [ assumption
        | unfold sizes_not_negative, Vector.cell_background; simpl;
          repeat first [apply Forall_nil | apply Forall_cons]; one ]
  | |- sizes_not_negative (_ :: _) => apply sizes_cons
  | |- sizes_not_negative (if ?b then _ else _) => destruct b
  | |- sizes_not_negative (match ?d with _ => _ end) => destruct d
  | |- sizes_not_negative _ => assumption
  end.

Section VectorSizes.

Context {RS : RandomSource} {RSS : RandomSourceSpec RS} {ML : MathLib}.
Import Vector.

Variables (x y s : Z) (fg bg : string) (c : Q).
Hypothesis Hs : 0 <= s.
Hypothesis Hc0 : (0 <= c)%Q.
Hypothesis Hc1 : (c <= 1)%Q.

Ltac arith :=
  pose proof (inject_Z_nonneg s Hs);
  repeat match goal with
  | |- context [PyNum.max ?a ?b] =>
      lazymatch goal with
      | _ : (a <= PyNum.max a b)%Q |- _ => fail
      | _ => pose proof (max_ge_l a b)
      end
  end;
  qnorm; first [lra | nra].

Lemma sizes_draw_circle :
  ensures (draw_circle x y s fg bg c) sizes_not_negative.
Proof.
  unfold draw_circle. cbv zeta.
  eapply ensures_bind; [apply ensures_uniform; lra |]. intros f [Hf0 Hf1].
  eapply ensures_bind; [apply ensures_any |]. intros o _.
  eapply ensures_bind; [apply ensures_any |]. intros t _.
  destruct (PyNum.Qltb t (0.3 + c * 0.3)).
  - eapply ensures_bind; [apply ensures_uniform; lra |]. intros f' [Hf0' Hf1'].
    assert (Hin : (0 <= inject_Z s / 2 * f')%Q) by arith.
    eapply ensures_bind; [apply ensures_any |]. intros o1 _.
    eapply ensures_bind; [apply ensures_any |]. intros t' _.
    destruct (PyNum.Qltb t' (c * 0.5)).
    + eapply ensures_bind; [apply ensures_any |]. intros o2 _.
      apply ensures_ret. sizes_list ltac:(first [exact Hin | arith]).
    + apply ensures_ret. sizes_list ltac:(first [exact Hin | arith]).
  - apply ensures_ret. sizes_list arith.
Qed.

Lemma sizes_draw_opposite_circles :
  ensures (draw_opposite_circles x y s fg bg c) sizes_not_negative.
Proof.
  unfold draw_opposite_circles. cbv zeta.
  eapply ensures_bind; [apply ensures_uniform; lra |]. intros f [Hf0 Hf1].
  eapply ensures_bind; [apply ensures_any |]. intros o1 _.
  eapply ensures_bind; [apply ensures_any |]. intros o2 _.
  apply ensures_ret. sizes_list arith.
Qed.

Lemma sizes_draw_cross :
  ensures (draw_cross x y s fg bg c) sizes_not_negative.
Proof.
  unfold draw_cross. cbv zeta.
  eapply ensures_bind; [apply ensures_any |]. intros t _.
  eapply ensures_bind; [apply ensures_uniform; lra |]. intros tf [Htf0 Htf1].
  eapply ensures_bind; [apply ensures_any |]. intros tr _.
  eapply ensures_bind; [apply ensures_any |]. intros o _.
  apply ensures_ret. sizes_list arith.
Qed.

Lemma sizes_draw_half_square :
  ensures (draw_half_square x y s fg bg c) sizes_not_negative.
Proof.
  unfold draw_half_square. cbv zeta.
  eapply ensures_bind; [apply ensures_any |]. intros o _.
  eapply ensures_bind; [apply ensures_any |]. intros d _.
  apply ensures_ret. sizes_list arith.
Qed.

Lemma sizes_draw_diagonal_square :
  ensures (draw_diagonal_square x y s fg bg c) sizes_not_negative.
Proof.
  unfold draw_diagonal_square. cbv zeta.
  eapply ensures_bind; [apply ensures_any |]. intros o _.
  eapply ensures_bind; [apply ensures_any |]. intros t _.
  eapply ensures_bind; [apply ensures_any |]. intros t' _.
  eapply ensures_bind; [apply ensures_any |]. intros pts _.
  apply ensures_ret. sizes_list arith.
Qed.

Lemma sizes_draw_quarter_circle :
  ensures (draw_quarter_circle x y s fg bg c) sizes_not_negative.
Proof.
  unfold draw_quarter_circle. cbv zeta.
  eapply ensures_bind; [apply ensures_any |]. intros o _.
  eapply ensures_bind; [apply ensures_any |]. intros d _.
  eapply ensures_bind; [apply ensures_any |]. intros f _.
  apply ensures_ret. destruct d; sizes_list arith.
Qed.

Lemma sizes_dot cs i j :
  ensures (dot x y cs fg c i j) sizes_not_negative.
Proof.
  unfold dot.
  eapply ensures_bind; [apply ensures_any |]. intros t _.
  destruct (PyNum.Qltb t (c * 0.2)); [apply ensures_ret; apply sizes_nil |].
  eapply ensures_bind; [apply ensures_any |]. intros f _.
  eapply ensures_bind; [apply ensures_any |]. intros a _.
  eapply ensures_bind; [apply ensures_any |]. intros b _.
  eapply ensures_bind; [apply ensures_any |]. intros o _.
  cbv zeta. apply ensures_ret. sizes_list arith.
Qed.

Lemma sizes_draw_dots :
  ensures (draw_dots x y s fg bg c) sizes_not_negative.
Proof.
  unfold draw_dots. cbv zeta.
  eapply ensures_bind; [apply ensures_any |]. intros n _.
  eapply ensures_bind; [apply ensures_any |]. intros cs _.
  eapply ensures_bind.
  { apply sizes_for_. intros i _. apply sizes_for_. intros j _.
    apply sizes_dot. }
  intros ds Hds. apply ensures_ret. sizes_list arith.
Qed.

Lemma sizes_draw_letter_block :
  ensures (draw_letter_block x y s fg bg c) sizes_not_negative.
Proof.
  unfold draw_letter_block. cbv zeta.
  eapply ensures_bind; [apply ensures_any |]. intros ch _.
  eapply ensures_bind; [apply ensures_any |]. intros f _.
  eapply ensures_bind; [apply ensures_any |]. intros tr _.
  eapply ensures_bind; [apply ensures_any |]. intros o _.
  apply ensures_ret. sizes_list arith.
Qed.

Lemma sizes_concentric_loop n max_r idxs flag :
  ensures (concentric_loop x y s fg bg c n max_r idxs flag) sizes_not_negative.
Proof.
  revert flag. induction idxs as [| i rest IH]; intros flag; simpl.
  - apply ensures_ret. apply sizes_nil.
  - eapply ensures_bind; [apply ensures_any |]. intros ratio _.
    destruct (PyNum.Qltb (max_r * ratio) 1) eqn:E; [apply IH |].
    apply Qltb_ge in E.
    eapply ensures_bind; [apply ensures_any |]. intros a _.
    eapply ensures_bind; [apply ensures_any |]. intros b _.
    eapply ensures_bind; [apply ensures_any |]. intros o _.
    eapply ensures_bind; [apply IH |]. intros ops Hops.
    apply ensures_ret. apply sizes_cons; [| exact Hops].
    repeat constructor. simpl. lra.
Qed.

Lemma sizes_draw_concentric_circles :
  ensures (draw_concentric_circles x y s fg bg c) sizes_not_negative.
Proof.
  unfold draw_concentric_circles. cbv zeta.
  eapply ensures_bind; [apply ensures_any |]. intros n _.
  eapply ensures_bind; [apply ensures_any |]. intros f _.
  eapply ensures_bind; [apply sizes_concentric_loop |]. intros ops Hops.
  apply ensures_ret. sizes_list arith.
Qed.

Lemma sizes_stripe n h i :
  ensures (stripe x y s fg bg c n h i) sizes_not_negative.
Proof.
  unfold stripe.
  apply ensures_bind with (mid := fun _ => True); [apply ensures_any |].
  intros use_fg _. cbv zeta.
  apply ensures_bind with (mid := fun _ => True); [apply ensures_any |].
  intros skip _. destruct skip; [apply ensures_ret; apply sizes_nil |].
  eapply ensures_bind; [apply ensures_any |]. intros bt _.
  eapply ensures_bind; [apply ensures_any |]. intros f _.
  destruct h; apply ensures_ret; sizes_list arith.
Qed.

Lemma sizes_draw_stripes :
  ensures (draw_stripes x y s fg bg c) sizes_not_negative.
Proof.
  unfold draw_stripes. cbv zeta.
  eapply ensures_bind; [apply ensures_any |]. intros n _.
  eapply ensures_bind; [apply ensures_any |]. intros h _.
  eapply ensures_bind; [apply ensures_any |]. intros o _.
  eapply ensures_bind; [apply sizes_for_; intros; apply sizes_stripe |].
  intros ops Hops. apply ensures_ret. sizes_list arith.
Qed.

Lemma sizes_draw_rotated_shape :
  ensures (draw_rotated_shape x y s fg bg c) sizes_not_negative.
Proof.
  unfold draw_rotated_shape. cbv zeta.
  eapply ensures_bind; [apply ensures_any |]. intros st _.
  eapply ensures_bind; [apply ensures_any |]. intros f _.
  eapply ensures_bind; [apply ensures_any |]. intros tr _.
  eapply ensures_bind; [apply ensures_any |]. intros o _.
  apply ensures_bind with (mid := fun e => sizes_not_negative [e]).
  { destruct st.
    - eapply ensures_bind; [apply ensures_any |]. intros fw _.
      eapply ensures_bind; [apply ensures_any |]. intros fh _.
      apply ensures_ret. sizes_list arith.
    - apply ensures_ret. sizes_list arith.
    - eapply ensures_bind; [apply ensures_any |]. intros fx _.
      eapply ensures_bind; [apply ensures_any |]. intros fy _.
      apply ensures_ret. sizes_list arith. }
  intros e He. apply ensures_ret. sizes_list arith.
Qed.

Lemma sizes_wavy_segments (segment : Z -> M path_cmd) js :
  (forall j, ensures (segment j) (fun cmd => arc_radii cmd = [])) ->
  ensures (wavy_segments segment js)
    (fun cmds => flat_map arc_radii cmds = []).
Proof.
  intros Hseg. induction js as [| j rest IH]; simpl.
  - apply ensures_ret. reflexivity.
  - eapply ensures_bind; [apply Hseg |]. intros cmd Hcmd.
    eapply ensures_bind; [apply IH |]. intros cmds Hcmds.
    apply ensures_ret. simpl. rewrite Hcmd, Hcmds. reflexivity.
Qed.

Lemma sizes_wavy_segment h sl am fr n j :
  ensures (wavy_segment x y s c h sl am fr n j) (fun cmd => arc_radii cmd = []).
Proof.
  unfold wavy_segment. cbv zeta.
  repeat lazymatch goal with
  | |- ensures (bind (if ?b then _ else _) _) _ =>
      apply ensures_bind with (mid := fun _ => True); [apply ensures_any |];
      intros
  | |- ensures (bind _ _) _ => eapply ensures_bind; [apply ensures_any |]; intros
  | |- ensures (if ?b then _ else _) _ => destruct b
  | |- ensures (ret _) _ => apply ensures_ret; reflexivity
  end.
Qed.

Lemma sizes_wavy_line n h sw i :
  (1 <= sw)%Q -> ensures (wavy_line x y s fg c n h sw i) sizes_not_negative.
Proof.
  intros Hsw. unfold wavy_line.
  eapply ensures_bind; [apply ensures_any |]. intros o _.
  eapply ensures_bind; [apply ensures_any |]. intros f _.
  eapply ensures_bind; [apply ensures_any |]. intros fr _.
  eapply ensures_bind; [apply ensures_any |]. intros ns _.
  eapply ensures_bind; [apply ensures_any |]. intros gap _.
  cbv zeta.
  eapply ensures_bind;
    [apply sizes_wavy_segments; intros; apply sizes_wavy_segment |].
  intros curves Hcurves. apply ensures_ret.
  unfold sizes_not_negative. simpl. rewrite Hcurves.
  destruct h; simpl; repeat constructor; lra.
Qed.

Lemma sizes_draw_wavy_lines :
  ensures (draw_wavy_lines x y s fg bg c) sizes_not_negative.
Proof.
  unfold draw_wavy_lines. cbv zeta.
  eapply ensures_bind; [apply ensures_any |]. intros n _.
  eapply ensures_bind; [apply ensures_any |]. intros h _.
  eapply ensures_bind; [apply ensures_any |]. intros f _.
  eapply ensures_bind.
  { apply sizes_for_. intros i _. apply sizes_wavy_line. apply max_ge_l. }
  intros ops Hops. apply ensures_ret. sizes_list arith.
Qed.

Lemma sizes_style_function_map (f : style) :
  ensures (style_function_map f x y s fg bg c) sizes_not_negative.
Proof.
  destruct f; simpl.
  - apply sizes_draw_circle.
  - apply sizes_draw_opposite_circles.
  - apply sizes_draw_cross.
  - apply sizes_draw_half_square.
  - apply sizes_draw_diagonal_square.
  - apply sizes_draw_quarter_circle.
  - apply sizes_draw_dots.
  - apply sizes_draw_letter_block.
  - apply sizes_draw_concentric_circles.
  - apply sizes_draw_stripes.
  - apply sizes_draw_rotated_shape.
  - apply sizes_draw_wavy_lines.
Qed.

End VectorSizes.

(* ===================================================================== *)
(** * The elements of a whole drawing *)
(* ===================================================================== *)

Section VectorImage.

Context {RS : RandomSource} {RSS : RandomSourceSpec RS} {ML : MathLib}.
Import Vector.

Section Assembly.

Variable P : list svg_element -> Prop.
Hypothesis P_nil : P [].
Hypothesis P_app : forall els els', P els -> P els' -> P (els ++ els').
Hypothesis P_group :
  forall id children, P children -> P [Group id None None children].

Variables (p : params) (fresh : gen).

Hypothesis H_cell :
  forall f x y fg bg,
    ensures (style_function_map f x y (square_size p) fg bg (chaos_factor p)) P.
Hypothesis H_block :
  forall f x y fg bg,
    ensures (style_function_map f x y (big_block_size p * square_size p)
               fg bg (chaos_factor p)) P.

Lemma assemble_generate_art_svg_string :
  ensures (generate_art_svg_string p fresh)
    (fun r => forall d, r = Some d ->
       P (elements d) /\
       svg_width d = cols p * square_size p /\
       svg_height d = rows p * square_size p /\
       1000 <= gradient_id d <= 9999).
Proof.
  unfold generate_art_svg_string. cbv zeta.
  eapply ensures_bind; [apply ensures_any |]. intros _ _.
  destruct (current_palette_list p) as [| p0 ps].
  { eapply ensures_bind; [apply ensures_any |]. intros _ _.
    apply ensures_ret. discriminate. }
  eapply ensures_bind; [apply ensures_any |]. intros sel _.
  eapply ensures_bind; [apply ensures_any |]. intros bg _.
  eapply ensures_bind; [apply ensures_randint |]. intros n Hn.
  eapply ensures_bind.
  { unfold draw_grid. apply ensures_for_gen; [exact P_nil | exact P_app |].
    intros r_idx _. apply ensures_for_gen; [exact P_nil | exact P_app |].
    intros c_idx _.
    eapply ensures_bind; [apply ensures_any |]. intros cs _.
    eapply ensures_bind; [apply ensures_any |]. intros f _.
    eapply ensures_bind; [apply H_cell |]. intros els Hels.
    apply ensures_ret. apply P_group. exact Hels. }
  intros cells Hcells.
  eapply ensures_bind.
  { unfold draw_big_block. destruct (big_block_enabled p);
      [| apply ensures_ret; exact P_nil].
    destruct (_ && _).
    - eapply ensures_bind; [apply ensures_any |]. intros [col row] _.
      eapply ensures_bind; [apply ensures_any |]. intros cs _.
      eapply ensures_bind; [apply ensures_any |]. intros f _.
      eapply ensures_bind; [apply H_block |]. intros els Hels.
      apply ensures_ret. apply P_group. exact Hels.
    - eapply ensures_bind; [apply ensures_any |]. intros _ _.
      apply ensures_ret. exact P_nil. }
  intros big Hbig. apply ensures_ret. intros d [= <-].
  cbn [elements svg_width svg_height gradient_id].
  split; [| auto].
  apply (P_app [Group (Some grid_elements) None None cells] big);
    [apply P_group; exact Hcells | exact Hbig].
Qed.

End Assembly.

Lemma opacity_bounded_app c els els' :
  opacity_bounded c els -> opacity_bounded c els' ->
  opacity_bounded c (els ++ els').
Proof.
  intros [H1 H2] [H1' H2']. unfold opacity_bounded.
  rewrite !flat_map_app. split; apply Forall_app; auto.
Qed.

Lemma opacity_bounded_group c id children :
  opacity_bounded c children ->
  opacity_bounded c [Group id None None children].
Proof. unfold opacity_bounded. simpl. rewrite !app_nil_r. auto. Qed.

Lemma opacity_bounded_cell x y s fg bg c els :
  cell_drawn x y s fg bg c els -> opacity_bounded c els.
Proof.
  intros (_ & _ & Ho & Ht). split; [exact Ho |].
  eapply Forall_impl; [| exact Ht]. intros t (H1 & _ & _ & H4). auto.
Qed.

(** X9.  Whatever the style, the generator of a vector cell first draws
    the rectangle of the cell, from [(x, y)] with sides [size], in the
    background colour; every [fill] and [stroke] after it, in groups
    included, is the foreground or the background it was given; and
    every rotation it writes turns about the centre of the cell,
    [(x + size/2, y + size/2)], by one of the listed angles. *)
Theorem cell_drawn_with_its_two_colours (f : style) (x y size : Z)
    (foreground background : string) (chaos : Q) :
  (0 <= chaos)%Q ->
  returns (style_function_map f x y size foreground background chaos)
    (fun els =>
       (exists rest,
          els = Rect (inject_Z x, inject_Z y) (inject_Z size, inject_Z size)
                     background :: rest) /\
       Forall (fun fill => fill = foreground \/ fill = background)
              (flat_map svg_fills els) /\
       Forall (fun t => In (rot_angle t) rotation_angles /\
                        rot_cx t = (inject_Z x + inject_Z size / 2)%Q /\
                        rot_cy t = (inject_Z y + inject_Z size / 2)%Q)
              (flat_map transforms els)).
Proof.
  intros Hc.
  eapply returns_weaken;
    [apply returns_ensures;
     [apply returns_style_function_map; exact Hc
     | apply drawn_style_function_map] |].
  intros els [_ (Hhead & Hfills & _ & Ht)]. split; [exact Hhead |].
  split; [exact Hfills |].
  eapply Forall_impl; [| exact Ht]. intros t (H1 & H2 & H3 & _). auto.
Qed.

(** X10.  On a palette the background derivation returns on, with a
    grid, a cell size and a big-block multiplier that are not negative and
    a chaos factor from 0 to 1, [generate_art_svg_string] returns a
    drawing of [cols * square_size] by [rows * square_size], its gradient
    id numbered from 1000 to 9999, in which no size is negative: the
    sides of every rectangle, the radii of every circle, ellipse and arc,
    every stroke width and every font size. *)
Theorem svg_sizes_not_negative (p : params) (sel : palette) (fresh g : gen) :
  0 <= rows p -> 0 <= cols p -> 0 <= square_size p -> 0 <= big_block_size p ->
  (0 <= chaos_factor p)%Q -> (chaos_factor p <= 1)%Q ->
  getitem (current_palette_list p) (palette_index p) = Ok sel ->
  background_returns sel = true ->
  exists d g' out,
    generate_art_svg_string p fresh g = Ok (Some d, g', out) /\
    svg_width d = cols p * square_size p /\
    svg_height d = rows p * square_size p /\
    0 <= svg_width d /\ 0 <= svg_height d /\
    1000 <= gradient_id d <= 9999 /\
    sizes_not_negative (elements d).
Proof.
  intros Hrows Hcols Hs Hm Hc0 Hc1 Hsel Hbg.
  destruct (succeeds_generate_art_svg_string p sel fresh g Hc0 Hsel Hbg)
    as (d & g' & out & E).
  exists d, g', out. split; [exact E |].
  assert (Hb0 : 0 <= big_block_size p * square_size p) by nia.
  destruct (assemble_generate_art_svg_string sizes_not_negative sizes_nil
              sizes_app (fun id children H => sizes_group id None None children H)
              p fresh
              (fun f x y fg bg =>
                 sizes_style_function_map x y (square_size p) fg bg
                   (chaos_factor p) Hs Hc0 Hc1 f)
              (fun f x y fg bg =>
                 sizes_style_function_map x y _ fg bg
                   (chaos_factor p) Hb0 Hc0 Hc1 f)
              g (Some d) g' out E d eq_refl) as (Hels & Hw & Hh & Hid).
  rewrite Hw, Hh. repeat split; try assumption; try lia; nia.
Qed.

(** X11.  In the drawing [generate_art_svg_string] returns every opacity
    is 1.0 or a number of two decimals from 0.6 to 0.95, and every
    rotation turns by one of the listed angles.  With a chaos factor of
    0 every opacity is 1.0 and every rotation is by 0 degrees. *)
Theorem svg_opacity_bounds (p : params) (sel : palette) (fresh g : gen) :
  (0 <= chaos_factor p)%Q ->
  getitem (current_palette_list p) (palette_index p) = Ok sel ->
  background_returns sel = true ->
  exists d g' out,
    generate_art_svg_string p fresh g = Ok (Some d, g', out) /\
    Forall (fun o => (0.6 <= o /\ o <= 1)%Q) (flat_map opacities (elements d)) /\
    Forall (fun t => In (rot_angle t) rotation_angles)
           (flat_map transforms (elements d)) /\
    ((chaos_factor p == 0)%Q ->
     Forall (fun o => o = 1.0%Q) (flat_map opacities (elements d)) /\
     Forall (fun t => rot_angle t = 0) (flat_map transforms (elements d))).
Proof.
  intros Hc0 Hsel Hbg.
  destruct (succeeds_generate_art_svg_string p sel fresh g Hc0 Hsel Hbg)
    as (d & g' & out & E).
  exists d, g', out. split; [exact E |].
  assert (Hcell : forall size f x y fg bg,
            ensures (style_function_map f x y size fg bg (chaos_factor p))
                    (opacity_bounded (chaos_factor p))).
  { intros size f x y fg bg.
    eapply ensures_weaken; [apply drawn_style_function_map |].
    intros els. apply opacity_bounded_cell. }
  destruct (assemble_generate_art_svg_string
              (opacity_bounded (chaos_factor p)) ltac:(split; constructor)
              (opacity_bounded_app (chaos_factor p))
              (opacity_bounded_group (chaos_factor p))
              p fresh (Hcell _) (Hcell _)
              g (Some d) g' out E d eq_refl) as ([Ho Ht] & _).
  split; [eapply Forall_impl; [| exact Ho]; intros o [H _];
          apply opacity_range; exact H |].
  split; [eapply Forall_impl; [| exact Ht]; intros t [H _]; exact H |].
  intros Hzero. split.
  - eapply Forall_impl; [| exact Ho]. intros o [_ H]. apply H. lra.
  - eapply Forall_impl; [| exact Ht]. intros t [_ H].
    destruct (Z.eq_dec (rot_angle t) 0) as [| Hne]; [assumption |].
    specialize (H Hne). lra.
Qed.

End VectorImage.

Lemma cell_drawn_with_its_two_colours_witness :
  (0 <= 0.3)%Q /\
  returns (RS := Lcg.source)
    (Vector.style_function_map (ML := Lcg.math) cross 100 200 80
       "#FF6B6B" "#073B4C" 0.3)
    (fun els =>
       (exists rest,
          els = Vector.Rect (inject_Z 100, inject_Z 200)
                  (inject_Z 80, inject_Z 80) "#073B4C" :: rest) /\
       Forall (fun fill => fill = "#FF6B6B"%string \/ fill = "#073B4C"%string)
              (flat_map svg_fills els) /\
       Forall (fun t => In (Vector.rot_angle t) rotation_angles /\
                        Vector.rot_cx t = (inject_Z 100 + inject_Z 80 / 2)%Q /\
                        Vector.rot_cy t = (inject_Z 200 + inject_Z 80 / 2)%Q)
              (flat_map transforms els)).
Proof.
  assert (H : (0 <= 0.3)%Q) by (unfold Qle; simpl; lia).
  split; [exact H |].
  apply (cell_drawn_with_its_two_colours (RS := Lcg.source)
           (RSS := lcg_source_spec) (ML := Lcg.math) cross 100 200 80
           "#FF6B6B" "#073B4C" 0.3 H).
Defined.

Lemma svg_sizes_not_negative_witness :
  exists d g' out,
    Vector.generate_art_svg_string (RS := Lcg.source) (ML := Lcg.math)
      small_grid_params (Lcg.state 7) (Lcg.state 0) = Ok (Some d, g', out) /\
    Vector.svg_width d = 2 * 10 /\
    Vector.svg_height d = 2 * 10 /\
    0 <= Vector.svg_width d /\ 0 <= Vector.svg_height d /\
    1000 <= Vector.gradient_id d <= 9999 /\
    sizes_not_negative (Vector.elements d).
Proof.
  apply (svg_sizes_not_negative (RS := Lcg.source) (RSS := lcg_source_spec)
           (ML := Lcg.math) small_grid_params
           [Str "#FF6B6B"; Str "#FFD166"; Str "#06D6A0"; Str "#118AB2";
            Str "#073B4C"]%string (Lcg.state 7) (Lcg.state 0)).
  - discriminate.
  - discriminate.
  - discriminate.
  - discriminate.
  - discriminate.
  - discriminate.
  - reflexivity.
  - vm_compute. reflexivity.
Defined.

Lemma svg_opacity_bounds_witness :
  exists d g' out,
    Vector.generate_art_svg_string (RS := Lcg.source) (ML := Lcg.math)
      small_grid_params (Lcg.state 7) (Lcg.state 0) = Ok (Some d, g', out) /\
    Forall (fun o => (0.6 <= o /\ o <= 1)%Q)
           (flat_map opacities (Vector.elements d)) /\
    Forall (fun t => In (Vector.rot_angle t) rotation_angles)
           (flat_map transforms (Vector.elements d)) /\
    ((0.2 == 0)%Q ->
     Forall (fun o => o = 1.0%Q) (flat_map opacities (Vector.elements d)) /\
     Forall (fun t => Vector.rot_angle t = 0)
            (flat_map transforms (Vector.elements d))).
Proof.
  apply (svg_opacity_bounds (RS := Lcg.source) (RSS := lcg_source_spec)
           (ML := Lcg.math) small_grid_params
           [Str "#FF6B6B"; Str "#FFD166"; Str "#06D6A0"; Str "#118AB2";
            Str "#073B4C"]%string (Lcg.state 7) (Lcg.state 0)).
  - discriminate.
  - reflexivity.
  - vm_compute. reflexivity.
Defined.

(* ===================================================================== *)
(** * The colour conversions stay in range *)
(* ===================================================================== *)

Lemma max_le (a b u : Q) : (a <= u)%Q -> (b <= u)%Q -> (PyNum.max a b <= u)%Q.
Proof. intros Ha Hb. unfold PyNum.max. destruct (PyNum.Qltb a b); assumption. Qed.

Lemma min_ge (a b l : Q) : (l <= a)%Q -> (l <= b)%Q -> (l <= PyNum.min a b)%Q.
Proof. intros Ha Hb. unfold PyNum.min. destruct (PyNum.Qltb b a); assumption. Qed.

Lemma mod1_range (x : Q) : (0 <= PyNum.mod1 x /\ PyNum.mod1 x < 1)%Q.
Proof.
  unfold PyNum.mod1. pose proof (Qfloor_le x). pose proof (Qlt_floor x) as H'.
  rewrite inject_Z_plus in H'. change (inject_Z 1) with 1%Q in H'. split; lra.
Qed.

Lemma div_unit (a b : Q) :
  (0 <= a)%Q -> (a <= b)%Q -> (0 < b)%Q ->
  exists q, PyNum.div a b = Ok q /\ (0 <= q /\ q <= 1)%Q.
Proof.
  intros Ha Hab Hb. unfold PyNum.div.
  destruct (Qeq_bool b 0) eqn:E.
  - apply Qeq_bool_eq in E. lra.
  - eexists. split; [reflexivity |]. split.
    + apply Qle_shift_div_l; [assumption | lra].
    + apply Qle_shift_div_r; [assumption | lra].
Qed.

Lemma div_defined (a b : Q) :
  ~ (b == 0)%Q -> exists q, PyNum.div a b = Ok q.
Proof.
  intros Hb. unfold PyNum.div. destruct (Qeq_bool b 0) eqn:E.
  - apply Qeq_bool_eq in E. contradiction.
  - eexists. reflexivity.
Qed.

Lemma rgb_to_hls_range (r g b : Q) :
  (0 <= r /\ r <= 1)%Q -> (0 <= g /\ g <= 1)%Q -> (0 <= b /\ b <= 1)%Q ->
  exists h l s, colorsys.rgb_to_hls r g b = Ok (h, l, s) /\
                (0 <= l /\ l <= 1)%Q /\ (0 <= s /\ s <= 1)%Q.
Proof.
  intros [Hr0 Hr1] [Hg0 Hg1] [Hb0 Hb1]. unfold colorsys.rgb_to_hls. cbv zeta.
  set (maxc := PyNum.max (PyNum.max r g) b).
  set (minc := PyNum.min (PyNum.min r g) b).
  assert (Hmax1 : (maxc <= 1)%Q) by (repeat apply max_le; assumption).
  assert (Hmin0 : (0 <= minc)%Q) by (repeat apply min_ge; assumption).
  assert (Hmm : (minc <= maxc)%Q).
  { apply Qle_trans with b; [apply min_le_r | apply max_ge_r]. }
  assert (Hrmax : (r <= maxc)%Q).
  { apply Qle_trans with (PyNum.max r g); apply max_ge_l. }
  assert (Hgmax : (g <= maxc)%Q).
  { apply Qle_trans with (PyNum.max r g); [apply max_ge_r | apply max_ge_l]. }
  assert (Hbmax : (b <= maxc)%Q) by apply max_ge_r.
  assert (Hl : (0 <= (maxc + minc) / 2 /\ (maxc + minc) / 2 <= 1)%Q)
    by (qnorm; split; lra).
  destruct (Qeq_bool minc maxc) eqn:Eq.
  - eexists _, _, _. split; [reflexivity |]. split; [exact Hl | lra].
  - assert (Hlt : (minc < maxc)%Q).
    { apply Qle_lteq in Hmm. destruct Hmm as [| Heq]; [assumption |].
      apply Qeq_eq_bool in Heq. congruence. }
    assert (Hs : exists s,
               (if Qle_bool ((maxc + minc) / 2) (1 # 2)
                then PyNum.div (maxc - minc) (maxc + minc)
                else PyNum.div (maxc - minc) (2 - maxc - minc)) = Ok s
               /\ (0 <= s /\ s <= 1)%Q).
    { destruct (Qle_bool _ _); apply div_unit; lra. }
    destruct Hs as (s & -> & Hs).
    destruct (div_defined (maxc - r) (maxc - minc)) as (rc & ->); [lra |].
    destruct (div_defined (maxc - g) (maxc - minc)) as (gc & ->); [lra |].
    destruct (div_defined (maxc - b) (maxc - minc)) as (bc & ->); [lra |].
    cbn [rbind]. eexists _, _, _. split; [reflexivity |].
    split; [exact Hl | exact Hs].
Qed.

Lemma _v_between (m1 m2 hue : Q) :
  (m1 <= m2)%Q -> (m1 <= colorsys._v m1 m2 hue /\ colorsys._v m1 m2 hue <= m2)%Q.
Proof.
  intros Hm. unfold colorsys._v, colorsys.ONE_SIXTH, colorsys.TWO_THIRD.
  cbv zeta. pose proof (mod1_range hue) as [H0 H1].
  set (u := PyNum.mod1 hue) in *.
  destruct (PyNum.Qltb u (1 / 6)) eqn:E1.
  - apply Qltb_lt in E1. qnorm. split; nra.
  - destruct (PyNum.Qltb u (1 # 2)) eqn:E2; [split; lra |].
    apply Qltb_ge in E2.
    destruct (PyNum.Qltb u (2 / 3)) eqn:E3; [| split; lra].
    apply Qltb_lt in E3. qnorm. split; nra.
Qed.

Lemma hls_to_rgb_range (h l s : Q) :
  (0 <= l /\ l <= 1)%Q -> (0 <= s /\ s <= 1)%Q ->
  let '(r, g, b) := colorsys.hls_to_rgb h l s in
  (0 <= r /\ r <= 1)%Q /\ (0 <= g /\ g <= 1)%Q /\ (0 <= b /\ b <= 1)%Q.
Proof.
  intros [Hl0 Hl1] [Hs0 Hs1]. unfold colorsys.hls_to_rgb.
  destruct (Qeq_bool s 0); [repeat split; assumption |]. cbv zeta.
  set (m2 := if Qle_bool l (1 # 2) then (l * (1 + s))%Q else (l + s - l * s)%Q).
  assert (Hm : (0 <= 2 * l - m2 /\ 2 * l - m2 <= m2 /\ m2 <= 1)%Q).
  { unfold m2. destruct (Qle_bool l (1 # 2)) eqn:E.
    - apply Qle_bool_iff in E. repeat split; nra.
    - assert (Hgt : ~ (l <= 1 # 2)%Q).
      { intros H. apply Qle_bool_iff in H. congruence. }
      apply Qnot_le_lt in Hgt. repeat split; nra. }
  destruct Hm as (Hm1 & Hm12 & Hm2).
  pose proof (_v_between (2 * l - m2) m2 (h + colorsys.ONE_THIRD) Hm12).
  pose proof (_v_between (2 * l - m2) m2 h Hm12).
  pose proof (_v_between (2 * l - m2) m2 (h - colorsys.ONE_THIRD) Hm12).
  repeat split; lra.
Qed.

Lemma trunc_255 (x : Q) :
  (0 <= x /\ x <= 1)%Q -> 0 <= PyNum.trunc (x * 255) <= 255.
Proof.
  intros [H0 H1]. split.
  - apply trunc_nonneg. lra.
  - change 255 with (PyNum.trunc 255) at 2. apply trunc_mono; lra.
Qed.

Lemma unit_of_channel (n : Z) :
  0 <= n <= 255 -> (0 <= inject_Z n / 255 /\ inject_Z n / 255 <= 1)%Q.
Proof.
  intros [H0 H1]. apply inject_Z_le in H0, H1.
  change (inject_Z 0) with 0%Q in H0. change (inject_Z 255) with 255%Q in H1.
  qnorm. split; lra.
Qed.

Lemma mix_background_range (c1 c2 : Z * Z * Z) :
  (let '(r, g, b) := c1 in 0 <= r <= 255 /\ 0 <= g <= 255 /\ 0 <= b <= 255) ->
  (let '(r, g, b) := c2 in 0 <= r <= 255 /\ 0 <= g <= 255 /\ 0 <= b <= 255) ->
  exists r_light g_light b_light r_dark g_dark b_dark,
    mix_background c1 c2
    = Ok ((r_light, g_light, b_light), (r_dark, g_dark, b_dark)) /\
    (0 <= r_light <= 255 /\ 0 <= g_light <= 255 /\ 0 <= b_light <= 255) /\
    (0 <= r_dark <= 255 /\ 0 <= g_dark <= 255 /\ 0 <= b_dark <= 255).
Proof.
  destruct c1 as [[r1 g1] b1], c2 as [[r2 g2] b2].
  intros (Hr1 & Hg1 & Hb1) (Hr2 & Hg2 & Hb2). unfold mix_background.
  assert (Hr : 0 <= (r1 + r2) / 2 <= 255)
    by (split; [apply Z.div_pos; lia | apply Z.div_le_upper_bound; lia]).
  assert (Hg : 0 <= (g1 + g2) / 2 <= 255)
    by (split; [apply Z.div_pos; lia | apply Z.div_le_upper_bound; lia]).
  assert (Hb : 0 <= (b1 + b2) / 2 <= 255)
    by (split; [apply Z.div_pos; lia | apply Z.div_le_upper_bound; lia]).
  destruct (rgb_to_hls_range _ _ _ (unit_of_channel _ Hr) (unit_of_channel _ Hg)
              (unit_of_channel _ Hb)) as (h & l & s & -> & Hl & Hs).
  cbn [rbind].
  assert (Hs' : (0 <= PyNum.max 0 (s - (1 # 10)) /\
                 PyNum.max 0 (s - (1 # 10)) <= 1)%Q).
  { split; [apply max_ge_l | apply max_le; lra]. }
  pose proof (hls_to_rgb_range h l _ Hl Hs') as Hd.
  destruct (colorsys.hls_to_rgb h l (PyNum.max 0 (s - (1 # 10))))
    as [[rd gd] bd].
  destruct Hd as (Hrd & Hgd & Hbd).
  destruct (rgb_to_hls_range _ _ _
              (unit_of_channel _ (trunc_255 _ Hrd))
              (unit_of_channel _ (trunc_255 _ Hgd))
              (unit_of_channel _ (trunc_255 _ Hbd)))
    as (h_l & l_l & s_l & -> & Hl_l & Hs_l).
  cbn [rbind].
  assert (Hlight : (0 <= PyNum.min 1 (l_l + (1 # 10)) /\
                    PyNum.min 1 (l_l + (1 # 10)) <= 1)%Q).
  { split; [apply min_ge; lra | apply min_le_l]. }
  assert (Hdark : (0 <= PyNum.max 0 (l_l - (1 # 10)) /\
                   PyNum.max 0 (l_l - (1 # 10)) <= 1)%Q).
  { split; [apply max_ge_l | apply max_le; lra]. }
  pose proof (hls_to_rgb_range h_l _ s_l Hlight Hs_l) as Hli.
  pose proof (hls_to_rgb_range h_l _ s_l Hdark Hs_l) as Hda.
  destruct (colorsys.hls_to_rgb h_l (PyNum.min 1 (l_l + (1 # 10))) s_l)
    as [[rl gl] bl].
  destruct (colorsys.hls_to_rgb h_l (PyNum.max 0 (l_l - (1 # 10))) s_l)
    as [[rk gk] bk].
  destruct Hli as (? & ? & ?), Hda as (? & ? & ?).
  eexists _, _, _, _, _, _. split; [reflexivity |].
  repeat split; apply trunc_255; assumption.
Qed.

(* ===================================================================== *)
(** * The background of well-formed colours *)
(* ===================================================================== *)

Lemma hex_digit_not_hash (c : ascii) :
  is_hex_digit c = true -> Ascii.eqb c "#" = false.
Proof.
  destruct c as [[] [] [] [] [] [] [] []]; intros H; try discriminate H;
    reflexivity.
Qed.

Lemma hex_colour_parses (s : string) :
  is_hex_colour (Str s) = true ->
  exists r g b,
    (0 <= r <= 255 /\ 0 <= g <= 255 /\ 0 <= b <= 255) /\
    (forall alpha, hex_to_rgba (Str s) alpha = Ok (r, g, b, alpha)) /\
    Vector.well_shaped (Str s) = true /\
    Vector.parse_hex (Str s) = Ok (r, g, b).
Proof.
  unfold is_hex_colour. destruct s as [| h body]; [discriminate |].
  intros H. apply andb_prop in H. destruct H as [H Hlen].
  apply andb_prop in H. destruct H as [Hh Hhex].
  apply Ascii.eqb_eq in Hh. subst h.
  destruct body as [| a [| b [| c rest]]]; try discriminate Hlen.
  simpl in Hhex.
  apply andb_prop in Hhex. destruct Hhex as [Ha Hhex].
  apply andb_prop in Hhex. destruct Hhex as [Hb Hhex].
  apply andb_prop in Hhex. destruct Hhex as [Hc Hhex].
  pose proof (hex_digit_not_hash a Ha) as Hna.
  unfold hex_to_rgba, hex_to_rgba_str, Vector.well_shaped, Vector.parse_hex.
  cbn [PyStr.startswith_hash PyStr.lstrip_hash].
  change (Ascii.eqb "#" "#") with true. cbv iota. rewrite Hna.
  destruct rest as [| d [| e [| f [| k rest]]]]; try discriminate Hlen.
  - (* three digits, each doubled *)
    unfold PyStr.len, PyStr.slice.
    cbn [String.length PyStr.double_chars String.substring Nat.sub Z.of_nat
         Pos.of_succ_nat Pos.succ Z.eqb Pos.eqb negb orb andb].
    destruct (int16_hex_pair a a Ha Ha) as (r & -> & Hr).
    destruct (int16_hex_pair b b Hb Hb) as (g & -> & Hg).
    destruct (int16_hex_pair c c Hc Hc) as (bl & -> & Hbl).
    exists r, g, bl. cbn [rbind]. repeat split; try reflexivity; lia.
  - (* six digits *)
    simpl in Hhex.
    apply andb_prop in Hhex. destruct Hhex as [Hd Hhex].
    apply andb_prop in Hhex. destruct Hhex as [He Hhex].
    apply andb_prop in Hhex. destruct Hhex as [Hf _].
    unfold PyStr.len, PyStr.slice.
    cbn [String.length PyStr.double_chars String.substring Nat.sub Z.of_nat
         Pos.of_succ_nat Pos.succ Z.eqb Pos.eqb negb orb andb].
    destruct (int16_hex_pair a b Ha Hb) as (r & -> & Hr).
    destruct (int16_hex_pair c d Hc Hd) as (g & -> & Hg).
    destruct (int16_hex_pair e f He Hf) as (bl & -> & Hbl).
    exists r, g, bl. cbn [rbind]. repeat split; try reflexivity; lia.
Qed.

Lemma hex_color_lower_is_hex6 (r g b : Z) :
  0 <= r <= 255 -> 0 <= g <= 255 -> 0 <= b <= 255 ->
  is_hex6 (Str (PyStr.hex_color_lower r g b)) = true.
Proof.
  intros Hr Hg Hb.
  destruct (fmt_02_shape PyStr.hex_lower r (or_intror eq_refl) Hr)
    as (r1 & r2 & Er & Hr1 & Hr2 & _).
  destruct (fmt_02_shape PyStr.hex_lower g (or_intror eq_refl) Hg)
    as (g1 & g2 & Eg & Hg1 & Hg2 & _).
  destruct (fmt_02_shape PyStr.hex_lower b (or_intror eq_refl) Hb)
    as (b1 & b2 & Eb & Hb1 & Hb2 & _).
  unfold PyStr.hex_color_lower, PyStr.fmt_02x. rewrite Er, Eg, Eb.
  cbn [append is_hex6 String.length all_hex]. change (Ascii.eqb "#" "#") with true.
  rewrite Hr1, Hr2, Hg1, Hg2, Hb1, Hb2. reflexivity.
Qed.

Section Background.

Context {RS : RandomSource} {ML : MathLib}.

(** X12.  When the first two entries of a palette are ['#'] followed by
    three or six hexadecimal digits, the background derivation does not
    fail, draws no random number and prints nothing, whatever follows
    them: the raster generator returns two opaque colours with channels
    from 0 to 255, and the vector generator returns the same two colours
    written as ['#'] and six lower-case hexadecimal digits. *)
Theorem background_of_hex_colours (c1 c2 : string) (rest : palette) (g : gen) :
  is_hex_colour (Str c1) = true -> is_hex_colour (Str c2) = true ->
  exists inner outer,
    channels_within 0 255 inner /\ channels_within 0 255 outer /\
    Raster.alpha_of inner = 255 /\ Raster.alpha_of outer = 255 /\
    Raster.pil_create_background_colors (Str c1 :: Str c2 :: rest) g
    = Ok ({| Raster.bg_inner := inner; Raster.bg_outer := outer |}, g, []) /\
    Vector.create_background_colors (Str c1 :: Str c2 :: rest) g
    = Ok ({| Vector.bg_inner :=
               let '(r, g, b, _) := inner in PyStr.hex_color_lower r g b;
             Vector.bg_outer :=
               let '(r, g, b, _) := outer in PyStr.hex_color_lower r g b |},
          g, []) /\
    is_hex6 (Str (let '(r, g, b, _) := inner in PyStr.hex_color_lower r g b))
    = true /\
    is_hex6 (Str (let '(r, g, b, _) := outer in PyStr.hex_color_lower r g b))
    = true.
Proof.
  intros H1 H2.
  destruct (hex_colour_parses c1 H1) as (r1 & g1 & b1 & Hc1 & P1 & W1 & V1).
  destruct (hex_colour_parses c2 H2) as (r2 & g2 & b2 & Hc2 & P2 & W2 & V2).
  destruct (mix_background_range (r1, g1, b1) (r2, g2, b2) Hc1 Hc2)
    as (rl & gl & bl & rd & gd & bd & Em & Hl & Hd).
  exists (rl, gl, bl, 255), (rd, gd, bd, 255).
  split; [exact Hl |]. split; [exact Hd |].
  split; [reflexivity |]. split; [reflexivity |].
  assert (Hlen : (match Str c1 :: Str c2 :: rest with [] => true | _ => false end
                  || (Z.of_nat (List.length (Str c1 :: Str c2 :: rest)) <? 2))
                 = false).
  { apply orb_false_iff. split; [reflexivity |]. apply Z.ltb_ge.
    simpl List.length. lia. }
  split; [| split; [| split]].
  - unfold Raster.pil_create_background_colors. rewrite Hlen.
    unfold Raster.read_first_two.
    change (index (Str c1 :: Str c2 :: rest) 0) with (Ok (Str c1)).
    change (index (Str c1 :: Str c2 :: rest) 1) with (Ok (Str c2)).
    cbn [rbind]. rewrite (P1 255), (P2 255). cbn [rbind].
    unfold bind, lift. rewrite Em. reflexivity.
  - unfold Vector.create_background_colors. rewrite Hlen.
    unfold Vector.read_first_two.
    change (index (Str c1 :: Str c2 :: rest) 0) with (Ok (Str c1)).
    change (index (Str c1 :: Str c2 :: rest) 1) with (Ok (Str c2)).
    cbn [rbind]. rewrite W1, W2. cbn [negb orb]. rewrite V1, V2. cbn [rbind].
    unfold bind, lift. rewrite Em. reflexivity.
  - destruct Hl as (? & ? & ?). apply hex_color_lower_is_hex6; assumption.
  - destruct Hd as (? & ? & ?). apply hex_color_lower_is_hex6; assumption.
Qed.

Lemma mix_background_raises (c1 c2 : Z * Z * Z) (e : exn) :
  mix_background c1 c2 = Raise e -> e = ZeroDivisionError.
Proof.
  assert (Hdiv : forall a b e', PyNum.div a b = Raise e' -> e' = ZeroDivisionError).
  { intros a b e'. unfold PyNum.div. destruct (Qeq_bool b 0); congruence. }
  assert (Hhls : forall r g b e',
             colorsys.rgb_to_hls r g b = Raise e' -> e' = ZeroDivisionError).
  { intros r g b e'. unfold colorsys.rgb_to_hls. cbv zeta.
    destruct (Qeq_bool _ _); [discriminate |].
    destruct (Qle_bool _ _).
    all: repeat match goal with
         | |- rbind (PyNum.div ?a ?b) _ = Raise _ -> _ =>
             destruct (PyNum.div a b) eqn:?; cbn [rbind];
             [| intros [= <-]; eapply Hdiv; eassumption]
         end; discriminate. }
  destruct c1 as [[r1 g1] b1], c2 as [[r2 g2] b2]. unfold mix_background.
  match goal with
  | |- rbind ?m _ = _ -> _ =>
      destruct m as [[[h l] s] | e'] eqn:E1; cbn [rbind];
      [| intros [= <-]; eapply Hhls; exact E1]
  end.
  destruct (colorsys.hls_to_rgb h l _) as [[rd gd] bd].
  match goal with
  | |- rbind ?m _ = _ -> _ =>
      destruct m as [[[h' l'] s'] | e'] eqn:E2; cbn [rbind];
      [| intros [= <-]; eapply Hhls; exact E2]
  end.
  destruct (colorsys.hls_to_rgb h' _ s') as [[rl gl] bl].
  destruct (colorsys.hls_to_rgb h' _ s') as [[rk gk] bk].
  discriminate.
Qed.

(** X13.  On a palette that is a list, whatever its entries are (strings
    or values of another type), the only exception that can leave either
    background derivation is [ZeroDivisionError], from the colour
    conversion: every failure to read the two colours of a list is turned
    into the default colours.  It does leave both on a list whose first
    two entries are ["#-F0F00"], which both checks accept and whose slices
    ["-F"], ["0F"] and ["00"] read as the channels -15, 15 and 0.  A
    palette that is not a list is not a [palette] and is not spoken
    of. *)
Theorem background_raises_only_zero_division (p : palette) (g : gen) (e : exn) :
  (Raster.pil_create_background_colors p g = Raise e -> e = ZeroDivisionError) /\
  (Vector.create_background_colors p g = Raise e -> e = ZeroDivisionError) /\
  Raster.pil_create_background_colors signed_slices_palette g
  = Raise ZeroDivisionError /\
  Vector.create_background_colors signed_slices_palette g
  = Raise ZeroDivisionError.
Proof.
  split; [| split; [| split]].
  - unfold Raster.pil_create_background_colors.
    destruct (_ || _).
    + unfold lift. vm_compute. discriminate.
    + destruct (Raster.read_first_two p) as [[c1 c2] | e'].
      * unfold bind, lift.
        destruct (mix_background c1 c2) as [[[[? ?] ?] [[? ?] ?]] | e'] eqn:E.
        -- discriminate.
        -- intros [= <-]. eapply mix_background_raises. exact E.
      * unfold bind, print, lift. vm_compute. discriminate.
  - unfold Vector.create_background_colors.
    destruct (_ || _); [discriminate |].
    destruct (Vector.read_first_two p) as [[c1 c2] | e'] eqn:R.
    + unfold bind, lift.
      destruct (mix_background c1 c2) as [[[[? ?] ?] [[? ?] ?]] | e'] eqn:E.
      * discriminate.
      * intros [= <-]. eapply mix_background_raises. exact E.
    + assert (He : Vector.caught e' = true).
      { revert R. unfold Vector.read_first_two.
        destruct (index p 0) as [c1 | e0] eqn:I0; cbn [rbind].
        2:{ intros [= <-]. unfold index in I0.
            repeat match type of I0 with
                   | context [if ?b then _ else _] => destruct b
                   | context [match ?x with _ => _ end] => destruct x
                   end; try discriminate I0; injection I0 as <-; reflexivity. }
        destruct (index p 1) as [c2 | e1] eqn:I1; cbn [rbind].
        2:{ intros [= <-]. unfold index in I1.
            repeat match type of I1 with
                   | context [if ?b then _ else _] => destruct b
                   | context [match ?x with _ => _ end] => destruct x
                   end; try discriminate I1; injection I1 as <-; reflexivity. }
        destruct (_ || _) eqn:W; [intros [= <-]; reflexivity |].
        apply orb_false_iff in W. destruct W as [W1 W2].
        apply negb_false_iff in W1, W2.
        destruct c1 as [s1 |]; [| discriminate W1].
        destruct c2 as [s2 |]; [| discriminate W2].
        assert (P : forall s e0, Vector.parse_hex (Str s) = Raise e0 ->
                                 e0 = ValueError).
        { intros s e0. unfold Vector.parse_hex. cbv zeta.
          repeat match goal with
          | |- rbind (PyStr.int16 ?x) _ = Raise _ -> _ =>
              let E := fresh "E" in
              destruct (PyStr.int16 x) eqn:E; cbn [rbind];
              [| intros [= <-]; eapply int16_raises; exact E]
          end. discriminate. }
        destruct (Vector.parse_hex (Str s1)) eqn:P1; cbn [rbind].
        2:{ intros [= <-]. rewrite (P _ _ P1). reflexivity. }
        destruct (Vector.parse_hex (Str s2)) eqn:P2; cbn [rbind].
        2:{ intros [= <-]. rewrite (P _ _ P2). reflexivity. }
        discriminate. }
      rewrite He. unfold bind, print, ret. discriminate.
  - vm_compute. reflexivity.
  - vm_compute. reflexivity.
Qed.

End Background.

Lemma background_of_hex_colours_witness :
  exists inner outer,
    channels_within 0 255 inner /\ channels_within 0 255 outer /\
    Raster.pil_create_background_colors (RS := Lcg.source)
      [Str "#FF6B6B"; Str "#fd6"; NonStr] (Lcg.state 0)
    = Ok ({| Raster.bg_inner := inner; Raster.bg_outer := outer |},
          Lcg.state 0, []).
Proof.
  destruct (background_of_hex_colours (RS := Lcg.source)
              "#FF6B6B" "#fd6" [NonStr] (Lcg.state 0) eq_refl eq_refl)
    as (inner & outer & Hi & Ho & _ & _ & Hr & _).
  exists inner, outer. repeat split; try apply Hi; try apply Ho; exact Hr.
Defined.

(* ===================================================================== *)
(** * Where the cells and the big blocks lie *)
(* ===================================================================== *)

Section Layout.

Context {RS : RandomSource} {RSS : RandomSourceSpec RS} {ML : MathLib}.

(** What a loop draws is what its passes draw, one after the other. *)
Lemma ensures_for_parts {A Op} (l : list A) (body : A -> M (list Op))
    (Q : A -> list Op -> Prop) :
  (forall a, In a l -> ensures (body a) (Q a)) ->
  ensures (for_ l body)
    (fun ops => exists parts, ops = List.concat parts /\ Forall2 Q l parts).
Proof.
  induction l as [| a l IH]; intros H; simpl.
  - apply ensures_ret. exists []. split; [reflexivity | constructor].
  - eapply ensures_bind; [apply H; left; reflexivity |]. intros ops Hops.
    eapply ensures_bind; [apply IH; intros; apply H; right; assumption |].
    intros ops' (parts & -> & Hparts). apply ensures_ret.
    exists (ops :: parts). split; [reflexivity |]. constructor; assumption.
Qed.

Lemma ensures_ext {A} (m m' : M A) (P : A -> Prop) :
  (forall g, m g = m' g) -> ensures m' P -> ensures m P.
Proof. intros Heq H g a g' out E. rewrite Heq in E. eapply H. exact E. Qed.

Lemma concat_singletons {A B} (Q : A -> B -> Prop) (l : list A)
    (parts : list (list B)) :
  Forall2 (fun a part => exists el, part = [el] /\ Q a el) l parts ->
  Forall2 Q l (List.concat parts).
Proof.
  induction 1 as [| a part l parts (el & -> & Hq) _ IH]; simpl;
    constructor; assumption.
Qed.

Lemma block_inside_intro (num_rows num_cols square_size multiplier col row : Z) :
  0 <= square_size ->
  0 <= col <= num_cols - multiplier -> 0 <= row <= num_rows - multiplier ->
  block_inside num_rows num_cols square_size multiplier
    (col * square_size) (row * square_size) (multiplier * square_size).
Proof.
  intros Hs Hc Hr. exists col, row. repeat split; try lia; nia.
Qed.

Lemma vector_draw_grid_row_major (num_rows num_cols square_size : Z)
    (sel : palette) (active : list style) (c : Q) (g : gen) :
  0 <= num_rows -> 0 <= num_cols ->
  Vector.draw_grid num_rows num_cols square_size sel active c g
  = for_ (row_major num_rows num_cols)
      (fun '(r_idx, c_idx) =>
         bind (Vector.get_two_colors sel) (fun colors =>
         bind (choice active) (fun draw_func =>
         bind (Vector.style_function_map draw_func
                 (c_idx * square_size) (r_idx * square_size) square_size
                 (Vector.foreground colors) (Vector.background colors) c)
              (fun cell_group =>
                 ret [Vector.Group (Some (Vector.cell c_idx r_idx)) None None
                                   cell_group])))) g.
Proof.
  intros Hr Hc. rewrite row_major_nested by assumption.
  rewrite for_flat_map. unfold Vector.draw_grid. apply for_ext.
  intros r_idx g1 _. rewrite for_map. reflexivity.
Qed.

Lemma raster_draw_grid_row_major (num_rows num_cols square_size : Z)
    (sel : palette) (active : list style) (c : Q) (g : gen) :
  0 <= num_rows -> 0 <= num_cols ->
  Raster.draw_grid num_rows num_cols square_size sel active c g
  = for_ (row_major num_rows num_cols)
      (fun '(r_idx, c_idx) =>
         bind (Raster.pil_get_two_colors sel c) (fun colors =>
         bind (choice active) (fun draw_func =>
         Raster.style_function_map_pil draw_func
           (c_idx * square_size) (r_idx * square_size) square_size
           (Raster.foreground colors) (Raster.background colors) c))) g.
Proof.
  intros Hr Hc. rewrite row_major_nested by assumption.
  rewrite for_flat_map. unfold Raster.draw_grid. apply for_ext.
  intros r_idx g1 _. rewrite for_map. reflexivity.
Qed.

Lemma vector_cells_tile (num_rows num_cols square_size : Z)
    (sel : palette) (active : list style) (c : Q) :
  0 <= num_rows -> 0 <= num_cols ->
  ensures (Vector.draw_grid num_rows num_cols square_size sel active c)
    (fun cells =>
       Forall2 (cell_group_at square_size) (row_major num_rows num_cols) cells).
Proof.
  intros Hr Hc.
  eapply ensures_ext;
    [intros g; apply vector_draw_grid_row_major; assumption |].
  eapply ensures_weaken.
  - apply ensures_for_parts
      with (Q := fun a part => exists el, part = [el]
                                          /\ cell_group_at square_size a el).
    intros [r_idx c_idx] _.
    eapply ensures_bind; [apply ensures_any |]. intros cs _.
    eapply ensures_bind; [apply ensures_any |]. intros f _.
    eapply ensures_bind; [apply drawn_style_function_map |].
    intros els [[rest ->] _]. apply ensures_ret.
    eexists. split; [reflexivity |]. exists (Vector.background cs), rest.
    reflexivity.
  - intros cells (parts & -> & H). apply concat_singletons. exact H.
Qed.

Lemma raster_cells_tile (num_rows num_cols square_size : Z)
    (sel : palette) (active : list style) (c : Q) :
  0 <= num_rows -> 0 <= num_cols ->
  ensures (Raster.draw_grid num_rows num_cols square_size sel active c)
    (fun ops => exists cells,
       ops = List.concat cells /\
       Forall2 (cell_ops_at square_size) (row_major num_rows num_cols) cells).
Proof.
  intros Hr Hc.
  eapply ensures_ext;
    [intros g; apply raster_draw_grid_row_major; assumption |].
  apply ensures_for_parts. intros [r_idx c_idx] _.
  eapply ensures_bind; [apply ensures_any |]. intros cs _.
  eapply ensures_bind; [apply ensures_any |]. intros f _.
  eapply ensures_weaken; [apply painted_style_function_map_pil |].
  intros ops [[rest ->] _]. exists (Raster.background cs), rest. reflexivity.
Qed.

Lemma vector_big_block_placed (num_rows num_cols square_size : Z)
    (sel : palette) (active : list style) (enabled : bool) (multiplier : Z)
    (c : Q) :
  0 <= square_size ->
  ensures (Vector.draw_big_block num_rows num_cols square_size sel active
             enabled multiplier c)
    (fun big =>
       if enabled && (multiplier <=? num_rows) && (multiplier <=? num_cols)
       then exists el, big = [el] /\
                       big_block_group_at num_rows num_cols square_size
                         multiplier el
       else big = []).
Proof.
  intros Hs. unfold Vector.draw_big_block.
  destruct enabled; [| apply ensures_ret; reflexivity]. cbn [andb].
  destruct (_ && _).
  - unfold Vector.big_block_origin.
    eapply ensures_bind.
    { eapply ensures_bind; [apply ensures_randint |]. intros col Hcol.
      eapply ensures_bind; [apply ensures_randint |]. intros row Hrow.
      apply ensures_ret
        with (post := fun cr => 0 <= fst cr <= num_cols - multiplier
                                /\ 0 <= snd cr <= num_rows - multiplier).
      split; assumption. }
    intros [col row] [Hcol Hrow]. cbn [fst snd] in Hcol, Hrow. cbv zeta.
    eapply ensures_bind; [apply ensures_any |]. intros cs _.
    eapply ensures_bind; [apply ensures_any |]. intros f _.
    eapply ensures_bind; [apply drawn_style_function_map |].
    intros els [[rest ->] _]. apply ensures_ret.
    eexists. split; [reflexivity |].
    exists (col * square_size), (row * square_size),
           (multiplier * square_size), (Vector.background cs), rest.
    split; [apply block_inside_intro; assumption | reflexivity].
  - eapply ensures_bind; [apply ensures_any |]. intros _ _.
    apply ensures_ret. reflexivity.
Qed.

Lemma raster_big_blocks_placed (num_rows num_cols square_size : Z)
    (sel : palette) (active : list style) (enabled : bool)
    (multiplier num_big_blocks : Z) (c : Q) :
  0 <= square_size ->
  ensures (Raster.draw_big_blocks num_rows num_cols square_size sel active
             enabled multiplier num_big_blocks c)
    (fun ops => exists blocks,
       ops = List.concat blocks /\
       Forall (fun block =>
                 block = [] \/
                 big_block_ops_at num_rows num_cols square_size multiplier
                   block) blocks /\
       (List.length blocks <= Z.to_nat num_big_blocks)%nat).
Proof.
  intros Hs. unfold Raster.draw_big_blocks.
  destruct enabled.
  2:{ apply ensures_ret. exists []. repeat split; [constructor | simpl; lia]. }
  cbv zeta. eapply ensures_weaken.
  - apply ensures_for_parts
      with (Q := fun (_ : Z) block =>
                   block = [] \/
                   big_block_ops_at num_rows num_cols square_size multiplier
                     block).
    intros _ _. unfold Raster.draw_big_block.
    destruct (_ && _).
    + unfold Raster.big_block_origin.
      eapply ensures_bind.
      { eapply ensures_bind; [apply ensures_randint |]. intros col Hcol.
        eapply ensures_bind; [apply ensures_randint |]. intros row Hrow.
        apply ensures_ret
          with (post := fun cr => 0 <= fst cr <= num_cols - multiplier
                                  /\ 0 <= snd cr <= num_rows - multiplier).
        split; assumption. }
      intros [col row] [Hcol Hrow]. cbn [fst snd] in Hcol, Hrow. cbv zeta.
      eapply ensures_bind; [apply ensures_any |]. intros cs _.
      eapply ensures_bind; [apply ensures_any |]. intros f _.
      eapply ensures_weaken; [apply painted_style_function_map_pil |].
      intros ops [[rest ->] _]. right.
      exists (col * square_size), (row * square_size),
             (multiplier * square_size), (Raster.background cs), rest.
      split; [apply block_inside_intro; assumption | reflexivity].
    + eapply ensures_bind; [apply ensures_any |]. intros _ _.
      apply ensures_ret. left. reflexivity.
  - intros ops (blocks & -> & H). exists blocks. split; [reflexivity |].
    split.
    + clear - H. induction H; constructor; assumption.
    + apply Forall2_length in H. rewrite length_range in H. lia.
Qed.

(** X14.  The drawing [generate_art_svg_string] returns holds the group
    of the grid and, after it, at most the group of one big block.  The
    group of the grid holds one group per cell, in row-major order; the
    group of the cell in row [r] and column [c] has the id of that cell
    and starts with the square of the cell at [(c * size, r * size)].
    The big block is there exactly when it is enabled and the grid has at
    least [big_block_size] rows and columns; its square starts on a cell
    boundary and ends inside the drawing. *)
Theorem svg_cells_and_big_block_layout (p : Vector.params) (sel : palette)
    (fresh g : gen) :
  0 <= Vector.rows p -> 0 <= Vector.cols p -> 0 <= Vector.square_size p ->
  (0 <= Vector.chaos_factor p)%Q ->
  Vector.getitem (Vector.current_palette_list p) (Vector.palette_index p)
  = Ok sel ->
  background_returns sel = true ->
  exists d g' out cells big,
    Vector.generate_art_svg_string p fresh g = Ok (Some d, g', out) /\
    Vector.elements d
    = Vector.Group (Some Vector.grid_elements) None None cells :: big /\
    Forall2 (cell_group_at (Vector.square_size p))
            (row_major (Vector.rows p) (Vector.cols p)) cells /\
    (if Vector.big_block_enabled p
        && (Vector.big_block_size p <=? Vector.rows p)
        && (Vector.big_block_size p <=? Vector.cols p)
     then exists el,
            big = [el] /\
            big_block_group_at (Vector.rows p) (Vector.cols p)
              (Vector.square_size p) (Vector.big_block_size p) el
     else big = []).
Proof.
  intros Hrows Hcols Hs Hc Hsel Hbg.
  destruct (succeeds_generate_art_svg_string p sel fresh g Hc Hsel Hbg)
    as (d & g' & out & E).
  exists d, g', out.
  assert (H : ensures (Vector.generate_art_svg_string p fresh)
            (fun r => forall d, r = Some d ->
               exists cells big,
                 Vector.elements d
                 = Vector.Group (Some Vector.grid_elements) None None cells
                   :: big /\
                 Forall2 (cell_group_at (Vector.square_size p))
                         (row_major (Vector.rows p) (Vector.cols p)) cells /\
                 (if Vector.big_block_enabled p
                     && (Vector.big_block_size p <=? Vector.rows p)
                     && (Vector.big_block_size p <=? Vector.cols p)
                  then exists el,
                         big = [el] /\
                         big_block_group_at (Vector.rows p) (Vector.cols p)
                           (Vector.square_size p) (Vector.big_block_size p) el
                  else big = []))).
  { unfold Vector.generate_art_svg_string. cbv zeta.
    eapply ensures_bind; [apply ensures_any |]. intros _ _.
    destruct (Vector.current_palette_list p) as [| p0 ps].
    { eapply ensures_bind; [apply ensures_any |]. intros _ _.
      apply ensures_ret. discriminate. }
    eapply ensures_bind; [apply ensures_any |]. intros sel' _.
    eapply ensures_bind; [apply ensures_any |]. intros bg _.
    eapply ensures_bind; [apply ensures_any |]. intros n _.
    eapply ensures_bind; [apply vector_cells_tile; assumption |].
    intros cells Hcells.
    eapply ensures_bind; [apply vector_big_block_placed; assumption |].
    intros big Hbig. apply ensures_ret. intros d' [= <-].
    exists cells, big. cbn [Vector.elements]. auto. }
  destruct (H g (Some d) g' out E d eq_refl) as (cells & big & H1 & H2 & H3).
  exists cells, big. auto.
Qed.

(** X15.  The calls of the image [generate_art_image_pil] returns are
    those of the background, then those of the cells in row-major order,
    then those of the big blocks.  The calls of the cell in row [r] and
    column [c] start with the square from [(c * size, r * size)] to
    [((c + 1) * size, (r + 1) * size)].  There are at most
    [num_big_blocks] big blocks, and the calls of each start with a
    square that begins on a cell boundary and ends inside the image. *)
Theorem image_cells_and_big_blocks_layout
    (num_rows num_cols square_size palette_index : Z)
    (block_styles_str : string) (big_block_enabled : bool)
    (multiplier num_big_blocks : Z) (chaos_factor : Q)
    (seed_value : option Z) (fresh g : gen) :
  0 <= num_rows -> 0 <= num_cols -> 0 <= square_size ->
  (0 <= chaos_factor)%Q ->
  exists img g' out bg cells blocks,
    Raster.generate_art_image_pil num_rows num_cols square_size palette_index
      block_styles_str big_block_enabled multiplier num_big_blocks
      chaos_factor seed_value fresh g = Ok (img, g', out) /\
    Raster.img_ops img
    = Raster.draw_background (num_cols * square_size) (num_rows * square_size)
        bg ++ List.concat cells ++ List.concat blocks /\
    Forall2 (cell_ops_at square_size) (row_major num_rows num_cols) cells /\
    Forall (fun block =>
              block = [] \/
              big_block_ops_at num_rows num_cols square_size multiplier block)
           blocks /\
    (List.length blocks <= Z.to_nat num_big_blocks)%nat.
Proof.
  intros Hrows Hcols Hs Hc.
  destruct (succeeds_generate_art_image_pil num_rows num_cols square_size
              palette_index block_styles_str big_block_enabled multiplier
              num_big_blocks chaos_factor seed_value fresh Hc g)
    as (img & g' & out & E).
  exists img, g', out.
  assert (H : ensures (Raster.generate_art_image_pil num_rows num_cols
                         square_size palette_index block_styles_str
                         big_block_enabled multiplier num_big_blocks
                         chaos_factor seed_value fresh)
            (fun img => exists bg cells blocks,
               Raster.img_ops img
               = Raster.draw_background (num_cols * square_size)
                   (num_rows * square_size) bg
                 ++ List.concat cells ++ List.concat blocks /\
               Forall2 (cell_ops_at square_size)
                       (row_major num_rows num_cols) cells /\
               Forall (fun block =>
                         block = [] \/
                         big_block_ops_at num_rows num_cols square_size
                           multiplier block) blocks /\
               (List.length blocks <= Z.to_nat num_big_blocks)%nat)).
  { unfold Raster.generate_art_image_pil. cbv zeta.
    eapply ensures_bind; [apply ensures_any |]. intros _ _.
    eapply ensures_bind; [apply ensures_any |]. intros sel _.
    eapply ensures_bind; [apply ensures_any |]. intros bg _.
    eapply ensures_bind; [apply raster_cells_tile; assumption |].
    intros ops (cells & -> & Hcells).
    eapply ensures_bind; [apply raster_big_blocks_placed; assumption |].
    intros ops' (blocks & -> & Hblocks & Hlen). apply ensures_ret.
    exists bg, cells, blocks. cbn [Raster.img_ops]. auto. }
  destruct (H g img g' out E) as (bg & cells & blocks & H1).
  exists bg, cells, blocks. split; [exact E | exact H1].
Qed.

End Layout.

Lemma svg_cells_and_big_block_layout_witness :
  exists d g' out cells big,
    Vector.generate_art_svg_string (RS := Lcg.source) (ML := Lcg.math)
      (with_big_block_size 2 small_grid_params) (Lcg.state 7) (Lcg.state 0)
    = Ok (Some d, g', out) /\
    Vector.elements d
    = Vector.Group (Some Vector.grid_elements) None None cells :: big /\
    Forall2 (cell_group_at 10) [(0, 0); (0, 1); (1, 0); (1, 1)] cells /\
    exists el, big = [el] /\ big_block_group_at 2 2 10 2 el.
Proof.
  apply (svg_cells_and_big_block_layout (RS := Lcg.source)
           (RSS := lcg_source_spec) (ML := Lcg.math)
           (with_big_block_size 2 small_grid_params)
           [Str "#FF6B6B"; Str "#FFD166"; Str "#06D6A0"; Str "#118AB2";
            Str "#073B4C"]%string (Lcg.state 7) (Lcg.state 0)).
  - discriminate.
  - discriminate.
  - discriminate.
  - discriminate.
  - reflexivity.
  - vm_compute. reflexivity.
Defined.

Lemma image_cells_and_big_blocks_layout_witness :
  exists img g' out bg cells blocks,
    Raster.generate_art_image_pil (RS := Lcg.source) (ML := Lcg.math)
      2 2 80 0 "circle,cross,dots,stripes" true 2 3 0.2 (Some 42)
      (Lcg.state 7) (Lcg.state 0) = Ok (img, g', out) /\
    Raster.img_ops img
    = Raster.draw_background (2 * 80) (2 * 80) bg
      ++ List.concat cells ++ List.concat blocks /\
    Forall2 (cell_ops_at 80) [(0, 0); (0, 1); (1, 0); (1, 1)] cells /\
    Forall (fun block => block = [] \/ big_block_ops_at 2 2 80 2 block)
           blocks /\
    (List.length blocks <= 3)%nat.
Proof.
  apply (image_cells_and_big_blocks_layout (RS := Lcg.source)
           (RSS := lcg_source_spec) (ML := Lcg.math) 2 2 80 0
           "circle,cross,dots,stripes" true 2 3 0.2 (Some 42)
           (Lcg.state 7) (Lcg.state 0));
    first [lia | unfold Qle; simpl; lia].
Defined.

(* ===================================================================== *)
(** * Concentric circles *)
(* ===================================================================== *)

Lemma descending_weaken (top top' : Z) (idxs : list Z) :
  top <= top' -> descending top idxs -> descending top' idxs.
Proof.
  destruct idxs as [| i rest]; [auto |]. intros H [Hi Hr]. split; [lia | exact Hr].
Qed.

Lemma descending_seq (n : Z) (m start : nat) :
  Z.of_nat start + Z.of_nat m <= n ->
  descending (n - Z.of_nat start)
    (map (fun k => n - k) (map Z.of_nat (seq start m))).
Proof.
  revert start. induction m as [| m IH]; intros start H; simpl; [exact I |].
  split; [lia |].
  replace (n - Z.of_nat start - 1) with (n - Z.of_nat (S start)) by lia.
  apply IH. lia.
Qed.

Lemma descending_range_down (n : Z) : descending n (Raster.range_down n).
Proof.
  unfold Raster.range_down, range.
  destruct (Z.le_gt_cases 0 n) as [Hn | Hn].
  - replace n with (n - Z.of_nat 0) at 1 by (simpl; lia).
    apply descending_seq. rewrite Z2Nat.id by exact Hn. simpl. lia.
  - destruct n; try lia. exact I.
Qed.

Lemma rings_weaken first second (below below' : Q -> Prop) els :
  (forall r, below r -> below' r) ->
  rings first second below els -> rings first second below' els.
Proof.
  intros H. destruct els as [| el rest]; [auto |].
  intros (center & r & o & E & H1 & Hb & Hr).
  exists center, r, o. auto.
Qed.

Lemma pil_rings_weaken first second (below below' : Q -> Prop) ops :
  (forall r, below r -> below' r) ->
  pil_rings first second below ops -> pil_rings first second below' ops.
Proof.
  intros H. destruct ops as [| op rest]; [auto |].
  intros (cx & cy & r & fill & E & Hf & H1 & Hb & Hr).
  exists cx, cy, r, fill. auto 6.
Qed.

(** A radius of one pixel or more at a positive index: the largest
    radius is positive, so smaller indices give smaller radii. *)
Lemma radius_order (max_r : Q) (i j n : Z) :
  0 < n -> 0 < i -> j <= i - 1 ->
  (1 <= max_r * (inject_Z i / inject_Z n))%Q ->
  forall r, (r <= max_r * (inject_Z j / inject_Z n))%Q ->
            (r < max_r * (inject_Z i / inject_Z n))%Q.
Proof.
  intros Hn Hi Hj H1 r Hr.
  assert (Hq : (0 < / inject_Z n)%Q).
  { apply Qinv_lt_0_compat. change 0%Q with (inject_Z 0).
    rewrite <- Zlt_Qlt. exact Hn. }
  assert (Hi' : (0 < inject_Z i)%Q)
    by (change 0%Q with (inject_Z 0); rewrite <- Zlt_Qlt; exact Hi).
  assert (Hj' : (inject_Z j <= inject_Z i - 1)%Q).
  { assert (Hj1 : (inject_Z j <= inject_Z (i - 1))%Q)
      by (rewrite <- Zle_Qle; exact Hj).
    unfold Z.sub in Hj1. rewrite inject_Z_plus in Hj1.
    change (inject_Z (- (1))) with (- (1))%Q in Hj1. lra. }
  unfold Qdiv in *. set (q := (/ inject_Z n)%Q) in *.
  set (u := (max_r * q)%Q).
  assert (Hu : (0 < u)%Q).
  { destruct (Qlt_le_dec 0 u) as [| Hle]; [assumption | exfalso].
    assert ((u * inject_Z i <= 0)%Q) by nra.
    assert ((max_r * (inject_Z i * q) == u * inject_Z i)%Q) by (unfold u; ring).
    lra. }
  assert (E1 : (max_r * (inject_Z i * q) == u * inject_Z i)%Q)
    by (unfold u; ring).
  assert (E2 : (max_r * (inject_Z j * q) == u * inject_Z j)%Q)
    by (unfold u; ring).
  assert ((u * inject_Z j <= u * inject_Z i - u)%Q) by nra.
  lra.
Qed.

Section Concentric.

Context {RS : RandomSource} {RSS : RandomSourceSpec RS} {ML : MathLib}.

Lemma rings_concentric_loop x y s (fg bg : string) c n max_r :
  0 < n ->
  forall idxs top (is_fg : bool),
    descending top idxs ->
    ensures (Vector.concentric_loop x y s fg bg c n max_r idxs is_fg)
      (fun els =>
         rings (if is_fg then fg else bg) (if is_fg then bg else fg)
           (fun r => (r <= max_r * (inject_Z top / inject_Z n))%Q) els /\
         (List.length els <= List.length idxs)%nat).
Proof.
  intros Hn. induction idxs as [| i rest IH]; intros top is_fg Hd.
  - apply ensures_ret. split; [exact I | simpl; lia].
  - destruct Hd as [Hi Hd]. cbn [Vector.concentric_loop].
    eapply ensures_bind.
    { apply ensures_lift
        with (post := fun ratio => ratio = (inject_Z i / inject_Z n)%Q).
      unfold PyNum.div. destruct (Qeq_bool (inject_Z n) 0); [discriminate |].
      intros a [= <-]. reflexivity. }
    intros ratio ->. cbv zeta.
    destruct (PyNum.Qltb _ 1) eqn:E.
    + eapply ensures_weaken;
        [apply (IH top is_fg);
         eapply descending_weaken; [| exact Hd]; lia |].
      intros els [H1 H2]. split; [exact H1 | simpl; lia].
    + apply Qltb_ge in E.
      eapply ensures_bind; [apply ensures_any |]. intros a _.
      eapply ensures_bind; [apply ensures_any |]. intros b _.
      eapply ensures_bind; [apply ensures_any |]. intros o _.
      eapply ensures_bind; [apply (IH (i - 1) (negb is_fg) Hd) |].
      intros els [H1 H2]. apply ensures_ret. split; [| simpl; lia].
      cbn [rings]. eexists _, _, _. split; [reflexivity |].
      split; [exact E |]. split.
      * assert (Ht : (inject_Z i <= inject_Z top)%Q)
          by (rewrite <- Zle_Qle; lia).
        assert (Hq : (0 < / inject_Z n)%Q).
        { apply Qinv_lt_0_compat. change 0%Q with (inject_Z 0).
          rewrite <- Zlt_Qlt. exact Hn. }
        assert (Hi' : (0 < inject_Z i)%Q)
          by (change 0%Q with (inject_Z 0); rewrite <- Zlt_Qlt; lia).
        unfold Qdiv in *. set (q := (/ inject_Z n)%Q) in *.
        set (u := (max_r * q)%Q).
        assert (E1 : (max_r * (inject_Z i * q) == u * inject_Z i)%Q)
          by (unfold u; ring).
        assert (E2 : (max_r * (inject_Z top * q) == u * inject_Z top)%Q)
          by (unfold u; ring).
        assert (Hu : (0 < u)%Q).
        { destruct (Qlt_le_dec 0 u) as [| Hle]; [assumption | exfalso].
          assert ((u * inject_Z i <= 0)%Q) by nra. lra. }
        assert ((u * inject_Z i <= u * inject_Z top)%Q) by nra. lra.
      * destruct is_fg; cbn [negb] in H1;
          (eapply rings_weaken; [| exact H1]);
          apply radius_order; (assumption || lia).
Qed.

Lemma pil_rings_concentric_loop x y s (fg bg : rgba) c n max_r :
  0 < n ->
  forall idxs top (is_fg : bool),
    descending top idxs ->
    ensures (Raster.concentric_loop x y s fg bg c n max_r idxs is_fg)
      (fun ops =>
         pil_rings (if is_fg then fg else bg) (if is_fg then bg else fg)
           (fun r => (r <= max_r * (inject_Z top / inject_Z n))%Q) ops /\
         (List.length ops <= List.length idxs)%nat).
Proof.
  intros Hn. induction idxs as [| i rest IH]; intros top is_fg Hd.
  - apply ensures_ret. split; [exact I | simpl; lia].
  - destruct Hd as [Hi Hd]. cbn [Raster.concentric_loop].
    eapply ensures_bind.
    { apply ensures_lift
        with (post := fun ratio => ratio = (inject_Z i / inject_Z n)%Q).
      unfold PyNum.div. destruct (Qeq_bool (inject_Z n) 0); [discriminate |].
      intros a [= <-]. reflexivity. }
    intros ratio ->. cbv zeta.
    destruct (PyNum.Qltb _ 1) eqn:E.
    + eapply ensures_weaken;
        [apply (IH top is_fg);
         eapply descending_weaken; [| exact Hd]; lia |].
      intros els [H1 H2]. split; [exact H1 | simpl; lia].
    + apply Qltb_ge in E.
      eapply ensures_bind; [apply ensures_any |]. intros alpha _.
      eapply ensures_bind; [apply ensures_any |]. intros a _.
      eapply ensures_bind; [apply ensures_any |]. intros b _.
      eapply ensures_bind; [apply (IH (i - 1) (negb is_fg) Hd) |].
      intros els [H1 H2]. apply ensures_ret. split; [| simpl; lia].
      cbn [pil_rings]. eexists _, _, _, _. split; [reflexivity |].
      split.
      { destruct is_fg; [destruct fg as [[[? ?] ?] ?]
                        | destruct bg as [[[? ?] ?] ?]]; reflexivity. }
      split; [exact E |]. split.
      * assert (Ht : (inject_Z i <= inject_Z top)%Q)
          by (rewrite <- Zle_Qle; lia).
        assert (Hq : (0 < / inject_Z n)%Q).
        { apply Qinv_lt_0_compat. change 0%Q with (inject_Z 0).
          rewrite <- Zlt_Qlt. exact Hn. }
        assert (Hi' : (0 < inject_Z i)%Q)
          by (change 0%Q with (inject_Z 0); rewrite <- Zlt_Qlt; lia).
        unfold Qdiv in *. set (q := (/ inject_Z n)%Q) in *.
        set (u := (max_r * q)%Q).
        assert (E1 : (max_r * (inject_Z i * q) == u * inject_Z i)%Q)
          by (unfold u; ring).
        assert (E2 : (max_r * (inject_Z top * q) == u * inject_Z top)%Q)
          by (unfold u; ring).
        assert (Hu : (0 < u)%Q).
        { destruct (Qlt_le_dec 0 u) as [| Hle]; [assumption | exfalso].
          assert ((u * inject_Z i <= 0)%Q) by nra. lra. }
        assert ((u * inject_Z i <= u * inject_Z top)%Q) by nra. lra.
      * destruct is_fg; cbn [negb] in H1;
          (eapply pil_rings_weaken; [| exact H1]);
          apply radius_order; (assumption || lia).
Qed.

Lemma whole_ratio (max_r : Q) (n : Z) :
  0 < n -> (max_r * (inject_Z n / inject_Z n) == max_r)%Q.
Proof.
  intros Hn. unfold Qdiv. rewrite Qmult_inv_r; [ring |].
  intros H. unfold Qeq in H. simpl in H. lia.
Qed.

(** X16.  After the square of the cell, the concentric-circles style
    draws only circles: the first in the foreground colour, then
    background and foreground in turn, each smaller than the one before,
    none with a radius under one pixel, and the largest with a radius of
    at most [f] times half the cell side for some [f] from 0.85 to 1.
    With a chaos factor of at most 1 there are at most eight of them.
    The raster generator draws them as ellipses in the boxes around such
    circles. *)
Theorem concentric_circles_alternate (x y square_size : Z)
    (foreground background : string) (foreground_rgba background_rgba : rgba)
    (chaos_factor : Q) :
  (0 <= chaos_factor)%Q ->
  returns (Vector.draw_concentric_circles x y square_size foreground background
             chaos_factor)
    (fun els => exists f circles,
       (0.85 <= f /\ f <= 1)%Q /\
       els = Vector.Rect (inject_Z x, inject_Z y)
               (inject_Z square_size, inject_Z square_size) background
             :: circles /\
       rings foreground background
         (fun r => (r <= inject_Z square_size / 2 * f)%Q) circles /\
       ((chaos_factor <= 1)%Q -> (List.length circles <= 8)%nat)) /\
  returns (Raster.draw_pil_concentric_circles x y square_size foreground_rgba
             background_rgba chaos_factor)
    (fun ops => exists f circles,
       (0.85 <= f /\ f <= 1)%Q /\
       ops = Raster.rectangle (inject_Z x) (inject_Z y)
               (inject_Z (x + square_size)) (inject_Z (y + square_size))
               background_rgba
             :: circles /\
       pil_rings foreground_rgba background_rgba
         (fun r => (r <= inject_Z square_size / 2 * f)%Q) circles /\
       ((chaos_factor <= 1)%Q -> (List.length circles <= 8)%nat)).
Proof.
  intros Hc.
  pose proof (chaos_scale_le chaos_factor 2 3 Hc ltac:(lia)) as Hlow.
  unfold inject_Z in Hlow.
  split.
  - eapply returns_weaken;
      [apply returns_ensures;
       [apply returns_draw_concentric_circles; exact Hc |] |
       intros els [_ H]; exact H].
    unfold Vector.draw_concentric_circles. cbv zeta.
    eapply ensures_bind; [apply ensures_randint |]. intros n Hn. cbv beta in Hn.
    eapply ensures_bind; [apply ensures_uniform; lra |]. intros f Hf. cbv beta in Hf.
    eapply ensures_bind;
      [apply (rings_concentric_loop x y square_size foreground background
                chaos_factor n _ ltac:(lia) _ n true);
       apply descending_range_down |].
    intros circles [Hr Hl]. apply ensures_ret. exists f, circles.
    split; [split; lra |]. split; [reflexivity |]. split.
    + eapply rings_weaken; [| exact Hr]. cbv beta. intros r Hle.
      rewrite whole_ratio in Hle by lia. exact Hle.
    + intros Hc1.
      unfold Vector.range_down in Hl. rewrite length_map, length_range in Hl.
      pose proof (trunc_mono (chaos_factor * 3) 3 ltac:(lra) ltac:(lra)) as Ht.
      change (PyNum.trunc 3) with 3 in Ht. lia.
  - eapply returns_weaken;
      [apply returns_ensures;
       [apply returns_draw_pil_concentric_circles; exact Hc |] |
       intros els [_ H]; exact H].
    unfold Raster.draw_pil_concentric_circles. cbv zeta.
    eapply ensures_bind; [apply ensures_randint |]. intros n Hn. cbv beta in Hn.
    eapply ensures_bind; [apply ensures_uniform; lra |]. intros f Hf. cbv beta in Hf.
    eapply ensures_bind;
      [apply (pil_rings_concentric_loop x y square_size foreground_rgba
                background_rgba chaos_factor n _ ltac:(lia) _ n true);
       apply descending_range_down |].
    intros circles [Hr Hl]. apply ensures_ret. exists f, circles.
    split; [split; lra |]. split; [reflexivity |]. split.
    + eapply pil_rings_weaken; [| exact Hr]. cbv beta. intros r Hle.
      rewrite whole_ratio in Hle by lia. exact Hle.
    + intros Hc1.
      unfold Raster.range_down in Hl. rewrite length_map, length_range in Hl.
      pose proof (trunc_mono (chaos_factor * 3) 3 ltac:(lra) ltac:(lra)) as Ht.
      change (PyNum.trunc 3) with 3 in Ht. lia.
Qed.

End Concentric.

Lemma concentric_circles_alternate_witness :
  (0 <= 0.3)%Q /\
  returns (RS := Lcg.source)
    (Vector.draw_concentric_circles 100 200 80 "#FF6B6B" "#073B4C" 0.3)
    (fun els => exists f circles,
       (0.85 <= f /\ f <= 1)%Q /\
       els = Vector.Rect (inject_Z 100, inject_Z 200)
               (inject_Z 80, inject_Z 80) "#073B4C" :: circles /\
       rings "#FF6B6B" "#073B4C" (fun r => (r <= inject_Z 80 / 2 * f)%Q)
         circles /\
       ((0.3 <= 1)%Q -> (List.length circles <= 8)%nat)).
Proof.
  assert (H : (0 <= 0.3)%Q) by (unfold Qle; simpl; lia).
  split; [exact H |].
  exact (proj1 (concentric_circles_alternate (RS := Lcg.source)
                  (RSS := lcg_source_spec) 100 200 80
                  "#FF6B6B" "#073B4C" (255, 107, 107, 200) (7, 59, 76, 255)
                  0.3 H)).
Defined.

(* ===================================================================== *)
(** * The list of block styles *)
(* ===================================================================== *)

Lemma in_style_names_In (name : string) :
  Raster.in_style_names name = true <-> In name ALL_POSSIBLE_STYLE_NAMES.
Proof.
  unfold Raster.in_style_names. rewrite existsb_exists. split.
  - intros (x & Hx & E). apply String.eqb_eq in E. subst. exact Hx.
  - intros H. exists name. split; [exact H | apply String.eqb_refl].
Qed.

Lemma known_name_has_style (name : string) :
  In name ALL_POSSIBLE_STYLE_NAMES -> exists f, style_of_name name = Some f.
Proof.
  intros H. unfold ALL_POSSIBLE_STYLE_NAMES in H. simpl in H.
  repeat (destruct H as [<- | H]; [eexists; reflexivity |]). contradiction.
Qed.

Lemma styles_of_known_names (names : list string) :
  Forall (fun name => In name ALL_POSSIBLE_STYLE_NAMES) names ->
  map Some (flat_map (fun name => match style_of_name name with
                                  | Some f => [f]
                                  | None => []
                                  end) names)
  = map style_of_name names.
Proof.
  induction 1 as [| name names Hn _ IH]; [reflexivity |].
  cbn [flat_map map]. destruct (known_name_has_style name Hn) as (f & ->).
  cbn [app map]. rewrite IH. reflexivity.
Qed.

(** X17.  Whatever string is passed as [block_styles_str], the list of
    style names the raster generator works with is not empty and holds
    only names of [ALL_POSSIBLE_STYLE_NAMES]; the styles it chooses among
    are the functions of these names, one per name and in the order of
    the names, so that a name written twice is chosen twice as often. *)
Theorem block_styles_sanitised (block_styles_str : string) :
  Raster.parse_block_styles block_styles_str <> [] /\
  Forall (fun name => In name ALL_POSSIBLE_STYLE_NAMES)
         (Raster.parse_block_styles block_styles_str) /\
  map Some (active_styles (Raster.parse_block_styles block_styles_str))
  = map style_of_name (Raster.parse_block_styles block_styles_str).
Proof.
  assert (Hall : Forall (fun name => In name ALL_POSSIBLE_STYLE_NAMES)
                   ALL_POSSIBLE_STYLE_NAMES)
    by (apply Forall_forall; auto).
  assert (Hknown : Forall (fun name => In name ALL_POSSIBLE_STYLE_NAMES)
                     (Raster.parse_block_styles block_styles_str)).
  { unfold Raster.parse_block_styles. cbv zeta.
    destruct (_ && _); [| exact Hall].
    destruct (filter _ _) as [| n l] eqn:E; [exact Hall |].
    rewrite <- E. apply Forall_forall. intros name Hin.
    apply filter_In in Hin. apply in_style_names_In. apply Hin. }
  assert (Hne : Raster.parse_block_styles block_styles_str <> []).
  { unfold Raster.parse_block_styles. cbv zeta.
    destruct (_ && _); [| discriminate].
    destruct (filter _ _); discriminate. }
  split; [exact Hne |]. split; [exact Hknown |].
  pose proof (styles_of_known_names _ Hknown) as Hs.
  unfold active_styles. cbv zeta.
  destruct (flat_map _ _) as [| f fs] eqn:E; [| exact Hs].
  destruct (Raster.parse_block_styles block_styles_str);
    [contradiction | discriminate Hs].
Qed.

Lemma rev_string_involutive (s acc acc' : string) :
  PyStr.rev_string (PyStr.rev_string s acc) acc'
  = PyStr.rev_string acc (append s acc').
Proof.
  revert acc acc'. induction s as [| c s IH]; intros acc acc'; simpl;
    [reflexivity |].
  rewrite IH. reflexivity.
Qed.

Lemma append_nil_r (s : string) : append s EmptyString = s.
Proof. induction s as [| c s IH]; simpl; [| rewrite IH]; reflexivity. Qed.

Lemma split_comma_aux_piece (piece rest cur : string) :
  comma_free piece = true ->
  PyStr.split_comma_aux (append piece rest) cur
  = PyStr.split_comma_aux rest (PyStr.rev_string piece cur).
Proof.
  revert cur. induction piece as [| c piece IH]; intros cur H; simpl in *;
    [reflexivity |].
  apply andb_prop in H. destruct H as [Hc H]. apply negb_true_iff in Hc.
  rewrite Hc. apply IH. exact H.
Qed.

Lemma split_comma_join (pieces : list string) :
  pieces <> [] -> Forall (fun piece => comma_free piece = true) pieces ->
  PyStr.split_comma (join_comma pieces) = pieces.
Proof.
  intros Hne H. unfold PyStr.split_comma.
  induction H as [| piece pieces Hp Hps IH]; [contradiction |].
  destruct pieces as [| piece' pieces].
  - cbn [join_comma]. rewrite <- (append_nil_r piece) at 1.
    rewrite split_comma_aux_piece by exact Hp. cbn [PyStr.split_comma_aux].
    rewrite rev_string_involutive. simpl. rewrite append_nil_r. reflexivity.
  - change (join_comma (piece :: piece' :: pieces))
      with (append piece (String "," (join_comma (piece' :: pieces)))).
    rewrite split_comma_aux_piece by exact Hp. cbn [PyStr.split_comma_aux].
    change (Ascii.eqb "," ",") with true. cbv iota.
    rewrite rev_string_involutive. simpl PyStr.rev_string at 1.
    rewrite append_nil_r. f_equal. apply IH. discriminate.
Qed.

Lemma known_name_plain (name : string) :
  In name ALL_POSSIBLE_STYLE_NAMES ->
  comma_free name = true /\ PyStr.strip name = name /\
  exists c rest, name = String c rest /\ PyStr.is_space c = false.
Proof.
  intros H. unfold ALL_POSSIBLE_STYLE_NAMES in H. simpl in H.
  repeat (destruct H as [<- | H];
          [split; [reflexivity |]; split; [reflexivity |];
           eexists _, _; split; reflexivity |]).
  contradiction.
Qed.

Lemma rev_string_empty (s acc : string) :
  PyStr.rev_string s acc = EmptyString -> s = EmptyString /\ acc = EmptyString.
Proof.
  revert acc. induction s as [| c s IH]; intros acc H; simpl in H; [auto |].
  apply IH in H. destruct H as [_ H]. discriminate H.
Qed.

Lemma lstrip_empty (s : string) :
  PyStr.lstrip_with PyStr.is_space s = EmptyString -> all_space s = true.
Proof.
  induction s as [| c s IH]; simpl; [reflexivity |].
  destruct (PyStr.is_space c); [exact IH | discriminate].
Qed.

Lemma all_space_rev (s acc : string) :
  all_space (PyStr.rev_string s acc) = true -> all_space acc = true.
Proof.
  revert acc. induction s as [| c s IH]; intros acc H; simpl in H; [exact H |].
  apply IH in H. simpl in H. apply andb_prop in H. apply H.
Qed.

Lemma strip_not_empty (c : ascii) (rest : string) :
  PyStr.is_space c = false -> PyStr.strip (String c rest) <> EmptyString.
Proof.
  intros Hc E. unfold PyStr.strip, PyStr.strip_with in E.
  apply rev_string_empty in E. destruct E as [E _].
  apply lstrip_empty in E. simpl PyStr.lstrip_with in E. rewrite Hc in E.
  simpl in E. apply all_space_rev in E. simpl in E. rewrite Hc in E.
  discriminate E.
Qed.

(** X18.  A list of known style names written with commas between them,
    as the default of the node input [block_styles] is, reads back as
    the same list: the same names, in the same order, as often as they
    were written. *)
Theorem style_names_round_trip (names : list string) :
  names <> [] ->
  Forall (fun name => In name ALL_POSSIBLE_STYLE_NAMES) names ->
  Raster.parse_block_styles (join_comma names) = names.
Proof.
  intros Hne Hknown.
  assert (Hfree : Forall (fun piece => comma_free piece = true) names).
  { eapply Forall_impl; [| exact Hknown]. intros n Hn.
    apply (known_name_plain n Hn). }
  assert (Hstrip : map PyStr.strip names = names).
  { clear Hne Hfree. induction Hknown as [| n ns Hn _ IH]; [reflexivity |].
    simpl. rewrite IH. f_equal. apply (known_name_plain n Hn). }
  assert (Hfilter : filter Raster.in_style_names names = names).
  { clear Hne Hfree Hstrip. induction Hknown as [| n ns Hn _ IH];
      [reflexivity |].
    simpl. rewrite (proj2 (in_style_names_In n) Hn), IH. reflexivity. }
  destruct names as [| n ns]; [contradiction |].
  assert (Hn : In n ALL_POSSIBLE_STYLE_NAMES)
    by (inversion Hknown; assumption).
  destruct (known_name_plain n Hn) as (_ & _ & c & rest & -> & Hc).
  assert (Hjoin : exists tail,
             join_comma (String c rest :: ns) = String c tail).
  { destruct ns; simpl; eexists; reflexivity. }
  destruct Hjoin as (tail & Hjoin).
  unfold Raster.parse_block_styles. cbv zeta.
  rewrite split_comma_join by assumption. rewrite Hstrip, Hfilter.
  rewrite Hjoin.
  destruct (negb (String.eqb (String c tail) "")
            && negb (String.eqb (PyStr.strip (String c tail)) "")) eqn:G;
    [reflexivity |].
  exfalso. apply andb_false_iff in G. destruct G as [G | G];
    apply negb_false_iff in G; apply String.eqb_eq in G.
  - discriminate G.
  - exact (strip_not_empty c tail Hc G).
Qed.

Lemma style_names_round_trip_witness :
  Raster.parse_block_styles all_styles_string = ALL_POSSIBLE_STYLE_NAMES.
Proof.
  apply (style_names_round_trip ALL_POSSIBLE_STYLE_NAMES).
  - discriminate.
  - apply Forall_forall. auto.
Defined.

(* ===================================================================== *)
(** * The two colours of a cell, for the built-in palettes *)
(* ===================================================================== *)

Lemma raster_store_colours_differ :
  forallb colours_differ Raster.DEFAULT_PALETTES_DATA = true.
Proof. vm_compute. reflexivity. Qed.

Lemma vector_store_colours_differ :
  forallb colours_differ Vector.DEFAULT_PALETTES_DATA = true.
Proof. vm_compute. reflexivity. Qed.

Lemma colours_differ_spec (p : palette) :
  colours_differ p = true ->
  (exists s t, In s (valid_colors p) /\ In t (valid_colors p) /\ s <> t) /\
  (forall s t, In s (valid_colors p) -> In t (valid_colors p) -> s <> t ->
               rgb_differ s t = true).
Proof.
  unfold colours_differ. cbv zeta. intros H. apply andb_prop in H.
  destruct H as [He Hf]. split.
  - apply existsb_exists in He. destruct He as (s & Hs & He).
    apply existsb_exists in He. destruct He as (t & Ht & He).
    exists s, t. repeat split; try assumption.
    intros ->. rewrite String.eqb_refl in He. discriminate He.
  - intros s t Hs Ht Hne. rewrite forallb_forall in Hf.
    specialize (Hf s Hs). rewrite forallb_forall in Hf. specialize (Hf t Ht).
    apply orb_prop in Hf. destruct Hf as [Hf | Hf]; [| exact Hf].
    apply String.eqb_eq in Hf. contradiction.
Qed.

Lemma rgb_differ_parsed (s t : string) (a b : Z) (x y : rgba) :
  rgb_differ s t = true ->
  hex_to_rgba (Str s) a = Ok x -> hex_to_rgba (Str t) b = Ok y ->
  rgb_of x <> rgb_of y.
Proof.
  destruct x as [[[r1 g1] b1] a1], y as [[[r2 g2] b2] a2].
  intros H Hx Hy. unfold rgb_differ in H.
  rewrite (hex_to_rgba_alpha _ _ 255 _ _ _ _ Hx) in H.
  rewrite (hex_to_rgba_alpha _ _ 255 _ _ _ _ Hy) in H.
  apply negb_true_iff in H. simpl. intros [= -> -> ->].
  rewrite !Z.eqb_refl in H. discriminate H.
Qed.

Section BuiltInPalettes.

Context {RS : RandomSource} {RSS : RandomSourceSpec RS} {ML : MathLib}.

(** X19.  With any of the 68 palettes of the raster generator the
    foreground and the background of a cell differ in at least one of
    red, green and blue, whatever the random draws; with any of the four
    palettes of the vector generator the two colours of a cell are
    different strings that read as different colours. *)
Theorem built_in_palettes_give_two_colours (p : palette) (chaos_factor : Q) :
  (In p Raster.DEFAULT_PALETTES_DATA ->
   returns (Raster.pil_get_two_colors p chaos_factor)
     (fun cs => rgb_of (Raster.foreground cs)
                <> rgb_of (Raster.background cs))) /\
  (In p Vector.DEFAULT_PALETTES_DATA ->
   returns (Vector.get_two_colors p)
     (fun cs => Vector.foreground cs <> Vector.background cs /\
                rgb_differ (Vector.foreground cs) (Vector.background cs)
                = true)).
Proof.
  split; intros Hin.
  - pose proof (store_palette_checked p Hin) as Hw.
    unfold palette_well_formed in Hw.
    repeat (apply andb_prop in Hw; destruct Hw as [Hw ?]).
    pose proof raster_store_colours_differ as Hd.
    rewrite forallb_forall in Hd. specialize (Hd p Hin).
    apply colours_differ_spec in Hd. destruct Hd as [(s & t & Hs & Ht & Hst) Hd].
    assert (Hparse : forall u, In u (valid_colors p) -> parses u).
    { intros u Hu. apply parses_of_ok with (a := 255).
      match goal with
      | Hok : forallb (fun c => is_ok (hex_to_rgba c 255)) p = true |- _ =>
          rewrite forallb_forall in Hok; apply Hok
      end.
      apply valid_colors_in. exact Hu. }
    eapply returns_weaken; [apply returns_pil_get_two_colors; exact Hparse |].
    intros cs Hcs. cbv beta in Hcs.
    destruct Hcs as (fg_hex & bg_hex & alpha & Hfg & Hbg & Pf & Pb & Hsame).
    { intros E. rewrite E in Hs. contradiction. }
    apply (rgb_differ_parsed fg_hex bg_hex alpha 255); try assumption.
    apply Hd; try assumption. intros E.
    pose proof (proj1 Hsame E) as E'.
    apply Hst. rewrite (E' s Hs), (E' t Ht). reflexivity.
  - pose proof vector_store_colours_differ as Hd.
    rewrite forallb_forall in Hd. specialize (Hd p Hin).
    apply colours_differ_spec in Hd. destruct Hd as [(s & t & Hs & Ht & Hst) Hd].
    eapply returns_weaken; [apply returns_get_two_colors |].
    intros cs Hcs. cbv beta in Hcs. unfold vector_pair_from in Hcs.
    destruct (valid_colors p) as [| v1 [| v2 rest]] eqn:Ev.
    + contradiction.
    + exfalso. apply Hst. destruct Hs as [<- | []], Ht as [<- | []]. reflexivity.
    + destruct Hcs as (Hfg & Hbg & Hsame).
      assert (Hne : Vector.foreground cs <> Vector.background cs).
      { intros E. pose proof (proj1 Hsame E) as E'. apply Hst.
        rewrite (E' s Hs), (E' t Ht). reflexivity. }
      split; [exact Hne |]. apply Hd; assumption.
Qed.

End BuiltInPalettes.

Lemma built_in_palettes_give_two_colours_witness :
  In (map Str ["#000000"; "#808080"; "#808080"]%string)
     Raster.DEFAULT_PALETTES_DATA /\
  returns (RS := Lcg.source)
    (Raster.pil_get_two_colors
       (map Str ["#000000"; "#808080"; "#808080"]%string) 0.3)
    (fun cs => rgb_of (Raster.foreground cs) <> rgb_of (Raster.background cs)).
Proof.
  assert (H : In (map Str ["#000000"; "#808080"; "#808080"]%string)
                 Raster.DEFAULT_PALETTES_DATA).
  { do 4 right. left. reflexivity. }
  split; [exact H |].
  exact (proj1 (built_in_palettes_give_two_colours (RS := Lcg.source)
                  (RSS := lcg_source_spec) _ 0.3) H).
Defined.

(* ===================================================================== *)
(** * The background of the raster image *)
(* ===================================================================== *)

Lemma trunc_tenth (m : Z) : PyNum.trunc (inject_Z m * 0.1)%Q = Z.quot m 10.
Proof.
  unfold PyNum.trunc. simpl. rewrite Z.mul_1_r. reflexivity.
Qed.

Lemma inset_value (m : Z) :
  Z.max 10 (PyNum.trunc (inject_Z m * 0.1)%Q) = Z.max 10 (m / 10).
Proof.
  rewrite trunc_tenth. destruct (Z.le_gt_cases 0 m) as [H | H].
  - rewrite Z.quot_div_nonneg by lia. reflexivity.
  - assert (Z.quot m 10 <= 0) by (apply Z.quot_le_upper_bound; lia).
    assert (m / 10 <= 0) by (apply Z.div_le_upper_bound; lia).
    lia.
Qed.

(** X20.  The background of the raster image is the outer colour over
    the whole image and, exactly when both sides of the image are longer
    than 20 pixels, the inner colour on a rectangle inset from every edge
    by a tenth of the shorter side, rounded down, and by 10 pixels at
    least.  That rectangle is not empty and lies inside the image. *)
Theorem inner_background_threshold (img_width img_height : Z)
    (bg : Raster.bg_colors) :
  exists inset,
    inset = Z.max 10 (Z.min img_width img_height / 10) /\
    Raster.draw_background img_width img_height bg
    = Raster.rectangle 0 0 (inject_Z img_width) (inject_Z img_height)
        (Raster.bg_outer bg)
      :: (if (20 <? img_width) && (20 <? img_height)
          then [Raster.rectangle (inject_Z inset) (inject_Z inset)
                  (inject_Z (img_width - inset))
                  (inject_Z (img_height - inset)) (Raster.bg_inner bg)]
          else []) /\
    ((20 <? img_width) && (20 <? img_height) = true ->
     10 <= inset /\ inset < img_width - inset /\ inset < img_height - inset).
Proof.
  exists (Z.max 10 (Z.min img_width img_height / 10)).
  split; [reflexivity |].
  assert (Hcond : forall inset,
             inset = Z.max 10 (Z.min img_width img_height / 10) ->
             (2 * inset <? img_width) && (2 * inset <? img_height)
             = (20 <? img_width) && (20 <? img_height)).
  { intros inset ->.
    assert (Hd : Z.min img_width img_height / 10 * 10
                 <= Z.min img_width img_height).
    { pose proof (Z.mul_div_le (Z.min img_width img_height) 10 ltac:(lia)).
      lia. }
    destruct (Z.ltb_spec 20 img_width), (Z.ltb_spec 20 img_height);
      cbn [andb]; try (apply andb_false_iff; rewrite !Z.ltb_ge; lia).
    apply andb_true_iff. rewrite !Z.ltb_lt. lia. }
  split.
  - unfold Raster.draw_background. cbv zeta. rewrite inset_value.
    rewrite (Hcond _ eq_refl). reflexivity.
  - intros H. rewrite <- (Hcond _ eq_refl) in H.
    apply andb_prop in H. destruct H as [H1 H2].
    apply Z.ltb_lt in H1, H2. lia.
Qed.

(* ===================================================================== *)
(** * The parameters read from the window *)
(* ===================================================================== *)

Lemma int10_raises (s : string) (e : exn) :
  PyStr.int10 s = Raise e -> e = ValueError.
Proof.
  unfold PyStr.int10. destruct (PyStr.strip_sign _) as [neg body].
  destruct (PyStr.digits _ _ _ _ _); [discriminate | intros [= <-]; reflexivity].
Qed.

Lemma read_seed_spec (w w' : Window.widgets) (seed : Vector.seed_param)
    (shown : list Window.dialog) :
  Window.read_seed w = Ok (seed, w', shown) ->
  (seed = Vector.seed_none \/ exists n, seed = Vector.seed_int_value n) /\
  Window.read_seed w' = Ok (seed, w', []) /\
  Window.style_checkboxes w' = Window.style_checkboxes w /\
  Window.current_palette_list w' = Window.current_palette_list w /\
  Window.palette_index_spin w' = Window.palette_index_spin w /\
  Window.big_block_size_combo w' = Window.big_block_size_combo w /\
  Window.chaos_factor_spin w' = Window.chaos_factor_spin w.
Proof.
  unfold Window.read_seed. cbv zeta.
  destruct (negb _) eqn:E.
  - destruct (PyStr.int10 _) as [n | e] eqn:En.
    + intros [= <- <- <-]. rewrite E, En. split; [right; eauto |].
      repeat split.
    + rewrite (int10_raises _ _ En). intros [= <- <- <-].
      split; [left; reflexivity |]. repeat split.
  - intros [= <- <- <-]. rewrite E. split; [left; reflexivity |].
    repeat split.
Qed.

Lemma checked_styles_check_all (w : Window.widgets) :
  Window.checked_styles (Window.check_all w)
  = map fst (Window.style_checkboxes w).
Proof.
  unfold Window.checked_styles, Window.check_all. simpl.
  induction (Window.style_checkboxes w) as [| [name b] l IH]; simpl;
    [reflexivity | rewrite IH; reflexivity].
Qed.

Lemma getitem_in_range {A} (l : list A) (i : Z) :
  0 <= i < Z.of_nat (List.length l) ->
  exists a, Vector.getitem l i = Ok a /\ In a l.
Proof.
  intros H. unfold Vector.getitem, index.
  destruct (Z.ltb_spec i 0); [lia |].
  destruct (nth_error l (Z.to_nat i)) as [a |] eqn:E.
  - exists a. split; [reflexivity | eapply nth_error_In; exact E].
  - apply nth_error_None in E. lia.
Qed.

Section WindowParameters.

Context {RS : RandomSource} {RSS : RandomSourceSpec RS} {ML : MathLib}.

Lemma generate_art_svg_string_some (p : Vector.params) (fresh : gen) :
  Vector.current_palette_list p <> [] ->
  ensures (Vector.generate_art_svg_string p fresh) (fun r => r <> None).
Proof.
  intros Hne. unfold Vector.generate_art_svg_string. cbv zeta.
  eapply ensures_bind; [apply ensures_any |]. intros _ _.
  destruct (Vector.current_palette_list p) as [| p0 ps]; [contradiction |].
  eapply ensures_bind; [apply ensures_any |]. intros sel _.
  eapply ensures_bind; [apply ensures_any |]. intros bg _.
  eapply ensures_bind; [apply ensures_any |]. intros n _.
  eapply ensures_bind; [apply ensures_any |]. intros cells _.
  eapply ensures_bind; [apply ensures_any |]. intros big _.
  apply ensures_ret. discriminate.
Qed.

(** X21.  The parameters [get_generation_parameters] returns are fit
    for [generate_art_svg_string]: the palette index selects a palette of
    the list; the list of styles is not empty, being the checked names or,
    when none is checked, all names; the seed is [None] or an integer, so
    the seed handling prints no warning; and the generator never returns
    [None] on them.  With a chaos factor that is not negative and a
    palette the background derivation returns on, it returns a drawing. *)
Theorem window_parameters_fit (w w' : Window.widgets) (p : Vector.params)
    (shown : list Window.dialog) :
  Window.get_generation_parameters w = Ok (Some p, w', shown) ->
  exists sel,
    Vector.getitem (Vector.current_palette_list p) (Vector.palette_index p)
    = Ok sel /\
    In sel (Vector.current_palette_list p) /\
    0 <= Vector.palette_index p
      < Z.of_nat (List.length (Vector.current_palette_list p)) /\
    Vector.block_styles p <> [] /\
    (Vector.block_styles p = Window.checked_styles w \/
     Window.checked_styles w = [] /\
     Vector.block_styles p = ALL_POSSIBLE_STYLE_NAMES) /\
    (exists call, Vector.seed_handling (Vector.seed_value p) = Ok (call, [])) /\
    (forall fresh g r g' out,
       Vector.generate_art_svg_string p fresh g = Ok (r, g', out) ->
       r <> None) /\
    ((0 <= Window.chaos_factor_spin w)%Q -> background_returns sel = true ->
     forall fresh g, exists d g' out,
       Vector.generate_art_svg_string p fresh g = Ok (Some d, g', out)).
Proof.
  unfold Window.get_generation_parameters.
  set (first := match Window.checked_styles w with
                | [] => (ALL_POSSIBLE_STYLE_NAMES, Window.check_all w,
                         [Window.NoStylesSelected])
                | selected => (selected, w, [])
                end).
  assert (Hfirst : (fst (fst first) <> [] /\
                    (fst (fst first) = Window.checked_styles w \/
                     Window.checked_styles w = [] /\
                     fst (fst first) = ALL_POSSIBLE_STYLE_NAMES)) /\
                   Window.current_palette_list (snd (fst first))
                   = Window.current_palette_list w /\
                   Window.chaos_factor_spin (snd (fst first))
                   = Window.chaos_factor_spin w).
  { unfold first. destruct (Window.checked_styles w) as [| n l];
      simpl; repeat split; try discriminate; auto. }
  destruct first as [[selected_styles w1] shown1].
  cbn [fst snd] in Hfirst. destruct Hfirst as ((Hne & Hsel) & Hpal & Hchaos).
  destruct (Window.current_palette_list w1) as [palettes |];
    [| discriminate].
  destruct palettes as [| p0 ps]; [discriminate |].
  destruct (negb _) eqn:Eidx; [discriminate |].
  apply negb_false_iff in Eidx. apply andb_prop in Eidx.
  destruct Eidx as [Hlo Hhi]. apply Z.leb_le in Hlo. apply Z.ltb_lt in Hhi.
  destruct (Window.read_seed w1) as [[[seed w2] shown2] | e] eqn:Eseed;
    [| discriminate].
  cbn [rbind].
  destruct (PyStr.int10 _) as [size | e]; [| discriminate]. cbn [rbind].
  intros [= <- <- <-].
  destruct (read_seed_spec _ _ _ _ Eseed)
    as (Hseed & _ & _ & _ & Hidx & _ & Hc).
  cbn [Vector.current_palette_list Vector.palette_index Vector.block_styles
       Vector.seed_value].
  destruct (getitem_in_range (p0 :: ps) (Window.palette_index_spin w1)
              (conj Hlo Hhi)) as (sel & Hget & Hin).
  exists sel. split; [exact Hget |]. split; [exact Hin |].
  split; [split; assumption |]. split; [exact Hne |]. split; [exact Hsel |].
  split.
  { destruct Hseed as [-> | [n ->]]; eexists; reflexivity. }
  split.
  { intros fresh g r g' out E.
    eapply (generate_art_svg_string_some _ fresh); [| exact E].
    discriminate. }
  intros Hc0 Hbg fresh g.
  apply succeeds_generate_art_svg_string with (sel := sel).
  - cbn [Vector.chaos_factor]. rewrite Hc, Hchaos. exact Hc0.
  - cbn [Vector.current_palette_list Vector.palette_index]. exact Hget.
  - exact Hbg.
Qed.

End WindowParameters.

(** X22.  Once [get_generation_parameters] has returned parameters, a
    second call on the widgets it leaves returns the same parameters,
    leaves the widgets as they are and shows no message box: the boxes it
    checked stay checked and the seed it cleared stays empty. *)
Theorem window_parameters_settle (w w' : Window.widgets) (p : Vector.params)
    (shown : list Window.dialog) :
  map fst (Window.style_checkboxes w) = ALL_POSSIBLE_STYLE_NAMES ->
  Window.get_generation_parameters w = Ok (Some p, w', shown) ->
  Window.get_generation_parameters w' = Ok (Some p, w', []).
Proof.
  intros Hnames. unfold Window.get_generation_parameters at 1.
  set (first := match Window.checked_styles w with
                | [] => (ALL_POSSIBLE_STYLE_NAMES, Window.check_all w,
                         [Window.NoStylesSelected])
                | selected => (selected, w, [])
                end).
  assert (Hfirst : Window.checked_styles (snd (fst first)) = fst (fst first)
                   /\ fst (fst first) <> []).
  { unfold first. destruct (Window.checked_styles w) as [| n l] eqn:E;
      cbn [fst snd].
    - rewrite checked_styles_check_all, Hnames. split; [reflexivity | discriminate].
    - split; [exact E | discriminate]. }
  destruct first as [[selected_styles w1] shown1]. cbn [fst snd] in Hfirst.
  destruct Hfirst as [Hchecked Hne].
  destruct (Window.current_palette_list w1) as [palettes |] eqn:Epal;
    [| discriminate].
  destruct palettes as [| p0 ps]; [discriminate |].
  destruct (negb _) eqn:Eidx; [discriminate |].
  destruct (Window.read_seed w1) as [[[seed w2] shown2] | e] eqn:Eseed;
    [| discriminate].
  cbn [rbind].
  destruct (PyStr.int10 _) as [size | e] eqn:Esize; [| discriminate].
  cbn [rbind]. intros [= <- <- <-].
  destruct (read_seed_spec _ _ _ _ Eseed)
    as (_ & Hagain & Hboxes & Hpal & Hidx & Hcombo & _).
  unfold Window.get_generation_parameters.
  assert (Hchecked2 : Window.checked_styles w2 = selected_styles).
  { unfold Window.checked_styles. rewrite Hboxes. exact Hchecked. }
  rewrite Hchecked2.
  destruct selected_styles as [| n l]; [contradiction |].
  rewrite Hpal, Epal, Hidx, Eidx, Hagain. cbn [rbind].
  rewrite Esize. cbn [rbind]. reflexivity.
Qed.

Lemma window_parameters_fit_witness :
  exists p sel,
    Window.get_generation_parameters (Window.initial_widgets 5 6)
    = Ok (Some p, Window.initial_widgets 5 6, []) /\
    Vector.getitem (Vector.current_palette_list p) (Vector.palette_index p)
    = Ok sel /\
    Vector.block_styles p = ALL_POSSIBLE_STYLE_NAMES /\
    exists d g' out,
      Vector.generate_art_svg_string (RS := Lcg.source) (ML := Lcg.math) p
        (Lcg.state 7) (Lcg.state 0) = Ok (Some d, g', out).
Proof.
  eexists. 
  assert (E : Window.get_generation_parameters (Window.initial_widgets 5 6)
              = Ok (Some {| Vector.seed_value := Vector.seed_none;
                            Vector.cols := 6; Vector.rows := 5;
                            Vector.square_size := 100;
                            Vector.current_palette_list :=
                              Vector.DEFAULT_PALETTES_DATA;
                            Vector.palette_index := 0;
                            Vector.block_styles := ALL_POSSIBLE_STYLE_NAMES;
                            Vector.chaos_factor := 0.3;
                            Vector.big_block_enabled := true;
                            Vector.big_block_size := 2 |},
                    Window.initial_widgets 5 6, []))
    by reflexivity.
  destruct (window_parameters_fit (RS := Lcg.source) (RSS := lcg_source_spec)
              (ML := Lcg.math) _ _ _ _ E)
    as (sel & Hget & _ & _ & _ & _ & _ & _ & Hgen).
  exists sel. split; [exact E |]. split; [exact Hget |].
  split; [reflexivity |].
  apply Hgen.
  - unfold Qle. simpl. lia.
  - cbn in Hget. injection Hget as <-. vm_compute. reflexivity.
Defined.

Lemma window_parameters_settle_witness :
  exists p w',
    Window.get_generation_parameters Window.neglected_widgets
    = Ok (Some p, w', [Window.NoStylesSelected; Window.InvalidSeed]) /\
    Vector.block_styles p = ALL_POSSIBLE_STYLE_NAMES /\
    Vector.seed_value p = Vector.seed_none /\
    Window.style_checkboxes w'
    = map (fun name => (name, true)) ALL_POSSIBLE_STYLE_NAMES /\
    Window.seed_edit w' = EmptyString /\
    w' <> Window.neglected_widgets /\
    Window.get_generation_parameters w' = Ok (Some p, w', []).
Proof.
  eexists _, _. split; [reflexivity |].
  split; [reflexivity |]. split; [reflexivity |]. split; [reflexivity |].
  split; [reflexivity |]. split; [discriminate |].
  apply (window_parameters_settle Window.neglected_widgets _ _
           [Window.NoStylesSelected; Window.InvalidSeed]).
  - reflexivity.
  - reflexivity.
Defined.

(* ===================================================================== *)
(** * The palette names of the node *)
(* ===================================================================== *)

Lemma palette_names_checked :
  forallb (fun i =>
             match nth_error Node.palette_names i,
                   nth_error Raster.DEFAULT_PALETTES_DATA i with
             | Some name, Some p =>
                 match Node.list_index Node.palette_names name,
                       Raster.select_palette (Z.of_nat i) with
                 | Ok j, Ok q =>
                     (j =? Z.of_nat i)
                     && forallb (fun '(a, b) =>
                                   match a, b with
                                   | Str s, Str t => String.eqb s t
                                   | _, _ => false
                                   end) (combine p q)
                     && (List.length p =? List.length q)%nat
                 | _, _ => false
                 end
             | _, _ => false
             end)
          (seq 0 (List.length Node.palette_names)) = true.
Proof. vm_compute. reflexivity. Qed.

Lemma palette_eqb_eq (p q : palette) :
  forallb (fun '(a, b) => match a, b with
                          | Str s, Str t => String.eqb s t
                          | _, _ => false
                          end) (combine p q) = true ->
  List.length p = List.length q -> p = q.
Proof.
  revert q. induction p as [| a p IH]; intros [| b q]; simpl;
    try discriminate; [reflexivity |].
  intros H Hl. apply andb_prop in H. destruct H as [Hab H].
  destruct a as [s |], b as [t |]; try discriminate.
  apply String.eqb_eq in Hab. subst. f_equal. apply IH; [exact H | lia].
Qed.

Lemma list_index_not_in (l : list string) (x : string) :
  ~ In x l -> Node.list_index l x = Raise ValueError.
Proof.
  induction l as [| y l IH]; intros H; simpl; [reflexivity |].
  destruct (String.eqb_spec y x) as [-> | _].
  - exfalso. apply H. left. reflexivity.
  - rewrite IH; [reflexivity |]. intros Hin. apply H. right. exact Hin.
Qed.

Section NodePalette.

Context {RS : RandomSource} {ML : MathLib}.

(** X23.  The node offers one name per palette of the store, ["Palette
    1"] to ["Palette 68"], no two alike.  Given the name at position [i]
    it draws with the palette at position [i] of the store; given any
    other string it draws with the first palette. *)
Theorem node_palette_names (palette : string) (rows cols square_size : Z)
    (block_styles : string) (chaos_factor : Q) (seed : Z)
    (big_block_enabled : bool) (big_block_size num_big_blocks : Z)
    (fresh g : gen) :
  List.length Node.palette_names = List.length Raster.DEFAULT_PALETTES_DATA /\
  (forall i, nth_error Node.palette_names i = Some palette ->
     Node.list_index Node.palette_names palette = Ok (Z.of_nat i) /\
     (exists p, nth_error Raster.DEFAULT_PALETTES_DATA i = Some p /\
                Raster.select_palette (Z.of_nat i) = Ok p) /\
     Node.generate_art_pil rows cols square_size palette block_styles
       chaos_factor seed big_block_enabled big_block_size num_big_blocks
       fresh g
     = Raster.generate_art_image_pil rows cols square_size (Z.of_nat i)
         block_styles big_block_enabled big_block_size num_big_blocks
         chaos_factor (Some seed) fresh g) /\
  (~ In palette Node.palette_names ->
   Node.generate_art_pil rows cols square_size palette block_styles
     chaos_factor seed big_block_enabled big_block_size num_big_blocks
     fresh g
   = Raster.generate_art_image_pil rows cols square_size 0
       block_styles big_block_enabled big_block_size num_big_blocks
       chaos_factor (Some seed) fresh g).
Proof.
  split; [reflexivity |]. split.
  - intros i Hi.
    assert (Hlt : (i < List.length Node.palette_names)%nat)
      by (apply nth_error_Some; congruence).
    pose proof palette_names_checked as H. rewrite forallb_forall in H.
    specialize (H i ltac:(apply in_seq; lia)). cbv beta in H.
    rewrite Hi in H.
    destruct (nth_error Raster.DEFAULT_PALETTES_DATA i) as [p |] eqn:Ep;
      [| discriminate H].
    destruct (Node.list_index Node.palette_names palette) as [j |] eqn:Ej;
      [| discriminate H].
    destruct (Raster.select_palette (Z.of_nat i)) as [q |] eqn:Eq;
      [| discriminate H].
    apply andb_prop in H. destruct H as [H Hlen].
    apply andb_prop in H. destruct H as [Hj Hpq].
    apply Z.eqb_eq in Hj. apply Nat.eqb_eq in Hlen. subst j.
    apply palette_eqb_eq in Hpq; [| exact Hlen]. subst q.
    split; [reflexivity |]. split; [exists p; split; reflexivity |].
    unfold Node.generate_art_pil. rewrite Ej. reflexivity.
  - intros Hnot. unfold Node.generate_art_pil.
    rewrite (list_index_not_in _ _ Hnot). reflexivity.
Qed.

End NodePalette.

(* ===================================================================== *)
(** * Big blocks: skipped, or drawn inside the grid *)
(* ===================================================================== *)

Section BigBlocksDrawn.

Context {RS : RandomSource} {RSS : RandomSourceSpec RS} {ML : MathLib}.








End BigBlocksDrawn.

